(* ===== verification/_CoqProject ===== *)
-Q . S2P
Prelude.v
FrameCodec.v
Channel.v
ChannelLaws.v
ChannelThreads.v
PacketBuffer.v
Floats.v
Text.v
CoreObjects.v
Components.v
Ecs.v
Systems.v
Threads.v
ProtocolBase.v
ProtocolPlayer.v
ProtocolChat.v
ProtocolCombat.v
ProtocolMap.v
ProtocolGuild.v
ProtocolLaws.v
GameServer.v
GameServerLaws.v
GameServerProgress.v
GameServerHandlers.v
ServerConfig.v
DbConnection.v
Sql.v
MemDb.v
DbPoolLaws.v
PlayerDao.v
PlayerDaoLaws.v
SavedRows.v
JsonText.v
FailureSink.v
RedisClient.v
DbJobs.v
Relogin.v
AsioServer.v
Boot.v
Client.v
ClientLaws.v
Outbox.v
EndToEnd.v
EndToEndLaws.v
Conversation.v
Locks.v
LockOrder.v
Races.v
Lifecycle.v
Service.v
Program.v
