(* ===== verification/Prelude.v ===== *)
(** * Verification of the ECS/Asio game server

    The program is a C++ game server.  Clients connect over TCP; every channel
    cuts its byte stream into frames (length, command, flags, version, sequence,
    CRC-32, payload) and hands each frame to the game server, which looks up a
    handler by message id, parses the payload and works on the shared
    entity-component state, the guild tables and the other channels.  One thread
    per map and a main thread update the world next to the network threads.
    Logins and saves are jobs on database threads, which use a pool of MySQL
    connections, a log file for failed saves and a Redis cache.  A bot and two
    demo clients speak the protocol from the other side.

    ** Parts of the program and where they are modelled

    - [Prelude]: machine integers with their wrap-around, record update, list
      and byte-string lemmas, tactics.  No code of the program.
    - [FrameCodec], Module [frame_codec]: src/common/network/frame_codec.hpp:
      CRC-32 with its table, [pack], [try_parse_one] on a buffer with an offset.
    - [Channel], Module [asio_channel]: src/server/network/asio_channel.{hpp,cpp}.
      State: the atomics and queues of a channel.  Each completion handler and
      timer is one operation; what it asks of asio, the server and the frame
      callback is the list of [effect]s it returns.  [ChannelLaws] has the laws.
    - [ChannelThreads]: the send path of a channel and
      src/common/core/spin_lock.hpp on several threads, one access to shared
      data per step, under an arbitrary schedule.
    - [PacketBuffer]: src/common/core/packet_buffer.{hpp,cpp}.
    - [CoreObjects]: src/server/core/thread_group.{hpp,cpp} and
      src/server/game/objects/player.{hpp,cpp}.
    - [ProtocolBase], [ProtocolPlayer], [ProtocolChat], [ProtocolCombat],
      [ProtocolMap], [ProtocolGuild]: src/common/protocol/*.hpp, one Module per
      struct with [serialize] and [parse].  The classes [Message], [RoundTrip],
      [MemSafe] and [Exact] are the interface the server relies on; a parser
      returns a value, a refusal or [POob], a read outside of the payload.
      [ProtocolLaws] collects which messages satisfy which law.
    - [Floats]: binary32 and binary64 arithmetic (Stdlib's SpecFloat) as the
      code uses it, with the order lemmas that hold in the presence of NaN.
    - [Text]: [std::to_string], [std::stoll], [snprintf] with the conversions the
      code uses, C strings.
    - [Components]: src/server/game/components/*.hpp.
    - [Ecs]: src/server/game/ecs/: [EntityManager], [ComponentStore] and the
      component manager (class [ComponentType] is the typed store access),
      [SystemManager], [GameService], [MemoryPool].
    - [Systems]: src/server/game/systems/*.cpp: movement, combat, AI, maps.
    - [Threads]: src/server/game/threading/*: [MapThread], [MapThreadManager],
      [MainThreadManager].
    - [GameServer], Module [game_server]: src/server/game/game_server.{hpp,cpp},
      handlers/player_handlers.cpp, handlers/guild_handlers.cpp and
      src/common/network/message_dispatcher.hpp.  A handler is a computation on
      the server state that may also end in [Deadlock] (the lock [mtx_] is not
      recursive) or [Undefined] (a parser reads outside of the payload, a channel
      that is gone is used, or the ECS without [initialize]).  [run] interleaves accepts, channel completions,
      database answers, the flush timer and iterations of the map threads.
      [GameServerLaws], [GameServerProgress] and [GameServerHandlers] have the
      laws.
    - [ServerConfig]: src/server/core/server_config.{hpp,cpp}, from a JSON value.
    - [DbConnection], Module [db]: src/server/db/db_connection.{hpp,cpp},
      transaction.hpp and db_manager.{hpp,cpp}, over the class [MySQL] of the C
      client's functions; [MemDb] is an instance, a table in memory with scripted
      errors.  [DbPoolLaws] has the laws of the pool.
    - [Sql], Module [update_sql]: the syntax of an UPDATE statement and what it does
      to a row of the table of src/docker/mysql/init.sql; [MemDb] executes it.
    - [PlayerDao], Module [player_dao]: src/server/db/dao/player_dao.cpp;
      [PlayerDaoLaws] has its laws, [SavedRows] what its two updates mean as SQL and
      the rows they leave.
    - [FailureSink]: src/server/db/failure_sink.{hpp,cpp}.  [JsonText] is a reader
      of JSON documents (RFC 8259), the specification of what its lines say; no code
      of the program.
    - [RedisClient]: src/server/db/redis_client.{hpp,cpp}, over the class
      [HiRedis].
    - [DbJobs]: the bodies of the jobs that the server posts to the database
      strands, and the path from the job to the event it posts back.  [Relogin]
      puts a disconnect, its save and the next login of the player together.
    - [AsioServer]: src/server/network/asio_server.{hpp,cpp} and
      src/common/network/socket_option.hpp, and the acceptor and the game server
      together as one system: a channel that closes runs the server's [on_close] and
      then the close callback, which empties the other table.
    - [Boot]: src/server/main.cpp and the order of [game_server::init].
    - [Client]: src/client/*; [ClientLaws] has the laws.
    - [Outbox], [EndToEnd]: the composition.  Module [end_to_end] puts the server
      process, a bot per connection and the two byte streams of each into one
      transition system ([net_step]); reads and writes are cut anywhere.
      [Outbox] says what every handler adds to the queues of the channels;
      [EndToEndLaws] and [Conversation] have the theorems.
    - [Locks], [LockOrder]: a theory of threads that take and give back locks and
      use shared memory, and the lock operations and memory accesses of every
      function of the process, branch by branch (Module [lock_order]), with a table
      of what protects each location ([policy]); a join is modelled as a lock that
      the thread holds while it lives.  [Races] has the theorem about data races.
    - [Lifecycle], Module [lifecycle]: the [std::thread]s of
      src/server/game/threading/*.cpp, of [game_server] and of the [MapThread] in
      threaded_map_system.hpp from start to join, and the flush timer.
    - [Service]: the type-erased stores of component.hpp with their casts
      (Module [stores]), [clone] of every component, the remaining operations of
      [SystemManager], [GameService] and [ComponentPool].
    - [Program]: the [main] functions of the server and of the demo clients with
      their exit codes, src/common/core/platform_util.hpp, src/common/timing.hpp.

    ** What the theorems show

    - Frames: [pack] and [try_parse_one] are inverse at any place of a stream;
      the parser never reads outside of the buffer; the table-driven CRC is the
      polynomial division, and detects every burst of up to 32 bits.
    - Channel: the receive path refines a decoder of the whole stream, however
      the stream is cut into reads; with the buffer of [async_write] evaluated
      before its completion handler accepted bytes are written once and in order,
      and with the other order none is ever written; the queue is bounded and
      drains; a close is reported once; every sequence of callbacks completes.  Also
      what goes wrong: head-of-line blocking by a frame over 64 KiB, an idle timer
      that no traffic resets.
    - Concurrent sends: under every schedule the spin lock excludes, two writes
      never overlap, the stream keeps the order of acceptance (again for the one
      order of evaluation) and the queue its limit.  Two races are shown by schedules: the byte counter can drift up to
      the limit on an idle channel, and the wake-up of the writer can be lost.
    - Protocol: the messages of the running server round-trip, their parsers are
      memory safe and accept only encodings; which other parsers overread.
    - ECS and systems: fresh entity ids, update order, bounds kept by movement
      and maps, the AI's choice of target, health; and the components that
      survive their entity, the NaN position of two entities on one spot.
    - Threads: object counts agree with the tables; spawned monsters are on the
      map; tasks run lowest value first.
    - Server: no frame in a reachable state leads to undefined behaviour; a handler
      returns with the lock free when the queues have room, and blocks forever
      when a reply overflows one; the guild tables agree in every reachable
      state; the effect of login, chat, move, attack and of a session from login
      to save.
    - Persistence: a pooled connection has one user at a time and the pool serves
      as many jobs as it has connections; the DAO returns the row of the name,
      created if needed, retries exactly the retryable errors, and its texts fit
      their buffers; a save is either executed or recorded in the failure log,
      whose lines are JSON documents with the fields of the snapshot if it has
      finite positions and clean texts (and are not if it has a line feed in the
      name or a NaN); every job completes; Redis contexts are freed once.
      The texts of a save, read as SQL, are updates of the intended columns at the
      player's key, so on a database that executes them a player who logs in again
      is where it was, to four decimals, with the same map and hit points, but at
      level 1; a position that is not finite is refused and lands in the failure log.
    - Configuration and start-up: a written configuration is read back, and a
      started server has a connection for each of its database threads, or none at
      all for its only one when the pool has size 0.  The channel tables of the
      acceptor and of the game server agree in every reachable state.
    - Clients: the bot's receive loop is the channel's decoder, and its session
      reaches the server message by message, as long as its counter of moves does
      not overflow; how each program ends, including the
      joinable thread that makes the simple client abort when a write fails.
    - Composition: in every run of bots, network and server a bot gets and shows a
      beginning of what the server sent it, in order and without gaps, and the
      server handles a beginning of what the bot wrote.  With the buffer evaluated
      first, whatever was sent can be delivered by the connection alone, and a chat
      of one bot reaches everybody, with the number of its sender and its text; with
      the handler first no bot ever gets a frame.
    - Locks and threads: the lock order is acyclic, so under every schedule the
      server's threads neither deadlock nor run for ever, as long as no send under
      [mtx_] overflows; with an overflow the thread waits for itself.  In every order of starts and stops
      all threads are joined, and none is destroyed or restarted while joinable.
    - Data races: two threads can be about to use the same memory, one of them
      writing, for exactly the locations that the table calls unprotected: every
      table, queue and set of the server is free of races under every schedule; the
      positions and hit points, the object list and spawn timer of a map, the seed of
      the spawner and two things of the failure log are not, each by a schedule from
      the start of the maps on, with players that have logged in.
    - Stores and service: the unchecked casts always find a store of their type,
      and the erased stores answer like the typed ones the other files use; the
      service needs exactly one order of calls to dereference no null manager.

    ** Parameters, bounds and fuel

    - The order in which the compiler evaluates the two arguments of [async_write]
      in [do_write], which C++ leaves open and on which it depends whether the buffer
      is still there, is the class [ArgOrder].  The definitions take it as an
      argument; theorems hold for both orders, or say for which one.
    - The order in which a hash map is traversed ([HashOrder]), [std::sort]
      ([StdSort]) and [std::priority_queue] ([PriorityQueue]) are classes with the
      laws the standard gives; theorems hold for every instance, and
      [key_order], [insertion_sort] and [min_queue] run the examples.
    - [player_id_by_token] (Redis) and the virtual [update] of the registered
      systems are arguments of the server's definitions.
    - The MySQL client ([MySQL]), hiredis ([HiRedis]), the JSON text parser, the
      parser of IP addresses, the errors of [open], [bind] and [listen], the
      clock and the sign that [printf] gives a NaN ([NanSign]) are parameters;
      what a theorem needs of them is a named hypothesis with an instance
      ([working] and [updating] for the database).  How a FLOAT column holds a
      decimal text is [FloatColumn].
    - [parse_loop] has fuel [S (length acc)]: every round but the last consumes
      at least a header, so the fuel is enough ([channel_runs_complete]); total
      input below 2^61 bytes keeps [size_t] arithmetic from wrapping.  The task
      loops have the length of the queue as fuel; the queued tasks add none.
    - [net_run] has no fuel: a run is a list of events.  The composition assumes
      fewer than 2^31 - 1 connections (the ids are [int]) and names and texts of
      the bots of bounded length ([event_ok]).  Runs of the lock programs end
      after [work] steps, the number of their lock operations and accesses.
    - Guild ids are 32 bits wide: the guild invariant assumes fewer than
      2^32 - 1 frames.  An entity store keeps one value per id.

    ** Simplifications

    - Outside of [ChannelThreads] callbacks run on one io thread; a frame
      callback's sends happen after the channel's own step (they touch only the
      send side).  Outside of [LockOrder]
      a thread's loop iteration is atomic; for what [Races] shows to be unprotected
      this leaves out interleavings of single accesses.
    - Component stores that the code creates on first use are there, empty, from
      the beginning ([Service] shows that nothing can tell the difference).
      Logging is left out.
    - The network delivers every byte once and in order, as TCP does; a lost
      connection is a close of the channel.
    - In [LockOrder] only the lock operations and memory accesses of a function are
      kept, and the branches it takes are arguments; what it computes is in the
      other files.  Inside a critical section one access stands for all those to the
      memory its mutex guards; atomic variables cannot race and are left out, as are
      members that are written only before the threads start or after they are
      joined.  Nothing creates an NPC, so there are none.
    - [Sql] covers the one form of statement that the server sends as text; the
      prepared statements are the functions of [MySQL].

    ** Not modelled

    The stubs for a build without MySQL (which the build files never compile), log
    output, classes that are only declared ([ThreadedMapSystem],
    connection_interface.hpp, entity_manager.hpp), constants that nothing uses
    (message_ids.hpp, net_state.hpp, net_error.hpp), condition variables and sleeps,
    and the programs under tests/.  The rest of what the map leaves out is
    declarations, accessors and what the compiler generates. *)

From stdpp Require Export prelude list gmap fin_maps strings.
From Stdlib Require Export ZArith Lia.

#[global] Open Scope Z_scope.

#[export] Set Warnings "-clear-no-such-hyp".

(** ** Machine integers

    A [w]-bit unsigned value is a [Z] in [[0, 2^w)]; arithmetic that the C++
    code does at that width is followed by the matching wrap-around. *)

Definition u8 (z : Z) : Z := z mod 2 ^ 8.
Definition u16 (z : Z) : Z := z mod 2 ^ 16.
Definition u32 (z : Z) : Z := z mod 2 ^ 32.
Definition u64 (z : Z) : Z := z mod 2 ^ 64.
Definition i32 (z : Z) : Z := (z + 2 ^ 31) mod 2 ^ 32 - 2 ^ 31.
Definition i64 (z : Z) : Z := (z + 2 ^ 63) mod 2 ^ 64 - 2 ^ 63.

Definition is_u8 (z : Z) : Prop := 0 ≤ z < 2 ^ 8.
Definition is_u16 (z : Z) : Prop := 0 ≤ z < 2 ^ 16.
Definition is_u32 (z : Z) : Prop := 0 ≤ z < 2 ^ 32.
Definition is_u64 (z : Z) : Prop := 0 ≤ z < 2 ^ 64.
Definition is_i32 (z : Z) : Prop := - 2 ^ 31 ≤ z < 2 ^ 31.
Definition is_i64 (z : Z) : Prop := - 2 ^ 63 ≤ z < 2 ^ 63.

#[global] Arguments u8 : simpl never.
#[global] Arguments u16 : simpl never.
#[global] Arguments u32 : simpl never.
#[global] Arguments u64 : simpl never.
#[global] Arguments i32 : simpl never.
#[global] Arguments i64 : simpl never.
#[global] Arguments is_u8 : simpl never.
#[global] Arguments is_u16 : simpl never.
#[global] Arguments is_u32 : simpl never.
#[global] Arguments is_u64 : simpl never.
#[global] Arguments is_i32 : simpl never.
#[global] Arguments is_i64 : simpl never.

#[global] Instance is_u8_dec z : Decision (is_u8 z).
Proof. unfold is_u8. apply _. Defined.
#[global] Instance is_u16_dec z : Decision (is_u16 z).
Proof. unfold is_u16. apply _. Defined.
#[global] Instance is_u32_dec z : Decision (is_u32 z).
Proof. unfold is_u32. apply _. Defined.
#[global] Instance is_i32_dec z : Decision (is_i32 z).
Proof. unfold is_i32. apply _. Defined.
#[global] Instance is_i64_dec z : Decision (is_i64 z).
Proof. unfold is_i64. apply _. Defined.

Ltac int_unfold := unfold is_u8, is_u16, is_u32, is_u64, is_i32, is_i64,
  u8, u16, u32, u64, i32, i64 in *.

(** Range goals: unfold the widths, then linear arithmetic with division. *)
Ltac int_lia := int_unfold; Z.to_euclidean_division_equations; lia.

(** Case analysis on the first integer comparison of the goal. *)
Ltac case_cmp :=
  match goal with
  | |- context [?a <? ?b] => destruct (Z.ltb_spec a b)
  | |- context [?a <=? ?b] => destruct (Z.leb_spec a b)
  | |- context [?a =? ?b] => destruct (Z.eqb_spec a b)
  end.

(** Closed decidable goals, by evaluation. *)
Ltac by_decide :=
  match goal with |- ?P => apply (@bool_decide_unpack P _); vm_compute; exact I end.

Create HintDb ints.

Lemma u8_range z : is_u8 (u8 z).
Proof. apply Z.mod_pos_bound; lia. Qed.
Lemma u16_range z : is_u16 (u16 z).
Proof. apply Z.mod_pos_bound; lia. Qed.
Lemma u32_range z : is_u32 (u32 z).
Proof. apply Z.mod_pos_bound; lia. Qed.
Lemma u64_range z : is_u64 (u64 z).
Proof. apply Z.mod_pos_bound; lia. Qed.
Lemma u8_small z : is_u8 z → u8 z = z.
Proof. apply Z.mod_small. Qed.
Lemma u16_small z : is_u16 z → u16 z = z.
Proof. apply Z.mod_small. Qed.
Lemma u32_small z : is_u32 z → u32 z = z.
Proof. apply Z.mod_small. Qed.
Lemma u64_small z : is_u64 z → u64 z = z.
Proof. apply Z.mod_small. Qed.
Lemma i32_small z : is_i32 z → i32 z = z.
Proof. int_lia. Qed.
Lemma i32_range z : is_i32 (i32 z).
Proof. int_lia. Qed.

#[export] Hint Resolve u8_range u16_range u32_range u64_range i32_range : ints.

(** ** Bits *)

Lemma testbit_above a n k : 0 ≤ a < 2 ^ n → n ≤ k → Z.testbit a k = false.
Proof.
  intros Ha Hk. destruct (decide (a = 0)) as [->|]; [apply Z.bits_0|].
  apply Z.bits_above_log2; [lia|].
  enough (Z.log2 a < n) by lia. apply Z.log2_lt_pow2; lia.
Qed.

Lemma lxor_bound a b n : 0 ≤ n → 0 ≤ a < 2 ^ n → 0 ≤ b < 2 ^ n → 0 ≤ Z.lxor a b < 2 ^ n.
Proof.
  intros Hn Ha Hb. assert (0 ≤ Z.lxor a b) by (apply Z.lxor_nonneg; lia).
  split; [done|].
  destruct (decide (Z.lxor a b = 0)) as [->|]; [lia|].
  apply Z.log2_lt_pow2; [lia|].
  destruct (Z.lt_ge_cases (Z.log2 (Z.lxor a b)) n) as [|Hge]; [done|exfalso].
  assert (Z.testbit (Z.lxor a b) (Z.log2 (Z.lxor a b)) = true) as Hbit
    by (apply Z.bit_log2; lia).
  rewrite Z.lxor_spec, (testbit_above a n), (testbit_above b n) in Hbit by lia.
  done.
Qed.

Lemma lor_shiftl_add a b n :
  0 ≤ n → 0 ≤ a < 2 ^ n → Z.lor a (Z.shiftl b n) = a + b * 2 ^ n.
Proof.
  intros Hn Ha. rewrite <- Z.shiftl_mul_pow2 by done.
  assert (Z.land a (Z.shiftl b n) = 0) as Hdisj.
  { apply Z.bits_inj'. intros k Hk. rewrite Z.land_spec, Z.bits_0.
    destruct (Z.lt_ge_cases k n) as [Hlt|Hge].
    - rewrite Z.shiftl_spec_low by done. apply andb_false_r.
    - rewrite (testbit_above a n) by lia. done. }
  rewrite <- Z.lxor_lor by done. symmetry. by apply Z.add_nocarry_lxor.
Qed.

(** ** Bytes *)

(** A C++ [char] is its [uint8_t] value. *)
Definition byte_at (v k : Z) : Z := Z.land (Z.shiftr v (8 * k)) 0xFF.

Lemma byte_at_div v k : 0 ≤ k → byte_at v k = v / 2 ^ (8 * k) mod 256.
Proof.
  intros Hk. unfold byte_at. change 0xFF with (Z.ones 8).
  rewrite Z.land_ones, Z.shiftr_div_pow2 by lia. done.
Qed.

Lemma byte_at_range v k : is_u8 (byte_at v k).
Proof.
  unfold byte_at, is_u8. change 0xFF with (Z.ones 8).
  rewrite Z.land_ones by lia. apply Z.mod_pos_bound. lia.
Qed.
#[export] Hint Resolve byte_at_range : ints.

(** [b0 | b1 << 8] and [b0 | b1 << 8 | b2 << 16 | b3 << 24] *)
Definition join16 (b0 b1 : Z) : Z := Z.lor b0 (Z.shiftl b1 8).
Definition join32 (b0 b1 b2 b3 : Z) : Z :=
  Z.lor (Z.lor (Z.lor b0 (Z.shiftl b1 8)) (Z.shiftl b2 16)) (Z.shiftl b3 24).

Lemma join16_add b0 b1 : is_u8 b0 → is_u8 b1 → join16 b0 b1 = b0 + b1 * 2 ^ 8.
Proof. intros. unfold join16. rewrite lor_shiftl_add; int_unfold; lia. Qed.

Lemma join32_add b0 b1 b2 b3 :
  is_u8 b0 → is_u8 b1 → is_u8 b2 → is_u8 b3 →
  join32 b0 b1 b2 b3 = b0 + b1 * 2 ^ 8 + b2 * 2 ^ 16 + b3 * 2 ^ 24.
Proof.
  intros. unfold join32. int_unfold.
  rewrite (lor_shiftl_add b0), (lor_shiftl_add (b0 + _)), lor_shiftl_add by lia. done.
Qed.

Lemma join16_range b0 b1 : is_u8 b0 → is_u8 b1 → is_u16 (join16 b0 b1).
Proof. intros. rewrite join16_add by done. int_unfold. lia. Qed.

Lemma join32_range b0 b1 b2 b3 :
  is_u8 b0 → is_u8 b1 → is_u8 b2 → is_u8 b3 → is_u32 (join32 b0 b1 b2 b3).
Proof. intros. rewrite join32_add by done. int_unfold. lia. Qed.

Lemma join16_byte_at v : is_u16 v → join16 (byte_at v 0) (byte_at v 1) = v.
Proof.
  intros. rewrite join16_add by auto with ints. rewrite !byte_at_div by lia.
  simpl Z.mul. int_lia.
Qed.

Lemma join32_byte_at v :
  is_u32 v → join32 (byte_at v 0) (byte_at v 1) (byte_at v 2) (byte_at v 3) = v.
Proof.
  intros. rewrite join32_add by auto with ints. rewrite !byte_at_div by lia.
  simpl Z.mul. int_lia.
Qed.

#[export] Hint Resolve join16_range join32_range : ints.

#[global] Arguments byte_at : simpl never.
#[global] Arguments join16 : simpl never.
#[global] Arguments join32 : simpl never.

(** A byte string literal, as the [char] values of its ASCII characters. *)
Definition bytes_of_string (s : string) : list Z :=
  (λ c, Z.of_N (Ascii.N_of_ascii c)) <$> String.list_ascii_of_string s.

(** ** Lists *)

Definition zlen {A} (l : list A) : Z := Z.of_nat (length l).

Lemma zlen_nonneg {A} (l : list A) : 0 ≤ zlen l.
Proof. unfold zlen. lia. Qed.
Lemma zlen_nil {A} : zlen (@nil A) = 0.
Proof. done. Qed.
Lemma zlen_cons {A} (x : A) l : zlen (x :: l) = 1 + zlen l.
Proof. unfold zlen. simpl. lia. Qed.
Lemma zlen_app {A} (l k : list A) : zlen (l ++ k) = zlen l + zlen k.
Proof. unfold zlen. rewrite length_app. lia. Qed.

#[export] Hint Resolve zlen_nonneg : ints.
Create Rewrite HintDb zlen.
#[export] Hint Rewrite @zlen_nil @zlen_cons @zlen_app : zlen.

#[global] Arguments zlen : simpl never.

(** ** Record update

    [r <| f := v |>] and [r <| f ::= g |>] for a record with an [Settable]
    instance that lists its fields once. *)
Class Settable (R : Type) := eta : R → R.
Class Setter {R E : Type} (proj : R → E) := set : (E → E) → R → R.
#[global] Arguments set {R E} proj {_} f r /.
#[global] Hint Mode Setter ! - ! : typeclass_instances.

Ltac solve_setter :=
  match goal with
  | |- @Setter ?R ?E ?proj =>
      let inst := constr:(_ : Settable R) in
      let e := eval hnf in inst in
      match eval pattern proj in e with
      | ?F _ => let s := eval cbv beta in
                  (λ (f : E → E) (r : R), F (λ r' : R, f (proj r')) r) in exact s
      end
  end.
#[global] Hint Extern 1 (Setter _) => solve_setter : typeclass_instances.

Notation "r <| p := v |>" := (set p (λ _, v) r)
  (at level 1, left associativity, p constr at level 1, v constr at level 200,
   format "r <| p  :=  v |>").
Notation "r <| p ::= f |>" := (set p f r)
  (at level 1, left associativity, p constr at level 1, f constr at level 200,
   format "r <| p  ::=  f |>").
