(* ===== verification/FrameCodec.v ===== *)
(** * Frame codec ([src/common/network/frame_codec.hpp])

    The 16-byte header in front of every payload, its CRC-32 and the offset
    based parser.  Buffers are byte lists; a read outside of a buffer is the
    value [None], so that memory safety is a theorem and not a convention. *)

From S2P Require Import Prelude.

Module frame_codec.

(** ** Constants (lines 11-14) *)

Definition k_proto_ver : Z := 1.
Definition k_header_after_len : Z := 12.
Definition k_header_total : Z := 16.
Definition k_max_frame_bytes : Z := Z.shiftl 1 20.

(** ** Buffer access *)

(** [p[i]], with [None] for an index outside the buffer. *)
Definition rd (buf : list Z) (i : Z) : option Z :=
  if 0 <=? i then buf !! Z.to_nat i else None.

(** [p[i] = b] *)
Definition wr (buf : list Z) (i b : Z) : list Z := <[Z.to_nat i := b]> buf.

(** The [n] bytes from [p], [None] when they are not all inside the buffer. *)
Definition slice (buf : list Z) (p n : Z) : option (list Z) :=
  if decide (0 ≤ p ∧ 0 ≤ n ∧ p + n ≤ zlen buf)
  then Some (take (Z.to_nat n) (drop (Z.to_nat p) buf)) else None.

(** [memcpy(out + p, src, src.size())] *)
Definition memcpy (out : list Z) (p : Z) (src : list Z) : list Z :=
  list_inserts (Z.to_nat p) src out.

(** ** Little-endian helpers (lines 17-36) *)

Definition put_le16 (p : list Z) (i v : Z) : list Z :=
  let p := wr p i (byte_at v 0) in
  wr p (i + 1) (byte_at v 1).

Definition put_le32 (p : list Z) (i v : Z) : list Z :=
  let p := wr p i (byte_at v 0) in
  let p := wr p (i + 1) (byte_at v 1) in
  let p := wr p (i + 2) (byte_at v 2) in
  wr p (i + 3) (byte_at v 3).

Definition get_le16 (p : list Z) (i : Z) : option Z :=
  b0 ← rd p i; b1 ← rd p (i + 1); Some (join16 b0 b1).

Definition get_le32 (p : list Z) (i : Z) : option Z :=
  b0 ← rd p i; b1 ← rd p (i + 1); b2 ← rd p (i + 2); b3 ← rd p (i + 3);
  Some (join32 b0 b1 b2 b3).

(** ** CRC-32 (lines 39-54) *)

Definition crc_poly : Z := 0xEDB88320.

(** One round of the table's inner loop. *)
Definition crc_round (c : Z) : Z :=
  if Z.land c 1 =? 0 then Z.shiftr c 1 else Z.lxor crc_poly (Z.shiftr c 1).

(** [table[i]]: eight rounds from [i]. *)
Definition crc_entry (i : Z) : Z := Nat.iter 8 crc_round i.

Definition crc_table : list Z := Eval vm_compute in crc_entry <$> seqZ 0 256.

Definition crc_step (c b : Z) : Z :=
  Z.lxor (crc_table !!! Z.to_nat (Z.land (Z.lxor c b) 0xFF)) (Z.shiftr c 8).

Definition crc32 (data : list Z) : Z :=
  Z.lxor (foldl crc_step 0xFFFFFFFF data) 0xFFFFFFFF.

(** ** Frames (lines 57-134) *)

Record header_v1 := Header { cmd : Z; flags : Z; ver : Z; seq : Z; crc : Z }.

Definition pack (cmd flags ver seq : Z) (payload : list Z) : list Z :=
  let len_after_len := u32 (k_header_after_len + zlen payload) in
  let out := replicate (Z.to_nat (k_header_total + zlen payload)) 0 in
  let out := put_le32 out 0 len_after_len in
  let out := put_le16 out 4 cmd in
  let out := wr out 6 flags in
  let out := wr out 7 ver in
  let out := put_le32 out 8 seq in
  let out := if decide (payload = []) then out else memcpy out 16 payload in
  let c := crc32 (take (length payload) (drop 16 out)) in
  put_le32 out 12 c.

(** What [try_parse_one] leaves behind: the [false] return with the read
    position, or the [true] return with the out-parameters. *)
Inductive parse_one :=
| NoFrame (acc_offset : Z)
| Frame (hdr : header_v1) (payload : list Z) (crc_ok : bool) (acc_offset : Z).

Definition try_parse_one (acc : list Z) (acc_offset : Z) : option parse_one :=
  let avail := u64 (zlen acc - acc_offset) in
  if avail <? 4 then Some (NoFrame acc_offset) else
  let base := acc_offset in
  len_after_len ← get_le32 acc base;
  if k_max_frame_bytes <? len_after_len then Some (NoFrame (zlen acc)) else
  let total := u64 (4 + len_after_len) in
  if avail <? total then Some (NoFrame acc_offset) else
  if len_after_len <? k_header_after_len then Some (NoFrame (zlen acc)) else
  cmd ← get_le16 acc (base + 4);
  flags ← rd acc (base + 6);
  ver ← rd acc (base + 7);
  seq ← get_le32 acc (base + 8);
  crc ← get_le32 acc (base + 12);
  let payload_sz := u64 (len_after_len - k_header_after_len) in
  payload ← slice acc (base + 16) payload_sz;
  let crc_ok := crc32 payload =? crc in
  Some (Frame (Header cmd flags ver seq crc) payload crc_ok (u64 (acc_offset + total))).

Example crc32_check :
  crc32 (bytes_of_string "123456789") = 0xCBF43926.
Proof. vm_compute. reflexivity. Qed.

Example parse_pack_hi :
  try_parse_one (pack 100 0 1 7 (bytes_of_string "hi")) 0
  = Some (Frame (Header 100 0 1 7 (crc32 (bytes_of_string "hi"))) (bytes_of_string "hi") true 18).
Proof. vm_compute. reflexivity. Qed.

(** ** CRC-32: bitwise reference *)

(** The textbook CRC: shift the register eight times per input byte. *)
Definition crc_ref_step (c b : Z) : Z := Nat.iter 8 crc_round (Z.lxor c b).
Definition crc32_bitwise (data : list Z) : Z :=
  Z.lxor (foldl crc_ref_step 0xFFFFFFFF data) 0xFFFFFFFF.

(** The little-endian number a byte string spells. *)
Definition le_val (bs : list Z) : Z := foldr (λ b v, Z.lxor b (Z.shiftl v 8)) 0 bs.

Lemma crc_round_alt c :
  crc_round c = Z.lxor (if Z.testbit c 0 then crc_poly else 0) (Z.shiftr c 1).
Proof.
  unfold crc_round. change 1 with (Z.ones 1) at 1.
  rewrite Z.land_ones, Z.bit0_odd by lia. change (2 ^ 1) with 2.
  rewrite Zmod_odd. by destruct (Z.odd c).
Qed.

(** The register update is linear over GF(2). *)
Lemma crc_round_lxor a b : crc_round (Z.lxor a b) = Z.lxor (crc_round a) (crc_round b).
Proof.
  rewrite !crc_round_alt, Z.lxor_spec, Z.shiftr_lxor.
  apply Z.bits_inj'. intros n _. rewrite !Z.lxor_spec.
  destruct (Z.testbit a 0), (Z.testbit b 0); simpl; rewrite ?Z.bits_0;
    repeat match goal with |- context [Z.testbit ?x ?k] => destruct (Z.testbit x k) end; done.
Qed.

Lemma crc_iter_lxor n a b :
  Nat.iter n crc_round (Z.lxor a b) = Z.lxor (Nat.iter n crc_round a) (Nat.iter n crc_round b).
Proof. induction n as [|n IH]; simpl; [done|]. by rewrite IH, crc_round_lxor. Qed.

Lemma crc_round_shiftl x : crc_round (Z.shiftl x 1) = x.
Proof.
  rewrite crc_round_alt, Z.shiftl_spec_low by lia.
  by rewrite Z.lxor_0_l, Z.shiftr_shiftl_l, Z.shiftl_0_r by lia.
Qed.

Lemma crc_iter_shiftl (n : nat) x : Nat.iter n crc_round (Z.shiftl x (Z.of_nat n)) = x.
Proof.
  revert x. induction n as [|n IH]; intros x; [apply Z.shiftl_0_r|].
  rewrite Nat.iter_succ_r, Nat2Z.inj_succ, <- Z.add_1_r, <- Z.shiftl_shiftl by lia.
  by rewrite crc_round_shiftl.
Qed.

Lemma crc_round_range c : is_u32 c → is_u32 (crc_round c).
Proof.
  intros Hc. rewrite crc_round_alt. apply lxor_bound; [lia| |].
  - destruct (Z.testbit c 0); unfold crc_poly; lia.
  - rewrite Z.shiftr_div_pow2 by lia. int_lia.
Qed.

Lemma crc_iter_range n c : is_u32 c → is_u32 (Nat.iter n crc_round c).
Proof. intros Hc. induction n; simpl; auto using crc_round_range. Qed.

(** No information is lost in the register: one round has a trivial kernel. *)
Lemma crc_round_kernel c : is_u32 c → crc_round c = 0 → c = 0.
Proof.
  intros Hc. unfold crc_round. change 1 with (Z.ones 1) at 1.
  rewrite Z.land_ones, Z.shiftr_div_pow2 by lia. change (2 ^ 1) with 2.
  destruct (Z.eqb_spec (c mod 2) 0) as [Hev|_].
  - int_lia.
  - intros H%Z.lxor_eq. unfold crc_poly in H. int_lia.
Qed.

Lemma crc_iter_inj n a b :
  is_u32 a → is_u32 b → Nat.iter n crc_round a = Nat.iter n crc_round b → a = b.
Proof.
  intros Ha Hb H. apply Z.lxor_eq.
  assert (is_u32 (Z.lxor a b)) as Hr by (apply lxor_bound; [lia|done|done]).
  assert (Nat.iter n crc_round (Z.lxor a b) = 0) as Hz
    by (rewrite crc_iter_lxor, H; apply Z.lxor_nilpotent).
  clear H. induction n as [|n IH]; [done|]. simpl in Hz.
  apply IH, crc_round_kernel; [by apply crc_iter_range|done].
Qed.

Lemma lxor_split_low x n :
  0 ≤ n → x = Z.lxor (Z.land x (Z.ones n)) (Z.shiftl (Z.shiftr x n) n).
Proof.
  intros Hn. apply Z.bits_inj'. intros k Hk. rewrite Z.lxor_spec, Z.land_spec.
  destruct (Z.lt_ge_cases k n).
  - rewrite Z.shiftl_spec_low, Z.ones_spec_low by lia.
    by rewrite andb_true_r, xorb_false_r.
  - rewrite Z.shiftl_spec, Z.shiftr_spec, Z.ones_spec_high by lia.
    rewrite andb_false_r, xorb_false_l. f_equal. lia.
Qed.

Lemma crc_table_lookup i : is_u8 i → crc_table !!! Z.to_nat i = crc_entry i.
Proof.
  intros Hi. assert (crc_table = crc_entry <$> seqZ 0 256) as -> by (vm_compute; reflexivity).
  apply list_lookup_total_correct. rewrite list_lookup_fmap, lookup_seqZ_lt by int_lia.
  simpl. f_equal. f_equal. int_lia.
Qed.

Lemma shiftr_u8 b : is_u8 b → Z.shiftr b 8 = 0.
Proof. intros. rewrite Z.shiftr_div_pow2 by lia. apply Z.div_small. done. Qed.

(** The table step does eight register rounds at once. *)
Lemma crc_step_ref c b : is_u8 b → crc_step c b = crc_ref_step c b.
Proof.
  intros Hb. unfold crc_step, crc_ref_step. change 0xFF with (Z.ones 8).
  rewrite crc_table_lookup
    by (rewrite Z.land_ones by lia; apply Z.mod_pos_bound; lia).
  rewrite (lxor_split_low (Z.lxor c b) 8) at 2 by lia.
  rewrite crc_iter_lxor. change (Z.shiftl ?x 8) with (Z.shiftl x (Z.of_nat 8)).
  rewrite crc_iter_shiftl, Z.shiftr_lxor, (shiftr_u8 b), Z.lxor_0_r by done. done.
Qed.

Lemma crc_fold_ref data c :
  Forall is_u8 data → foldl crc_step c data = foldl crc_ref_step c data.
Proof.
  intros Hd. revert c. induction Hd as [|b data Hb _ IH]; intros c; simpl; [done|].
  by rewrite crc_step_ref, IH.
Qed.

Lemma crc_ref_step_range c b : is_u32 c → is_u8 b → is_u32 (crc_ref_step c b).
Proof.
  intros. apply crc_iter_range, lxor_bound; [lia|done|]. int_unfold. lia.
Qed.

Lemma crc_fold_range data c :
  Forall is_u8 data → is_u32 c → is_u32 (foldl crc_ref_step c data).
Proof.
  intros Hd. revert c. induction Hd; intros c Hc; simpl; auto using crc_ref_step_range.
Qed.

Lemma crc_fold_inj data a b :
  Forall is_u8 data → is_u32 a → is_u32 b →
  foldl crc_ref_step a data = foldl crc_ref_step b data → a = b.
Proof.
  intros Hd. revert a b. induction Hd as [|x data Hx _ IH]; intros a b Ha Hb H; [done|].
  assert (0 ≤ x < 2 ^ 32) by (int_unfold; lia).
  apply IH, crc_iter_inj in H; auto using crc_ref_step_range, lxor_bound with lia.
  2,3: apply lxor_bound; [lia|done|done].
  apply (f_equal (λ z, Z.lxor z x)) in H.
  by rewrite !Z.lxor_assoc, Z.lxor_nilpotent, !Z.lxor_0_r in H.
Qed.

(** The register after [bs] only depends on the number [c ^ le_val bs]. *)
Lemma crc_fold_le_val bs c :
  foldl crc_ref_step c bs = Nat.iter (8 * length bs) crc_round (Z.lxor c (le_val bs)).
Proof.
  revert c. induction bs as [|b bs IH]; intros c; simpl foldl.
  { simpl. by rewrite Z.lxor_0_r. }
  rewrite IH. unfold crc_ref_step.
  replace (8 * length (b :: bs))%nat with (8 * length bs + 8)%nat by (simpl; lia).
  rewrite Nat.iter_add. f_equal. simpl le_val.
  rewrite <- Z.lxor_assoc, (crc_iter_lxor 8 (Z.lxor c b)). f_equal.
  symmetry. apply (crc_iter_shiftl 8).
Qed.

Lemma le_val_cons b bs : is_u8 b → le_val (b :: bs) = b + le_val bs * 2 ^ 8.
Proof.
  intros Hb. simpl. rewrite <- (lor_shiftl_add b) by (done || lia).
  apply Z.lxor_lor. apply Z.bits_inj'. intros k Hk. rewrite Z.land_spec, Z.bits_0.
  destruct (Z.lt_ge_cases k 8).
  - rewrite Z.shiftl_spec_low by done. apply andb_false_r.
  - rewrite (testbit_above b 8) by (done || lia). done.
Qed.

Lemma le_val_bound bs : Forall is_u8 bs → 0 ≤ le_val bs < 2 ^ (8 * zlen bs).
Proof.
  induction 1 as [|b bs Hb _ IH]; [done|].
  pose proof (zlen_nonneg bs).
  rewrite le_val_cons, zlen_cons, Z.mul_add_distr_l, Z.pow_add_r by (done || lia).
  change (2 ^ (8 * 1)) with 256. int_unfold. lia.
Qed.

Lemma le_val_inj bs cs :
  Forall is_u8 bs → Forall is_u8 cs → length bs = length cs → le_val bs = le_val cs → bs = cs.
Proof.
  intros Hbs. revert cs. induction Hbs as [|b bs Hb Hbs IH]; intros [|c cs] Hcs Hl Hv;
    try done. apply Forall_cons in Hcs as [Hc Hcs].
  rewrite !le_val_cons in Hv by done. f_equal; [int_unfold; lia|].
  apply IH; [done|by injection Hl|int_unfold; lia].
Qed.

(** ** Buffer lemmas *)

Lemma rd_drop acc off i :
  0 ≤ off ≤ zlen acc → 0 ≤ i → rd acc (off + i) = rd (drop (Z.to_nat off) acc) i.
Proof.
  intros Hoff Hi. unfold rd.
  destruct (Z.leb_spec 0 (off + i)); [|lia]. destruct (Z.leb_spec 0 i); [|lia].
  rewrite lookup_drop. f_equal. lia.
Qed.

Lemma slice_drop acc off i n :
  0 ≤ off ≤ zlen acc → 0 ≤ i →
  slice acc (off + i) n = slice (drop (Z.to_nat off) acc) i n.
Proof.
  intros Hoff Hi. unfold slice. rewrite drop_drop.
  assert (zlen (drop (Z.to_nat off) acc) = zlen acc - off) as ->
    by (unfold zlen in *; rewrite length_drop; lia).
  destruct (decide _) as [H|H]; destruct (decide _) as [H'|H']; try lia; [|done].
  do 3 f_equal. lia.
Qed.

(** The bytes [put_le32] writes and [get_le32] reads. *)
Definition le16 (v : Z) : list Z := [byte_at v 0; byte_at v 1].
Definition le32 (v : Z) : list Z := [byte_at v 0; byte_at v 1; byte_at v 2; byte_at v 3].


Lemma memcpy_tail h tl src :
  length tl = length src → memcpy (h ++ tl) (zlen h) src = h ++ src.
Proof.
  intros Hl. unfold memcpy, zlen. rewrite Nat2Z.id.
  rewrite <- (Nat.add_0_r (length h)), list_inserts_app_r. f_equal.
  rewrite <- (app_nil_r src) at 1. by apply list_inserts_0_l.
Qed.

Lemma pack_layout cmd flags ver seq payload :
  pack cmd flags ver seq payload =
  le32 (u32 (12 + zlen payload)) ++ le16 cmd ++ [flags; ver] ++ le32 seq
  ++ le32 (crc32 payload) ++ payload.
Proof.
  unfold pack, k_header_after_len, k_header_total.
  replace (Z.to_nat (16 + zlen payload)) with (16 + length payload)%nat
    by (unfold zlen; lia).
  rewrite replicate_add.
  set (tl := replicate (length payload) 0).
  assert (∀ h : list Z, length h = 16%nat →
    (if decide (payload = []) then h ++ tl else memcpy (h ++ tl) 16 payload) = h ++ payload)
    as Hcopy.
  { intros h Hh. destruct (decide (payload = [])) as [->|_]; [done|].
    replace 16 with (zlen h) by (unfold zlen; lia).
    apply memcpy_tail, length_replicate. }
  set (out := put_le32 (wr _ 7 ver) 8 seq).
  assert (out = (le32 (u32 (12 + zlen payload)) ++ le16 cmd ++ [flags; ver] ++ le32 seq
    ++ [0; 0; 0; 0]) ++ tl) as ->
    by (clear Hcopy; unfold out, put_le32, put_le16, wr; reflexivity).
  rewrite Hcopy by reflexivity. rewrite drop_app_length' by reflexivity.
  rewrite firstn_all. unfold put_le32, wr. reflexivity.
Qed.

Lemma zlen_pack cmd flags ver seq payload :
  zlen (pack cmd flags ver seq payload) = 16 + zlen payload.
Proof. rewrite pack_layout. unfold zlen, le32, le16. simpl. lia. Qed.

Lemma get_le32_le32 v k : is_u32 v → get_le32 (le32 v ++ k) 0 = Some v.
Proof.
  intros. transitivity (Some (join32 (byte_at v 0) (byte_at v 1) (byte_at v 2) (byte_at v 3)));
    [reflexivity|]. by rewrite join32_byte_at.
Qed.

(** ** Abstract decoder

    What the parser promises of the unread bytes [bs], without offsets. *)
Inductive next_frame :=
| Wait
| Desync
| Got (hdr : header_v1) (payload : list Z) (crc_ok : bool) (rest : list Z).

Definition decode_one (bs : list Z) : next_frame :=
  match bs with
  | b0 :: b1 :: b2 :: b3 :: _ =>
      let len := join32 b0 b1 b2 b3 in
      if k_max_frame_bytes <? len then Desync
      else if zlen bs <? 4 + len then Wait
      else if len <? k_header_after_len then Desync
      else match bs with
           | _ :: _ :: _ :: _ :: c0 :: c1 :: f :: v :: s0 :: s1 :: s2 :: s3
               :: r0 :: r1 :: r2 :: r3 :: tl =>
               let payload := take (Z.to_nat (len - k_header_after_len)) tl in
               let crc := join32 r0 r1 r2 r3 in
               Got (Header (join16 c0 c1) f v (join32 s0 s1 s2 s3) crc) payload
                 (crc32 payload =? crc) (drop (Z.to_nat (len - k_header_after_len)) tl)
           | _ => Desync
           end
  | _ => Wait
  end.

(** The offset the parser leaves for an abstract result. *)
Definition offset_after (acc : list Z) (off : Z) (r : next_frame) : parse_one :=
  match r with
  | Wait => NoFrame off
  | Desync => NoFrame (zlen acc)
  | Got h p ok rest => Frame h p ok (zlen acc - zlen rest)
  end.

Lemma list_ge4 (bs : list Z) :
  4 ≤ zlen bs → ∃ b0 b1 b2 b3 tl, bs = b0 :: b1 :: b2 :: b3 :: tl.
Proof.
  intros H. destruct bs as [|b0 [|b1 [|b2 [|b3 tl]]]]; autorewrite with zlen in H;
    try lia; eauto 10.
Qed.

Lemma Forall_u8_4 b0 b1 b2 b3 tl :
  Forall is_u8 (b0 :: b1 :: b2 :: b3 :: tl) → is_u32 (join32 b0 b1 b2 b3) ∧ Forall is_u8 tl.
Proof. intros H. decompose_Forall_hyps. auto with ints. Qed.

(** Evaluate reads at literal indices. *)
Ltac rd_cbn :=
  repeat match goal with
  | |- context [rd ?l ?i] =>
      let n := eval vm_compute in (Z.to_nat i) in change (rd l i) with (l !! n)
  end; cbn.

(** The offset parser implements the abstract decoder: it never reads outside
    of the buffer, and where it leaves the offset is where the decoder's
    remaining bytes begin. *)
Lemma try_parse_one_refines acc off :
  Forall is_u8 acc → 0 ≤ off ≤ zlen acc → zlen acc < 2 ^ 63 →
  try_parse_one acc off = Some (offset_after acc off (decode_one (drop (Z.to_nat off) acc))).
Proof.
  intros Hb Hoff Hmax.
  assert (zlen (drop (Z.to_nat off) acc) = zlen acc - off) as Hlen
    by (unfold zlen in *; rewrite length_drop; lia).
  assert (∀ n, slice acc (off + 16) n = slice (drop (Z.to_nat off) acc) 16 n) as Hsl
    by (intros; apply slice_drop; lia).
  assert (rd acc off = rd (drop (Z.to_nat off) acc) 0) as Hrd0
    by (rewrite <- rd_drop by lia; f_equal; lia).
  apply (Forall_drop is_u8 (Z.to_nat off)) in Hb as Hbs.
  unfold try_parse_one, get_le32, get_le16. rewrite u64_small by (int_unfold; lia).
  rewrite <- !Z.add_assoc, Hrd0, !(rd_drop acc off) by lia. rewrite <- Hlen.
  remember (drop (Z.to_nat off) acc) as bs eqn:Ebs. clear Ebs Hrd0 Hb.
  destruct (Z.ltb_spec (zlen bs) 4) as [H4|H4].
  { destruct bs as [|b0 [|b1 [|b2 [|b3 bs]]]]; try done.
    autorewrite with zlen in H4. pose proof (zlen_nonneg bs). lia. }
  apply list_ge4 in H4 as (b0 & b1 & b2 & b3 & tl & ->).
  apply Forall_u8_4 in Hbs as [Hu _]. rd_cbn. set (len := join32 b0 b1 b2 b3) in *.
  destruct (Z.ltb_spec k_max_frame_bytes len) as [|Hk]; [done|].
  change k_max_frame_bytes with 1048576 in Hk.
  rewrite (u64_small (4 + len)) by (int_unfold; lia).
  destruct (Z.ltb_spec (zlen (b0 :: b1 :: b2 :: b3 :: tl)) (4 + len)) as [|Hn]; [done|].
  destruct (Z.ltb_spec len k_header_after_len) as [|Hh]; [done|].
  unfold k_header_after_len in *.
  autorewrite with zlen in Hn.
  destruct (list_ge4 tl) as (c0 & c1 & f & v & tl1 & ->); [lia|]. autorewrite with zlen in Hn.
  destruct (list_ge4 tl1) as (s0 & s1 & s2 & s3 & tl2 & ->); [lia|]. autorewrite with zlen in Hn.
  destruct (list_ge4 tl2) as (r0 & r1 & r2 & r3 & tl3 & ->); [lia|]. autorewrite with zlen in Hn.
  autorewrite with zlen in Hlen. cbn. rewrite Hsl, (u64_small (len - 12)) by (int_unfold; lia).
  unfold slice. rewrite decide_True by (autorewrite with zlen; lia). cbn.
  do 2 f_equal. rewrite u64_small by (int_unfold; lia).
  unfold zlen in *. rewrite length_drop. lia.
Qed.

(** Field ranges under which a frame survives the wire. *)
Definition frame_ok (cmd flags ver seq : Z) (payload : list Z) : Prop :=
  is_u16 cmd ∧ is_u8 flags ∧ is_u8 ver ∧ is_u32 seq ∧ Forall is_u8 payload
  ∧ zlen payload ≤ k_max_frame_bytes - k_header_after_len.

#[global] Instance frame_ok_dec c f v s p : Decision (frame_ok c f v s p).
Proof. unfold frame_ok. apply _. Defined.

Lemma crc32_range data : Forall is_u8 data → is_u32 (crc32 data).
Proof.
  intros Hd. unfold crc32. rewrite crc_fold_ref by done.
  apply lxor_bound; [lia|by apply crc_fold_range|lia].
Qed.

Lemma pack_bytes cmd flags ver seq payload :
  frame_ok cmd flags ver seq payload → Forall is_u8 (pack cmd flags ver seq payload).
Proof.
  intros (_ & Hf & Hv & _ & Hp & _). rewrite pack_layout. unfold le32, le16.
  repeat apply Forall_app_2; repeat apply Forall_cons_2; auto with ints.
Qed.

Lemma decode_pack cmd flags ver seq payload rest :
  frame_ok cmd flags ver seq payload →
  decode_one (pack cmd flags ver seq payload ++ rest) =
  Got (Header cmd flags ver seq (crc32 payload)) payload true rest.
Proof.
  intros (Hc & Hf & Hv & Hs & Hp & Hn). rewrite pack_layout. unfold le32, le16.
  unfold k_max_frame_bytes, k_header_after_len in Hn. change (Z.shiftl 1 20) with 1048576 in Hn.
  pose proof (zlen_nonneg payload). rewrite u32_small by (int_unfold; lia).
  cbn [app decode_one]. rewrite join32_byte_at by (int_unfold; lia).
  change k_max_frame_bytes with 1048576. unfold k_header_after_len.
  case_cmp; [lia|]. autorewrite with zlen. pose proof (zlen_nonneg rest).
  case_cmp; [lia|]. case_cmp; [lia|].
  rewrite join16_byte_at, !join32_byte_at by auto using crc32_range.
  assert (Z.to_nat (12 + zlen payload - 12) = length payload) as -> by (unfold zlen; lia).
  rewrite take_app_length, drop_app_length, Z.eqb_refl. done.
Qed.

(** Every decoded frame is a proper suffix step: at least the 16 header bytes
    are consumed. *)
Lemma decode_got_rest bs h p ok rest :
  decode_one bs = Got h p ok rest → ∃ hd, bs = hd ++ p ++ rest ∧ length hd = 16%nat.
Proof.
  unfold decode_one. intros H.
  repeat (case_match; try done). simplify_eq.
  match goal with |- ∃ hd, ?x0 :: ?x1 :: ?x2 :: ?x3 :: ?x4 :: ?x5 :: ?x6 :: ?x7 :: ?x8 :: ?x9
    :: ?x10 :: ?x11 :: ?x12 :: ?x13 :: ?x14 :: ?x15 :: _ = _ ∧ _ =>
    exists [x0; x1; x2; x3; x4; x5; x6; x7; x8; x9; x10; x11; x12; x13; x14; x15] end.
  split; [|done]. simpl. by rewrite take_drop.
Qed.

(** ** Properties *)

(** C11: (round trip) A frame built by [pack] and placed anywhere in the receive
    buffer is parsed back by [try_parse_one] to the same command, flags,
    version, sequence number and payload, with a matching CRC, and the read
    offset advances by exactly the frame's length. *)
Theorem pack_parse_roundtrip pre rest cmd flags ver seq payload :
  frame_ok cmd flags ver seq payload →
  Forall is_u8 pre → Forall is_u8 rest →
  zlen pre + zlen payload + zlen rest < 2 ^ 63 - 16 →
  try_parse_one (pre ++ pack cmd flags ver seq payload ++ rest) (zlen pre) =
  Some (Frame (Header cmd flags ver seq (crc32 payload)) payload true
          (zlen pre + zlen (pack cmd flags ver seq payload))).
Proof.
  intros Hok Hpre Hrest Hlen.
  pose proof (zlen_nonneg pre). pose proof (zlen_nonneg payload). pose proof (zlen_nonneg rest).
  rewrite try_parse_one_refines; autorewrite with zlen; rewrite ?zlen_pack; try lia.
  2: { repeat apply Forall_app_2; auto using pack_bytes. }
  replace (Z.to_nat (zlen pre)) with (length pre) by (unfold zlen; lia).
  rewrite drop_app_length, decode_pack by done.
  cbn. do 2 f_equal. autorewrite with zlen. rewrite zlen_pack. lia.
Qed.

Lemma pack_parse_roundtrip_witness :
  try_parse_one ([9; 9] ++ pack 1003 0 1 5 [104; 105] ++ [1]) (zlen [9; 9]) =
  Some (Frame (Header 1003 0 1 5 (crc32 [104; 105])) [104; 105] true
          (zlen [9; 9] + zlen (pack 1003 0 1 5 [104; 105]))).
Proof.
  apply pack_parse_roundtrip; by_decide.
Defined.

(** On a buffer of bytes and an offset inside it the parser never
    reads out of bounds; it returns, leaves the offset inside the buffer, and a
    returned frame has consumed its 16 header bytes plus the payload. *)
Theorem try_parse_one_safe acc off :
  Forall is_u8 acc → 0 ≤ off ≤ zlen acc → zlen acc < 2 ^ 63 →
  (∃ off', try_parse_one acc off = Some (NoFrame off') ∧ off ≤ off' ≤ zlen acc)
  ∨ (∃ h p ok off', try_parse_one acc off = Some (Frame h p ok off')
      ∧ off' = off + 16 + zlen p ∧ off' ≤ zlen acc).
Proof.
  intros Hb Hoff Hmax. rewrite try_parse_one_refines by done.
  destruct (decode_one _) as [| |h p ok rest] eqn:Hd; cbn.
  - left. exists off. split; [done|lia].
  - left. exists (zlen acc). split; [done|lia].
  - right. apply decode_got_rest in Hd as (hd & Heq & Hhd).
    apply (f_equal zlen) in Heq. autorewrite with zlen in Heq.
    assert (zlen hd = 16) by (unfold zlen; lia).
    assert (zlen (drop (Z.to_nat off) acc) = zlen acc - off) as Hlen
      by (unfold zlen in *; rewrite length_drop; lia).
    pose proof (zlen_nonneg rest).
    exists h, p, ok, (zlen acc - zlen rest). split; [done|lia].
Qed.

Lemma try_parse_one_safe_witness :
  (∃ off', try_parse_one [3; 0; 0; 0; 1; 2; 3] 0 = Some (NoFrame off') ∧ 0 ≤ off' ≤ 7)
  ∨ (∃ h p ok off', try_parse_one [3; 0; 0; 0; 1; 2; 3] 0 = Some (Frame h p ok off')
      ∧ off' = 0 + 16 + zlen p ∧ off' ≤ 7).
Proof.
  apply (try_parse_one_safe [3; 0; 0; 0; 1; 2; 3] 0);
    [by_decide| |]; unfold zlen; simpl; lia.
Defined.

(** C39: (equivalence) The table-driven CRC-32 computes the bitwise CRC-32. *)
Theorem crc32_bitwise_eq data : Forall is_u8 data → crc32 data = crc32_bitwise data.
Proof. intros Hd. unfold crc32, crc32_bitwise. by rewrite crc_fold_ref. Qed.

Lemma crc32_bitwise_eq_witness : crc32 [1; 2; 255] = crc32_bitwise [1; 2; 255].
Proof. apply crc32_bitwise_eq. by_decide. Defined.

(** C40: (functional) Corruption confined to a window of at most four
    consecutive payload bytes always changes the CRC-32, so such a frame is
    parsed with [crc_ok = false]. *)
Theorem crc32_detects_burst pre bad good post :
  Forall is_u8 pre → Forall is_u8 bad → Forall is_u8 good → Forall is_u8 post →
  length bad = length good → (length good ≤ 4)%nat → bad ≠ good →
  crc32 (pre ++ bad ++ post) ≠ crc32 (pre ++ good ++ post).
Proof.
  intros Hpre Hbad Hgood Hpost Hl H4 Hne Heq. apply Hne.
  unfold crc32 in Heq. apply (f_equal (λ z, Z.lxor z 0xFFFFFFFF)) in Heq.
  rewrite !Z.lxor_assoc, Z.lxor_nilpotent, !Z.lxor_0_r in Heq.
  rewrite !crc_fold_ref, !foldl_app in Heq by auto using Forall_app_2.
  set (c := foldl crc_ref_step 4294967295 pre) in Heq.
  assert (is_u32 c) as Hc by (apply crc_fold_range; [done|int_unfold; lia]).
  apply crc_fold_inj in Heq; auto using crc_fold_range.
  rewrite !crc_fold_le_val, Hl in Heq.
  assert (∀ w, Forall is_u8 w → (length w ≤ 4)%nat → is_u32 (le_val w)) as Hw.
  { intros w Hw Hlw. pose proof (le_val_bound w Hw).
    pose proof (Z.pow_le_mono_r 2 (8 * zlen w) 32). int_unfold. unfold zlen in *. lia. }
  assert (∀ w, Forall is_u8 w → (length w ≤ 4)%nat → is_u32 (Z.lxor c (le_val w))) as Hcw.
  { intros w Hw1 Hw2. apply lxor_bound; [lia|done|by apply Hw]. }
  apply crc_iter_inj in Heq; [|apply Hcw; [done|lia]|by apply Hcw].
  apply (f_equal (Z.lxor c)) in Heq.
  rewrite <- !Z.lxor_assoc, Z.lxor_nilpotent, !Z.lxor_0_l in Heq.
  by apply le_val_inj.
Qed.

Lemma crc32_detects_burst_witness :
  crc32 ([1] ++ [2; 9; 9; 5] ++ [6]) ≠ crc32 ([1] ++ [2; 3; 4; 5] ++ [6]).
Proof.
  apply crc32_detects_burst; by_decide.
Defined.

End frame_codec.
