(* ===== verification/Channel.v ===== *)
(** * Network channel ([src/server/network/asio_channel.cpp])

    One accepted connection: the receive side that turns byte chunks into
    frames, the bounded send queue with its batching writer, closing, and the
    three timers.  Every callback that asio runs on the channel is one function
    from the channel to the channel after it and the list of effects it had;
    the callbacks run on the one thread that runs the [io_context], so a run of
    the channel is a sequence of them.  The order in which the arguments of
    [async_write] are evaluated is a parameter ([ArgOrder]). *)

From S2P Require Import Prelude FrameCodec.
Import frame_codec.

Inductive close_function :=
| close_none | close_write | close_read | close_timeout | close_protocol_error
| close_remote_closed | close_force_closed.

#[global] Instance close_function_eq_dec : EqDecision close_function.
Proof. solve_decision. Defined.

(** [do_write] passes [asio::buffer(buffer)] and a completion handler that captures
    [buffer = std::move(buffer)] in one call.  C++ leaves the order in which the two
    arguments are evaluated to the compiler: with the buffer first, asio gets the
    batch; with the handler first, the vector has been moved out of and asio gets an
    empty buffer. *)
Inductive eval_order := BufferFirst | HandlerFirst.
Class ArgOrder := arg_order : eval_order.

Definition buffer_first : ArgOrder := BufferFirst.
Definition handler_first : ArgOrder := HandlerFirst.

#[global] Instance eval_order_eq_dec : EqDecision eval_order.
Proof. solve_decision. Defined.

Module asio_channel.

(** ** State *)

Record channel := Channel {
  channel_id_ : Z;
  handler_ : bool;           (* handler_ != nullptr *)
  base_closed_ : bool;       (* socket_channel_base::closed_, shadowed by closed_ *)
  close_callback_ : option Z; (* a close callback is set: the id that it captured *)
  on_frame_ : bool;          (* a frame callback is set *)
  current_queue_bytes : Z;
  closed_ : bool;
  writing_ : bool;
  enq_msgs : Z;
  deq_msgs : Z;
  drops : Z;
  force_closes : Z;
  bytes_sent : Z;
  peak_queued : Z;
  last_recv_ms : Z;
  last_send_ms : Z;
  write_queue_ : list (list Z);
  frame_acc_ : list Z;
  frame_acc_offset_ : Z;
  in_flight : option (list Z * Z)  (* buffer and batch_msgs of the pending async_write *)
}.

#[global] Instance channel_eta : Settable channel := λ c,
  Channel (channel_id_ c) (handler_ c) (base_closed_ c) (close_callback_ c) (on_frame_ c)
    (current_queue_bytes c) (closed_ c) (writing_ c) (enq_msgs c) (deq_msgs c) (drops c)
    (force_closes c) (bytes_sent c) (peak_queued c) (last_recv_ms c) (last_send_ms c)
    (write_queue_ c) (frame_acc_ c) (frame_acc_offset_ c) (in_flight c).

Definition max_queue_bytes : Z := 256 * 1024.
Definition idle_limit_ms : Z := 30 * 1000.
Definition k_max_batch_bytes : Z := 64 * 1024.
Definition k_max_batch_msgs : Z := 64.

(** A channel as the constructor leaves it, with the id and the callbacks that
    [asio_server::do_accept] sets. *)
Definition new_channel (id : Z) : channel :=
  Channel id true false (Some id) true 0 false false 0 0 0 0 0 0 0 0 [] [] 0 None.

(** What a callback does to the rest of the program and to the socket. *)
Inductive effect :=
| AsyncRead                                  (* socket_.async_read_some *)
| AsyncWrite (buffer : list Z)               (* asio::async_write *)
| Enqueued (buffer : list Z)                 (* buffer accepted by enqueue_send_ *)
| PostShutdown                               (* posted: cancel timers, close socket *)
| HandlerAccept (id : Z)                     (* handler_->on_accept *)
| HandlerClose (id : Z) (reason : close_function)
| CloseCallback (id : Z) (reason : close_function)   (* close_callback_, with its id *)
| OnFrame (id cmd : Z) (payload : list Z)    (* on_frame_ *)
| ArmIdle | ArmPing | ArmStats.

(** ** Closing (lines 79-126) *)

Definition on_close (reason : close_function) (c : channel) : list effect :=
  (if handler_ c then [HandlerClose (channel_id_ c) reason] else []) ++
  (match close_callback_ c with Some id => [CloseCallback id reason] | None => [] end).

Definition close (reason : close_function) (c : channel) : bool * channel * list effect :=
  if closed_ c then (false, c, []) else
  let c := c <| closed_ := true |> in
  let c := if decide (reason = close_force_closed)
           then c <| force_closes ::= λ n, u64 (n + 1) |> else c in
  (true, c, PostShutdown :: on_close reason c).

(** The callbacks of [socket_channel_base], whose bodies [asio_channel] repeats in its
    overrides; [recv] ignores its arguments and starts another read. *)
Definition on_accept (c : channel) : list effect := if handler_ c then [HandlerAccept (channel_id_ c)] else [].
Definition base_on_accept (c : channel) : list effect := if handler_ c then [HandlerAccept (channel_id_ c)] else [].
Definition base_on_close (reason : close_function) (c : channel) : list effect :=
  (if handler_ c then [HandlerClose (channel_id_ c) reason] else []) ++
  (match close_callback_ c with Some id => [CloseCallback id reason] | None => [] end).
Definition recv (c : channel) : channel * list effect := (c, [AsyncRead]).

(** [socket_channel_base::is_closed], not overridden by [asio_channel]. *)
Definition is_closed (c : channel) : bool := base_closed_ c.

(** ** Sending (lines 153-232) *)

Definition enqueue_send_ (buffer : list Z) (c : channel) : bool * channel * list effect :=
  let sz := zlen buffer in
  if sz =? 0 then (true, c, []) else
  let cur := current_queue_bytes c in
  if max_queue_bytes <? u64 (cur + sz) then
    (false, c <| drops ::= λ n, u64 (n + 1) |>, [])
  else
    let c := c <| write_queue_ ::= λ q, q ++ [buffer] |>
               <| current_queue_bytes := u64 (cur + sz) |>
               <| enq_msgs ::= λ n, u64 (n + 1) |> in
    let new_total := u64 (cur + sz) in
    let c := if peak_queued c <? new_total then c <| peak_queued := new_total |> else c in
    (true, c, [Enqueued buffer]).

(** The batching loop: at most 64 messages and 64 KiB. *)
Fixpoint batch_loop (q : list (list Z)) (out : list Z) (acc out_msgs : Z)
    : list Z * Z * list (list Z) :=
  match q with
  | [] => (out, out_msgs, [])
  | front :: q' =>
      if out_msgs <? k_max_batch_msgs then
        if k_max_batch_bytes <? acc + zlen front then (out, out_msgs, q)
        else batch_loop q' (out ++ front) (acc + zlen front) (out_msgs + 1)
      else (out, out_msgs, q)
  end.

Definition make_batch_ (c : channel) : bool * list Z * Z * channel :=
  match write_queue_ c with
  | [] => (false, [], 0, c)
  | q => let '(out, out_msgs, q') := batch_loop q [] 0 0 in
         (0 <? out_msgs, out, out_msgs, c <| write_queue_ := q' |>)
  end.

Section writer.
Context {AO : ArgOrder}.

(** What [asio::buffer(buffer)] refers to when [async_write] is called. *)
Definition handed (buffer : list Z) : list Z :=
  match arg_order with BufferFirst => buffer | HandlerFirst => [] end.

Definition do_write (c : channel) : channel * list effect :=
  let '(ok, buffer, batch_msgs, c) := make_batch_ c in
  if ok then (c <| in_flight := Some (handed buffer, batch_msgs) |>, [AsyncWrite (handed buffer)])
  else (c <| writing_ := false |>, []).

(** [writing_.compare_exchange_strong(false, true)] guarding [do_write]. *)
Definition try_write (c : channel) : channel * list effect :=
  if writing_ c then (c, []) else do_write (c <| writing_ := true |>).

Definition send (data : list Z) (c : channel) : channel * list effect :=
  if closed_ c || (zlen data <=? 0) then (c, []) else
  let '(ok, c, es) := enqueue_send_ data c in
  if ok then let '(c, es') := try_write c in (c, es ++ es')
  else
    let c := c <| force_closes ::= λ n, u64 (n + 1) |> in
    let '(_, c, es') := close close_force_closed c in (c, es ++ es').

(** Completion of the [async_write]: success transfers the whole buffer. *)
Definition write_done (now : Z) (c : channel) : channel * list effect :=
  match in_flight c with
  | None => (c, [])
  | Some (buffer, batch_msgs) =>
      let n := zlen buffer in
      let c := c <| in_flight := None |>
                 <| current_queue_bytes ::= λ q, u64 (q - n) |>
                 <| deq_msgs ::= λ k, u64 (k + batch_msgs) |>
                 <| bytes_sent ::= λ k, u64 (k + n) |>
                 <| last_send_ms := now |>
                 <| writing_ := false |> in
      match write_queue_ c with
      | [] => (c, [])
      | _ => try_write c
      end
  end.

Definition write_error (c : channel) : channel * list effect :=
  match in_flight c with
  | None => (c, [])
  | Some _ => let '(_, c, es) := close close_write (c <| in_flight := None |>) in (c, es)
  end.

(** ** Receiving (lines 130-149, 236-264) *)

Fixpoint parse_loop (fuel : nat) (c : channel) : option (channel * list effect) :=
  match fuel with
  | O => None
  | S fuel =>
      match try_parse_one (frame_acc_ c) (frame_acc_offset_ c) with
      | None => None
      | Some (NoFrame off) => Some (c <| frame_acc_offset_ := off |>, [])
      | Some (Frame hdr payload crc_ok off) =>
          let c := c <| frame_acc_offset_ := off |> in
          if crc_ok then
            let es := if on_frame_ c then [OnFrame (channel_id_ c) (cmd hdr) payload] else [] in
            '(c, es') ← parse_loop fuel c; Some (c, es ++ es')
          else parse_loop fuel (c <| drops ::= λ n, u64 (n + 1) |>)
      end
  end.

(** [if (offset > size / 2) erase the consumed prefix] *)
Definition compact (c : channel) : channel :=
  if zlen (frame_acc_ c) / 2 <? frame_acc_offset_ c then
    c <| frame_acc_ ::= drop (Z.to_nat (frame_acc_offset_ c)) |> <| frame_acc_offset_ := 0 |>
  else c.

Definition parse_frames_ (c : channel) : option (channel * list effect) :=
  '(c, es) ← parse_loop (S (length (frame_acc_ c))) c;
  Some (compact c, es).

Definition read_done (bytes : list Z) (c : channel) : option (channel * list effect) :=
  let c := c <| frame_acc_ ::= λ acc, acc ++ bytes |> in
  '(c, es) ← parse_frames_ c;
  Some (c, es ++ [AsyncRead]).

Definition read_error (c : channel) : channel * list effect :=
  let '(_, c, es) := close close_read c in (c, es).

(** ** Start and timers (lines 22-49, 268-325) *)

Definition start (now : Z) (c : channel) : channel * list effect :=
  let c := c <| closed_ := false |> <| writing_ := false |>
             <| frame_acc_ := [] |> <| frame_acc_offset_ := 0 |>
             <| current_queue_bytes := 0 |> <| peak_queued := 0 |>
             <| enq_msgs := 0 |> <| deq_msgs := 0 |> <| bytes_sent := 0 |>
             <| last_recv_ms := now |> <| last_send_ms := now |> in
  (c, [AsyncRead] ++ (if handler_ c then [HandlerAccept (channel_id_ c)] else [])
      ++ [ArmIdle; ArmPing; ArmStats]).

Definition idle_tick (now : Z) (c : channel) : channel * list effect :=
  if closed_ c then (c, []) else
  let idle_ms := u64 (now - last_recv_ms c) in
  if idle_limit_ms <=? idle_ms then
    let '(_, c, es) := close close_timeout c in (c, es)
  else (c, [ArmIdle]).

Definition send_ping (c : channel) : channel * list effect :=
  send (pack 1 0 k_proto_ver 0 []) c.

Definition ping_tick (c : channel) : channel * list effect :=
  if closed_ c then (c, []) else
  let '(c, es) := send_ping c in (c, es ++ [ArmPing]).

Definition stats_tick (c : channel) : channel * list effect :=
  if closed_ c then (c, []) else (c, [ArmStats]).

(** ** Runs *)

Inductive op :=
| Send (data : list Z)
| ReadDone (bytes : list Z) | ReadError
| WriteDone (now : Z) | WriteError
| IdleTick (now : Z) | PingTick | StatsTick
| Close (reason : close_function).

Definition step (o : op) (c : channel) : option (channel * list effect) :=
  match o with
  | Send data => Some (send data c)
  | ReadDone bytes => read_done bytes c
  | ReadError => Some (read_error c)
  | WriteDone now => Some (write_done now c)
  | WriteError => Some (write_error c)
  | IdleTick now => Some (idle_tick now c)
  | PingTick => Some (ping_tick c)
  | StatsTick => Some (stats_tick c)
  | Close reason => let '(_, c, es) := close reason c in Some (c, es)
  end.

Fixpoint run (os : list op) (c : channel) : option (channel * list effect) :=
  match os with
  | [] => Some (c, [])
  | o :: os =>
      '(c, es) ← step o c;
      '(c, es') ← run os c;
      Some (c, es ++ es')
  end.

(** ** Observations of a run *)

Definition accepted_bytes (es : list effect) : list Z :=
  concat (omap (λ e, match e with Enqueued b => Some b | _ => None end) es).
Definition submitted_bytes (es : list effect) : list Z :=
  concat (omap (λ e, match e with AsyncWrite b => Some b | _ => None end) es).
Definition close_callbacks (es : list effect) : list Z :=
  omap (λ e, match e with CloseCallback id _ => Some id | _ => None end) es.
Definition close_events (es : list effect) : list close_function :=
  omap (λ e, match e with HandlerClose _ r => Some r | _ => None end) es.
Definition frames (es : list effect) : list (Z * Z * list Z) :=
  omap (λ e, match e with OnFrame i c p => Some (i, c, p) | _ => None end) es.

Definition flight_bytes (c : channel) : Z :=
  match in_flight c with Some (b, _) => zlen b | None => 0 end.

(** Invariant of the send side: the byte counter covers the queue and the
    batch in flight, exactly so while the channel is open and asio gets the batches. *)
Record tx_ok (c : channel) : Prop := {
  tx_le : zlen (concat (write_queue_ c)) + flight_bytes c ≤ current_queue_bytes c;
  tx_max : current_queue_bytes c ≤ max_queue_bytes;
  tx_exact : arg_order = BufferFirst → closed_ c = false →
    current_queue_bytes c = zlen (concat (write_queue_ c)) + flight_bytes c;
  tx_flight : in_flight c ≠ None → writing_ c = true
}.

(** Effects of the receive path only. *)
Definition rx_effect (e : effect) : Prop :=
  match e with OnFrame _ _ _ | AsyncRead => True | _ => False end.

(** ** Lemmas: traces *)

Lemma accepted_app es es' : accepted_bytes (es ++ es') = accepted_bytes es ++ accepted_bytes es'.
Proof. unfold accepted_bytes. by rewrite omap_app, concat_app. Qed.
Lemma submitted_app es es' :
  submitted_bytes (es ++ es') = submitted_bytes es ++ submitted_bytes es'.
Proof. unfold submitted_bytes. by rewrite omap_app, concat_app. Qed.
Lemma close_events_app es es' : close_events (es ++ es') = close_events es ++ close_events es'.
Proof. unfold close_events. by rewrite omap_app. Qed.
Lemma frames_app es es' : frames (es ++ es') = frames es ++ frames es'.
Proof. unfold frames. by rewrite omap_app. Qed.

Lemma rx_effects_quiet es :
  Forall rx_effect es →
  accepted_bytes es = [] ∧ submitted_bytes es = [] ∧ close_events es = [].
Proof.
  induction 1 as [|e es He _ (H1 & H2 & H3)]; [done|].
  by destruct e; try done; cbn; rewrite ?H1, ?H2, ?H3.
Qed.

(** ** Lemmas: the receive path leaves the send side alone *)

Lemma parse_loop_frame fuel c c' es :
  parse_loop fuel c = Some (c', es) →
  (∃ off d, c' = c <| frame_acc_offset_ := off |> <| drops := d |>) ∧ Forall rx_effect es.
Proof.
  revert c c' es. induction fuel as [|fuel IH]; intros c c' es H; [done|]. simpl in H.
  destruct (try_parse_one _ _) as [[off|hdr p [] off]|]; [| | |done].
  - injection H as <- <-. split; [|done]. exists off, (drops c). by destruct c.
  - apply bind_Some in H as ([c1 es1] & H1 & [= <- <-]).
    apply IH in H1 as [(off1 & d & ->) Hes]. split; [by exists off1, d|].
    by destruct (on_frame_ _); [constructor|].
  - apply IH in H as [(off1 & d & ->) Hes]. split; [by exists off1, d|done].
Qed.

Lemma read_done_frame bytes c c' es :
  read_done bytes c = Some (c', es) →
  (∃ a off d, c' = c <| frame_acc_ := a |> <| frame_acc_offset_ := off |> <| drops := d |>)
  ∧ Forall rx_effect es.
Proof.
  unfold read_done, parse_frames_.
  intros ([c1 es1] & ([c2 es2] & Hp & [= <- <-])%bind_Some & [= <- <-])%bind_Some.
  apply parse_loop_frame in Hp as [(off & d & ->) Hes].
  split; [|by apply Forall_app_2; [|constructor]].
  unfold compact. case_cmp; eauto.
Qed.

(** ** Lemmas: batching *)

Lemma batch_loop_spec q out acc msgs out' msgs' q' :
  batch_loop q out acc msgs = (out', msgs', q') →
  ∃ taken, q = taken ++ q' ∧ out' = out ++ concat taken ∧ msgs' = msgs + zlen taken
    ∧ (acc ≤ k_max_batch_bytes → acc + zlen (concat taken) ≤ k_max_batch_bytes)
    ∧ (msgs ≤ k_max_batch_msgs → msgs' ≤ k_max_batch_msgs).
Proof.
  revert out acc msgs. induction q as [|front q IH]; intros out acc msgs H; simpl in H.
  { injection H as <- <- <-. exists []. cbn [concat app]. rewrite app_nil_r. autorewrite with zlen.
    split_and!; done || lia. }
  revert H. case_cmp; [case_cmp|].
  - intros [= <- <- <-]. exists []. cbn [concat app]. rewrite app_nil_r. autorewrite with zlen.
    split_and!; done || lia.
  - intros (taken & -> & -> & -> & Hb & Hm)%IH. exists (front :: taken).
    rewrite zlen_cons. cbn. rewrite zlen_app, <- app_assoc. split_and!; done || lia.
  - intros [= <- <- <-]. exists []. cbn [concat app]. rewrite app_nil_r. autorewrite with zlen.
    split_and!; done || lia.
Qed.

Lemma handed_app a b : handed (a ++ b) = handed a ++ handed b.
Proof. unfold handed. by destruct arg_order. Qed.
Lemma handed_nil : handed [] = [].
Proof. unfold handed. by destruct arg_order. Qed.
Lemma handed_first b : arg_order = BufferFirst → handed b = b.
Proof. unfold handed. by intros ->. Qed.
Lemma handed_last b : arg_order = HandlerFirst → handed b = [].
Proof. unfold handed. by intros ->. Qed.
Lemma zlen_handed b : 0 ≤ zlen (handed b) ≤ zlen b.
Proof. pose proof (zlen_nonneg b). unfold handed. destruct arg_order; [lia|]. change (zlen []) with 0. lia. Qed.

Lemma do_write_spec c c' es :
  do_write c = (c', es) →
  ∃ taken, write_queue_ c = taken ++ write_queue_ c'
    ∧ ((taken ≠ [] ∧ es = [AsyncWrite (handed (concat taken))]
        ∧ c' = c <| write_queue_ := write_queue_ c' |>
                 <| in_flight := Some (handed (concat taken), zlen taken) |>)
       ∨ (taken = [] ∧ es = [] ∧ c' = c <| writing_ := false |>))
    ∧ zlen (concat taken) ≤ k_max_batch_bytes ∧ zlen taken ≤ k_max_batch_msgs.
Proof.
  unfold do_write, make_batch_. destruct (write_queue_ c) as [|front q] eqn:Hq.
  { intros [= <- <-]. exists []. rewrite app_nil_l. cbn. rewrite Hq.
    split_and!; try done. by right. }
  destruct (batch_loop _ _ _ _) as [[out msgs] q'] eqn:Hb.
  apply batch_loop_spec in Hb as (taken & Hqt & -> & -> & Hbytes & Hmsgs).
  assert (0 ≤ k_max_batch_bytes ∧ 0 ≤ k_max_batch_msgs) by done.
  rewrite Z.add_0_l, app_nil_l in *. case_cmp; intros [= <- <-]; exists taken; cbn.
  - split_and!; try (done || lia). left. split_and!; [|done|done]. by intros ->.
  - assert (taken = []) as -> by (destruct taken; [done|rewrite zlen_cons in *;
      pose proof (zlen_nonneg taken); lia]).
    cbn in Hqt. split_and!; try (done || lia). right. split_and!; try done.
    subst q'. rewrite <- Hq. by destruct c.
Qed.

Lemma try_write_spec c c' es :
  try_write c = (c', es) →
  ∃ taken, write_queue_ c = taken ++ write_queue_ c'
    ∧ ((taken ≠ [] ∧ writing_ c = false ∧ es = [AsyncWrite (handed (concat taken))]
        ∧ c' = c <| writing_ := true |> <| write_queue_ := write_queue_ c' |>
                 <| in_flight := Some (handed (concat taken), zlen taken) |>)
       ∨ (taken = [] ∧ es = [] ∧ c' = c))
    ∧ zlen (concat taken) ≤ k_max_batch_bytes ∧ zlen taken ≤ k_max_batch_msgs.
Proof.
  unfold try_write. destruct (writing_ c) eqn:Hw.
  { intros [= <- <-]. exists []. split_and!; try done. by right. }
  intros (taken & Hq & [(? & -> & Hc)|(-> & -> & ->)] & Hb & Hm)%do_write_spec.
  - exists taken. cbn in Hq. split_and!; try done. by left.
  - exists []. split_and!; try done. right. split_and!; try done.
    cbn. rewrite <- Hw. by destruct c.
Qed.

(** ** Lemmas: the cases of [close] and [send] *)

Lemma close_spec r c b c' es :
  close r c = (b, c', es) →
  (closed_ c = true ∧ b = false ∧ c' = c ∧ es = [])
  ∨ (closed_ c = false ∧ b = true ∧ es = PostShutdown :: on_close r c
     ∧ ∃ fc, c' = c <| closed_ := true |> <| force_closes := fc |>).
Proof.
  unfold close. destruct (closed_ c); [intros [= <- <- <-]; by left|].
  destruct (decide _); intros [= <- <- <-]; right; split_and!; eauto.
Qed.

Lemma on_close_quiet r c :
  accepted_bytes (on_close r c) = [] ∧ submitted_bytes (on_close r c) = [].
Proof. unfold on_close. by destruct (handler_ c), (close_callback_ c). Qed.

Lemma send_spec data c c' es :
  send data c = (c', es) →
  (closed_ c = true ∨ zlen data ≤ 0) ∧ c' = c ∧ es = []
  ∨ closed_ c = false ∧ 0 < zlen data ∧ max_queue_bytes < u64 (current_queue_bytes c + zlen data)
     ∧ es = PostShutdown :: on_close close_force_closed c
     ∧ (∃ fc, c' = c <| closed_ := true |> <| force_closes := fc |>
                       <| drops := u64 (drops c + 1) |>)
  ∨ closed_ c = false ∧ 0 < zlen data ∧ u64 (current_queue_bytes c + zlen data) ≤ max_queue_bytes
     ∧ ∃ c1 es1 em pk, c1 = c <| write_queue_ ::= λ q, q ++ [data] |>
            <| current_queue_bytes := u64 (current_queue_bytes c + zlen data) |>
            <| enq_msgs := em |> <| peak_queued := pk |>
        ∧ try_write c1 = (c', es1) ∧ es = Enqueued data :: es1.
Proof.
  unfold send. destruct (closed_ c) eqn:Hcl; cbn [orb]; [intros [= <- <-]; auto|].
  case_cmp; [intros [= <- <-]; auto|].
  unfold enqueue_send_. destruct (Z.eqb_spec (zlen data) 0); [lia|]. case_cmp.
  - cbn. rewrite Hcl. intros [= <- <-]. right. left. split_and!; try done. eauto.
  - cbn. intros Hs. right. right. split_and!; try (done || lia).
    revert Hs. set (c1 := Channel _ _ _ _ _ _ _ _ _ _ _ _ _ _ _ _ _ _ _ _).
    case_cmp; destruct (try_write _) as [c2 es2] eqn:Hw; intros [= <- <-];
      eexists _, es2, _, _; (split_and!; [|exact Hw|done]); reflexivity.
Qed.

Lemma concat_snoc (q : list (list Z)) d : concat (q ++ [d]) = concat q ++ d.
Proof. rewrite concat_app. cbn. by rewrite app_nil_r. Qed.

Lemma try_write_tx_ok c c' es : tx_ok c → try_write c = (c', es) → tx_ok c'.
Proof.
  intros [Hle Hmax Hex Hfl] (taken & Hq & [(Hne & Hw & -> & Hc)|(-> & -> & ->)] & _)%try_write_spec;
    [|done].
  assert (in_flight c = None) as Hnone
    by (destruct (in_flight c); [rewrite Hfl in Hw by done; done|done]).
  unfold flight_bytes in *. rewrite Hnone, Hq, concat_app, zlen_app in *. rewrite Hc.
  pose proof (zlen_handed (concat taken)). split; cbn; try done; [lia|].
  intros Ho Hcl. rewrite handed_first by done. specialize (Hex Ho Hcl). lia.
Qed.

Lemma tx_ok_closed c fc d :
  tx_ok c → tx_ok (c <| closed_ := true |> <| force_closes := fc |> <| drops := d |>).
Proof. intros []. by split. Qed.

(** [int size] of [send]. *)
Definition op_ok (o : op) : Prop :=
  match o with Send data => zlen data < 2 ^ 31 | _ => True end.

Lemma flight_bytes_nonneg c : 0 ≤ flight_bytes c.
Proof. unfold flight_bytes. destruct (in_flight c) as [[]|]; [apply zlen_nonneg|done]. Qed.

(** A buffer was accepted: the queue and the counter grow together. *)
Lemma tx_ok_enqueued data c em pk :
  tx_ok c → closed_ c = false → 0 < zlen data < 2 ^ 31 →
  u64 (current_queue_bytes c + zlen data) ≤ max_queue_bytes →
  tx_ok (c <| write_queue_ ::= λ q, q ++ [data] |>
           <| current_queue_bytes := u64 (current_queue_bytes c + zlen data) |>
           <| enq_msgs := em |> <| peak_queued := pk |>).
Proof.
  intros [Hle Hmax Hex Hfl] Hcl Hd Hu.
  pose proof (flight_bytes_nonneg c). pose proof (zlen_nonneg (concat (write_queue_ c))).
  unfold max_queue_bytes in *. rewrite u64_small in * by (int_unfold; lia).
  unfold flight_bytes in *. split; unfold max_queue_bytes, flight_bytes; cbn; try done;
    rewrite ?concat_snoc, ?zlen_app; [lia..|]. intros Ho _. specialize (Hex Ho Hcl). lia.
Qed.

Lemma send_tx_ok data c c' es :
  zlen data < 2 ^ 31 → tx_ok c → send data c = (c', es) → tx_ok c'.
Proof.
  intros Hd Hok [(_ & -> & _)|[(_ & _ & _ & _ & fc & ->)|Hs]]%send_spec;
    [done|by apply tx_ok_closed|].
  destruct Hs as (Hcl & Hpos & Hle & c1 & es1 & em & pk & -> & Hw & _).
  eapply try_write_tx_ok; [|exact Hw]. by apply tx_ok_enqueued.
Qed.

Lemma close_tx_ok r c b c' es : tx_ok c → close r c = (b, c', es) → tx_ok c'.
Proof.
  intros Hok [(_ & _ & -> & _)|(_ & _ & _ & fc & ->)]%close_spec; [done|].
  destruct Hok. by split.
Qed.

Lemma write_done_tx_ok now c c' es : tx_ok c → write_done now c = (c', es) → tx_ok c'.
Proof.
  intros Hok. unfold write_done. destruct (in_flight c) as [[buf n]|] eqn:Hf;
    [|intros [= <- <-]; done].
  set (c1 := set writing_ _ _). assert (tx_ok c1) as Hok1.
  { destruct Hok as [Hle Hmax Hex Hfl]. unfold flight_bytes in *. rewrite Hf in *.
    pose proof (zlen_nonneg buf). pose proof (zlen_nonneg (concat (write_queue_ c))).
    unfold max_queue_bytes in *.
    assert (u64 (current_queue_bytes c - zlen buf) = current_queue_bytes c - zlen buf) as Hu
      by (apply u64_small; int_unfold; lia).
    unfold c1. split; unfold flight_bytes, max_queue_bytes; cbn; rewrite ?Hu; try done;
      try lia. intros Ho Hcl. specialize (Hex Ho Hcl). lia. }
  destruct (write_queue_ c1); [by intros [= <- <-]|]. by apply try_write_tx_ok.
Qed.

Lemma write_error_tx_ok c c' es : tx_ok c → write_error c = (c', es) → tx_ok c'.
Proof.
  intros Hok. unfold write_error. destruct (in_flight c) as [[buf n]|] eqn:Hf;
    [|intros [= <- <-]; done].
  destruct (close _ _) as [[b c1] es1] eqn:Hc. intros [= <- <-].
  apply close_spec in Hc as [(Hcl & _ & -> & _)|(Hcl & _ & _ & fc & ->)]; cbn in Hcl;
    destruct Hok as [Hle Hmax Hex Hfl]; unfold flight_bytes in *; rewrite Hf in *;
    pose proof (zlen_nonneg buf); split; unfold flight_bytes; cbn; try done; try lia.
  congruence.
Qed.

Lemma step_tx_ok o c c' es : op_ok o → tx_ok c → step o c = Some (c', es) → tx_ok c'.
Proof.
  intros Ho Hok. destruct o as [data|bytes| |now| |now| | |r]; cbn [step].
  - intros [= H]. by eapply send_tx_ok.
  - intros [(a & off & d & ->) _]%read_done_frame. destruct Hok. by split.
  - unfold read_error. destruct (close _ _) as [[b c1] es1] eqn:Hc. intros [= <- <-].
    by eapply close_tx_ok.
  - intros [= H]. by eapply write_done_tx_ok.
  - intros [= H]. by eapply write_error_tx_ok.
  - unfold idle_tick. destruct (closed_ c); [by intros [= <- <-]|].
    case_cmp; [|by intros [= <- <-]]. destruct (close _ _) as [[b c1] es1] eqn:Hc.
    intros [= <- <-]. by eapply close_tx_ok.
  - unfold ping_tick, send_ping. destruct (closed_ c); [by intros [= <- <-]|].
    destruct (send _ _) as [c1 es1] eqn:Hs. intros [= <- <-]. eapply send_tx_ok; [|done|done].
    rewrite zlen_pack. by rewrite zlen_nil.
  - unfold stats_tick. destruct (closed_ c); by intros [= <- <-].
  - destruct (close _ _) as [[b c1] es1] eqn:Hc. intros [= <- <-]. by eapply close_tx_ok.
Qed.

(** ** Invariants of runs *)

(** Rule induction over runs: what every step preserves, every run does. *)
Lemma run_invariant (P : channel → Prop) os c c' es :
  (∀ o c c' es, o ∈ os → P c → step o c = Some (c', es) → P c') →
  P c → run os c = Some (c', es) → P c'.
Proof.
  revert c es. induction os as [|o os IH]; intros c es Hstep Hc H; cbn in H; [by simplify_eq|].
  apply bind_Some in H as ([c1 es1] & H1 & ([c2 es2] & H2 & [= <- <-])%bind_Some).
  eapply IH; [|eapply Hstep; [left|exact Hc|exact H1]|exact H2].
  intros. eapply Hstep; [by right|done..].
Qed.

(** Trace induction: an invariant on states together with an accumulating
    property of the effects. *)
Lemma run_trace_invariant (P : channel → list effect → Prop) os c c' es :
  (∀ o c pre c' es, o ∈ os → P c pre → step o c = Some (c', es) → P c' (pre ++ es)) →
  ∀ pre, P c pre → run os c = Some (c', es) → P c' (pre ++ es).
Proof.
  revert c es. induction os as [|o os IH]; intros c es Hstep pre Hc H; cbn in H.
  { simplify_eq. by rewrite app_nil_r. }
  apply bind_Some in H as ([c1 es1] & H1 & ([c2 es2] & H2 & [= <- <-])%bind_Some).
  rewrite app_assoc. eapply IH; [|eapply Hstep; [left|exact Hc|exact H1]|exact H2].
  intros. eapply Hstep; [by right|done..].
Qed.

(** ** Lemmas: the byte stream *)

(** [c] before, [c'] after, [es] in between: with the buffer first, nothing is lost or
    reordered between the accepted buffers and what is handed to [async_write]; with the
    handler first, nothing is handed over. *)
Definition stream_step (c : channel) (es : list effect) (c' : channel) : Prop :=
  handed (concat (write_queue_ c) ++ accepted_bytes es)
  = submitted_bytes es ++ handed (concat (write_queue_ c')).

Lemma try_write_stream c c' es :
  try_write c = (c', es) →
  handed (concat (write_queue_ c)) = submitted_bytes es ++ handed (concat (write_queue_ c'))
  ∧ accepted_bytes es = [].
Proof.
  intros (taken & Hq & [(_ & _ & -> & _)|(-> & -> & ->)] & _)%try_write_spec; [|done].
  rewrite Hq, concat_app, handed_app. cbn. by rewrite app_nil_r.
Qed.

Lemma quiet_stream c c' es :
  accepted_bytes es = [] ∧ submitted_bytes es = [] → write_queue_ c' = write_queue_ c →
  stream_step c es c'.
Proof. intros [H1 H2] H3. unfold stream_step. by rewrite H1, H2, H3, app_nil_r. Qed.

Lemma close_stream r c b c' es : close r c = (b, c', es) → stream_step c es c'.
Proof.
  intros [(_ & _ & -> & ->)|(_ & _ & -> & fc & ->)]%close_spec; apply quiet_stream; try done.
  apply (on_close_quiet r c).
Qed.

Lemma send_stream data c c' es : send data c = (c', es) → stream_step c es c'.
Proof.
  intros [(_ & -> & ->)|[(_ & _ & _ & -> & fc & ->)|Hs]]%send_spec.
  - by apply quiet_stream.
  - apply quiet_stream; [apply (on_close_quiet _ c)|done].
  - destruct Hs as (_ & _ & _ & c1 & es1 & em & pk & -> & [Hw Ha]%try_write_stream & ->).
    unfold stream_step. cbn in Hw. rewrite concat_snoc in Hw.
    change (submitted_bytes (Enqueued data :: es1)) with (submitted_bytes es1).
    rewrite <- Hw. unfold accepted_bytes in *. cbn. by rewrite Ha, app_nil_r.
Qed.

Lemma write_done_stream now c c' es : write_done now c = (c', es) → stream_step c es c'.
Proof.
  unfold write_done. destruct (in_flight c) as [[buf n]|];
    [|intros [= <- <-]; by apply quiet_stream].
  set (c1 := set writing_ _ _). destruct (write_queue_ c1) eqn:Hq.
  - intros [= <- <-]. by apply quiet_stream.
  - intros [Hw Ha]%try_write_stream. unfold stream_step. rewrite Ha, app_nil_r. exact Hw.
Qed.

Lemma step_stream o c c' es : step o c = Some (c', es) → stream_step c es c'.
Proof.
  destruct o as [data|bytes| |now| |now| | |r]; cbn [step].
  - intros [= H]. by eapply send_stream.
  - intros [(a & off & d & ->) (? & ? & _)%rx_effects_quiet]%read_done_frame. by apply quiet_stream.
  - unfold read_error. destruct (close _ _) as [[b c1] es1] eqn:Hc. intros [= <- <-].
    by eapply close_stream.
  - intros [= H]. by eapply write_done_stream.
  - unfold write_error. destruct (in_flight c); [|intros [= <- <-]; by apply quiet_stream].
    destruct (close _ _) as [[b c1] es1] eqn:Hc. intros [= <- <-].
    apply close_stream in Hc. exact Hc.
  - unfold idle_tick. destruct (closed_ c); [intros [= <- <-]; by apply quiet_stream|].
    case_cmp; [|intros [= <- <-]; by apply quiet_stream].
    destruct (close _ _) as [[b c1] es1] eqn:Hc. intros [= <- <-]. by eapply close_stream.
  - unfold ping_tick, send_ping. destruct (closed_ c); [intros [= <- <-]; by apply quiet_stream|].
    destruct (send _ _) as [c1 es1] eqn:Hs. intros [= <- <-].
    apply send_stream in Hs. unfold stream_step in *.
    rewrite accepted_app, submitted_app. cbn. by rewrite !app_nil_r.
  - unfold stats_tick. destruct (closed_ c); intros [= <- <-]; by apply quiet_stream.
  - destruct (close _ _) as [[b c1] es1] eqn:Hc. intros [= <- <-]. by eapply close_stream.
Qed.

(** ** Lemmas: with the handler first, the counter only grows *)

(** Nothing is in flight, and the counter grows by what is accepted. *)
Definition count_step (c : channel) (es : list effect) (c' : channel) : Prop :=
  flight_bytes c' = 0
  ∧ current_queue_bytes c' = current_queue_bytes c + zlen (accepted_bytes es).

Section handler_first.
Context (Hord : arg_order = HandlerFirst).

Lemma quiet_count c c' es :
  accepted_bytes es = [] → flight_bytes c' = 0 →
  current_queue_bytes c' = current_queue_bytes c → count_step c es c'.
Proof. intros Ha Hf Hq. unfold count_step. rewrite Ha, Hq. split; [done|]. symmetry. apply Z.add_0_r. Qed.

Lemma close_count r c b c' es : flight_bytes c = 0 → close r c = (b, c', es) → count_step c es c'.
Proof.
  intros Hf [(_ & _ & -> & ->)|(_ & _ & -> & fc & ->)]%close_spec; apply quiet_count; try done.
  apply (on_close_quiet r c).
Qed.

Lemma try_write_count c c' es : flight_bytes c = 0 → try_write c = (c', es) → count_step c es c'.
Proof.
  intros Hf (taken & _ & [(_ & _ & -> & ->)|(_ & -> & ->)] & _)%try_write_spec;
    apply quiet_count; try done. unfold flight_bytes. cbn. by rewrite handed_last.
Qed.

Lemma send_count data c c' es :
  zlen data < 2 ^ 31 → tx_ok c → flight_bytes c = 0 → send data c = (c', es) → count_step c es c'.
Proof.
  intros Hd [Hle Hmax _ _] Hf [(_ & -> & ->)|[(_ & _ & _ & -> & fc & ->)|Hs]]%send_spec.
  - by apply quiet_count.
  - apply quiet_count; [apply (on_close_quiet _ c)|done|done].
  - destruct Hs as (_ & Hpos & _ & c1 & es1 & em & pk & -> & Hw & ->).
    destruct (try_write_stream _ _ _ Hw) as [_ Ha].
    apply try_write_count in Hw as [Hf' Hq]; [|exact Hf]. split; [exact Hf'|].
    rewrite Ha, zlen_nil, Z.add_0_r in Hq. cbn in Hq. rewrite Hq. unfold accepted_bytes in *. cbn.
    rewrite Ha, app_nil_r. pose proof (zlen_nonneg (concat (write_queue_ c))).
    unfold max_queue_bytes in Hmax. apply u64_small. int_unfold. lia.
Qed.

Lemma write_done_count now c c' es :
  tx_ok c → flight_bytes c = 0 → write_done now c = (c', es) → count_step c es c'.
Proof.
  intros [Hle Hmax _ _] Hf. unfold write_done. destruct (in_flight c) as [[buf n]|] eqn:E;
    [|intros [= <- <-]; by apply quiet_count].
  assert (zlen buf = 0) as Hz by (unfold flight_bytes in Hf; by rewrite E in Hf).
  pose proof (zlen_nonneg (concat (write_queue_ c))). unfold max_queue_bytes in Hmax.
  set (c1 := set writing_ _ _).
  assert (current_queue_bytes c1 = current_queue_bytes c) as Hc1.
  { cbn. rewrite Hz, Z.sub_0_r. apply u64_small. int_unfold. lia. }
  destruct (write_queue_ c1).
  - intros [= <- <-]. by apply quiet_count.
  - intros [Hf' Hq]%try_write_count; [|done]. split; [done|]. by rewrite Hq, Hc1.
Qed.

Lemma step_count o c c' es :
  op_ok o → tx_ok c → flight_bytes c = 0 → step o c = Some (c', es) → count_step c es c'.
Proof.
  intros Ho Hok Hf. destruct o as [data|bytes| |now| |now| | |r]; cbn [step].
  - intros [= H]. by eapply send_count.
  - intros [(a & off & d & ->) (? & ? & _)%rx_effects_quiet]%read_done_frame. by apply quiet_count.
  - unfold read_error. destruct (close _ _) as [[b c1] es1] eqn:Hc. intros [= <- <-].
    by eapply close_count.
  - intros [= H]. by eapply write_done_count.
  - unfold write_error. destruct (in_flight c); [|intros [= <- <-]; by apply quiet_count].
    destruct (close _ _) as [[b c1] es1] eqn:Hc. intros [= <- <-].
    by apply (close_count _ (c <| in_flight := None |>)) in Hc.
  - unfold idle_tick. destruct (closed_ c); [intros [= <- <-]; by apply quiet_count|].
    case_cmp; [|intros [= <- <-]; by apply quiet_count].
    destruct (close _ _) as [[b c1] es1] eqn:Hc. intros [= <- <-]. by eapply close_count.
  - unfold ping_tick, send_ping. destruct (closed_ c); [intros [= <- <-]; by apply quiet_count|].
    destruct (send _ _) as [c1 es1] eqn:Hs. intros [= <- <-].
    apply send_count in Hs; [|by rewrite zlen_pack, zlen_nil|done|done].
    unfold count_step in *. rewrite accepted_app. cbn. by rewrite app_nil_r.
  - unfold stats_tick. destruct (closed_ c); intros [= <- <-]; by apply quiet_count.
  - destruct (close _ _) as [[b c1] es1] eqn:Hc. intros [= <- <-]. by eapply close_count.
Qed.
End handler_first.

(** ** Lemmas: progress of the writer *)

Lemma batch_loop_progress front q out msgs q' :
  zlen front ≤ k_max_batch_bytes →
  batch_loop (front :: q) [] 0 0 = (out, msgs, q') → 0 < msgs.
Proof.
  intros Hf. cbn [batch_loop]. change (0 <? k_max_batch_msgs) with true. cbn iota.
  case_cmp; [lia|]. intros (taken & _ & _ & -> & _)%batch_loop_spec.
  pose proof (zlen_nonneg taken). lia.
Qed.

(** A small enough message at the head is always picked up. *)
Lemma try_write_progress c front q c' es :
  writing_ c = false → write_queue_ c = front :: q → zlen front ≤ k_max_batch_bytes →
  try_write c = (c', es) →
  ∃ taken, taken ≠ [] ∧ front :: q = taken ++ write_queue_ c'
    ∧ es = [AsyncWrite (handed (concat taken))]
    ∧ c' = c <| writing_ := true |> <| write_queue_ := write_queue_ c' |>
             <| in_flight := Some (handed (concat taken), zlen taken) |>.
Proof.
  intros Hw Hq Hf Ht. pose proof Ht as Hts.
  apply try_write_spec in Hts as (taken & Hqt & [(Hne & _ & -> & Hc)|(-> & -> & ->)] & _).
  { exists taken. rewrite <- Hqt. auto. }
  exfalso. unfold try_write in Ht. rewrite Hw in Ht. unfold do_write, make_batch_ in Ht.
  change (write_queue_ (set _ _ c)) with (write_queue_ c) in Ht. rewrite Hq in Ht.
  destruct (batch_loop _ _ _ _) as [[out msgs] q'] eqn:Hb.
  apply batch_loop_progress in Hb; [|done]. destruct (Z.ltb_spec 0 msgs); [|lia].
  injection Ht as Hc _. apply (f_equal writing_) in Hc. cbn in Hc. congruence.
Qed.

(** A message above the batch limit at the head is never picked up. *)
Lemma try_write_blocked c front q :
  write_queue_ c = front :: q → k_max_batch_bytes < zlen front → try_write c = (c, []).
Proof.
  intros Hq Hf. unfold try_write. destruct (writing_ c) eqn:Hw; [done|].
  unfold do_write, make_batch_. cbn. rewrite Hq. cbn [batch_loop].
  change (0 <? k_max_batch_msgs) with true. cbn iota. case_cmp; [|lia]. cbn.
  rewrite <- Hq, <- Hw. by destruct c.
Qed.

(** No lost wake-up, for messages that fit a batch: an open channel whose
    writer is idle has nothing queued, and a busy writer has a write in flight. *)
Record wake_ok (c : channel) : Prop := {
  wk_small : Forall (λ m, zlen m ≤ k_max_batch_bytes) (write_queue_ c);
  wk_idle : writing_ c = false → write_queue_ c = [] ∧ in_flight c = None;
  wk_busy : closed_ c = false → writing_ c = true → in_flight c ≠ None
}.

Definition op_small (o : op) : Prop :=
  match o with Send data => zlen data ≤ k_max_batch_bytes | _ => True end.

Lemma try_write_wake c c' es :
  Forall (λ m, zlen m ≤ k_max_batch_bytes) (write_queue_ c) →
  (writing_ c = false → in_flight c = None) →
  (closed_ c = false → writing_ c = true → in_flight c ≠ None) →
  try_write c = (c', es) → wake_ok c'.
Proof.
  intros Hs Hidle Hbusy Ht. destruct (writing_ c) eqn:Hw.
  { unfold try_write in Ht. rewrite Hw in Ht. injection Ht as <- <-. split; [done| |auto].
    by rewrite Hw. }
  destruct (write_queue_ c) as [|front q] eqn:Hq.
  { unfold try_write, do_write, make_batch_ in Ht. rewrite Hw in Ht. cbn in Ht. rewrite Hq in Ht.
    injection Ht as <- <-. split; cbn; auto; done. }
  apply Forall_cons in Hs as [Hf Hs].
  eapply try_write_progress in Ht as (taken & Hne & Hqt & -> & ->); [|done..].
  split; cbn; [|done|done].
  apply (Forall_cons_2 _ front q) in Hs; [|done]. rewrite Hqt in Hs.
  by apply Forall_app in Hs as [_ Hs].
Qed.

Lemma wake_closed c fc d :
  wake_ok c → wake_ok (c <| closed_ := true |> <| force_closes := fc |> <| drops := d |>).
Proof. intros []. by split. Qed.

Lemma close_wake r c b c' es : wake_ok c → close r c = (b, c', es) → wake_ok c'.
Proof.
  intros Hok [(_ & _ & -> & _)|(_ & _ & _ & fc & ->)]%close_spec; [done|].
  destruct Hok. by split.
Qed.

Lemma send_wake data c c' es :
  zlen data ≤ k_max_batch_bytes → wake_ok c → send data c = (c', es) → wake_ok c'.
Proof.
  intros Hd Hok [(_ & -> & _)|[(_ & _ & _ & _ & fc & ->)|Hs]]%send_spec;
    [done|by apply wake_closed|].
  destruct Hs as (_ & _ & _ & c1 & es1 & em & pk & -> & Hw & _). destruct Hok as [Hs Hi Hb].
  eapply try_write_wake; [..|exact Hw]; cbn; [|naive_solver..].
  apply Forall_app_2; [done|]. by constructor.
Qed.

Lemma step_wake o c c' es : op_small o → wake_ok c → step o c = Some (c', es) → wake_ok c'.
Proof.
  intros Ho Hok. destruct o as [data|bytes| |now| |now| | |r]; cbn [step].
  - intros [= H]. by eapply send_wake.
  - intros [(a & off & d & ->) _]%read_done_frame. destruct Hok. by split.
  - unfold read_error. destruct (close _ _) as [[b c1] es1] eqn:Hc. intros [= <- <-].
    by eapply close_wake.
  - intros [= H]. revert H. unfold write_done.
    destruct (in_flight c) as [[buf n]|] eqn:Hf; [|by intros [= <- <-]].
    set (c1 := set writing_ _ _). destruct Hok as [Hs Hi Hb].
    destruct (write_queue_ c1) eqn:Hq.
    + intros [= <- <-]. split; cbn; [done| |done]. intros _. split; [exact Hq|done].
    + apply try_write_wake; done.
  - unfold write_error. destruct (in_flight c) as [[buf n]|] eqn:Hf; [|by intros [= <- <-]].
    destruct (close _ _) as [[b c1] es1] eqn:Hc. intros [= <- <-].
    destruct Hok as [Hs Hi Hb].
    apply close_spec in Hc as [(Hcl & _ & -> & _)|(Hcl & _ & _ & fc & ->)]; cbn in Hcl;
      split; cbn; try done; try congruence; intros Hw; destruct (Hi Hw); congruence.
  - unfold idle_tick. destruct (closed_ c); [by intros [= <- <-]|].
    case_cmp; [|by intros [= <- <-]]. destruct (close _ _) as [[b c1] es1] eqn:Hc.
    intros [= <- <-]. by eapply close_wake.
  - unfold ping_tick, send_ping. destruct (closed_ c); [by intros [= <- <-]|].
    destruct (send _ _) as [c1 es1] eqn:Hs. intros [= <- <-]. eapply send_wake; [|done|done].
    rewrite zlen_pack, zlen_nil. done.
  - unfold stats_tick. destruct (closed_ c); by intros [= <- <-].
  - destruct (close _ _) as [[b c1] es1] eqn:Hc. intros [= <- <-]. by eapply close_wake.
Qed.

(** One completed write of an open channel: the queue shrinks, or everything
    has been written. *)
Lemma write_done_drains now c c' es :
  wake_ok c → closed_ c = false → in_flight c ≠ None → write_done now c = (c', es) →
  (write_queue_ c = [] ∧ write_queue_ c' = [] ∧ in_flight c' = None)
  ∨ (length (write_queue_ c') < length (write_queue_ c))%nat ∧ in_flight c' ≠ None.
Proof.
  intros [Hs Hi Hb] Hcl Hf. unfold write_done.
  destruct (in_flight c) as [[buf n]|]; [|done]. clear Hf.
  set (c1 := set writing_ _ _). destruct (write_queue_ c1) as [|front q] eqn:Hq.
  { intros [= <- <-]. by left. }
  change (write_queue_ c) with (write_queue_ c1) in *. rewrite Hq in *.
  apply Forall_cons in Hs as [Hfr _]. intros Ht. right.
  eapply try_write_progress in Ht as (taken & Hne & Hqt & _ & ->); [|done..]. split; [|done].
  rewrite Hqt, length_app. cbn. destruct taken; [done|]. cbn. lia.
Qed.

(** ** Lemmas: closing and the clock *)

(** Between [c] and [c'] the channel reported at most one close, exactly when
    [closed_] was set, and the receive clock did not move. *)
Definition close_step (c : channel) (es : list effect) (c' : channel) : Prop :=
  handler_ c' = handler_ c ∧ last_recv_ms c' = last_recv_ms c ∧
  (closed_ c' = closed_ c ∧ close_events es = []
   ∨ closed_ c = false ∧ closed_ c' = true
     ∧ ∃ r, close_events es = if handler_ c then [r] else []).

Lemma close_close_step r c b c' es : close r c = (b, c', es) → close_step c es c'.
Proof.
  intros [(_ & _ & -> & ->)|(Hcl & _ & -> & fc & ->)]%close_spec; (split; [done|split; [done|]]).
  - by left.
  - right. split_and!; [done|done|]. exists r. cbn. unfold on_close.
    by destruct (handler_ c), (close_callback_ c).
Qed.

Lemma try_write_close_step c c' es : try_write c = (c', es) → close_step c es c'.
Proof.
  intros (taken & _ & [(_ & _ & -> & ->)|(_ & -> & ->)] & _)%try_write_spec;
    split_and!; try done; by left.
Qed.

Lemma send_close_step data c c' es : send data c = (c', es) → close_step c es c'.
Proof.
  intros [(_ & -> & ->)|[(Hcl & _ & _ & -> & fc & ->)|Hs]]%send_spec.
  - split_and!; try done; by left.
  - split_and!; [done|done|]. right. split_and!; [done|done|]. exists close_force_closed.
    cbn. unfold on_close. by destruct (handler_ c), (close_callback_ c).
  - destruct Hs as (_ & _ & _ & c1 & es1 & em & pk & -> & Hw%try_write_close_step & ->). exact Hw.
Qed.

Lemma step_close o c c' es : step o c = Some (c', es) → close_step c es c'.
Proof.
  assert (∀ c, close_step c [] c) as Hrefl by (intros; split_and!; try done; by left).
  destruct o as [data|bytes| |now| |now| | |r]; cbn [step].
  - intros [= H]. by eapply send_close_step.
  - intros [(a & off & d & ->) (_ & _ & H)%rx_effects_quiet]%read_done_frame.
    split_and!; try done. by left.
  - unfold read_error. destruct (close _ _) as [[b c1] es1] eqn:Hc. intros [= <- <-].
    by eapply close_close_step.
  - intros [= H]. revert H. unfold write_done. destruct (in_flight c) as [[buf n]|];
      [|intros [= <- <-]; by apply Hrefl].
    set (c1 := set writing_ _ _). destruct (write_queue_ c1);
      [intros [= <- <-]; exact (Hrefl c)|]. intros H%try_write_close_step. exact H.
  - unfold write_error. destruct (in_flight c); [|intros [= <- <-]; by apply Hrefl].
    destruct (close _ _) as [[b c1] es1] eqn:Hc. intros [= <- <-].
    apply close_close_step in Hc. exact Hc.
  - unfold idle_tick. destruct (closed_ c) eqn:Hcl; [intros [= <- <-]; by apply Hrefl|].
    case_cmp; [|intros [= <- <-]; exact (Hrefl c)].
    destruct (close _ _) as [[b c1] es1] eqn:Hc. intros [= <- <-]. by eapply close_close_step.
  - unfold ping_tick, send_ping. destruct (closed_ c); [intros [= <- <-]; by apply Hrefl|].
    destruct (send _ _) as [c1 es1] eqn:Hs. intros [= <- <-].
    apply send_close_step in Hs. unfold close_step in *. by rewrite close_events_app, app_nil_r.
  - unfold stats_tick. destruct (closed_ c); intros [= <- <-]; exact (Hrefl c).
  - destruct (close _ _) as [[b c1] es1] eqn:Hc. intros [= <- <-]. by eapply close_close_step.
Qed.

(** ** Lemmas: the send side leaves the receive path alone *)

Definition rx_same (c c' : channel) : Prop :=
  frame_acc_ c' = frame_acc_ c ∧ frame_acc_offset_ c' = frame_acc_offset_ c
  ∧ on_frame_ c' = on_frame_ c ∧ (is_u64 (drops c) → is_u64 (drops c')).

Lemma close_rx r c b c' es : close r c = (b, c', es) → rx_same c c'.
Proof. intros [(_ & _ & -> & _)|(_ & _ & _ & fc & ->)]%close_spec; done. Qed.

Lemma try_write_rx c c' es : try_write c = (c', es) → rx_same c c'.
Proof. intros (taken & _ & [(_ & _ & _ & ->)|(_ & _ & ->)] & _)%try_write_spec; done. Qed.

Lemma send_rx data c c' es : send data c = (c', es) → rx_same c c'.
Proof.
  intros [(_ & -> & _)|[(_ & _ & _ & _ & fc & ->)|Hs]]%send_spec; [done| |].
  - split_and!; try done. intros _. apply u64_range.
  - destruct Hs as (_ & _ & _ & c1 & es1 & em & pk & -> & Hw%try_write_rx & _). exact Hw.
Qed.

Lemma step_rx o c c' es :
  step o c = Some (c', es) → (∃ bytes, o = ReadDone bytes) ∨ rx_same c c'.
Proof.
  destruct o as [data|bytes| |now| |now| | |r]; cbn [step]; [|eauto|..]; intros H; right; revert H.
  - intros [= H]. by eapply send_rx.
  - unfold read_error. destruct (close _ _) as [[b c1] es1] eqn:Hc. intros [= <- <-].
    by eapply close_rx.
  - intros [= H]. revert H. unfold write_done. destruct (in_flight c) as [[buf n]|];
      [|by intros [= <- <-]].
    set (c1 := set writing_ _ _). destruct (write_queue_ c1); [by intros [= <- <-]|].
    intros H%try_write_rx. exact H.
  - unfold write_error. destruct (in_flight c); [|by intros [= <- <-]].
    destruct (close _ _) as [[b c1] es1] eqn:Hc. intros [= <- <-]. apply close_rx in Hc. exact Hc.
  - unfold idle_tick. destruct (closed_ c); [by intros [= <- <-]|]. case_cmp; [|by intros [= <- <-]].
    destruct (close _ _) as [[b c1] es1] eqn:Hc. intros [= <- <-]. by eapply close_rx.
  - unfold ping_tick, send_ping. destruct (closed_ c); [by intros [= <- <-]|].
    destruct (send _ _) as [c1 es1] eqn:Hs. intros [= <- <-]. by eapply send_rx.
  - unfold stats_tick. destruct (closed_ c); by intros [= <- <-].
  - destruct (close _ _) as [[b c1] es1] eqn:Hc. intros [= <- <-]. by eapply close_rx.
Qed.

End writer.
End asio_channel.
