(* ===== verification/ChannelLaws.v ===== *)
(** * What the channel guarantees over whole runs

    Properties of [asio_channel] over arbitrary sequences of its callbacks,
    from the moment [start] has run: the bounded send queue, the order of the
    bytes on the wire, progress of the writer, the close protocol, and the
    receive path against an abstract stream decoder. *)

From S2P Require Import Prelude FrameCodec Channel.
Import frame_codec asio_channel.

(** ** The abstract stream decoder *)

Definition delivery : Type := header_v1 * list Z * bool.

(** [framed bs fs rest]: the stream [bs] is the frames [fs] followed by the
    incomplete frame [rest]. *)
Inductive framed : list Z → list delivery → list Z → Prop :=
| framed_wait bs : decode_one bs = Wait → framed bs [] bs
| framed_got bs h p ok bs' fs rest :
    decode_one bs = Got h p ok bs' → framed bs' fs rest →
    framed bs ((h, p, ok) :: fs) rest.

(** As [framed], but an impossible length field throws away what is buffered. *)
Inductive drains : list Z → list delivery → list Z → Prop :=
| drains_wait bs : decode_one bs = Wait → drains bs [] bs
| drains_desync bs : decode_one bs = Desync → drains bs [] []
| drains_got bs h p ok bs' fs rest :
    decode_one bs = Got h p ok bs' → drains bs' fs rest →
    drains bs ((h, p, ok) :: fs) rest.

(** The abstract receiver: a pending suffix, drained at every chunk. *)
Inductive receives : list Z → list (list Z) → list delivery → list Z → Prop :=
| receives_nil pend : receives pend [] [] pend
| receives_cons pend chunk chunks fs fs' pend' pend'' :
    drains (pend ++ chunk) fs pend' → receives pend' chunks fs' pend'' →
    receives pend (chunk :: chunks) (fs ++ fs') pend''.

(** The frames handed to the frame callback: those with a matching CRC. *)
Definition good_frames (id : Z) (fs : list delivery) : list (Z * Z * list Z) :=
  omap (λ '(h, p, ok), if ok : bool then Some (id, cmd h, p) else None) fs.
Definition bad_frames (fs : list delivery) : Z :=
  zlen (filter (λ '(_, _, ok), ok = false) fs).

Definition unread (c : channel) : list Z := drop (Z.to_nat (frame_acc_offset_ c)) (frame_acc_ c).

Lemma framed_drains bs fs rest : framed bs fs rest → drains bs fs rest.
Proof. induction 1; econstructor; eauto. Qed.

(** More bytes do not change a verdict that was not [Wait]. *)
Lemma decode_one_app bs k :
  match decode_one bs with
  | Wait => True
  | Desync => decode_one (bs ++ k) = Desync
  | Got h p ok rest => decode_one (bs ++ k) = Got h p ok (rest ++ k)
  end.
Proof.
  destruct bs as [|b0 [|b1 [|b2 [|b3 tl]]]]; try exact I. cbn [app].
  unfold decode_one. set (len := join32 b0 b1 b2 b3).
  destruct (k_max_frame_bytes <? len); [done|].
  pose proof (zlen_nonneg k). rewrite !zlen_cons, zlen_app.
  destruct (Z.ltb_spec (1 + (1 + (1 + (1 + zlen tl)))) (4 + len)); [exact I|].
  destruct (Z.ltb_spec (1 + (1 + (1 + (1 + (zlen tl + zlen k))))) (4 + len)); [lia|].
  unfold k_header_after_len. destruct (Z.ltb_spec len 12); [done|].
  destruct (list_ge4 tl) as (c0 & c1 & f & v & tl1 & ->); [lia|]. autorewrite with zlen in *.
  destruct (list_ge4 tl1) as (s0 & s1 & s2 & s3 & tl2 & ->); [lia|]. autorewrite with zlen in *.
  destruct (list_ge4 tl2) as (r0 & r1 & r2 & r3 & tl3 & ->); [lia|]. autorewrite with zlen in *.
  cbn [app]. rewrite take_app_le, drop_app_le by (unfold zlen in *; lia). done.
Qed.

(** Cutting a well-framed stream anywhere: the first part delivers a prefix of
    the frames, and its incomplete tail completes with the second part. *)
Lemma framed_split a b fs rest :
  framed (a ++ b) fs rest →
  ∃ fs1 fs2 r, framed a fs1 r ∧ framed (r ++ b) fs2 rest ∧ fs = fs1 ++ fs2.
Proof.
  remember (length a) as n eqn:Hn. revert a fs Hn.
  induction (lt_wf n) as [n _ IH]. intros a fs -> Hf.
  pose proof (decode_one_app a b) as Ha. destruct (decode_one a) as [| |h p ok r] eqn:Hd.
  - exists [], fs, a. split_and!; [by constructor|done|done].
  - inversion Hf; congruence.
  - inversion Hf as [|? h' p' ok' bs' fs' ? Hd' Hf']; [congruence|]. simplify_eq.
    rewrite Ha in Hd'. simplify_eq.
    pose proof (decode_got_rest _ _ _ _ _ Hd) as (hd & Heq & Hhd).
    destruct (IH (length r)) with r fs' as (fs1 & fs2 & r' & H1 & H2 & ->); [|done..|].
    { rewrite Heq, !length_app. lia. }
    exists ((h', p', ok') :: fs1), fs2, r'. split_and!; [by econstructor|done|done].
Qed.

Lemma framed_receives pend chunks fs rest :
  decode_one pend = Wait → framed (pend ++ concat chunks) fs rest → receives pend chunks fs rest.
Proof.
  revert pend fs. induction chunks as [|ch chunks IH]; intros pend fs Hp Hf; cbn in Hf.
  { rewrite app_nil_r in Hf. inversion Hf; [constructor|congruence]. }
  rewrite app_assoc in Hf. apply framed_split in Hf as (fs1 & fs2 & r & H1 & H2 & ->).
  econstructor; [by apply framed_drains|]. apply IH; [|done].
  clear -H1. by induction H1.
Qed.

(** ** The receive path implements the abstract receiver *)

Section laws.
Context {AO : ArgOrder}.

(** Parsing state between two reads. *)
Record rx_ok (c : channel) : Prop := {
  rx_bytes : Forall is_u8 (frame_acc_ c);
  rx_off : 0 ≤ frame_acc_offset_ c ≤ zlen (frame_acc_ c) / 2
}.

Lemma zlen_drop {A} n (l : list A) : 0 ≤ n ≤ zlen l → zlen (drop (Z.to_nat n) l) = zlen l - n.
Proof. intros. unfold zlen in *. rewrite length_drop. lia. Qed.

Lemma drops_u64 d k l : u64 (u64 (d + k) + l) = u64 (d + (k + l)).
Proof. int_unfold. rewrite Z.add_mod_idemp_l by lia. f_equal. lia. Qed.

(** The parse loop terminates within its fuel, stays inside the buffer and
    drains what the decoder drains. *)
Lemma parse_loop_drains fuel c fs rest :
  Forall is_u8 (frame_acc_ c) → 0 ≤ frame_acc_offset_ c ≤ zlen (frame_acc_ c) →
  zlen (frame_acc_ c) < 2 ^ 63 → is_u64 (drops c) → on_frame_ c = true →
  (length (unread c) < fuel)%nat → drains (unread c) fs rest →
  ∃ off es, parse_loop fuel c = Some (c <| frame_acc_offset_ := off |>
                                        <| drops := u64 (drops c + bad_frames fs) |>, es)
    ∧ 0 ≤ off ≤ zlen (frame_acc_ c) ∧ rest = drop (Z.to_nat off) (frame_acc_ c)
    ∧ frames es = good_frames (channel_id_ c) fs.
Proof.
  intros Hb Hoff Hmax. revert c fs Hb Hoff Hmax.
  induction fuel as [|fuel IH]; intros c fs Hb Hoff Hmax Hdr Hcb Hfuel Hd; [lia|].
  cbn [parse_loop]. rewrite try_parse_one_refines by done. fold (unread c).
  inversion Hd as [? E|? E|? h p ok bs' fs' ? E Hd']; subst; rewrite E; cbn [offset_after].
  - exists (frame_acc_offset_ c), []. split_and!; try done; try lia. do 2 f_equal. unfold bad_frames. cbn.
    rewrite Z.add_0_r, u64_small by done. by destruct c.
  - exists (zlen (frame_acc_ c)), []. split_and!; try done; try lia.
    + do 2 f_equal. unfold bad_frames. cbn. rewrite Z.add_0_r, u64_small by done. by destruct c.
    + symmetry. apply drop_ge. unfold zlen. lia.
  - pose proof (decode_got_rest _ _ _ _ _ E) as (hd & Heq & Hhd).
    pose proof (zlen_drop (frame_acc_offset_ c) (frame_acc_ c) Hoff) as Hz. fold (unread c) in Hz.
    rewrite Heq in Hz. autorewrite with zlen in Hz. assert (zlen hd = 16) by (unfold zlen; lia).
    pose proof (zlen_nonneg p). pose proof (zlen_nonneg bs').
    set (off := zlen (frame_acc_ c) - zlen bs').
    set (c1 := c <| frame_acc_offset_ := off |>).
    set (c2 := if ok then c1 else c1 <| drops ::= λ n, u64 (n + 1) |>).
    assert (unread c2 = bs') as Hun.
    { unfold unread in *. destruct ok; cbn; unfold off.
      all: replace (Z.to_nat (zlen (frame_acc_ c) - zlen bs'))
        with (Z.to_nat (frame_acc_offset_ c) + length (hd ++ p))%nat
        by (rewrite length_app; unfold zlen in *; lia).
      all: by rewrite <- drop_drop, Heq, app_assoc, drop_app_length. }
    assert (is_u64 (drops c2)) as Hdr2 by (destruct ok; [done|apply u64_range]).
    destruct (IH c2 fs') as (off' & es & Hpl & Hoff' & Hrest & Hfr); try (by destruct ok).
    { destruct ok; cbn; unfold off; lia. }
    { rewrite Hun. apply (f_equal length) in Heq. rewrite !length_app in Heq. lia. }
    { by rewrite Hun. }
    subst c2 c1 off. destruct ok; cbn in *.
    + rewrite Hpl. cbn. rewrite Hcb. eexists _, _. split; [reflexivity|]. split_and!; try done; try lia.
      cbn. f_equal. exact Hfr.
    + rewrite Hpl. exists off', es. split; [|split_and!; done || lia]. do 2 f_equal.
      rewrite drops_u64. unfold bad_frames. by rewrite filter_cons_True, zlen_cons by done.
Qed.

(** Every buffer drains in one way, and consumes at least 16 bytes per frame. *)
Lemma drains_total bs : ∃ fs rest, drains bs fs rest.
Proof.
  remember (length bs) as n eqn:Hn. revert bs Hn. induction (lt_wf n) as [n _ IH]. intros bs ->.
  destruct (decode_one bs) as [| |h p ok bs'] eqn:Hd; [eauto using drains..|].
  pose proof (decode_got_rest _ _ _ _ _ Hd) as (hd & -> & Hhd).
  destruct (IH (length bs')) with bs' as (fs & rest & Hr); [|done|eauto using drains].
  rewrite !length_app. lia.
Qed.

Lemma drains_length bs fs rest : drains bs fs rest → zlen rest ≤ zlen bs.
Proof.
  induction 1 as [| |bs h p ok bs' fs rest Hd _ IH]; [done|apply zlen_nonneg|].
  pose proof (decode_got_rest _ _ _ _ _ Hd) as (hd & -> & _). autorewrite with zlen.
  pose proof (zlen_nonneg hd). pose proof (zlen_nonneg p). lia.
Qed.

Lemma compact_unread c : unread (compact c) = unread c.
Proof. unfold compact. case_cmp; [|done]. unfold unread. cbn. by rewrite drop_0. Qed.

#[local] Arguments frames : simpl never.
#[local] Arguments good_frames : simpl never.

(** One read: the receive path delivers what the abstract receiver delivers. *)
Lemma read_done_receives c chunk fs rest :
  rx_ok c → Forall is_u8 chunk → 2 * zlen (unread c) + zlen chunk < 2 ^ 63 - 1 →
  is_u64 (drops c) → on_frame_ c = true → drains (unread c ++ chunk) fs rest →
  ∃ a off es,
    let c' := c <| frame_acc_ := a |> <| frame_acc_offset_ := off |>
                <| drops := u64 (drops c + bad_frames fs) |> in
    read_done chunk c = Some (c', es) ∧ rx_ok c' ∧ unread c' = rest
    ∧ frames es = good_frames (channel_id_ c) fs.
Proof.
  intros [Hb Ho] Hch Hsm Hdr Hcb Hd. unfold read_done, parse_frames_.
  set (c1 := set frame_acc_ _ c).
  pose proof (zlen_drop (frame_acc_offset_ c) (frame_acc_ c)) as Hz. fold (unread c) in Hz.
  pose proof (zlen_nonneg (frame_acc_ c)). pose proof (zlen_nonneg chunk).
  pose proof (Z.div_mod (zlen (frame_acc_ c)) 2). pose proof (Z.mod_pos_bound (zlen (frame_acc_ c)) 2).
  assert (zlen (unread c) = zlen (frame_acc_ c) - frame_acc_offset_ c) as Hz' by (apply Hz; lia).
  assert (unread c1 = unread c ++ chunk) as Hun.
  { unfold unread. cbn. apply drop_app_le. unfold zlen in *. lia. }
  destruct (parse_loop_drains (S (length (frame_acc_ c1))) c1 fs rest)
    as (off & es & Hpl & Hoff & -> & Hfr); try done; cbn.
  { by apply Forall_app_2. }
  { rewrite zlen_app. lia. }
  { rewrite zlen_app. lia. }
  { unfold unread. rewrite length_drop. cbn. lia. }
  { by rewrite Hun. }
  cbn in Hpl, Hoff. rewrite Hpl. cbn. unfold compact. cbn.
  case_cmp; eexists _, _, _; (split_and!; [reflexivity| | |by rewrite frames_app, app_nil_r]).
  - split; cbn; [by apply Forall_drop, Forall_app_2|].
    split; [done|]. apply Z.div_pos; [apply zlen_nonneg|done].
  - unfold unread. cbn. by rewrite drop_0.
  - split; cbn; [by apply Forall_app_2|lia].
  - done.
Qed.

(** A run of reads against the abstract receiver. *)
Lemma reads_receive c chunks :
  rx_ok c → Forall (Forall is_u8) chunks →
  2 * (zlen (unread c) + zlen (concat chunks)) < 2 ^ 63 - 1 →
  is_u64 (drops c) → on_frame_ c = true →
  ∀ fs rest, receives (unread c) chunks fs rest →
  ∃ c' es, run (ReadDone <$> chunks) c = Some (c', es) ∧ unread c' = rest
    ∧ frames es = good_frames (channel_id_ c) fs
    ∧ drops c' = u64 (drops c + bad_frames fs) ∧ closed_ c' = closed_ c.
Proof.
  revert c. induction chunks as [|ch chunks IH]; intros c Hok Hch Hsm Hdr Hcb fs rest Hr;
    inversion Hr as [|? ? ? fs1 fs2 pend' ? Hd Hr']; subst.
  { exists c, []. split_and!; try done. unfold bad_frames. cbn.
    by rewrite Z.add_0_r, u64_small. }
  apply Forall_cons in Hch as [Hc Hch]. cbn in Hsm. rewrite zlen_app in Hsm.
  pose proof (zlen_nonneg (unread c)). pose proof (zlen_nonneg (concat chunks)).
  pose proof (zlen_nonneg ch). pose proof (drains_length _ _ _ Hd) as Hl. rewrite zlen_app in Hl.
  destruct (read_done_receives c ch fs1 pend') as (a & off & es & Hrd & Hok' & Hun & Hfr);
    try done; [lia|].
  destruct (IH _ Hok') with fs2 rest as (c' & es' & Hrun & Hun' & Hfr' & Hdr' & Hcl');
    try done; [rewrite Hun; lia|apply u64_range|by rewrite Hun|].
  exists c', (es ++ es'). cbn [fmap list_fmap run step]. rewrite Hrd. cbn [mbind option_bind].
  rewrite Hrun. cbn [mbind option_bind]. split_and!; try done.
  - rewrite frames_app, Hfr, Hfr'. unfold good_frames. by rewrite omap_app.
  - rewrite Hdr'. cbn. rewrite drops_u64. unfold bad_frames. by rewrite filter_app, zlen_app.
Qed.

(** ** Totality of runs *)

Definition op_bytes (o : op) : list Z := match o with ReadDone bytes => bytes | _ => [] end.
Definition read_bytes (os : list op) : list Z := concat (op_bytes <$> os).

(** Operations that asio and the callers can issue: bytes are bytes, and a
    [send] has an [int] size. *)
Definition valid_op (o : op) : Prop := op_ok o ∧ Forall is_u8 (op_bytes o).

#[global] Instance valid_op_dec o : Decision (valid_op o).
Proof. unfold valid_op, op_ok. destruct o; apply _. Defined.

Lemma step_total o c :
  rx_ok c → valid_op o → 2 * zlen (unread c) + zlen (op_bytes o) < 2 ^ 63 - 1 →
  is_u64 (drops c) → on_frame_ c = true →
  ∃ c' es, step o c = Some (c', es) ∧ rx_ok c' ∧ is_u64 (drops c') ∧ on_frame_ c' = true
    ∧ zlen (unread c') ≤ zlen (unread c) + zlen (op_bytes o).
Proof.
  intros Hok [_ Hb] Hsm Hdr Hcb.
  assert ((∃ bytes, o = ReadDone bytes)
    ∨ (∀ bytes, o ≠ ReadDone bytes) ∧ ∃ r, step o c = Some r) as [[bytes ->]|[Hn [[c' es] Hs]]].
  { destruct o; cbn [step]; eauto; right; eauto. destruct (close _ _) as [[]]. eauto. }
  - destruct (drains_total (unread c ++ bytes)) as (fs & rest & Hd).
    destruct (read_done_receives c bytes fs rest) as (a & off & es & Hr & Hok' & Hun & _); try done.
    cbn [step]. eexists _, es.
    split_and!; [exact Hr|exact Hok'|apply u64_range|exact Hcb|].
    rewrite Hun, <- zlen_app. by eapply drains_length.
  - exists c', es. destruct (step_rx _ _ _ _ Hs) as [[bytes ->]|(Ha & Ho & Hf & Hd)];
      [by destruct (Hn bytes)|].
    destruct Hok as [Hok1 Hok2]. unfold unread. rewrite Ha, Ho, Hf.
    pose proof (zlen_nonneg (op_bytes o)). split_and!; auto; [|lia].
    split; [by rewrite Ha|by rewrite Ha, Ho].
Qed.

Lemma run_total os c :
  rx_ok c → Forall valid_op os → 2 * (zlen (unread c) + zlen (read_bytes os)) < 2 ^ 63 - 1 →
  is_u64 (drops c) → on_frame_ c = true → ∃ c' es, run os c = Some (c', es).
Proof.
  revert c. induction os as [|o os IH]; intros c Hok Hv Hsm Hdr Hcb; [by eauto|].
  apply Forall_cons in Hv as [Ho Hv]. unfold read_bytes in Hsm. cbn in Hsm.
  fold (read_bytes os) in Hsm. rewrite zlen_app in Hsm. pose proof (zlen_nonneg (read_bytes os)).
  pose proof (zlen_nonneg (unread c)). pose proof (zlen_nonneg (op_bytes o)).
  destruct (step_total o c) as (c1 & es1 & Hs & Hok1 & Hd1 & Hc1 & Hl); try done; [lia|].
  destruct (IH c1) as (c2 & es2 & Hr); try done; [lia|].
  exists c2, (es1 ++ es2). cbn. by rewrite Hs; cbn; rewrite Hr.
Qed.

Lemma run_cons o os c c' es :
  run (o :: os) c = Some (c', es) →
  ∃ c1 es1 es2, step o c = Some (c1, es1) ∧ run os c1 = Some (c', es2) ∧ es = es1 ++ es2.
Proof.
  cbn. intros ([c1 es1] & H1 & ([c2 es2] & H2 & [= <- <-])%bind_Some)%bind_Some. eauto 10.
Qed.

Lemma step_send data c : step (Send data) c = Some (send data c).
Proof. done. Qed.

(** [run_trace_invariant] from the empty trace. *)
Lemma run_trace (P : channel → list effect → Prop) os c c' es :
  run os c = Some (c', es) → P c [] →
  (∀ o c pre c' es, P c pre → step o c = Some (c', es) → P c' (pre ++ es)) → P c' es.
Proof.
  intros Hr Hc Hs. rewrite <- (app_nil_l es). eapply run_trace_invariant; eauto.
Qed.

(** ** A channel just after [start] *)

Definition opened (t0 id : Z) : channel := (start t0 (new_channel id)).1.

Lemma opened_rx_ok t0 id : rx_ok (opened t0 id).
Proof. split; [constructor|done]. Qed.
Lemma opened_tx_ok t0 id : tx_ok (opened t0 id).
Proof. split; done. Qed.
Lemma opened_wake_ok t0 id : wake_ok (opened t0 id).
Proof. split; done. Qed.

#[local] Hint Resolve opened_rx_ok opened_tx_ok opened_wake_ok : core.

Lemma receives_total pend chunks : ∃ fs rest, receives pend chunks fs rest.
Proof.
  revert pend. induction chunks as [|ch chunks IH]; intros pend; [eauto using receives|].
  destruct (drains_total (pend ++ ch)) as (fs & r & Hd). destruct (IH r) as (fs' & rest & Hr).
  eauto using receives.
Qed.

(** A message as [pack] takes it. *)
Record packet := Packet
  { p_cmd : Z; p_flags : Z; p_ver : Z; p_seq : Z; p_payload : list Z }.
Definition pack_packet (p : packet) : list Z :=
  pack (p_cmd p) (p_flags p) (p_ver p) (p_seq p) (p_payload p).
Definition packet_ok (p : packet) : Prop :=
  frame_ok (p_cmd p) (p_flags p) (p_ver p) (p_seq p) (p_payload p).
#[global] Instance packet_ok_dec p : Decision (packet_ok p).
Proof. unfold packet_ok. apply _. Defined.

Lemma pack_packet_bytes p : packet_ok p → Forall is_u8 (pack_packet p).
Proof. apply pack_bytes. Qed.

Definition packet_delivery (p : packet) : delivery :=
  (Header (p_cmd p) (p_flags p) (p_ver p) (p_seq p) (crc32 (p_payload p)), p_payload p, true).

Lemma packets_framed ps rest :
  Forall packet_ok ps → decode_one rest = Wait →
  framed (concat (pack_packet <$> ps) ++ rest) (packet_delivery <$> ps) rest.
Proof.
  intros Hok Hw. induction Hok as [|p ps Hp _ IH]; [by constructor|].
  rewrite !fmap_cons. cbn [concat]. rewrite <- app_assoc.
  unfold pack_packet at 1, packet_delivery at 1.
  refine (framed_got _ _ _ _ _ _ _ _ IH). exact (decode_pack _ _ _ _ _ _ Hp).
Qed.

Lemma good_packets id ps :
  good_frames id (packet_delivery <$> ps) = (λ p, (id, p_cmd p, p_payload p)) <$> ps.
Proof. induction ps as [|p ps IH]; [done|]. rewrite !fmap_cons, <- IH. reflexivity. Qed.
Lemma bad_packets ps : bad_frames (packet_delivery <$> ps) = 0.
Proof.
  induction ps as [|p ps IH]; [done|]. rewrite fmap_cons. unfold bad_frames in *.
  by rewrite filter_cons_False.
Qed.

(** Once the head of the queue does not fit a batch, it stays there. *)
Definition blocked (data : list Z) (c : channel) : Prop :=
  in_flight c = None ∧ ∃ q, write_queue_ c = data :: q.

Lemma send_blocked data d c c' es :
  k_max_batch_bytes < zlen data → blocked data c → send d c = (c', es) →
  blocked data c' ∧ submitted_bytes es = [].
Proof.
  intros Hd [Hf [q Hq]] [(_ & -> & ->)|[(_ & _ & _ & -> & fc & ->)|Hs]]%send_spec.
  - split; [|done]. split; eauto.
  - split; [split; eauto|]. apply (on_close_quiet _ c).
  - destruct Hs as (_ & _ & _ & c1 & es1 & em & pk & -> & Hw & ->).
    rewrite (try_write_blocked _ data (q ++ [d])) in Hw; [|cbn; by rewrite Hq|done].
    injection Hw as <- <-. split; [|done]. split; [done|]. exists (q ++ [d]). cbn. by rewrite Hq.
Qed.

Lemma close_blocked data r c b c' es :
  blocked data c → close r c = (b, c', es) → blocked data c' ∧ submitted_bytes es = [].
Proof.
  intros [Hf [q Hq]] [(_ & _ & -> & ->)|(_ & _ & -> & fc & ->)]%close_spec.
  - split; [|done]. split; eauto.
  - split; [split; eauto|]. apply (on_close_quiet _ c).
Qed.

Lemma step_blocked data o c c' es :
  k_max_batch_bytes < zlen data → blocked data c → step o c = Some (c', es) →
  blocked data c' ∧ submitted_bytes es = [].
Proof.
  intros Hd Hb. destruct o as [d|bytes| |now| |now| | |r]; cbn [step].
  - intros [= H]. by eapply send_blocked.
  - intros [(a & off & n & ->) (_ & ? & _)%rx_effects_quiet]%read_done_frame. done.
  - unfold read_error. destruct (close _ _) as [[b c1] es1] eqn:Hc. intros [= <- <-].
    by eapply close_blocked.
  - unfold write_done. destruct Hb as [Hf Hq] eqn:Eb. rewrite Hf. by intros [= <- <-].
  - unfold write_error. destruct Hb as [Hf Hq] eqn:Eb. rewrite Hf. by intros [= <- <-].
  - unfold idle_tick. destruct (closed_ c); [by intros [= <- <-]|]. case_cmp; [|by intros [= <- <-]].
    destruct (close _ _) as [[b c1] es1] eqn:Hc. intros [= <- <-]. by eapply close_blocked.
  - unfold ping_tick, send_ping. destruct (closed_ c); [by intros [= <- <-]|].
    destruct (send _ _) as [c1 es1] eqn:Hs. intros [= <- <-].
    apply (send_blocked data) in Hs as [? He]; [|done..]. split; [done|].
    by rewrite submitted_app, He.
  - unfold stats_tick. destruct (closed_ c); by intros [= <- <-].
  - destruct (close _ _) as [[b c1] es1] eqn:Hc. intros [= <- <-]. by eapply close_blocked.
Qed.

(** An oversized message sent to an idle channel is accepted and blocks it. *)
Lemma send_oversized data c c' es :
  65536 < zlen data ≤ 262144 → closed_ c = false → current_queue_bytes c = 0 →
  write_queue_ c = [] → in_flight c = None → send data c = (c', es) →
  blocked data c' ∧ submitted_bytes es = [].
Proof.
  intros Hd Hcl Hz Hq Hf [([Hs|Hs] & _)|[(_ & _ & Hs & _)|Hs]]%send_spec; [congruence|lia| |].
  - unfold max_queue_bytes in Hs. rewrite Hz, u64_small in Hs by (int_unfold; lia). lia.
  - destruct Hs as (_ & _ & _ & c2 & es2 & em & pk & -> & Hw & ->).
    rewrite (try_write_blocked _ data []) in Hw;
      [|cbn; by rewrite Hq|unfold k_max_batch_bytes; lia].
    injection Hw as <- <-. split; [|done]. split; [done|]. exists []. cbn. by rewrite Hq.
Qed.

(** Completed writes, one after the other. *)
Definition write_dones (nows : list Z) : list op := WriteDone <$> nows.

(** Everything accepted has been written, and the writer is idle. *)
Definition drained (c : channel) : Prop :=
  write_queue_ c = [] ∧ in_flight c = None ∧ writing_ c = false ∧ closed_ c = false.

Lemma write_done_open now c c' es :
  closed_ c = false → write_done now c = (c', es) → closed_ c' = false.
Proof.
  unfold write_done. intros Hcl. destruct (in_flight c) as [[]|]; [|by intros [= <- <-]].
  destruct (write_queue_ _); [by intros [= <- <-]|].
  by intros (? & _ & [(_ & _ & _ & ->)|(_ & _ & ->)] & _)%try_write_spec.
Qed.

Lemma write_dones_idle nows c : drained c → run (write_dones nows) c = Some (c, []).
Proof.
  intros Hd. pose proof Hd as (_ & Hf & _). induction nows as [|t nows IH]; [done|].
  cbn [write_dones fmap list_fmap run step]. unfold write_done. rewrite Hf. cbn.
  fold (write_dones nows). by rewrite IH.
Qed.

Lemma wake_drained c :
  wake_ok c → closed_ c = false → in_flight c = None → drained c.
Proof.
  intros Hok Hcl Hf. destruct (writing_ c) eqn:E; [by destruct (wk_busy _ Hok Hcl E)|].
  destruct (wk_idle _ Hok E). by split_and!.
Qed.

Lemma write_dones_drain nows c :
  wake_ok c → closed_ c = false → (length (write_queue_ c) < length nows)%nat →
  ∃ c' es, run (write_dones nows) c = Some (c', es) ∧ drained c'.
Proof.
  revert c. induction nows as [|now nows IH]; intros c Hok Hcl Hlen; [cbn in Hlen; lia|].
  cbn [write_dones fmap list_fmap run step]. fold (write_dones nows).
  destruct (write_done now c) as [c1 es1] eqn:Hw. cbn [mbind option_bind].
  assert (wake_ok c1) as Hok1 by (eapply (step_wake (WriteDone now)); [done|done|];
    cbn; by rewrite Hw).
  pose proof (write_done_open _ _ _ _ Hcl Hw) as Hcl1.
  assert (drained c1 ∨ (length (write_queue_ c1) < length nows)%nat) as [Hd|Hl].
  { destruct (in_flight c) eqn:Hf.
    - destruct (write_done_drains now c c1 es1) as [(_ & Hq & Hf')|[Hl Hf']]; try done.
      + congruence.
      + left. by apply wake_drained.
      + right. cbn in Hlen. lia.
    - unfold write_done in Hw. rewrite Hf in Hw. injection Hw as <- <-. left.
      by apply wake_drained. }
  - rewrite write_dones_idle by done. cbn. eauto.
  - destruct (IH c1) as (c' & es & -> & H); try done. cbn. eauto.
Qed.

(** ** Properties *)

(** C9: (refinement) However the peer's bytes are cut into reads, the receive
    path never reads outside of its buffer, terminates, and behaves as the
    abstract stream receiver: it hands the frame callback the frames with a
    matching CRC, in stream order, counts the others as drops, and keeps the
    undecoded tail. *)
Theorem receive_refines t0 id chunks :
  Forall (Forall is_u8) chunks → zlen (concat chunks) < 2 ^ 61 →
  ∃ c es fs, run (ReadDone <$> chunks) (opened t0 id) = Some (c, es)
    ∧ receives [] chunks fs (unread c)
    ∧ frames es = good_frames id fs ∧ drops c = u64 (bad_frames fs) ∧ closed_ c = false.
Proof.
  intros Hb Hlen. destruct (receives_total [] chunks) as (fs & rest & Hr).
  destruct (reads_receive (opened t0 id) chunks) with fs rest
    as (c & es & H1 & <- & H3 & H4 & H5); try done; [change (unread _) with (@nil Z); rewrite zlen_nil; lia|].
  exists c, es, fs. split_and!; try done.
Qed.

(** C10: (round trip) A sender's packets arrive exactly: whatever way the stream
    of packed frames (followed by an incomplete one) is cut into reads, the
    channel delivers every packet's command and payload once, in order, drops
    none, and waits with the incomplete rest. *)
Theorem packets_delivered t0 id ps rest chunks :
  Forall packet_ok ps → decode_one rest = Wait → Forall is_u8 rest →
  concat chunks = concat (pack_packet <$> ps) ++ rest → zlen (concat chunks) < 2 ^ 61 →
  ∃ c es, run (ReadDone <$> chunks) (opened t0 id) = Some (c, es)
    ∧ frames es = (λ p, (id, p_cmd p, p_payload p)) <$> ps
    ∧ unread c = rest ∧ drops c = 0 ∧ closed_ c = false.
Proof.
  intros Hps Hw Hb Heq Hlen.
  assert (Forall (Forall is_u8) chunks) as Hch.
  { apply Forall_concat. rewrite Heq. apply Forall_app_2; [|done].
    apply Forall_concat, Forall_fmap. eapply Forall_impl; [exact Hps|].
    exact pack_packet_bytes. }
  destruct (reads_receive (opened t0 id) chunks) with (packet_delivery <$> ps) rest
    as (c & es & H1 & H2 & H3 & H4 & H5); try done; [change (unread _) with (@nil Z); rewrite zlen_nil; lia| |].
  { apply framed_receives; [done|]. cbn. rewrite Heq. by apply packets_framed. }
  rewrite bad_packets in H4. rewrite good_packets in H3. by exists c, es.
Qed.

(** Over any run the bytes queued and in flight never exceed the
    byte counter, the counter never exceeds 256 KiB, and while the channel is
    open the counter is exact if asio gets the batches. *)
Theorem send_queue_bounded t0 id os c es :
  Forall valid_op os → run os (opened t0 id) = Some (c, es) →
  zlen (concat (write_queue_ c)) + flight_bytes c ≤ current_queue_bytes c
  ∧ current_queue_bytes c ≤ 262144
  ∧ (arg_order = BufferFirst → closed_ c = false →
     current_queue_bytes c = zlen (concat (write_queue_ c)) + flight_bytes c).
Proof.
  intros Hv Hr. enough (tx_ok c) as [] by (split_and!; done).
  eapply run_invariant; [|apply opened_tx_ok|exact Hr]. intros o c1 c2 es1 Ho Hc Hs.
  rewrite Forall_forall in Hv. destruct (Hv o Ho). by eapply step_tx_ok.
Qed.

(** The invariant of a run with the handler first. *)
Lemma run_counts t0 id os c es :
  arg_order = HandlerFirst → Forall valid_op os → run os (opened t0 id) = Some (c, es) →
  tx_ok c ∧ current_queue_bytes c = zlen (accepted_bytes es).
Proof.
  intros Ho Hv Hr. rewrite <- (app_nil_l es).
  eapply (run_trace_invariant (λ c pre, (tx_ok c ∧ current_queue_bytes c = zlen (accepted_bytes pre))
    ∧ flight_bytes c = 0)); [|by split_and!; [apply opened_tx_ok|..]|exact Hr].
  intros o c1 pre c2 es1 Hin [[Hok Hc] Hf] Hs. rewrite Forall_forall in Hv.
  destruct (Hv o Hin) as [Hop _].
  destruct (step_count Ho o c1 c2 es1 Hop Hok Hf Hs) as [Hf' Hc'].
  split_and!; [by eapply step_tx_ok| |done]. rewrite Hc', Hc, accepted_app, zlen_app. done.
Qed.

(** C17: (refinement) The batching writer, in either order in which the compiler
    may evaluate the arguments of [async_write]. With the buffer first it is a
    FIFO pipe: over any run, the bytes handed to [async_write] followed by the
    bytes still queued are exactly the bytes of the accepted sends, in the order
    of the sends. With the completion handler first, nothing is ever handed
    over, and because no write takes anything off the counter, the channel
    accepts no more than 256 KiB in all its life. *)
Theorem write_stream_fifo t0 id os c es :
  Forall valid_op os → run os (opened t0 id) = Some (c, es) →
  match arg_order with
  | BufferFirst => accepted_bytes es = submitted_bytes es ++ concat (write_queue_ c)
  | HandlerFirst => submitted_bytes es = []
      ∧ zlen (accepted_bytes es) = current_queue_bytes c ∧ current_queue_bytes c ≤ 262144
  end.
Proof.
  intros Hv Hr.
  assert (handed (accepted_bytes es) = submitted_bytes es ++ handed (concat (write_queue_ c))) as E.
  { eapply (run_trace
      (λ c pre, handed (accepted_bytes pre) = submitted_bytes pre ++ handed (concat (write_queue_ c))));
      [exact Hr|cbn; by rewrite handed_nil|]. intros o c1 pre c2 es2 Hp Hs%step_stream.
    unfold stream_step in Hs. rewrite handed_app in Hs.
    by rewrite accepted_app, submitted_app, handed_app, Hp, <- !app_assoc, Hs. }
  destruct arg_order eqn:Ho.
  - by rewrite !handed_first in E.
  - rewrite !handed_last, app_nil_r in E by done.
    destruct (run_counts t0 id os c es Ho Hv Hr) as [[_ Hm _ _] Hc]. by split_and!.
Qed.

(** C18: (liveness) If every send so far fitted one batch and the channel is
    still open, then one completed write more than there are queued messages
    empties the queue: the writer never stalls with accepted data. *)
Theorem writer_drains t0 id os c es nows :
  Forall op_small os → run os (opened t0 id) = Some (c, es) → closed_ c = false →
  (length (write_queue_ c) < length nows)%nat →
  ∃ c' es', run (WriteDone <$> nows) c = Some (c', es') ∧ drained c'.
Proof.
  intros Hv Hr Hcl Hlen. apply write_dones_drain; [|done|done].
  eapply run_invariant; [|apply opened_wake_ok|exact Hr]. intros o c1 c2 es1 Ho Hc Hs.
  rewrite Forall_forall in Hv. eapply step_wake; eauto.
Qed.

(** A message above the 64 KiB batch limit that is accepted into
    the queue stops the channel's output: whatever happens afterwards, nothing
    is ever written again, although later sends keep being accepted. *)
Theorem oversized_send_blocks t0 id data os c es :
  65536 < zlen data ≤ 262144 →
  run (Send data :: os) (opened t0 id) = Some (c, es) →
  submitted_bytes es = [] ∧ in_flight c = None ∧ head (write_queue_ c) = Some data.
Proof.
  intros Hd Hr. assert (k_max_batch_bytes < zlen data) as Hk by (unfold k_max_batch_bytes; lia).
  apply run_cons in Hr as (c1 & es1 & es2 & Hs & Hr & ->). rewrite step_send in Hs.
  injection Hs as Hs.
  apply send_oversized in Hs as [Hb He]; [|done..].
  assert (blocked data c ∧ submitted_bytes es2 = []) as [[Hf [q Hq]] He2].
  { eapply (run_trace (λ c pre, blocked data c ∧ submitted_bytes pre = [])); [exact Hr|done|].
    intros o c3 pre c4 es4 [Hb3 Hp3] Hs3.
    eapply step_blocked in Hs3 as [? E]; [|exact Hk|exact Hb3].
    split; [done|]. by rewrite submitted_app, Hp3, E. }
  by rewrite submitted_app, He, He2, Hq.
Qed.

(** A channel reports its close to the handler exactly
    once: over any run there is one close event if the channel ended up closed
    and none otherwise. *)
Theorem close_reported_once t0 id os c es :
  run os (opened t0 id) = Some (c, es) →
  length (close_events es) = if closed_ c then 1%nat else 0%nat.
Proof.
  intros Hr. eapply (run_trace (λ c pre, handler_ c = true
    ∧ length (close_events pre) = if closed_ c then 1%nat else 0%nat)); [exact Hr|done|].
  intros o c1 pre c2 es2 [Hh Hp] Hs%step_close.
  destruct Hs as (Hh2 & _ & [[Hc He]|(Hc & Hc2 & r & He)]); rewrite close_events_app, length_app, He, Hp.
  - rewrite Hh2, Hc. split; [done|]. cbn. lia.
  - rewrite Hh2, Hc, Hc2, Hh. done.
Qed.

(** The idle timer measures the time since [start], not
    since the last received bytes: after any run in which the channel stayed
    open, whatever was received, the first idle check thirty seconds after
    [start] closes the channel with a timeout. *)
Theorem idle_timer_ignores_traffic t0 id os c es now :
  run os (opened t0 id) = Some (c, es) → closed_ c = false →
  t0 + 30000 ≤ now < t0 + 2 ^ 64 →
  close_events (idle_tick now c).2 = [close_timeout] ∧ closed_ (idle_tick now c).1 = true.
Proof.
  intros Hr Hcl Hnow.
  assert (handler_ c = true ∧ last_recv_ms c = t0) as [Hh Ht].
  { eapply (run_invariant (λ c, handler_ c = true ∧ last_recv_ms c = t0) os (opened t0 id)); [|by split|exact Hr].
    intros o c1 c2 es1 _ [H1 H2] (-> & -> & _)%step_close. by split. }
  unfold idle_tick. rewrite Hcl, Ht, u64_small by (int_unfold; lia).
  unfold idle_limit_ms. case_cmp; [|lia]. unfold close. rewrite Hcl. cbn. unfold on_close. cbn.
  rewrite Hh. by destruct (close_callback_ c).
Qed.

(** Backpressure: a send that would take an open channel above
    256 KiB enqueues nothing, writes nothing, closes the channel with
    [force_closed], counts one drop, and counts the forced close twice. *)
Theorem overflow_send_closes t0 id os c es data :
  Forall valid_op os → run os (opened t0 id) = Some (c, es) → closed_ c = false →
  0 < zlen data < 2 ^ 31 → 262144 < zlen (concat (write_queue_ c)) + flight_bytes c + zlen data →
  send data c = (c <| closed_ := true |> <| drops := u64 (drops c + 1) |>
                   <| force_closes := u64 (u64 (force_closes c + 1) + 1) |>,
                 PostShutdown :: on_close close_force_closed c).
Proof.
  intros Hv Hr Hcl Hd Hover.
  assert (tx_ok c) as [Hle Hmax _ _].
  { eapply run_invariant; [|apply opened_tx_ok|exact Hr]. intros o c1 c2 es1 Ho Hc Hs.
    rewrite Forall_forall in Hv. destruct (Hv o Ho). by eapply step_tx_ok. }
  pose proof (zlen_nonneg (concat (write_queue_ c))).
  pose proof (flight_bytes_nonneg c). unfold max_queue_bytes in Hmax.
  unfold send. rewrite Hcl. cbn [orb]. case_cmp; [lia|]. unfold enqueue_send_.
  destruct (Z.eqb_spec (zlen data) 0); [lia|]. unfold max_queue_bytes.
  rewrite u64_small by (int_unfold; lia). case_cmp; [|lia]. cbn. rewrite Hcl. done.
Qed.

(** No sequence of the channel's callbacks, in any order and
    with any bytes received, makes it read outside of its receive buffer or
    loop: every run of valid operations completes. *)
Theorem channel_runs_complete t0 id os :
  Forall valid_op os → zlen (read_bytes os) < 2 ^ 61 →
  ∃ c es, run os (opened t0 id) = Some (c, es).
Proof.
  intros Hv Hlen. apply run_total; try done.
  change (unread _) with (@nil Z). rewrite zlen_nil. lia.
Qed.

End laws.

(** ** Witnesses *)

#[local] Existing Instance buffer_first.

Lemma receive_refines_witness :
  ∃ c es fs, run (ReadDone <$> [[12; 0; 0]; [0; 1; 0; 0; 1; 0; 0; 0; 0; 0; 0; 0; 0; 7]])
               (opened 5 9) = Some (c, es)
    ∧ receives [] [[12; 0; 0]; [0; 1; 0; 0; 1; 0; 0; 0; 0; 0; 0; 0; 0; 7]] fs (unread c)
    ∧ frames es = good_frames 9 fs ∧ drops c = u64 (bad_frames fs) ∧ closed_ c = false.
Proof. apply receive_refines; by_decide. Defined.

Lemma packets_delivered_witness :
  ∃ c es, run (ReadDone <$> [take 7 (pack 1003 0 1 1 [104; 105]); drop 7 (pack 1003 0 1 1 [104; 105]); [1; 2]])
      (opened 5 9) = Some (c, es)
    ∧ frames es = [(9, 1003, [104; 105])] ∧ unread c = [1; 2] ∧ drops c = 0 ∧ closed_ c = false.
Proof.
  apply (packets_delivered 5 9 [Packet 1003 0 1 1 [104; 105]] [1; 2]);
    [by_decide|reflexivity|by_decide|vm_compute; reflexivity|by_decide].
Defined.

Lemma send_queue_bounded_witness :
  ∃ c es, run [Send [1; 2; 3]; Send [4]] (opened 5 9) = Some (c, es)
    ∧ (zlen (concat (write_queue_ c)) + flight_bytes c ≤ current_queue_bytes c
       ∧ current_queue_bytes c ≤ 262144
       ∧ (arg_order = BufferFirst → closed_ c = false →
          current_queue_bytes c = zlen (concat (write_queue_ c)) + flight_bytes c)).
Proof.
  eexists _, _. split; [vm_compute; reflexivity|].
  eapply (send_queue_bounded 5 9 [Send [1; 2; 3]; Send [4]]); [by_decide|vm_compute; reflexivity].
Defined.

(** Both orders, on the same calls. *)
Lemma write_stream_fifo_witness :
  (∃ c es, run [Send [1; 2]; Send [3]; WriteDone 6] (opened 5 9) = Some (c, es)
     ∧ accepted_bytes es = submitted_bytes es ++ concat (write_queue_ c))
  ∧ ∃ c es, run (AO := handler_first) [Send [1; 2]; Send [3]; WriteDone 6] (opened 5 9) = Some (c, es)
     ∧ submitted_bytes es = [] ∧ zlen (accepted_bytes es) = current_queue_bytes c
     ∧ current_queue_bytes c ≤ 262144.
Proof.
  split; eexists _, _; (split; [vm_compute; reflexivity|]).
  - by refine (write_stream_fifo 5 9 [Send [1; 2]; Send [3]; WriteDone 6] _ _ _ _); [by_decide|].
  - by refine (write_stream_fifo (AO := handler_first) 5 9 [Send [1; 2]; Send [3]; WriteDone 6] _ _ _ _);
      [by_decide|].
Defined.

Lemma writer_drains_witness :
  ∃ c es c' es', run [Send [1; 2]; Send [3]] (opened 5 9) = Some (c, es)
    ∧ run (WriteDone <$> [6; 7; 8]) c = Some (c', es') ∧ drained c'.
Proof.
  edestruct (writer_drains 5 9 [Send [1; 2]; Send [3]]) as (c' & es' & H1 & H2).
  - apply Forall_cons_2; [vm_compute; discriminate|]. apply Forall_cons_2; [vm_compute; discriminate|].
    constructor.
  - vm_compute. reflexivity.
  - reflexivity.
  - shelve.
  - eexists _, _, c', es'. split; [vm_compute; reflexivity|]. split; [exact H1|exact H2].
    Unshelve. simpl. lia.
Defined.

Lemma oversized_send_blocks_witness :
  ∃ c es, run [Send (replicate (Z.to_nat 65537) 0)] (opened 5 9) = Some (c, es)
    ∧ submitted_bytes es = [] ∧ in_flight c = None
    ∧ head (write_queue_ c) = Some (replicate (Z.to_nat 65537) 0).
Proof.
  destruct (send (replicate (Z.to_nat 65537) 0) (opened 5 9)) as [c1 es1] eqn:E.
  assert (run [Send (replicate (Z.to_nat 65537) 0)] (opened 5 9) = Some (c1, es1 ++ [])) as Hr
    by (cbn [run step]; rewrite E; reflexivity).
  exists c1, (es1 ++ []). split; [exact Hr|].
  apply (oversized_send_blocks 5 9 (replicate (Z.to_nat 65537) 0) []); [|exact Hr].
  unfold zlen. rewrite length_replicate. lia.
Defined.

Lemma close_reported_once_witness :
  ∃ c es, run [Close close_protocol_error; ReadError; WriteError; Send [1]] (opened 5 9) = Some (c, es)
    ∧ length (close_events es) = if closed_ c then 1%nat else 0%nat.
Proof.
  eexists _, _. split; [vm_compute; reflexivity|].
  eapply (close_reported_once 5 9 [Close close_protocol_error; ReadError; WriteError; Send [1]]).
  vm_compute. reflexivity.
Defined.

Lemma idle_timer_ignores_traffic_witness :
  ∃ c es, run [ReadDone [1; 2; 3]; ReadDone [4]] (opened 5 9) = Some (c, es)
    ∧ close_events (idle_tick 30005 c).2 = [close_timeout]
    ∧ closed_ (idle_tick 30005 c).1 = true.
Proof.
  eexists _, _. split; [vm_compute; reflexivity|].
  eapply (idle_timer_ignores_traffic 5 9 [ReadDone [1; 2; 3]; ReadDone [4]]);
    [vm_compute; reflexivity|reflexivity|lia].
Defined.

Lemma overflow_send_closes_witness :
  let c := opened 5 9 in
  send (replicate (Z.to_nat 262145) 0) c =
  (c <| closed_ := true |> <| drops := u64 (drops c + 1) |>
     <| force_closes := u64 (u64 (force_closes c + 1) + 1) |>,
   PostShutdown :: on_close close_force_closed c).
Proof.
  apply (overflow_send_closes 5 9 [] (opened 5 9) []); [constructor|reflexivity|reflexivity| |];
    unfold zlen; rewrite length_replicate; cbn; lia.
Defined.

Lemma channel_runs_complete_witness :
  ∃ c es, run [ReadDone [255; 255; 255; 255; 1]; PingTick; WriteDone 7; Close close_timeout;
               ReadDone [1]; StatsTick; IdleTick 8] (opened 5 9) = Some (c, es).
Proof. apply channel_runs_complete; by_decide. Defined.
