(* ===== verification/ChannelThreads.v ===== *)
(** * The send path of a channel under concurrency
      ([src/server/network/asio_channel.cpp], [src/common/core/spin_lock.hpp])

    [Channel] takes [send] and the completion of a write as atomic.  Here they
    run on several threads: every access to the spin lock, to [writing_], to
    [current_queue_bytes] and to the queue is a step of its own, and a schedule
    says which thread takes the next one.  Memory is sequentially consistent;
    the statistics counters are left out. *)

From S2P Require Import Prelude Channel.

Module channel_threads.
Import asio_channel.

(** Where a thread is in [send], [do_write] or the completion of a write. *)
Inductive pc :=
| Idle
| Locking (d : list Z)               (* [enqueue_send_]: before the lock *)
| Loading (d : list Z)               (* inside: before the load of the counter *)
| Testing (d : list Z) (cur : Z)     (* inside: before the test and [emplace] *)
| Storing (d : list Z) (cur : Z)     (* inside: before the store of the counter *)
| Unlocking (ok : bool)              (* inside: before the unlock *)
| Refused                            (* before [close] *)
| Claiming                           (* before the exchange on [writing_] *)
| BatchLocking                       (* [make_batch_]: before the lock *)
| Batching                           (* inside: before the loop *)
| BatchUnlocking (out : list Z) (msgs : Z)
| Submitting (out : list Z)          (* before [async_write] *)
| Resting                            (* before [writing_.store(false)] of [do_write] *)
| Subtracting (n : Z)                (* completion: before [fetch_sub] *)
| Reopening                          (* completion: before [writing_.store(false)] *)
| Looking.                           (* completion: before [write_queue_.empty()] *)
#[global] Instance pc_eq_dec : EqDecision pc.
Proof. solve_decision. Defined.

Record state := State {
  lock_ : bool;
  writing : bool;
  closed : bool;
  bytes : Z;                         (* [current_queue_bytes] *)
  queue : list (list Z);             (* [write_queue_] *)
  flight : option (list Z);          (* the write handed to asio *)
  threads : gmap nat pc;
  accepted : list (list Z);          (* observed: what was emplaced *)
  submitted : list (list Z) }.       (* observed: what was handed to asio *)
#[global] Instance state_eta : Settable state := λ s,
  State (lock_ s) (writing s) (closed s) (bytes s) (queue s) (flight s) (threads s)
    (accepted s) (submitted s).

Definition init : state := State false false false 0 [] None ∅ [] [].

Definition pc_of (s : state) (i : nat) : pc := default Idle (threads s !! i).
Definition goto (i : nat) (p : pc) (s : state) : state := s <| threads ::= <[i := p]> |>.

(** ** The spin lock *)

(** [test_and_set], one turn of the loop of [lock]: the thread enters at [p], or
    yields and stays where it is. *)
Definition lock (i : nat) (p : pc) (s : state) : state :=
  if lock_ s then s else goto i p (s <| lock_ := true |>).
Definition unlock (s : state) : state := s <| lock_ := false |>.

(** ** One step of a thread *)

Definition claim (i : nat) (s : state) : state :=
  if writing s then goto i Idle s else goto i BatchLocking (s <| writing := true |>).

Section threads.
Context {AO : ArgOrder}.

Definition go (i : nat) (s : state) : option state :=
  match pc_of s i with
  | Idle => None
  | Locking d => Some (lock i (Loading d) s)
  | Loading d => Some (goto i (Testing d (bytes s)) s)
  | Testing d cur =>
      Some (if max_queue_bytes <? u64 (cur + zlen d) then goto i (Unlocking false) s
            else goto i (Storing d cur)
                   (s <| queue ::= λ q, q ++ [d] |> <| accepted ::= λ l, l ++ [d] |>))
  | Storing d cur => Some (goto i (Unlocking true) (s <| bytes := u64 (cur + zlen d) |>))
  | Unlocking ok => Some (goto i (if ok then Claiming else Refused) (unlock s))
  | Refused => Some (goto i Idle (s <| closed := true |>))
  | Claiming => Some (claim i s)
  | BatchLocking => Some (lock i Batching s)
  | Batching =>
      let '(out, msgs, q) := batch_loop (queue s) [] 0 0 in
      Some (goto i (BatchUnlocking out msgs) (s <| queue := q |>))
  | BatchUnlocking out msgs =>
      Some (goto i (if 0 <? msgs then Submitting out else Resting) (unlock s))
  | Submitting out =>
      Some (goto i Idle (s <| flight := Some (handed out) |> <| submitted ::= λ l, l ++ [handed out] |>))
  | Resting => Some (goto i Idle (s <| writing := false |>))
  | Subtracting n => Some (goto i Reopening (s <| bytes ::= λ b, u64 (b - n) |>))
  | Reopening => Some (goto i Looking (s <| writing := false |>))
  | Looking => Some (match queue s with [] => goto i Idle s | _ => goto i Claiming s end)
  end.

(** What the scheduler can choose: a thread's next step, a call of [send] on an
    idle thread, the completion of the write in flight on an idle thread. *)
Inductive action :=
| Go (i : nat) | Call (i : nat) (data : list Z) | WriteDone (i : nat) | WriteFailed (i : nat).

Definition act (a : action) (s : state) : option state :=
  match a with
  | Go i => go i s
  | Call i data =>
      if decide (pc_of s i = Idle) then
        Some (if closed s || (zlen data <=? 0) then s else goto i (Locking data) s)
      else None
  | WriteDone i =>
      if decide (pc_of s i = Idle) then
        out ← flight s; Some (goto i (Subtracting (zlen out)) (s <| flight := None |>))
      else None
  | WriteFailed i =>
      if decide (pc_of s i = Idle) then
        _ ← flight s; Some (goto i Idle (s <| flight := None |> <| closed := true |>))
      else None
  end.

Fixpoint exec (sched : list action) (s : state) : option state :=
  match sched with [] => Some s | a :: sched => s ← act a s; exec sched s end.

(** A message of [send] has an [int] size. *)
Definition action_ok (a : action) : Prop :=
  match a with Call _ data => zlen data < 2 ^ 31 | _ => True end.
#[global] Instance action_ok_dec a : Decision (action_ok a).
Proof. destruct a; apply _. Defined.

(** Nobody is inside of a function. *)
Definition quiescent (s : state) : Prop := map_Forall (λ _ p, p = Idle) (threads s).

(** ** Invariants *)

(** Inside of the lock, and in the writer's role. *)
Definition holds (p : pc) : bool :=
  match p with
  | Loading _ | Testing _ _ | Storing _ _ | Unlocking _ | Batching | BatchUnlocking _ _ => true
  | _ => false
  end.
Definition writes (p : pc) : bool :=
  match p with
  | BatchLocking | Batching | BatchUnlocking _ _ | Submitting _ | Resting | Subtracting _
  | Reopening => true
  | _ => false
  end.

(** The writer's role belongs to a thread, to asio, or to nobody ever again
    after a failed write. *)
Inductive role := ByThread (i : nat) | ByAsio | Dead.

Record lock_inv (h : option nat) (s : state) : Prop := {
  lock_held : lock_ s = bool_decide (is_Some h);
  lock_by i : holds (pc_of s i) = true ↔ h = Some i
}.

Record role_inv (w : option role) (s : state) : Prop := {
  role_set : writing s = bool_decide (is_Some w);
  role_thread i : writes (pc_of s i) = true ↔ w = Some (ByThread i);
  role_asio : is_Some (flight s) ↔ w = Some ByAsio
}.

(** The batch a thread has taken and not handed over, and the bytes that the
    counter still has to cover for it. *)
Definition batch (p : pc) : list Z :=
  match p with BatchUnlocking out _ | Submitting out => out | _ => [] end.
Definition charge (p : pc) : Z :=
  match p with Subtracting n => n | p => zlen (batch p) end.

Definition taken (w : option role) (s : state) : list Z :=
  match w with Some (ByThread i) => batch (pc_of s i) | _ => [] end.
Definition outstanding (w : option role) (s : state) : Z :=
  zlen (concat (queue s)) +
  match w with
  | Some (ByThread i) => charge (pc_of s i)
  | Some ByAsio => zlen (default [] (flight s))
  | _ => 0
  end.

(** What the counter is known to cover, by where the holder of the lock is. *)
Definition covers (h : option nat) (w : option role) (s : state) : Prop :=
  match h with
  | None => outstanding w s ≤ bytes s
  | Some i =>
      match pc_of s i with
      | Testing d cur => outstanding w s ≤ bytes s ∧ outstanding w s ≤ cur ≤ max_queue_bytes
      | Storing d cur =>
          (∃ q, queue s = q ++ [d]) ∧ outstanding w s - zlen d ≤ bytes s
          ∧ outstanding w s ≤ cur + zlen d ≤ max_queue_bytes
      | _ => outstanding w s ≤ bytes s
      end
  end.

Definition pc_ok (p : pc) : Prop :=
  match p with
  | Locking d | Loading d | Testing d _ | Storing d _ => 0 < zlen d < 2 ^ 31
  | BatchUnlocking out msgs => 0 < msgs ∨ out = []
  | Subtracting n => 0 ≤ n
  | _ => True
  end.

Record data_inv (h : option nat) (w : option role) (s : state) : Prop := {
  data_pcs i : pc_ok (pc_of s i);
  data_max : 0 ≤ bytes s ≤ max_queue_bytes;
  data_covers : covers h w s;
  data_stream : handed (concat (accepted s))
    = concat (submitted s) ++ handed (taken w s) ++ handed (concat (queue s))
}.

Definition inv (s : state) : Prop :=
  ∃ h w, lock_inv h s ∧ role_inv w s ∧ data_inv h w s.

(** ** Lemmas: one thread moves *)

(** [s'] is [s] after thread [i] went to [p]; shared fields may differ. *)
Definition moved (i : nat) (p : pc) (s s' : state) : Prop :=
  threads s' = <[i := p]> (threads s).

Lemma moved_at i p s s' : moved i p s s' → pc_of s' i = p.
Proof. unfold moved, pc_of. intros ->. by rewrite lookup_insert_eq. Qed.
Lemma moved_other i p s s' j : moved i p s s' → i ≠ j → pc_of s' j = pc_of s j.
Proof. unfold moved, pc_of. intros -> Hn. by rewrite lookup_insert_ne. Qed.

Section move.
Context (i : nat) (p : pc) (s s' : state) (Hm : moved i p s s').

Lemma lock_keep h :
  lock_inv h s → lock_ s' = lock_ s → holds p = holds (pc_of s i) → lock_inv h s'.
Proof using Hm.
  intros [Hl Hb] E Hp. split; [congruence|]. intros j. destruct (decide (i = j)) as [<-|Hn].
  - rewrite (moved_at _ _ _ _ Hm), Hp. apply Hb.
  - rewrite (moved_other _ _ _ _ j Hm Hn). apply Hb.
Qed.

Lemma lock_enter h :
  lock_inv h s → lock_ s = false → lock_ s' = true → holds p = true → lock_inv (Some i) s' ∧ h = None.
Proof using Hm.
  intros [Hl Hb] E E' Hp. rewrite E in Hl. destruct h as [k|]; [done|]. split; [|done].
  split; [done|]. intros j. destruct (decide (i = j)) as [<-|Hn].
  - rewrite (moved_at _ _ _ _ Hm), Hp. done.
  - rewrite (moved_other _ _ _ _ j Hm Hn), Hb. split; congruence.
Qed.

Lemma lock_leave h :
  lock_inv h s → holds (pc_of s i) = true → lock_ s' = false → holds p = false →
  lock_inv None s' ∧ h = Some i.
Proof using Hm.
  intros [Hl Hb] Hi E' Hp. apply Hb in Hi as Hh. split; [|done].
  split; [done|]. intros j. destruct (decide (i = j)) as [<-|Hn].
  - rewrite (moved_at _ _ _ _ Hm), Hp. done.
  - rewrite (moved_other _ _ _ _ j Hm Hn), Hb. split; congruence.
Qed.

(** The role stays, is taken, is given back, goes to asio, comes from asio. *)
Lemma role_change w w' :
  role_inv w s → writing s' = bool_decide (is_Some w') →
  (is_Some (flight s') ↔ w' = Some ByAsio) →
  (writes p = true ↔ w' = Some (ByThread i)) →
  (∀ j, i ≠ j → w' = Some (ByThread j) ↔ w = Some (ByThread j)) → role_inv w' s'.
Proof using Hm.
  intros [Hs Ht Ha] E Hf Hp Ho. split; [done| |done]. intros j. destruct (decide (i = j)) as [<-|Hn].
  - by rewrite (moved_at _ _ _ _ Hm).
  - rewrite (moved_other _ _ _ _ j Hm Hn), Ht. symmetry. by apply Ho.
Qed.

Lemma role_keep w :
  role_inv w s → writing s' = writing s → flight s' = flight s →
  writes p = writes (pc_of s i) → role_inv w s'.
Proof using Hm.
  intros Hr E Ef Hp. pose proof Hr as [Hs Ht Ha]. eapply role_change; [done|..].
  - congruence.
  - by rewrite Ef.
  - rewrite Hp. apply Ht.
  - done.
Qed.

(** A thread that is not the writer does not count. *)
Lemma not_writer w :
  role_inv w s → writes (pc_of s i) = false → writes p = false →
  taken w s' = taken w s ∧
  (flight s' = flight s →
   outstanding w s' = outstanding w s - zlen (concat (queue s)) + zlen (concat (queue s'))).
Proof using Hm.
  intros [_ Ht _] Hi Hp. unfold taken, outstanding.
  destruct w as [[k| |]|]; try (split; [done|]; intros Hf; rewrite ?Hf; lia).
  assert (i ≠ k) as Hn. { intros <-. assert (writes (pc_of s i) = true) by by apply Ht. congruence. }
  rewrite (moved_other _ _ _ _ k Hm Hn). split; [done|]. lia.
Qed.

Lemma pcs_keep : (∀ j, pc_ok (pc_of s j)) → pc_ok p → ∀ j, pc_ok (pc_of s' j).
Proof using Hm.
  intros Hs Hp j. destruct (decide (i = j)) as [<-|Hn].
  - by rewrite (moved_at _ _ _ _ Hm).
  - by rewrite (moved_other _ _ _ _ j Hm Hn).
Qed.

(** A step outside of the lock that takes [x] off the counter and at least [x]
    off what it has to cover. *)
Lemma covers_frame h w w' x :
  lock_inv h s → holds (pc_of s i) = false → covers h w s →
  queue s' = queue s → bytes s' = bytes s - x → 0 ≤ x →
  outstanding w' s' ≤ outstanding w s - x → covers h w' s'.
Proof using Hm.
  intros [_ Hb] Hi Hc Hq Hby Hx Ho. unfold covers in *. destruct h as [k|]; [|lia].
  assert (i ≠ k) as Hn. { intros <-. assert (holds (pc_of s i) = true) by by apply Hb. congruence. }
  rewrite (moved_other _ _ _ _ k Hm Hn). rewrite Hq, Hby.
  destruct (pc_of s k); try lia. destruct Hc as (? & ? & ?). split_and!; [done|lia..].
Qed.

(** A step of the holder of the lock. *)
Lemma covers_holder w : covers (Some i) w s' =
  match p with
  | Testing d cur => outstanding w s' ≤ bytes s' ∧ outstanding w s' ≤ cur ≤ max_queue_bytes
  | Storing d cur =>
      (∃ q, queue s' = q ++ [d]) ∧ outstanding w s' - zlen d ≤ bytes s'
      ∧ outstanding w s' ≤ cur + zlen d ≤ max_queue_bytes
  | _ => outstanding w s' ≤ bytes s'
  end.
Proof using Hm. unfold covers. by rewrite (moved_at _ _ _ _ Hm). Qed.
End move.

Lemma covers_at h w s i :
  lock_inv h s → holds (pc_of s i) = true → covers h w s → h = Some i ∧ covers (Some i) w s.
Proof. intros [_ Hb] Hi%Hb Hc. by subst. Qed.

(** What the writer still holds is covered, also while another thread stores. *)
Lemma charge_covered h w s i :
  lock_inv h s → role_inv w s → data_inv h w s → writes (pc_of s i) = true →
  holds (pc_of s i) = false → charge (pc_of s i) ≤ bytes s.
Proof.
  intros _ [_ Ht _] [_ _ Hc _] Hi%Ht Hh. subst. unfold covers, outstanding in Hc.
  pose proof (zlen_nonneg (concat (queue s))) as Hq. destruct h as [k|]; [|lia].
  destruct (pc_of s k); try lia. destruct Hc as ([q Eq] & Hb & _). rewrite Eq in Hb.
  rewrite concat_app, zlen_app in Hb. cbn in Hb. rewrite app_nil_r in Hb.
  pose proof (zlen_nonneg (concat q)). lia.
Qed.

Lemma init_inv : inv init.
Proof.
  exists None, None. split_and!; split; cbn; rewrite ?handed_nil; try done.
  all: intros; unfold pc_of; cbn; rewrite lookup_empty; cbn; done || (split; congruence).
Qed.

(** ** Every step keeps the invariant *)

(** A step outside of the lock. *)
Lemma outside_inv i p s s' h w w' x :
  moved i p s s' → lock_inv h s → data_inv h w s → lock_ s' = lock_ s →
  holds p = false → holds (pc_of s i) = false → pc_ok p → role_inv w' s' →
  queue s' = queue s → accepted s' = accepted s → bytes s' = bytes s - x → 0 ≤ x ≤ bytes s →
  outstanding w' s' ≤ outstanding w s - x →
  concat (submitted s') ++ handed (taken w' s') = concat (submitted s) ++ handed (taken w s) → inv s'.
Proof.
  intros Hm Hl [Hp Hb Hc Hst] El Hh Hi Hok Hr Hq Ha Hby Hx Ho Hs. exists h, w'. split_and!; [|done|].
  - eapply lock_keep; eauto; congruence.
  - split.
    + eapply pcs_keep; eauto.
    + lia.
    + eapply (covers_frame _ _ _ _ Hm h w w' x); eauto. lia.
    + by rewrite Ha, Hst, Hq, !app_assoc, Hs.
Qed.

(** A step outside of the lock by a thread that is not and does not become the
    writer, and touches nothing shared but [closed]. *)
Lemma quiet_inv i p s s' :
  moved i p s s' → inv s → lock_ s' = lock_ s → writing s' = writing s → flight s' = flight s →
  queue s' = queue s → accepted s' = accepted s → submitted s' = submitted s → bytes s' = bytes s →
  holds p = false → holds (pc_of s i) = false → writes p = false → writes (pc_of s i) = false →
  pc_ok p → inv s'.
Proof.
  intros Hm (h & w & Hl & Hr & Hd) El Ew Ef Eq Ea Es Eb Hh Hh' Hw Hw' Hok.
  destruct (not_writer _ _ _ _ Hm w Hr Hw' Hw) as [Ht Ho].
  eapply (outside_inv i p s s' h w w 0); eauto; try lia.
  - eapply role_keep; eauto; congruence.
  - destruct Hd. lia.
  - rewrite Ho, Eq by done. lia.
  - by rewrite Es, Ht.
Qed.

(** Entering the lock. *)
Lemma enter_inv i p s :
  inv s → writes p = writes (pc_of s i) → holds p = true → pc_ok p → batch p = [] →
  charge (pc_of s i) = 0 → batch (pc_of s i) = [] → charge p = 0 →
  match p with Testing _ _ | Storing _ _ => False | _ => True end → inv (lock i p s).
Proof.
  intros (h & w & Hl & Hr & [Hp Hb Hc Hst]) Hw Hh Hok Hbt Hch Hbt' Hch' Hshape.
  unfold lock. destruct (lock_ s) eqn:El; [by exists h, w|].
  set (s' := goto i p _). assert (moved i p s s') as Hm by done.
  destruct (lock_enter _ _ _ _ Hm h Hl El) as [Hl' ->]; [done|done|].
  assert (taken w s' = taken w s ∧ outstanding w s' = outstanding w s) as [Ht Ho].
  { unfold taken, outstanding. destruct w as [[k| |]|]; try done. destruct (decide (i = k)) as [<-|Hn].
    - rewrite (moved_at _ _ _ _ Hm), Hbt, Hch', Hch, Hbt'. done.
    - by rewrite (moved_other _ _ _ _ k Hm Hn). }
  exists (Some i), w. split_and!; [done|by eapply role_keep|]. split.
  - by eapply pcs_keep.
  - done.
  - rewrite (covers_holder _ _ _ _ Hm), Ho. cbn in Hc. destruct p; done.
  - by rewrite Ht.
Qed.

(** Leaving it. *)
Lemma leave_inv i p s :
  inv s → holds (pc_of s i) = true → writes p = writes (pc_of s i) → holds p = false → pc_ok p →
  batch p = batch (pc_of s i) → charge p = charge (pc_of s i) →
  match pc_of s i with Testing _ _ | Storing _ _ => False | _ => True end →
  inv (goto i p (unlock s)).
Proof.
  intros (h & w & Hl & Hr & [Hp Hb Hc Hst]) Hi Hw Hh Hok Hbt Hch Hshape.
  set (s' := goto i p _). assert (moved i p s s') as Hm by done.
  destruct (lock_leave _ _ _ _ Hm h Hl Hi) as [Hl' ->]; [done|done|].
  assert (taken w s' = taken w s ∧ outstanding w s' = outstanding w s) as [Ht Ho].
  { unfold taken, outstanding. destruct w as [[k| |]|]; try done. destruct (decide (i = k)) as [<-|Hn].
    - by rewrite (moved_at _ _ _ _ Hm), Hbt, Hch.
    - by rewrite (moved_other _ _ _ _ k Hm Hn). }
  exists None, w. split_and!; [done|by eapply role_keep|]. split.
  - by eapply pcs_keep.
  - done.
  - cbn. rewrite Ho. unfold covers in Hc. destruct (pc_of s i); done.
  - by rewrite Ht.
Qed.

(** A step of the holder that is not the writer. *)
Lemma inside_inv i p s s' :
  moved i p s s' → inv s → lock_ s' = lock_ s → writing s' = writing s → flight s' = flight s →
  submitted s' = submitted s → holds p = true → holds (pc_of s i) = true →
  writes p = false → writes (pc_of s i) = false → pc_ok p →
  0 ≤ bytes s' ≤ max_queue_bytes →
  (∀ w, taken w s' = taken w s →
    handed (concat (accepted s)) = concat (submitted s) ++ handed (taken w s) ++ handed (concat (queue s)) →
    handed (concat (accepted s')) = concat (submitted s') ++ handed (taken w s') ++ handed (concat (queue s'))) →
  (∀ w, outstanding w s' = outstanding w s - zlen (concat (queue s)) + zlen (concat (queue s')) →
    covers (Some i) w s → covers (Some i) w s') → inv s'.
Proof.
  intros Hm (h & w & Hl & Hr & [Hp Hb Hc Hst]) El Ew Ef Es Hh Hi Hw Hw' Hok Hmax Hstr Hcov.
  destruct (covers_at _ _ _ _ Hl Hi Hc) as [-> Hc'].
  destruct (not_writer _ _ _ _ Hm w Hr Hw' Hw) as [Ht Ho].
  exists (Some i), w. split_and!.
  - eapply lock_keep; eauto; congruence.
  - eapply role_keep; eauto; congruence.
  - split; eauto. by eapply pcs_keep.
Qed.

Lemma inv_pc_ok s i : inv s → pc_ok (pc_of s i).
Proof. intros (? & ? & _ & _ & [Hp _ _ _]). apply Hp. Qed.
Lemma inv_max s : inv s → 0 ≤ bytes s ≤ max_queue_bytes.
Proof. intros (? & ? & _ & _ & [_ Hb _ _]). done. Qed.

Lemma outstanding_nonneg w s : (∀ i, pc_ok (pc_of s i)) → 0 ≤ outstanding w s.
Proof.
  intros Hp. unfold outstanding. pose proof (zlen_nonneg (concat (queue s))).
  assert (∀ p, pc_ok p → 0 ≤ charge p) as Hc by (intros []; cbn [charge pc_ok]; auto using zlen_nonneg).
  destruct w as [[k| |]|]; [specialize (Hc _ (Hp k)); lia| |lia..].
  pose proof (zlen_nonneg (default [] (flight s))). lia.
Qed.

Lemma queue_outstanding w s : (∀ i, pc_ok (pc_of s i)) → zlen (concat (queue s)) ≤ outstanding w s.
Proof.
  intros Hp. assert (∀ p, pc_ok p → 0 ≤ charge p) as Hch by
    (intros []; cbn [charge pc_ok]; auto using zlen_nonneg).
  unfold outstanding. pose proof (zlen_nonneg (default [] (flight s))).
  destruct w as [[k| |]|]; [specialize (Hch _ (Hp k))| |..]; lia.
Qed.

Lemma taken_quiescent w s : quiescent s → taken w s = [].
Proof.
  intros Hq. unfold taken. destruct w as [[k| |]|]; [|done..]. unfold pc_of.
  destruct (threads s !! k) eqn:E; [|done]. cbn. by rewrite (Hq _ _ E).
Qed.

(** The holder's knowledge, from the invariant. *)
Lemma inv_covers s i :
  inv s → holds (pc_of s i) = true → ∃ w, covers (Some i) w s ∧ 0 ≤ outstanding w s.
Proof.
  intros (h & w & Hl & _ & [Hp _ Hc _]) Hi. exists w. split; [by eapply covers_at|].
  by apply outstanding_nonneg.
Qed.

Local Ltac at_pc Hpc := rewrite ?Hpc; done.

(** ** The steps of [enqueue_send_] *)

Lemma testing_inv i d cur s s' :
  inv s → pc_of s i = Testing d cur → go i s = Some s' → inv s'.
Proof.
  intros Hinv Hpc. unfold go. rewrite Hpc. pose proof (inv_pc_ok s i Hinv) as Hok. rewrite Hpc in Hok.
  destruct (inv_covers s i Hinv) as (w0 & Hc0 & Hn0); [at_pc Hpc|]. cbn in Hc0. rewrite Hpc in Hc0.
  pose proof (inv_max s Hinv) as Hmax. cbn in Hok. unfold max_queue_bytes in *.
  rewrite u64_small by (int_unfold; lia). intros [= <-]. case_cmp.
  - eapply (inside_inv i (Unlocking false) s); try done; try at_pc Hpc.
    + intros w -> Hst. exact Hst.
    + intros w Ho Hc. unfold covers in Hc. rewrite Hpc in Hc.
      rewrite (covers_holder i (Unlocking false) s), Ho by done. cbn. lia.
  - eapply (inside_inv i (Storing d cur) s); try done; try at_pc Hpc.
    + intros w -> Hst. cbn. rewrite !concat_app, !handed_app, Hst, <- !app_assoc. done.
    + intros w Ho Hc. unfold covers in Hc. rewrite Hpc in Hc.
      rewrite (covers_holder i (Storing d cur) s), Ho by done. cbn. rewrite concat_app, zlen_app. cbn. rewrite app_nil_r. unfold max_queue_bytes.
      split_and!; [eauto|lia..].
Qed.

Lemma loading_inv i d s s' : inv s → pc_of s i = Loading d → go i s = Some s' → inv s'.
Proof.
  intros Hinv Hpc. unfold go. rewrite Hpc. pose proof (inv_pc_ok s i Hinv) as Hok. rewrite Hpc in Hok.
  pose proof (inv_max s Hinv). intros [= <-].
  eapply (inside_inv i (Testing d (bytes s)) s); try done; try at_pc Hpc.
  - intros w -> Hst. exact Hst.
  - intros w Ho Hc. unfold covers in Hc. rewrite Hpc in Hc.
      rewrite (covers_holder i (Testing d (bytes s)) s), Ho by done. cbn. lia.
Qed.

Lemma storing_inv i d cur s s' :
  inv s → pc_of s i = Storing d cur → go i s = Some s' → inv s'.
Proof.
  intros Hinv Hpc. unfold go. rewrite Hpc. pose proof (inv_pc_ok s i Hinv) as Hok. rewrite Hpc in Hok.
  destruct (inv_covers s i Hinv) as (w0 & Hc0 & Hn0); [at_pc Hpc|]. cbn in Hc0. rewrite Hpc in Hc0.
  destruct Hc0 as (_ & _ & Hcur). unfold max_queue_bytes in Hcur.
  rewrite u64_small by (int_unfold; lia). intros [= <-].
  eapply (inside_inv i (Unlocking true) s); try done; try at_pc Hpc.
  - cbn. unfold max_queue_bytes. lia.
  - intros w -> Hst. exact Hst.
  - intros w Ho Hc. unfold covers in Hc. rewrite Hpc in Hc.
      rewrite (covers_holder i (Unlocking true) s), Ho by done. cbn. lia.
Qed.

(** ** The writer's role changes hands *)

Lemma claim_inv i s s' : inv s → pc_of s i = Claiming → go i s = Some s' → inv s'.
Proof.
  intros Hinv Hpc. unfold go. rewrite Hpc. intros [= <-]. unfold claim.
  destruct (writing s) eqn:Ew.
  { eapply (quiet_inv i Idle s); try done; at_pc Hpc. }
  destruct Hinv as (h & w & Hl & Hr & Hd). pose proof Hr as [Hs Ht Ha]. rewrite Ew in Hs.
  destruct w; [done|]. set (s' := goto i _ _). assert (moved i BatchLocking s s') as Hm by done.
  eapply (outside_inv i BatchLocking s s' h None (Some (ByThread i)) 0); try done; try at_pc Hpc.
  - eapply (role_change _ _ _ _ Hm None); try done.
    + split; [intros H%Ha; done|done].
    + intros j Hj. split; congruence.
  - cbn. lia.
  - destruct Hd. lia.
  - unfold outstanding. rewrite (moved_at _ _ _ _ Hm). cbn. rewrite ?zlen_nil. lia.
  - unfold taken. by rewrite (moved_at _ _ _ _ Hm).
Qed.

(** The thread [i] is the writer. *)
Lemma inv_writer s i :
  inv s → writes (pc_of s i) = true →
  ∃ h, lock_inv h s ∧ role_inv (Some (ByThread i)) s ∧ data_inv h (Some (ByThread i)) s
    ∧ flight s = None ∧ writing s = true.
Proof.
  intros (h & w & Hl & Hr & Hd) Hi. pose proof Hr as [Hs Ht Ha]. apply Ht in Hi as ->. exists h.
  split_and!; try done. destruct (flight s); [|done]. assert (Some (ByThread i) = Some ByAsio); [|done].
  apply Ha. eauto.
Qed.

(** The writer gives the role back. *)
Lemma rest_inv i p s :
  inv s → writes (pc_of s i) = true → holds (pc_of s i) = false → charge (pc_of s i) = 0 →
  batch (pc_of s i) = [] → writes p = false → holds p = false → pc_ok p →
  inv (goto i p (s <| writing := false |>)).
Proof.
  intros Hinv Hw Hh Hc Hb Hp Hph Hok. destruct (inv_writer s i Hinv Hw) as (h & Hl & Hr & Hd & Ef & _).
  set (s' := goto i _ _). assert (moved i p s s') as Hm by done.
  eapply (outside_inv i p s s' h (Some (ByThread i)) None 0); try done.
  - eapply (role_change _ _ _ _ Hm (Some (ByThread i))); try done.
    + cbn. rewrite Ef. split; [by intros []|done].
    + by rewrite Hp.
    + intros j Hj. split; congruence.
  - cbn. lia.
  - destruct Hd. lia.
  - unfold outstanding. rewrite Hc. cbn. rewrite ?zlen_nil. lia.
  - unfold taken. by rewrite Hb.
Qed.

Lemma submit_inv i out s s' : inv s → pc_of s i = Submitting out → go i s = Some s' → inv s'.
Proof.
  intros Hinv Hpc. unfold go. rewrite Hpc. intros [= <-].
  destruct (inv_writer s i Hinv) as (h & Hl & Hr & Hd & Ef & Ew); [at_pc Hpc|].
  set (s' := goto i _ _). assert (moved i Idle s s') as Hm by done.
  eapply (outside_inv i Idle s s' h (Some (ByThread i)) (Some ByAsio) 0); try done; try at_pc Hpc.
  - eapply (role_change _ _ _ _ Hm (Some (ByThread i))); try done.
    intros j Hj. split; congruence.
  - cbn. lia.
  - destruct Hd. lia.
  - unfold outstanding. rewrite Hpc. cbn. pose proof (zlen_handed out). lia.
  - unfold taken. rewrite Hpc. cbn. by rewrite concat_app; cbn; rewrite handed_nil, !app_nil_r.
Qed.

Lemma subtract_inv i n s s' : inv s → pc_of s i = Subtracting n → go i s = Some s' → inv s'.
Proof.
  intros Hinv Hpc. unfold go. rewrite Hpc. intros [= <-].
  pose proof (inv_pc_ok s i Hinv) as Hok. rewrite Hpc in Hok. cbn in Hok. pose proof (inv_max s Hinv).
  destruct (inv_writer s i Hinv) as (h & Hl & Hr & Hd & Ef & Ew); [at_pc Hpc|].
  pose proof (charge_covered h _ s i Hl Hr Hd) as Hcc. rewrite Hpc in Hcc. cbn in Hcc.
  set (s' := goto i _ _). assert (moved i Reopening s s') as Hm by done.
  assert (bytes s' = bytes s - n) as Hbn.
  { cbn. apply u64_small. unfold max_queue_bytes in *. int_unfold. lia. }
  eapply (outside_inv i Reopening s s' h (Some (ByThread i)) (Some (ByThread i)) n);
    try done; try at_pc Hpc; try lia.
  - eapply (role_keep _ _ _ _ Hm); try done. at_pc Hpc.
  - unfold outstanding. rewrite (moved_at _ _ _ _ Hm), Hpc. cbn. rewrite ?zlen_nil. lia.
  - unfold taken. by rewrite (moved_at _ _ _ _ Hm), Hpc.
Qed.

Lemma batching_inv i s s' : inv s → pc_of s i = Batching → go i s = Some s' → inv s'.
Proof.
  intros Hinv Hpc. unfold go. rewrite Hpc. destruct (batch_loop _ _ _ _) as [[out msgs] q] eqn:Hbl.
  apply batch_loop_spec in Hbl as (tk & Hq & Hout & Hmsgs & _). cbn in Hout, Hmsgs. intros [= <-].
  destruct (inv_writer s i Hinv) as (h & Hl & Hr & Hd & Ef & Ew); [at_pc Hpc|].
  pose proof Hd as [Hp Hb Hc Hst]. destruct (covers_at h (Some (ByThread i)) s i Hl) as [-> Hc'];
    [at_pc Hpc|done|].
  set (s' := goto i _ _). assert (moved i (BatchUnlocking out msgs) s s') as Hm by done.
  exists (Some i), (Some (ByThread i)). split_and!.
  - eapply (lock_keep _ _ _ _ Hm); try done. at_pc Hpc.
  - eapply (role_keep _ _ _ _ Hm); try done. at_pc Hpc.
  - split; [eapply (pcs_keep _ _ _ _ Hm); try done|done| |].
    + cbn. subst. destruct tk as [|x tk]; [by right|left]. rewrite zlen_cons. pose proof (zlen_nonneg tk). lia.
    + rewrite (covers_holder _ _ _ _ Hm). unfold covers, outstanding in *. rewrite Hpc in Hc'.
      rewrite (moved_at _ _ _ _ Hm). cbn in *. rewrite Hq, concat_app, zlen_app in Hc'. subst. rewrite ?zlen_nil in *. lia.
    + unfold taken in *. rewrite (moved_at _ _ _ _ Hm). rewrite Hpc in Hst. cbn in *.
      by rewrite Hst, Hq, concat_app, handed_app, Hout, handed_nil.
Qed.

Lemma go_inv i s s' : inv s → go i s = Some s' → inv s'.
Proof.
  intros Hinv Hgo. pose proof (inv_pc_ok s i Hinv) as Hok. destruct (pc_of s i) eqn:Hpc;
    try first [by eapply loading_inv | by eapply testing_inv | by eapply storing_inv | by eapply claim_inv
      | by eapply batching_inv | by eapply submit_inv | by eapply subtract_inv].
  all: unfold go in Hgo; rewrite Hpc in Hgo; try done; injection Hgo as <-.
  - apply enter_inv; try done; at_pc Hpc.
  - apply leave_inv; rewrite ?Hpc; destruct ok; done.
  - eapply (quiet_inv i Idle s); try done; at_pc Hpc.
  - apply enter_inv; try done; at_pc Hpc.
  - cbn in Hok. apply leave_inv; rewrite ?Hpc; try done; case_cmp; try done; destruct Hok as [ ? | -> ]; done || lia.
  - apply rest_inv; at_pc Hpc.
  - apply rest_inv; at_pc Hpc.
  - destruct (queue s) eqn:Hq; [eapply (quiet_inv i Idle s)|eapply (quiet_inv i Claiming s)];
      try done; at_pc Hpc.
Qed.

Lemma act_inv a s s' : inv s → action_ok a → act a s = Some s' → inv s'.
Proof.
  intros Hinv Hok. destruct a as [i|i d|i|i]; cbn [act]; [by apply go_inv|..];
    (destruct (decide (pc_of s i = Idle)) as [Hpc|]; [|done]).
  - intros [= <-]. destruct (closed s || (zlen d <=? 0)) eqn:Hg; [done|].
    eapply (quiet_inv i (Locking d) s); try done; try at_pc Hpc. cbn in *. lia.
  - intros (out & Hf & [= <-])%bind_Some. destruct Hinv as (h & w & Hl & Hr & Hd).
    pose proof Hr as [Hs Ht Ha]. assert (w = Some ByAsio) as -> by (apply Ha; eauto).
    set (s' := goto i _ _). assert (moved i (Subtracting (zlen out)) s s') as Hm by done.
    eapply (outside_inv i _ s s' h _ (Some (ByThread i)) 0 Hm Hl Hd); try done; try at_pc Hpc.
    + apply zlen_nonneg.
    + eapply (role_change _ _ _ _ Hm (Some ByAsio)); try done.
      * cbn. split; [by intros []|done].
      * intros j Hj. split; congruence.
    + cbn. lia.
    + destruct Hd. lia.
    + unfold outstanding. rewrite (moved_at _ _ _ _ Hm), Hf. cbn. lia.
    + unfold taken. by rewrite (moved_at _ _ _ _ Hm).
  - intros (out & Hf & [= <-])%bind_Some. destruct Hinv as (h & w & Hl & Hr & Hd).
    pose proof Hr as [Hs Ht Ha]. assert (w = Some ByAsio) as -> by (apply Ha; eauto).
    set (s' := goto i _ _). assert (moved i Idle s s') as Hm by done.
    eapply (outside_inv i Idle s s' h _ (Some Dead) 0 Hm Hl Hd); try done; try at_pc Hpc.
    + eapply (role_change _ _ _ _ Hm (Some ByAsio)); try done.
      cbn. split; [by intros []|done].
    + cbn. lia.
    + destruct Hd. lia.
    + unfold outstanding. cbn. pose proof (zlen_nonneg (default [] (flight s))). lia.
Qed.

Lemma exec_inv sched s s' :
  Forall action_ok sched → inv s → exec sched s = Some s' → inv s'.
Proof.
  intros Hok. revert s. induction Hok as [|a sched Ha _ IH]; intros s Hinv; cbn; [by intros [= <-]|].
  intros (s1 & H1 & H2)%bind_Some. eapply IH; [|done]. by eapply act_inv.
Qed.

Lemma exec_app sched sched' s :
  exec (sched ++ sched') s = (exec sched s ≫= exec sched').
Proof.
  revert s. induction sched as [|a sched IH]; intros s; cbn; [done|].
  destruct (act a s); cbn; [apply IH|done].
Qed.

(** ** Properties *)

(** C12: (safety) Whatever the schedule of any number of threads in [send] and
    in write completions: at most one thread is inside of the spin lock, and
    only while its flag is set; at most one thread is in the writer's role, and
    none while a write is in flight, so that two [async_write]s on the socket
    never overlap. *)
Theorem send_path_exclusive sched s :
  Forall action_ok sched → exec sched init = Some s →
  (∀ i j, holds (pc_of s i) = true → holds (pc_of s j) = true → i = j)
  ∧ (∀ i, holds (pc_of s i) = true → lock_ s = true)
  ∧ (∀ i j, writes (pc_of s i) = true → writes (pc_of s j) = true → i = j)
  ∧ (∀ i, writes (pc_of s i) = true → writing s = true ∧ flight s = None).
Proof.
  intros Hok Hex. pose proof (exec_inv _ _ _ Hok init_inv Hex) as Hinv.
  destruct Hinv as (h & w & [Hl Hb] & [Hs Ht Ha] & Hd). split_and!.
  - intros i j Hi%Hb Hj%Hb. congruence.
  - intros i Hi%Hb. by subst.
  - intros i j Hi%Ht Hj%Ht. congruence.
  - intros i Hi%Ht. subst. split; [done|]. destruct (flight s); [|done].
    assert (Some (ByThread i) = Some ByAsio); [|done]. apply Ha. eauto.
Qed.

(** C13: (bounds) Under every schedule, with the buffer evaluated first, the
    bytes handed to asio are a prefix of the bytes accepted by [send], in the
    order in which the senders held the lock, and all but the queued ones when
    no thread is inside: nothing is lost, duplicated or reordered. With the
    completion handler evaluated first, every batch is handed over empty. In
    either order, although the counter is updated outside of the lock, it never
    wraps around and the queue never holds more than the limit of 256 KiB. *)
Theorem concurrent_stream_fifo sched s :
  Forall action_ok sched → exec sched init = Some s →
  match arg_order with
  | BufferFirst => concat (submitted s) `prefix_of` concat (accepted s)
      ∧ (quiescent s → concat (accepted s) = concat (submitted s) ++ concat (queue s))
  | HandlerFirst => concat (submitted s) = []
  end
  ∧ 0 ≤ bytes s ≤ max_queue_bytes ∧ zlen (concat (queue s)) ≤ max_queue_bytes.
Proof.
  intros Hok Hex. destruct (exec_inv _ _ _ Hok init_inv Hex) as (h & w & Hl & Hr & [Hp Hb Hc Hst]).
  split; [|split; [lia|]].
  - destruct arg_order eqn:Ho.
    + rewrite !handed_first in Hst by done. rewrite Hst. split; [by apply prefix_app_r|].
      intros Hq. by rewrite (taken_quiescent w s Hq).
    + rewrite !handed_last in Hst by done. symmetry in Hst. by apply app_nil in Hst as [? _].
  - pose proof (queue_outstanding w s Hp). unfold covers in Hc. destruct h as [k|]; [|lia].
    pose proof (Hp k) as Hpk. destruct (pc_of s k); try lia.
Qed.
End threads.

(** ** Schedules *)

Definition gos (i : nat) (n : nat) : list action := replicate n (Go i).
(** [send] up to the exchange on [writing_], and on to [async_write]. *)
Definition enqueue (i : nat) (d : list Z) : list action := Call i d :: gos i 5.
Definition write_out (i : nat) : list action := gos i 5.

#[global] Instance quiescent_dec s : Decision (quiescent s).
Proof. unfold quiescent. apply _. Defined.

Definition two_sends : list action :=
  enqueue 0 [1] ++ enqueue 1 [2; 3] ++ write_out 0 ++ gos 1 1.

#[local] Existing Instance buffer_first.

Lemma send_path_exclusive_witness :
  ∃ s, exec two_sends init = Some s ∧ flight s = Some [1; 2; 3] ∧
  (∀ i j, holds (pc_of s i) = true → holds (pc_of s j) = true → i = j)
  ∧ (∀ i, holds (pc_of s i) = true → lock_ s = true)
  ∧ (∀ i j, writes (pc_of s i) = true → writes (pc_of s j) = true → i = j)
  ∧ (∀ i, writes (pc_of s i) = true → writing s = true ∧ flight s = None).
Proof.
  eexists. split; [vm_compute; reflexivity|]. split; [reflexivity|].
  eapply (send_path_exclusive two_sends); [by_decide|vm_compute; reflexivity].
Defined.

Lemma concurrent_stream_fifo_witness :
  (∃ s, exec two_sends init = Some s ∧ concat (accepted s) = [1; 2; 3] ∧
   (concat (submitted s) `prefix_of` concat (accepted s)
    ∧ (quiescent s → concat (accepted s) = concat (submitted s) ++ concat (queue s)))
   ∧ 0 ≤ bytes s ≤ max_queue_bytes ∧ zlen (concat (queue s)) ≤ max_queue_bytes)
  ∧ ∃ s, exec (AO := handler_first) two_sends init = Some s ∧ concat (accepted s) = [1; 2; 3] ∧
    concat (submitted s) = []
    ∧ 0 ≤ bytes s ≤ max_queue_bytes ∧ zlen (concat (queue s)) ≤ max_queue_bytes.
Proof.
  split; (eexists; split; [vm_compute; reflexivity|]; split; [reflexivity|]).
  - by refine (concurrent_stream_fifo two_sends _ _ _); [by_decide|].
  - by refine (concurrent_stream_fifo (AO := handler_first) two_sends _ _ _); [by_decide|].
Defined.

(** A completion subtracts its byte between the load and the store of a sender:
    the store undoes it. *)
Definition drift_round : list action :=
  enqueue 0 [7] ++ write_out 0
  ++ [Call 1 [7]] ++ gos 1 2                  (* has loaded the counter *)
  ++ [WriteDone 2] ++ gos 2 1                 (* [fetch_sub] *)
  ++ gos 1 3 ++ gos 2 1 ++ write_out 1        (* stores it, writes its own message *)
  ++ gos 2 1 ++ [WriteDone 2] ++ gos 2 3.
Definition drift (n : nat) : list action := concat (replicate n drift_round).

(** With the handler first, every message that is written leaves its bytes in the
    counter: the completion subtracts 0. *)
Definition mute_round : list action := enqueue 0 [7] ++ write_out 0 ++ [WriteDone 0] ++ gos 0 3.
Definition mute (n : nat) : list action := concat (replicate n mute_round).

(** An open channel with nothing to do, and threads that have come back. *)
Definition rested (t : gmap nat pc) (b : Z) (acc sub : list (list Z)) : state :=
  State false false false b [] None t acc sub.
Definition one : gmap nat pc := {[ 0%nat := Idle ]}.
Definition three : gmap nat pc := {[ 0%nat := Idle; 1%nat := Idle; 2%nat := Idle ]}.

Lemma exec_step {AO : ArgOrder} a sched s s' r :
  act a s = Some s' → exec sched s' = r → exec (a :: sched) s = r.
Proof. intros Ha <-. cbn. by rewrite Ha. Qed.

(** Thread maps are computed with; the counter stays symbolic, and in [run_any] the
    message too. *)
#[local] Transparent gmap_empty.
Local Ltac run_any H1 H2 :=
  repeat (lazymatch goal with |- exec (_ :: _) _ = _ => eapply exec_step end;
    [lazy beta iota zeta delta -[u64 max_queue_bytes Z.add Z.sub Z.ltb Z.leb zlen app];
     rewrite ?H1, ?H2; cbn [app]; reflexivity|]);
  reflexivity.
Local Ltac run_schedule H1 H2 :=
  repeat (lazymatch goal with |- exec (_ :: _) _ = _ => eapply exec_step end;
    [lazy beta iota zeta delta -[u64 max_queue_bytes Z.add Z.sub Z.ltb app];
     rewrite ?H1, ?H2; cbn [app]; reflexivity|]);
  reflexivity.

Lemma drift_round_runs b sent :
  0 ≤ b → b + 2 ≤ max_queue_bytes →
  let sent' := (sent ++ [[7]]) ++ [[7]] in
  exec drift_round (rested three b sent sent) = Some (rested three (b + 1) sent' sent').
Proof.
  intros Hb Hmax sent'.
  assert (∀ k, 0 ≤ k ≤ b + 2 → u64 k = k) as Hu
    by (intros; apply u64_small; unfold max_queue_bytes in *; int_unfold; lia).
  assert ((max_queue_bytes <? u64 (b + 1)) = false) as H1 by (rewrite Hu; lia).
  assert ((max_queue_bytes <? u64 (u64 (b + 1) + 1)) = false) as H2 by (rewrite (Hu (b + 1)), Hu; lia).
  transitivity (Some (rested three (u64 (u64 (u64 (b + 1) + 1) - 1)) sent' sent')).
  - unfold rested, drift_round, sent'. cbn [app enqueue write_out gos replicate]. run_schedule H1 H2.
  - rewrite (Hu (b + 1)), (Hu (b + 1 + 1)), Hu by lia. do 2 f_equal. lia.
Qed.

Lemma drift_runs n b sent :
  0 ≤ b → b + Z.of_nat n < max_queue_bytes →
  ∃ sent', exec (drift n) (rested three b sent sent) = Some (rested three (b + Z.of_nat n) sent' sent').
Proof.
  revert b sent. induction n as [|n IH]; intros b sent Hb Hn.
  { exists sent. cbn. by rewrite Z.add_0_r. }
  unfold drift. cbn [replicate concat]. fold (drift n). rewrite exec_app, drift_round_runs by lia.
  cbn [mbind option_bind]. replace (b + Z.of_nat (S n)) with (b + 1 + Z.of_nat n) by lia. apply IH; lia.
Qed.

Lemma mute_round_runs t b acc sub :
  t = ∅ ∨ t = one → 0 ≤ b → b + 1 ≤ max_queue_bytes →
  exec (AO := handler_first) mute_round (rested t b acc sub)
  = Some (rested one (b + 1) (acc ++ [[7]]) (sub ++ [[]])).
Proof.
  intros Ht Hb Hmax. assert (u64 (b + 1) = b + 1) as Hu
    by (apply u64_small; unfold max_queue_bytes in *; int_unfold; lia).
  assert ((max_queue_bytes <? u64 (b + 1)) = false) as H1 by (rewrite Hu; lia).
  transitivity (Some (rested one (u64 (u64 (b + 1) - 0)) (acc ++ [[7]]) (sub ++ [[]]))).
  - unfold rested, mute_round. cbn [app enqueue write_out gos replicate].
    destruct Ht as [-> | ->]; run_schedule H1 H1.
  - by rewrite Hu, Z.sub_0_r, Hu.
Qed.

Lemma mute_runs n t b acc :
  t = ∅ ∨ t = one → 0 ≤ b → b + Z.of_nat n ≤ max_queue_bytes →
  ∃ t' acc', (t' = ∅ ∨ t' = one) ∧ exec (AO := handler_first) (mute n) (rested t b acc ((λ _, []) <$> acc))
    = Some (rested t' (b + Z.of_nat n) acc' ((λ _, []) <$> acc')).
Proof.
  revert t b acc. induction n as [|n IH]; intros t b acc Ht Hb Hn.
  { exists t, acc. split; [done|]. cbn. by rewrite Z.add_0_r. }
  unfold mute. cbn [replicate concat]. fold (mute n). rewrite exec_app, mute_round_runs by (done || lia).
  cbn [mbind option_bind]. replace (b + Z.of_nat (S n)) with (b + 1 + Z.of_nat n) by lia.
  destruct (IH one (b + 1) (acc ++ [[7]])) as (t' & acc' & Ht' & E); [by right|lia..|].
  exists t', acc'. split; [done|]. rewrite <- E. by rewrite fmap_app.
Qed.

Definition warm_up : list action :=
  enqueue 0 [7] ++ write_out 0 ++ [WriteDone 1] ++ gos 1 3
  ++ enqueue 2 [7] ++ write_out 2 ++ [WriteDone 1] ++ gos 1 3.

Lemma overflow_closes {AO : ArgOrder} t b acc sub d :
  t = ∅ ∨ t = one ∨ t = three →
  0 ≤ b ≤ max_queue_bytes → max_queue_bytes - b < zlen d < 2 ^ 31 →
  ∃ s', exec (Call 0 d :: gos 0 5) (rested t b acc sub) = Some s' ∧ closed s' = true ∧ queue s' = [].
Proof.
  intros Ht Hb Hd. assert ((max_queue_bytes <? u64 (b + zlen d)) = true) as H1.
  { rewrite u64_small by (unfold max_queue_bytes in *; int_unfold; lia). lia. }
  assert ((zlen d <=? 0) = false) as H2 by lia.
  destruct Ht as [-> | [-> | ->]]; (eexists; split; [|split]; [unfold rested; cbn [gos replicate]; run_any H1 H2|reflexivity..]).
Qed.

(** Repeating a schedule of calls of small messages. *)
Lemma rounds_ok n sched : Forall action_ok sched → Forall action_ok (concat (replicate n sched)).
Proof. intros Hs. by apply Forall_concat, Forall_replicate. Qed.

(** C37: (error) The counter of queued bytes drifts: a completion's [fetch_sub],
    which does not take the lock, can fall between the load and the store of
    [enqueue_send_] and is then lost (and with the completion handler evaluated
    before the buffer it subtracts 0 anyway). For every [n] below the limit
    there is a schedule of sends, all handed to asio, that leaves an idle,
    empty, open channel with a counter of [n]; every message that then exceeds
    the rest of the limit closes the channel for overflow, although nothing at
    all is queued. *)
Theorem backpressure_drifts {AO : ArgOrder} n :
  Z.of_nat n < max_queue_bytes →
  ∃ sched s, Forall action_ok sched ∧ exec sched init = Some s ∧ quiescent s
    ∧ queue s = [] ∧ flight s = None ∧ closed s = false ∧ submitted s = handed <$> accepted s
    ∧ bytes s = Z.of_nat n
    ∧ ∀ d, max_queue_bytes - Z.of_nat n < zlen d < 2 ^ 31 →
      ∃ s', exec (Call 0 d :: gos 0 5) s = Some s' ∧ closed s' = true ∧ queue s' = [].
Proof.
  intros Hn. destruct AO.
  - destruct (drift_runs n 0 [[7]; [7]]) as [sent Hr]; [done|lia|].
    exists (warm_up ++ drift n), (rested three (Z.of_nat n) sent sent). split_and!; try done.
    + apply Forall_app_2; [by_decide|]. apply rounds_ok. by_decide.
    + unfold quiescent. by_decide.
    + symmetry. apply list_fmap_id.
    + intros d Hd. apply overflow_closes; [auto|lia..].
  - destruct (mute_runs n ∅ 0 []) as (t & acc & Ht & Hr); [by left|done|lia|].
    exists (mute n), (rested t (Z.of_nat n) acc ((λ _, []) <$> acc)). split_and!; try done.
    + apply rounds_ok. by_decide.
    + unfold quiescent. destruct Ht as [-> | ->]; by_decide.
    + intros d Hd. apply overflow_closes; [naive_solver|lia..].
Qed.

Lemma backpressure_drifts_witness :
  ∃ sched s, Forall action_ok sched ∧ exec sched init = Some s ∧ quiescent s
    ∧ queue s = [] ∧ flight s = None ∧ closed s = false ∧ submitted s = handed <$> accepted s
    ∧ bytes s = 3
    ∧ ∀ d, max_queue_bytes - 3 < zlen d < 2 ^ 31 →
      ∃ s', exec (Call 0 d :: gos 0 5) s = Some s' ∧ closed s' = true ∧ queue s' = [].
Proof. apply (backpressure_drifts 3). vm_compute. reflexivity. Defined.

(** Two senders enqueue; the first one's write takes both messages; the second
    then claims the role for an empty queue, and while it is about to give the
    role back a third message is enqueued and finds the role taken. *)
Definition sleepers : list action :=
  enqueue 0 [1] ++ enqueue 1 [2] ++ write_out 0 ++ [WriteDone 2] ++ gos 2 3
  ++ gos 1 4 ++ enqueue 0 [3] ++ gos 0 1 ++ gos 1 1.

(** A wake-up can be lost: [do_write] leaves the queue's lock
    before it clears [writing_], and a message enqueued in between is left in
    the queue of an open channel with no thread inside, no write in flight and
    no writer, until some later [send]. *)
Theorem wakeup_lost :
  ∃ s, Forall action_ok sleepers ∧ exec sleepers init = Some s ∧ quiescent s
    ∧ queue s = [[3]] ∧ writing s = false ∧ flight s = None ∧ closed s = false.
Proof.
  eexists. split; [by_decide|]. split; [vm_compute; reflexivity|].
  split; [unfold quiescent; by_decide|]. done.
Qed.
End channel_threads.
