(* ===== verification/PacketBuffer.v ===== *)
(** * Packet buffer ([src/common/core/packet_buffer.{hpp,cpp}])

    A buffer that either owns a [std::vector<char>] or views an array of the
    caller.  Arrays of the caller live in a memory that several buffers may
    share; a vector is its storage (of length [capacity()]) and its [size()].
    Exceptions and undefined behaviour are results of the operations. *)

From S2P Require Import Prelude FrameCodec.
Import frame_codec.

(** Result of a member function: value, exception or undefined behaviour. *)
Inductive result (A : Type) :=
| Ret (a : A)
| Throw (what : string)
| UB.
Arguments Ret {A} a.
Arguments Throw {A} what.
Arguments UB {A}.

#[global] Instance result_ret : MRet result := λ A a, Ret a.
#[global] Instance result_bind : MBind result := λ A B f m,
  match m with Ret a => f a | Throw w => Throw w | UB => UB end.

Inductive data_option :=
| data_none | data_compression.

Module packet_buffer.

(** ** [std::vector<char>] *)

Record vec := Vec { storage : list Z; vsize : Z }.

Definition capacity_of (v : vec) : Z := zlen (storage v).
Definition elements (v : vec) : list Z := take (Z.to_nat (vsize v)) (storage v).

Section vector.
(** What fresh memory holds. *)
Variable junk : Z.

Definition vec_clear (v : vec) : vec := Vec (storage v) 0.

Definition vec_reserve (n : Z) (v : vec) : vec :=
  if capacity_of v <? n
  then Vec (elements v ++ replicate (Z.to_nat (n - vsize v)) junk) (vsize v)
  else v.

(** [resize]: new elements are value-initialised. *)
Definition vec_resize (n : Z) (v : vec) : vec :=
  if n <=? vsize v then Vec (storage v) n
  else let v := vec_reserve n v in
       Vec (elements v ++ replicate (Z.to_nat (n - vsize v)) 0 ++ drop (Z.to_nat n) (storage v)) n.

(** ** State *)

Record t := PacketBuffer {
  dynamic_buffer_ : vec;
  external_buffer_ : option Z;    (* the caller's array, or nullptr *)
  size_ : Z;
  offset_ : Z;
  option_ : data_option;
  is_dynamic_ : bool;
  is_owner_ : bool
}.

(** The arrays of the callers. *)
Abbreviation memory := (gmap Z (list Z)).

#[global] Instance t_eta : Settable t := λ b,
  PacketBuffer (dynamic_buffer_ b) (external_buffer_ b) (size_ b) (offset_ b) (option_ b)
    (is_dynamic_ b) (is_owner_ b).

Definition empty_vec : vec := Vec [] 0.

Definition make : t := PacketBuffer empty_vec None 0 0 data_none false false.

Definition make_dynamic (initial_capacity : Z) (option : data_option) : t :=
  PacketBuffer (vec_reserve initial_capacity empty_vec) None (i32 initial_capacity) 0 option
    true true.

Definition set_external (buffer : Z) (offset size : Z) (option : data_option) (b : t) : t :=
  PacketBuffer (vec_clear (dynamic_buffer_ b)) (Some buffer) size offset option false false.

Definition make_external (buffer offset size : Z) (option : data_option) : t :=
  set_external buffer offset size option make.

Definition set_dynamic (capacity : Z) (option : data_option) (b : t) : t :=
  PacketBuffer (vec_reserve capacity (vec_clear (dynamic_buffer_ b))) None (i32 capacity) 0
    option true true.

(** Move construction: the new buffer and what is left of [other]; moving a
    vector leaves the source empty. *)
Definition move (other : t) : t * t :=
  (other, other <| dynamic_buffer_ := empty_vec |> <| external_buffer_ := None |>
                <| size_ := 0 |> <| offset_ := 0 |>
                <| is_dynamic_ := false |> <| is_owner_ := false |>).

Definition reset (b : t) : t :=
  PacketBuffer (vec_clear (dynamic_buffer_ b)) None 0 0 data_none false false.

Definition set_offset (offset : Z) (b : t) : t :=
  if (0 <=? offset) && (offset <=? size_ b) then b <| offset_ := offset |> else b.

Definition remaining_size (b : t) : Z := i32 (size_ b - offset_ b).

Definition capacity (b : t) : Z :=
  if is_dynamic_ b then i32 (capacity_of (dynamic_buffer_ b)) else size_ b.

(** A copy of a vector, and assignment to one that keeps its storage if it can. *)
Definition vec_copy (v : vec) : vec := Vec (elements v) (vsize v).
Definition vec_assign (src dst : vec) : vec :=
  if capacity_of dst <? vsize src then vec_copy src
  else Vec (elements src ++ drop (Z.to_nat (vsize src)) (storage dst)) (vsize src).

(** Copies of a view share the caller's array. *)
Definition copy (other : t) : t := other <| dynamic_buffer_ ::= vec_copy |>.

(** The assignments; [same] tells whether [this == &other]. *)
Definition copy_assign (same : bool) (b other : t) : t :=
  if same then b else other <| dynamic_buffer_ := vec_assign (dynamic_buffer_ other) (dynamic_buffer_ b) |>.
Definition move_assign (same : bool) (b other : t) : t * t :=
  if same then (b, b) else move other.

(** [get_buffer_ptr], [raw] and [raw_offset]: the array pointed into and the index. *)
Inductive pointer := IntoVector (i : Z) | IntoArray (buffer : option Z) (i : Z).
Definition get_buffer_ptr (b : t) : pointer :=
  if is_dynamic_ b then IntoVector 0 else IntoArray (external_buffer_ b) 0.
Definition raw (b : t) : pointer := get_buffer_ptr b.
Definition raw_offset (b : t) : pointer :=
  match get_buffer_ptr b with
  | IntoVector i => IntoVector (i + offset_ b)
  | IntoArray p i => IntoArray p (i + offset_ b)
  end.

(** ** Appending *)

Definition ensure_capacity (required_size : Z) (b : t) : result t :=
  if is_dynamic_ b then
    if capacity_of (dynamic_buffer_ b) <? u64 required_size
    then Ret (b <| dynamic_buffer_ ::= vec_reserve (u64 required_size) |>)
    else Ret b
  else if size_ b <? required_size
  then Throw "External buffer capacity exceeded"
  else Ret b.

(** [memcpy(dst + p, src, n)] into an array. *)
Definition memcpy_at (dst : list Z) (p : Z) (src : list Z) : result (list Z) :=
  if (0 <=? p) && (p + zlen src <=? zlen dst) then Ret (memcpy dst p src) else UB.

Definition append (data : list Z) (m : memory) (b : t) : result (memory * t) :=
  let length := zlen data in
  if length <=? 0 then Ret (m, b) else
  let end_ := offset_ b + length in
  if negb (bool_decide (is_i32 end_)) then UB else     (* signed overflow *)
  b ← ensure_capacity end_ b;
  if is_dynamic_ b then
    st ← memcpy_at (storage (dynamic_buffer_ b)) (offset_ b) data;
    let v := Vec st (vsize (dynamic_buffer_ b)) in
    let b := b <| offset_ := end_ |> in
    Ret (m, b <| dynamic_buffer_ := vec_resize (Z.max end_ (vsize v)) v |>)
  else
    match external_buffer_ b with
    | None => UB
    | Some p =>
        match m !! p with
        | None => UB
        | Some arr =>
            arr ← memcpy_at arr (offset_ b) data;
            Ret (<[p := arr]> m, b <| offset_ := end_ |>)
        end
    end.

(** The overloads for [std::string] and [std::vector<char>]: the size is cast to
    [int32_t], so that a negative one appends nothing. *)
Definition append_all (data : list Z) (m : memory) (b : t) : result (memory * t) :=
  append (take (Z.to_nat (i32 (zlen data))) data) m b.

Definition reserve (capacity : Z) (b : t) : result t :=
  if is_dynamic_ b then
    if capacity <? 0 then Throw "vector::reserve"
    else Ret (b <| dynamic_buffer_ ::= vec_reserve capacity |>)
  else Ret b.

Definition resize (size : Z) (b : t) : t :=
  if size <? 0 then b else
  let clip b := if size <? offset_ b then b <| offset_ := size |> else b in
  if is_dynamic_ b then
    clip (b <| dynamic_buffer_ ::= vec_resize size |> <| size_ := size |>)
  else if size <=? size_ b then clip (b <| size_ := size |>) else b.

(** The bytes a reader of the buffer sees: [raw()[0 .. offset())]. *)
Definition contents (m : memory) (b : t) : list Z :=
  take (Z.to_nat (offset_ b))
    (if is_dynamic_ b then elements (dynamic_buffer_ b)
     else match external_buffer_ b with Some p => default [] (m !! p) | None => [] end).

(** ** Invariants *)

(** A buffer with its own vector, written to sequentially. *)
Record dynamic_ok (b : t) : Prop := {
  dyn_is : is_dynamic_ b = true;
  dyn_off : offset_ b = vsize (dynamic_buffer_ b);
  dyn_cap : 0 ≤ vsize (dynamic_buffer_ b) ≤ capacity_of (dynamic_buffer_ b)
}.

(** A buffer over an array of the caller. *)
Record external_ok (m : memory) (b : t) (p : Z) (arr : list Z) : Prop := {
  ext_is : is_dynamic_ b = false;
  ext_ptr : external_buffer_ b = Some p;
  ext_arr : m !! p = Some arr;
  ext_off : 0 ≤ offset_ b ≤ size_ b;
  ext_size : size_ b ≤ zlen arr
}.

Lemma zlen_replicate n (x : Z) : 0 ≤ n → zlen (replicate (Z.to_nat n) x) = n.
Proof. intros. unfold zlen. rewrite length_replicate. lia. Qed.

Lemma elements_length v :
  0 ≤ vsize v ≤ capacity_of v → zlen (elements v) = vsize v.
Proof. unfold elements, capacity_of, zlen. rewrite length_take. lia. Qed.

Lemma vec_reserve_spec n v :
  0 ≤ vsize v ≤ capacity_of v →
  vsize (vec_reserve n v) = vsize v ∧ elements (vec_reserve n v) = elements v
  ∧ Z.max n (capacity_of v) ≤ capacity_of (vec_reserve n v).
Proof.
  intros Hv. unfold vec_reserve. case_cmp; [|split_and!; done || lia].
  pose proof (elements_length v Hv) as Hl. split_and!; [done| |].
  - unfold elements at 1. cbn. rewrite take_app_length'; [done|]. unfold zlen in Hl. lia.
  - unfold capacity_of in *. cbn. rewrite zlen_app, zlen_replicate; lia.
Qed.

(** Growing a vector inside its capacity appends zeroes. *)
Lemma vec_resize_elements n v :
  0 ≤ vsize v ≤ n → n ≤ capacity_of v →
  elements (vec_resize n v) = elements v ++ replicate (Z.to_nat (n - vsize v)) 0
  ∧ vsize (vec_resize n v) = n ∧ capacity_of (vec_resize n v) = capacity_of v.
Proof.
  intros Hv Hn. pose proof (elements_length v) as Hl. unfold vec_resize. case_cmp.
  - assert (n = vsize v) as -> by lia. rewrite Z.sub_diag. cbn. rewrite app_nil_r.
    by destruct v.
  - unfold vec_reserve. destruct (Z.ltb_spec (capacity_of v) n); [lia|]. split_and!; [|done|].
    + unfold elements at 1. cbn. rewrite app_assoc. apply take_app_length'.
      specialize (Hl ltac:(lia)). unfold zlen in *. rewrite length_app, length_replicate. lia.
    + unfold capacity_of at 1. cbn. rewrite !zlen_app, zlen_replicate, Hl by lia.
      unfold capacity_of, zlen in *. rewrite length_drop. lia.
Qed.

Lemma zlen_memcpy dst p src : zlen (memcpy dst p src) = zlen dst.
Proof. unfold memcpy, zlen. by rewrite length_inserts. Qed.

Lemma memcpy_before dst p src n :
  0 ≤ n ≤ p → take (Z.to_nat n) (memcpy dst p src) = take (Z.to_nat n) dst.
Proof. intros. unfold memcpy. apply list_eq. intros i.
  destruct (decide (i < Z.to_nat n)%nat).
  - rewrite !lookup_take_lt, list_lookup_inserts_lt by lia. done.
  - rewrite !lookup_take_ge by lia. done.
Qed.

(** [dst[0 .. p + n)] after copying [src] to [p]. *)
Lemma memcpy_upto dst p src :
  0 ≤ p → p + zlen src ≤ zlen dst →
  take (Z.to_nat (p + zlen src)) (memcpy dst p src) = take (Z.to_nat p) dst ++ src.
Proof.
  intros Hp Hn. unfold memcpy, zlen in *. apply list_eq. intros i.
  destruct (decide (i < Z.to_nat (p + Z.of_nat (length src)))%nat).
  - rewrite lookup_take_lt by lia. destruct (decide (i < Z.to_nat p)%nat).
    + rewrite list_lookup_inserts_lt, lookup_app_l, lookup_take_lt by
        (rewrite ?length_take; lia). done.
    + rewrite list_lookup_inserts, lookup_app_r by (rewrite ?length_take; lia).
      rewrite length_take. f_equal. lia.
  - rewrite lookup_take_ge by lia. symmetry. apply lookup_ge_None.
    rewrite length_app, length_take. lia.
Qed.

Lemma append_dynamic data m b :
  dynamic_ok b → is_i32 (offset_ b + zlen data) →
  ∃ b', append data m b = Ret (m, b') ∧ dynamic_ok b'
    ∧ elements (dynamic_buffer_ b')
      = elements (dynamic_buffer_ b) ++ replicate (length data) 0
    ∧ size_ b' = size_ b.
Proof.
  intros [Hd Ho Hc] Hi. unfold append. pose proof (zlen_nonneg data).
  case_cmp; [|].
  { assert (data = []) as -> by (destruct data; [done|rewrite zlen_cons in *;
      pose proof (zlen_nonneg data); lia]).
    exists b. split_and!; try done. cbn. by rewrite app_nil_r. }
  rewrite bool_decide_true by done. cbn [negb]. unfold ensure_capacity. rewrite Hd.
  rewrite u64_small by (int_unfold; lia).
  set (b1 := b <| dynamic_buffer_ ::= vec_reserve (offset_ b + zlen data) |>).
  assert ((if capacity_of (dynamic_buffer_ b) <? offset_ b + zlen data then Ret b1 else Ret b)
    = Ret b1) as ->.
  { unfold b1, vec_reserve. cbn. case_cmp; [done|]. by destruct b. }
  destruct (vec_reserve_spec (offset_ b + zlen data) _ Hc) as (Hs & He & Hcap).
  unfold b1. cbn. rewrite Hd. set (v1 := vec_reserve _ _) in *. unfold capacity_of in *.
  unfold memcpy_at. rewrite (proj2 (Z.leb_le _ _)), (proj2 (Z.leb_le _ _)) by lia. cbn.
  rewrite Z.max_l by lia. set (v2 := Vec _ _).
  destruct (vec_resize_elements (offset_ b + zlen data) v2) as (He2 & Hs2 & Hc2);
    unfold v2, capacity_of in *; cbn in *; rewrite ?zlen_memcpy; [lia..|].
  eexists. split_and!; [reflexivity| | |done].
  - split; cbn; [done|by rewrite Hs2|]. rewrite Hs2. unfold capacity_of.
    rewrite Hc2, zlen_memcpy. lia.
  - cbn. rewrite He2. f_equal.
    + rewrite <- He. unfold elements. cbn. apply memcpy_before. lia.
    + f_equal. unfold zlen. lia.
Qed.

(** Several appends in a row. *)
Fixpoint appends (ds : list (list Z)) (m : memory) (b : t) : result (memory * t) :=
  match ds with
  | [] => Ret (m, b)
  | d :: ds => '(m, b) ← append d m b; appends ds m b
  end.

Lemma appends_dynamic ds m b :
  dynamic_ok b → is_i32 (offset_ b + zlen (concat ds)) →
  ∃ b', appends ds m b = Ret (m, b') ∧ dynamic_ok b'
    ∧ elements (dynamic_buffer_ b')
      = elements (dynamic_buffer_ b) ++ replicate (length (concat ds)) 0
    ∧ size_ b' = size_ b.
Proof.
  revert b. induction ds as [|d ds IH]; intros b Hok Hi.
  { exists b. cbn. by rewrite app_nil_r. }
  cbn in Hi. rewrite zlen_app in Hi. pose proof (zlen_nonneg d). pose proof (zlen_nonneg (concat ds)).
  pose proof Hok as [_ Ho Hc].
  destruct (append_dynamic d m b) as (b1 & H1 & Hok1 & He1 & Hs1); [done|int_unfold; lia|].
  assert (offset_ b1 = offset_ b + zlen d) as Ho1.
  { destruct Hok1 as [_ Ho1 Hc1]. rewrite Ho1, Ho.
    apply (f_equal zlen) in He1. rewrite zlen_app, !elements_length in He1 by done.
    unfold zlen in *. rewrite length_replicate in He1. lia. }
  destruct (IH b1) as (b' & H2 & Hok2 & He2 & Hs2); [done|rewrite Ho1; int_unfold; lia|].
  exists b'. cbn. rewrite H1. cbn. split_and!; [done|done| |congruence].
  by rewrite He2, He1, length_app, replicate_add, app_assoc.
Qed.

Lemma dynamic_contents m b : dynamic_ok b → contents m b = elements (dynamic_buffer_ b).
Proof.
  intros [Hd Ho Hc]. unfold contents. rewrite Hd, Ho. apply take_ge.
  pose proof (elements_length _ Hc) as Hl. unfold zlen in Hl. lia.
Qed.

Lemma make_dynamic_ok n o : 0 ≤ n → dynamic_ok (make_dynamic n o).
Proof.
  intros Hn. pose proof (vec_reserve_spec n empty_vec) as H. cbn in H.
  destruct H as (H1 & _ & H3); [done|]. split; cbn; [done|by rewrite H1|].
  rewrite H1. split; [done|]. pose proof (zlen_nonneg (@nil Z)). unfold capacity_of in *. lia.
Qed.

(** ** Copies *)

Lemma vec_assign_spec src dst :
  0 ≤ vsize src ≤ capacity_of src →
  elements (vec_assign src dst) = elements src ∧ vsize (vec_assign src dst) = vsize src.
Proof.
  intros Hs. pose proof (elements_length src Hs) as Hl. unfold vec_assign.
  case_cmp; (split; [|done]); unfold elements; cbn; fold (elements src).
  - apply take_ge. unfold zlen in Hl. lia.
  - rewrite take_app_le by (unfold zlen in Hl; lia). apply take_ge. unfold zlen in Hl. lia.
Qed.

(** Every copy reads the same bytes as its source: a fresh copy, an assigned
    one, and the target of a move, whose source is left empty. *)
Lemma copies_read_the_same m b other :
  0 ≤ vsize (dynamic_buffer_ other) ≤ capacity_of (dynamic_buffer_ other) →
  contents m (copy other) = contents m other
  ∧ contents m (copy_assign false b other) = contents m other
  ∧ contents m (move_assign false b other).1 = contents m other
  ∧ contents m (move_assign false b other).2 = [] ∧ copy_assign true b b = b.
Proof.
  intros Hs. pose proof (elements_length _ Hs) as Hl.
  destruct (vec_assign_spec _ (dynamic_buffer_ b) Hs) as [He _].
  split_and!; try done; unfold contents; cbn; destruct (is_dynamic_ other); try done.
  - f_equal. unfold elements. cbn. apply take_ge. unfold zlen in Hl. unfold elements in Hl. lia.
  - by rewrite He.
Qed.

(** A copy of a view appends into the caller's array of its source. *)
Lemma copied_view_shares m b p arr data :
  external_ok m b p arr → data ≠ [] → offset_ b + zlen data ≤ size_ b → is_i32 (offset_ b + zlen data) →
  ∃ m' b', append data m (copy b) = Ret (m', b') ∧ raw b' = raw b
    ∧ m' !! p = Some (memcpy arr (offset_ b) data).
Proof.
  intros [Hd Hp Ha Ho Hs] Hne Hfit Hi. unfold append. pose proof (zlen_nonneg data).
  destruct (Z.leb_spec (zlen data) 0) as [Hz|Hz].
  { destruct data; [done|]. rewrite zlen_cons in Hz. pose proof (zlen_nonneg data). lia. }
  cbn [offset_ copy]. cbn. rewrite bool_decide_true by done. unfold ensure_capacity. cbn. rewrite Hd.
  rewrite (proj2 (Z.ltb_ge _ _)) by lia. cbn. rewrite Hd, Hp, Ha. unfold memcpy_at.
  rewrite (proj2 (Z.leb_le _ _)), (proj2 (Z.leb_le _ _)) by lia. cbn.
  eexists _, _. split_and!; [reflexivity| |apply lookup_insert_eq].
  unfold raw, get_buffer_ptr. cbn. by rewrite Hd, Hp.
Qed.

(** ** Properties *)

(** The owning buffer loses what is appended to it: after any
    sequence of appends to a new dynamic buffer the offset is the total length,
    but every byte up to it reads back as zero, because [resize] initialises
    the elements that [memcpy] had just written. *)
Theorem dynamic_appends_read_zero n o ds m :
  0 ≤ n → zlen (concat ds) < 2 ^ 31 →
  ∃ b, appends ds m (make_dynamic n o) = Ret (m, b)
    ∧ offset_ b = zlen (concat ds)
    ∧ contents m b = replicate (length (concat ds)) 0
    ∧ size_ b = i32 n.
Proof.
  intros Hn Hl. pose proof (zlen_nonneg (concat ds)).
  destruct (appends_dynamic ds m (make_dynamic n o)) as (b & H1 & Hok & He & Hs);
    [by apply make_dynamic_ok|cbn; int_unfold; lia|].
  exists b. assert (contents m b = replicate (length (concat ds)) 0) as Hcon.
  { rewrite dynamic_contents, He by done. cbn. pose proof (vec_reserve_spec n empty_vec) as H2.
    destruct H2 as (_ & -> & _); [done|]. done. }
  split_and!; [done| |done|done]. pose proof Hok as [_ -> Hc].
  rewrite <- (elements_length _ Hc), <- (dynamic_contents m), Hcon by done.
  unfold zlen. by rewrite length_replicate.
Qed.

(** Appending to a caller's array either copies the data to the
    offset, advances the offset by its length and touches nothing else, or,
    when it does not fit the declared size, throws and changes nothing. *)
Theorem external_append_spec m b p arr data :
  external_ok m b p arr → is_i32 (offset_ b + zlen data) →
  if size_ b <? offset_ b + zlen data
  then data ≠ [] ∧ append data m b = Throw "External buffer capacity exceeded"
  else ∃ m' arr', append data m b = Ret (m', b <| offset_ := offset_ b + zlen data |>)
    ∧ external_ok m' (b <| offset_ := offset_ b + zlen data |>) p arr'
    ∧ contents m' (b <| offset_ := offset_ b + zlen data |>) = contents m b ++ data
    ∧ (∀ q, q ≠ p → m' !! q = m !! q).
Proof.
  intros [Hd Hp Ha Ho Hs] Hi. unfold append. pose proof (zlen_nonneg data).
  rewrite bool_decide_true by done. unfold ensure_capacity. cbn [negb]. rewrite Hd.
  destruct (Z.leb_spec (zlen data) 0) as [Hz|Hz].
  { assert (data = []) as -> by (destruct data; [done|rewrite zlen_cons in *;
      pose proof (zlen_nonneg data); lia]). rewrite zlen_nil, Z.add_0_r. case_cmp; [lia|].
    replace (b <| offset_ := offset_ b |>) with b by (by destruct b).
    exists m, arr. rewrite app_nil_r. by split_and!. }
  destruct (Z.ltb_spec (size_ b) (offset_ b + zlen data)).
  { split; [|done]. by intros ->. }
  cbn. rewrite Hd, Hp, Ha. unfold memcpy_at.
  rewrite (proj2 (Z.leb_le _ _)), (proj2 (Z.leb_le _ _)) by lia. cbn.
  eexists _, (memcpy arr (offset_ b) data). split_and!; [reflexivity| | |].
  - split; cbn; [done|done|apply lookup_insert_eq|lia|by rewrite zlen_memcpy].
  - unfold contents. cbn. rewrite Hd, Hp, lookup_insert_eq, Ha. cbn. apply memcpy_upto; lia.
  - intros q Hq. by rewrite lookup_insert_ne by done.
Qed.

End vector.

Lemma dynamic_appends_read_zero_witness :
  ∃ b, appends 7 [[72; 105]; [33]] ∅ (make_dynamic 7 2 data_none) = Ret (∅, b)
    ∧ offset_ b = 3 ∧ contents ∅ b = [0; 0; 0] ∧ size_ b = i32 2.
Proof. apply (dynamic_appends_read_zero 7 2 data_none [[72; 105]; [33]] ∅); by_decide. Defined.

Lemma external_append_spec_witness :
  let b := make_external 1 2 8 data_none in
  let m := {[ 1 := [1; 2; 3; 4; 5; 6; 7; 8] ]} in
  ∃ m' arr', append 7 [9; 10] m b = Ret (m', b <| offset_ := 4 |>)
    ∧ external_ok m' (b <| offset_ := 4 |>) 1 arr'
    ∧ contents m' (b <| offset_ := 4 |>) = contents m b ++ [9; 10]
    ∧ (∀ q, q ≠ 1 → m' !! q = m !! q).
Proof.
  intros b m. apply (external_append_spec 7 m b 1 [1; 2; 3; 4; 5; 6; 7; 8] [9; 10]); [|by_decide].
  split; try reflexivity; vm_compute; split; discriminate.
Defined.
End packet_buffer.
