(* ===== verification/Floats.v ===== *)
(** * IEEE 754 arithmetic used by the game logic

    [float] is binary32 and [double] binary64, both as [spec_float] of the
    Standard Library with round to nearest even; an operation of the C++ code is
    the operation at the width at which the code does it. *)

From S2P Require Import Prelude.
From Stdlib Require Export Floats.SpecFloat.

Definition f32 : Type := spec_float.
Definition f64 : Type := spec_float.

#[global] Instance f32_eq_dec : EqDecision spec_float.
Proof. solve_decision. Defined.

(** ** Operations *)

Definition fadd : f32 → f32 → f32 := SFadd 24 128.
Definition fsub : f32 → f32 → f32 := SFsub 24 128.
Definition fmul : f32 → f32 → f32 := SFmul 24 128.
Definition fdiv : f32 → f32 → f32 := SFdiv 24 128.
Definition fsqrt : f32 → f32 := SFsqrt 24 128.

Definition dadd : f64 → f64 → f64 := SFadd 53 1024.
Definition dmul : f64 → f64 → f64 := SFmul 53 1024.
Definition dsqrt : f64 → f64 := SFsqrt 53 1024.

(** Conversions between the widths; every binary32 value is a binary64 value. *)
Definition round_to (prec emax : Z) (x : spec_float) : spec_float :=
  match x with
  | S754_finite s m e => binary_round prec emax s m e
  | _ => x
  end.
Definition f64_of_f32 (x : f32) : f64 := round_to 53 1024 x.
Definition f32_of_f64 (x : f64) : f32 := round_to 24 128 x.

(** [static_cast<float>(n)] of an integer, and integer literals. *)
Definition f32_of_Z (n : Z) : f32 := binary_normalize 24 128 n 0 false.

(** The C++ comparisons: false when an operand is NaN. *)
Definition fltb (a b : f32) : bool := SFltb a b.
Definition fleb (a b : f32) : bool := SFleb a b.
Definition feqb (a b : f32) : bool := SFeqb a b.

(** [std::clamp(v, lo, hi)] *)
Definition fclamp (v lo hi : f32) : f32 :=
  if fltb v lo then lo else if fltb hi v then hi else v.

Definition is_nan (x : f32) : bool := match x with S754_nan => true | _ => false end.
Definition is_finite (x : f32) : bool :=
  match x with S754_zero _ | S754_finite _ _ _ => true | _ => false end.

(** A binary32 value from its wire bits, and back. *)
Definition f32_of_bits (b : Z) : f32 :=
  let s := Z.testbit b 31 in
  let e := Z.land (Z.shiftr b 23) 0xFF in
  let m := Z.land b 0x7FFFFF in
  if e =? 0xFF then (if m =? 0 then S754_infinity s else S754_nan)
  else if e =? 0 then match m with Zpos p => S754_finite s p (-149) | _ => S754_zero s end
  else match m + 0x800000 with Zpos p => S754_finite s p (e - 150) | _ => S754_nan end.

(** Literals of the code. *)
Definition f0 : f32 := Eval vm_compute in f32_of_Z 0.
Definition f1 : f32 := Eval vm_compute in f32_of_Z 1.
Definition f2 : f32 := Eval vm_compute in f32_of_Z 2.
Definition f10 : f32 := Eval vm_compute in f32_of_Z 10.
Definition f20 : f32 := Eval vm_compute in f32_of_Z 20.
Definition f1000 : f32 := Eval vm_compute in f32_of_Z 1000.
Definition fm1000 : f32 := Eval vm_compute in f32_of_Z (-1000).
Definition f0_1 : f32 := Eval vm_compute in fdiv (f32_of_Z 1) (f32_of_Z 10).
Definition f0_5 : f32 := Eval vm_compute in fdiv (f32_of_Z 1) (f32_of_Z 2).
(** [std::numeric_limits<float>::max()] *)
Definition fmax_float : f32 := Eval vm_compute in SFmax_float 24 128.

Example f32_bits_0_1 : f32_of_bits 0x3DCCCCCD = f0_1.
Proof. vm_compute. reflexivity. Qed.
Example f32_bits_m1000 : f32_of_bits 0xC47A0000 = fm1000.
Proof. vm_compute. reflexivity. Qed.

(** ** Order *)

Lemma SFcompare_swap a b c :
  SFcompare a b = Some c → SFcompare b a = Some (CompOpp c).
Proof.
  destruct a as [s|s| |s m e], b as [s'|s'| |s' m' e']; cbn; try done;
    try (by destruct s; intros [= <-]); try (by destruct s'; intros [= <-]);
    try (by destruct s, s'; intros [= <-]).
  destruct s, s'; try (by intros [= <-]); rewrite (Z.compare_antisym e e');
    destruct (Z.compare e e') eqn:He; cbn; intros [= <-]; try done;
    change (Pos.compare_cont Eq) with Pos.compare; rewrite (Pos.compare_antisym m m');
    by rewrite ?CompOpp_involutive.
Qed.

Lemma SFcompare_total a b :
  is_nan a = false → is_nan b = false → ∃ c, SFcompare a b = Some c.
Proof. destruct a, b; cbn; try done; eauto. Qed.

(** Away from NaN the two comparisons decide one order. *)
Lemma fltb_fleb a b :
  is_nan a = false → is_nan b = false → fltb a b = negb (fleb b a).
Proof.
  intros Ha Hb. destruct (SFcompare_total a b) as [c Hc]; [done..|].
  unfold fltb, fleb, SFltb, SFleb. rewrite Hc, (SFcompare_swap _ _ _ Hc). by destruct c.
Qed.

Lemma SFcompare_refl a : is_nan a = false → SFcompare a a = Some Eq.
Proof.
  destruct a as [s|s| |s m e]; cbn; try done; try (by destruct s).
  rewrite Z.compare_refl. change (Pos.compare_cont Eq) with Pos.compare.
  rewrite Pos.compare_refl. by destruct s.
Qed.

Lemma fleb_refl a : is_nan a = false → fleb a a = true.
Proof. intros Ha. unfold fleb, SFleb. by rewrite SFcompare_refl. Qed.

(** Sign, exponent and mantissa of a non-NaN value, ordered as the value is. *)
Definition order_key (a : f32) : Z * Z * Z :=
  match a with
  | S754_nan => (0, 0, 0)
  | S754_infinity s => if s then (-2, 0, 0) else (2, 0, 0)
  | S754_zero _ => (0, 0, 0)
  | S754_finite s m e => if s then (-1, - e, - Z.pos m) else (1, e, Z.pos m)
  end.

Lemma fleb_order_key a b :
  is_nan a = false → is_nan b = false →
  fleb a b = true ↔
    let '(s, e, m) := order_key a in let '(s', e', m') := order_key b in
    s < s' ∨ s = s' ∧ (e < e' ∨ e = e' ∧ m ≤ m').
Proof.
  intros Ha Hb. unfold fleb, SFleb. destruct a as [s|s| |s m e], b as [s'|s'| |s' m' e'];
    try done; cbn; try (destruct s; lia || (split; [lia|done]));
    try (destruct s, s'; split; done || lia); try (destruct s'; split; done || lia).
  change (Pos.compare_cont Eq) with Pos.compare.
  destruct s, s'; try (split; done || lia); destruct (Z.compare_spec e e'); subst; cbn;
    try (split; done || lia); destruct (Pos.compare_spec m m'); subst; cbn; split; done || lia.
Qed.

Lemma fleb_trans a b c : fleb a b = true → fleb b c = true → fleb a c = true.
Proof.
  intros H1 H2.
  assert (is_nan a = false ∧ is_nan b = false ∧ is_nan c = false) as (Ha & Hb & Hc).
  { destruct a, b; try done; destruct c; try done. }
  apply fleb_order_key in H1, H2; [|done..]. apply fleb_order_key; [done..|].
  destruct (order_key a) as [[sa ea] ma], (order_key b) as [[sb eb] mb],
    (order_key c) as [[sc ec] mc]. lia.
Qed.

Lemma fltb_nan a b : fltb a b = true → is_nan a = false ∧ is_nan b = false.
Proof. by destruct a, b. Qed.

Lemma fltb_fleb_le a b : fltb a b = true → fleb a b = true.
Proof. unfold fltb, fleb, SFltb, SFleb. by destruct (SFcompare a b) as [[]|]. Qed.

Lemma fleb_nan_l a b : fleb a b = true → is_nan a = false.
Proof. by destruct a. Qed.
Lemma fleb_nan_r a b : fleb a b = true → is_nan b = false.
Proof. by destruct a, b. Qed.

(** [std::clamp] lands in its interval, except on NaN. *)
Lemma fclamp_in v lo hi :
  is_nan v = false → fleb lo hi = true →
  fleb lo (fclamp v lo hi) = true ∧ fleb (fclamp v lo hi) hi = true.
Proof.
  intros Hv Hlo. pose proof (fleb_nan_l _ _ Hlo). pose proof (fleb_nan_r _ _ Hlo).
  unfold fclamp. rewrite !fltb_fleb by done. destruct (fleb lo v) eqn:E1; cbn.
  - destruct (fleb v hi) eqn:E2; cbn; [done|]. by rewrite Hlo, fleb_refl.
  - by rewrite fleb_refl.
Qed.

Lemma fclamp_nan lo hi : fclamp S754_nan lo hi = S754_nan.
Proof. unfold fclamp, fltb, SFltb. cbn. by destruct hi. Qed.

(** ** NaN absorbs *)

Lemma fadd_nan_l x : fadd S754_nan x = S754_nan.
Proof. by destruct x. Qed.
Lemma fadd_nan_r x : fadd x S754_nan = S754_nan.
Proof. by destruct x. Qed.
Lemma fsub_nan_l x : fsub S754_nan x = S754_nan.
Proof. by destruct x. Qed.
Lemma fsub_nan_r x : fsub x S754_nan = S754_nan.
Proof. by destruct x. Qed.
Lemma fmul_nan_l x : fmul S754_nan x = S754_nan.
Proof. by destruct x. Qed.
Lemma fdiv_nan_l x : fdiv S754_nan x = S754_nan.
Proof. by destruct x. Qed.

Create Rewrite HintDb fnan.
#[export] Hint Rewrite fadd_nan_l fadd_nan_r fsub_nan_l fsub_nan_r fmul_nan_l fdiv_nan_l : fnan.

(** Equal finite values have difference zero. *)
Lemma fsub_diag x : is_finite x = true → fsub x x = S754_zero false.
Proof.
  unfold fsub. destruct x as [s|s| |s m e]; try done; intros _; cbn [SFsub].
  - by destruct s.
  - rewrite Z.sub_diag. done.
Qed.
