(* ===== verification/Text.v ===== *)
(** * Text conversions of the C and C++ library

    What src/server/db and src/server/core use to turn numbers into text and
    back: [std::to_string], [std::stoll], the [%d], [%lld], [%s] and [%.4f]
    directives of [printf], and the cut [snprintf] makes at the end of its
    buffer.  Text is a list of bytes, as everywhere in the development. *)

From S2P Require Import Prelude Floats.

(** ** Digits *)

(** Decimal digits of [n], most significant first; [fuel] digits at most. *)
Fixpoint digits (fuel : nat) (n : Z) : list Z :=
  match fuel with
  | O => []
  | S fuel => (if n <? 10 then [] else digits fuel (n / 10)) ++ [48 + n mod 10]
  end.

(** One digit uses up more than a bit, so [log2 n + 1] digits are enough. *)
Definition udec (n : Z) : list Z := digits (S (Z.to_nat (Z.log2 n))) n.

(** [std::to_string], [%d] and [%lld] *)
Definition to_string (z : Z) : list Z := if z <? 0 then 45 :: udec (- z) else udec z.

Definition is_digit (c : Z) : bool := (48 <=? c) && (c <=? 57).

(** Value of a run of digits, and the rest behind the run. *)
Fixpoint read_digits (acc : Z) (l : list Z) : Z * list Z :=
  match l with
  | c :: l' => if is_digit c then read_digits (10 * acc + (c - 48)) l' else (acc, l)
  | [] => (acc, [])
  end.

(** ** Parsing *)

Definition is_space (c : Z) : bool := (c =? 32) || ((9 <=? c) && (c <=? 13)).

Fixpoint skip_space (l : list Z) : list Z :=
  match l with
  | c :: l' => if is_space c then skip_space l' else l
  | [] => []
  end.

(** [std::stoll(s)], whose two exceptions (no digits, out of range) are [None].
    Whatever follows the number is ignored. *)
Definition stoll (l : list Z) : option Z :=
  let l := skip_space l in
  let '(neg, l) := match l with
                   | c :: l' => if c =? 45 then (true, l')
                                else if c =? 43 then (false, l') else (false, l)
                   | [] => (false, [])
                   end in
  match l with
  | c :: _ =>
      if is_digit c then
        let v := (read_digits 0 l).1 in
        let v := if neg then - v else v in
        if (- 2 ^ 63 <=? v) && (v <? 2 ^ 63) then Some v else None
      else None
  | [] => None
  end.

(** ** printf *)

(** [s.c_str()] read by a [%s]: the bytes before the first NUL. *)
Fixpoint c_str (l : list Z) : list Z :=
  match l with
  | c :: l' => if c =? 0 then [] else c :: c_str l'
  | [] => []
  end.

(** [m * 2^e * 10^4] rounded to an integer, ties to even. *)
Definition scaled (m : positive) (e : Z) : Z :=
  if 0 <=? e then Zpos m * 2 ^ e * 10000
  else
    let d := 2 ^ (- e) in
    let n := Zpos m * 10000 in
    let q := n / d in
    let r := n mod d in
    if 2 * r <? d then q else if d <? 2 * r then q + 1 else if Z.even q then q else q + 1.

(** The four digits behind the point. *)
Definition frac4 (q : Z) : list Z :=
  [48 + q / 1000 mod 10; 48 + q / 100 mod 10; 48 + q / 10 mod 10; 48 + q mod 10].

Definition fixed4 (q : Z) : list Z := udec (q / 10000) ++ [46] ++ frac4 q.

Definition sign_text (s : bool) : list Z := if s then [45] else [].

(** The sign bit of a NaN is not part of [f32], but [printf] shows it. *)
Class NanSign := nan_negative : bool.

(** [%.4f] of a [float], whose promotion to [double] is exact. *)
Definition fmt_f4 `{NanSign} (x : f32) : list Z :=
  match x with
  | S754_nan => sign_text nan_negative ++ bytes_of_string "nan"
  | S754_infinity s => sign_text s ++ bytes_of_string "inf"
  | S754_zero s => sign_text s ++ fixed4 0
  | S754_finite s m e => sign_text s ++ fixed4 (scaled m e)
  end.

(** What [snprintf(buf, size, ...)] leaves in the buffer, without the NUL. *)
Definition snprintf (size : Z) (text : list Z) : list Z := take (Z.to_nat (size - 1)) text.

(** A literal with ['] for the double quote. *)
Definition quoted (s : string) : list Z :=
  (λ c, if c =? 39 then 34 else c) <$> bytes_of_string s.

(** ** Examples *)

Example to_string_min : to_string (- 2 ^ 63) = bytes_of_string "-9223372036854775808".
Proof. vm_compute. reflexivity. Qed.
Example fmt_f4_tenth `{NanSign} : fmt_f4 f0_1 = bytes_of_string "0.1000".
Proof. vm_compute. reflexivity. Qed.
Example fmt_f4_m1000 `{NanSign} : fmt_f4 fm1000 = bytes_of_string "-1000.0000".
Proof. vm_compute. reflexivity. Qed.
Example stoll_tail : stoll (bytes_of_string " 42abc") = Some 42.
Proof. vm_compute. reflexivity. Qed.
Example stoll_sign_only : stoll (bytes_of_string "-x") = None.
Proof. vm_compute. reflexivity. Qed.

(** ** Laws of the digits *)

Lemma digits_app_read fuel n acc rest :
  0 ≤ n < 2 ^ Z.of_nat fuel →
  ∃ p, read_digits acc (digits fuel n ++ rest) = read_digits (acc * p + n) rest.
Proof.
  revert n acc rest. induction fuel as [|fuel IH]; intros n acc rest Hn.
  - exists 1. change (2 ^ Z.of_nat 0) with 1 in Hn. simpl. f_equal. lia.
  - assert (Hdiv : n / 10 < 2 ^ Z.of_nat fuel).
    { rewrite Nat2Z.inj_succ, Z.pow_succ_r in Hn by lia. apply Z.div_lt_upper_bound; lia. }
    assert (Hdig : is_digit (48 + n mod 10) = true).
    { unfold is_digit. pose proof (Z.mod_pos_bound n 10). apply andb_true_iff.
      split; apply Z.leb_le; lia. }
    assert (Hlast : ∀ a, read_digits a ((48 + n mod 10) :: rest)
                         = read_digits (10 * a + n mod 10) rest).
    { intros a. cbn -[Z.mul Z.add Z.modulo is_digit]. rewrite Hdig. f_equal. lia. }
    simpl digits. rewrite <- app_assoc. simpl app. destruct (Z.ltb_spec n 10).
    + exists 10. simpl app. rewrite Hlast, Z.mod_small by lia. f_equal. lia.
    + pose proof (Z.div_pos n 10 ltac:(lia) ltac:(lia)).
      destruct (IH (n / 10) acc ((48 + n mod 10) :: rest)) as [p Hp]; [lia|].
      exists (10 * p). rewrite Hp, Hlast. f_equal.
      pose proof (Z.div_mod n 10). lia.
Qed.

Lemma udec_fuel n : 0 ≤ n → n < 2 ^ Z.of_nat (S (Z.to_nat (Z.log2 n))).
Proof.
  intros Hn. rewrite Nat2Z.inj_succ, Z2Nat.id by apply Z.log2_nonneg.
  destruct (decide (n = 0)) as [->|]; [done|]. apply Z.log2_spec. lia.
Qed.

Lemma read_udec n : 0 ≤ n → read_digits 0 (udec n) = (n, []).
Proof.
  intros Hn. unfold udec. pose proof (udec_fuel n Hn).
  destruct (digits_app_read (S (Z.to_nat (Z.log2 n))) n 0 []) as [p Hp]; [lia|].
  rewrite app_nil_r in Hp. by rewrite Hp.
Qed.

Lemma digits_all fuel n : 0 ≤ n → Forall (λ c, is_digit c = true) (digits fuel n).
Proof.
  revert n. induction fuel as [|fuel IH]; intros n Hn; simpl; [constructor|].
  apply Forall_app. split.
  - destruct (n <? 10); [constructor|]. apply IH. apply Z.div_pos; lia.
  - repeat constructor. unfold is_digit. pose proof (Z.mod_pos_bound n 10).
    apply andb_true_iff. split; apply Z.leb_le; lia.
Qed.

Lemma digits_length fuel n k :
  0 ≤ n < 10 ^ Z.of_nat (S k) → (length (digits fuel n) ≤ S k)%nat.
Proof.
  revert n k. induction fuel as [|fuel IH]; intros n k Hn; simpl; [lia|].
  rewrite length_app. simpl length. destruct (Z.ltb_spec n 10); [simpl; lia|].
  destruct k as [|k]; [change (10 ^ Z.of_nat 1) with 10 in Hn; lia|].
  pose proof (Z.div_pos n 10). enough (length (digits fuel (n / 10)) ≤ S k)%nat by lia.
  apply IH. split; [lia|]. apply Z.div_lt_upper_bound; [lia|].
  rewrite (Nat2Z.inj_succ (S k)), Z.pow_succ_r in Hn by lia. lia.
Qed.

Lemma udec_digits n : 0 ≤ n → Forall (λ c, is_digit c = true) (udec n).
Proof. apply digits_all. Qed.

Lemma udec_cons n : 0 ≤ n → ∃ c l, udec n = c :: l ∧ is_digit c = true.
Proof.
  intros Hn. pose proof (udec_digits n Hn) as Hd. unfold udec in *. cbn [digits] in *.
  destruct (_ ++ _) as [|c l] eqn:E; [by apply app_nil in E as [_ ?]|].
  exists c, l. split; [done|]. by apply Forall_cons in Hd as [? _].
Qed.

Lemma digit_not_space c : is_digit c = true → is_space c = false.
Proof.
  unfold is_digit, is_space. intros [H1 H2]%andb_true_iff.
  apply Z.leb_le in H1, H2. apply orb_false_iff. split; [apply Z.eqb_neq; lia|].
  apply andb_false_iff. right. apply Z.leb_gt. lia.
Qed.

(** ** Round trip of [std::to_string] and [std::stoll] *)

Lemma stoll_to_string z : is_i64 z → stoll (to_string z) = Some z.
Proof.
  intros Hz. unfold is_i64 in Hz. unfold to_string.
  assert (Hrange : (- 2 ^ 63 <=? z) && (z <? 2 ^ 63) = true).
  { apply andb_true_iff. rewrite Z.leb_le, Z.ltb_lt. lia. }
  destruct (Z.ltb_spec z 0).
  - destruct (udec_cons (- z)) as (c & l & E & Hc); [lia|].
    unfold stoll. simpl skip_space. rewrite E. cbn -[Z.pow read_digits is_digit].
    rewrite Hc, <- E, read_udec by lia. cbn -[Z.pow]. by rewrite Z.opp_involutive, Hrange.
  - destruct (udec_cons z) as (c & l & E & Hc); [lia|].
    unfold stoll. rewrite E. simpl skip_space. rewrite (digit_not_space c Hc).
    assert (c ≠ 45 ∧ c ≠ 43) as [->%Z.eqb_neq ->%Z.eqb_neq].
    { unfold is_digit in Hc. apply andb_true_iff in Hc as [H1%Z.leb_le _]. lia. }
    cbn -[Z.pow read_digits is_digit]. rewrite Hc, <- E, read_udec by lia.
    cbn -[Z.pow]. by rewrite Hrange.
Qed.

Lemma to_string_inj y z : is_i64 y → is_i64 z → to_string y = to_string z → y = z.
Proof. intros Hy%stoll_to_string Hz%stoll_to_string E. congruence. Qed.

(** ** Lengths *)

Lemma udec_length n k : 0 ≤ n < 10 ^ Z.of_nat (S k) → zlen (udec n) ≤ Z.of_nat (S k).
Proof. intros Hn. unfold zlen, udec. pose proof (digits_length (S (Z.to_nat (Z.log2 n))) n k Hn). lia. Qed.

Lemma to_string_i32_length z : is_i32 z → zlen (to_string z) ≤ 11.
Proof.
  unfold is_i32. intros Hz. unfold to_string. destruct (Z.ltb_spec z 0); rewrite ?zlen_cons.
  - pose proof (udec_length (- z) 9 ltac:(simpl; lia)). lia.
  - pose proof (udec_length z 9 ltac:(simpl; lia)). lia.
Qed.

Lemma to_string_i64_length z : is_i64 z → zlen (to_string z) ≤ 20.
Proof.
  unfold is_i64. intros Hz. unfold to_string. destruct (Z.ltb_spec z 0); rewrite ?zlen_cons.
  - pose proof (udec_length (- z) 18 ltac:(simpl; lia)). lia.
  - pose proof (udec_length z 18 ltac:(simpl; lia)). lia.
Qed.

(** A finite value of type [float]: mantissa below 2^24, exponent below 105. *)
Definition is_f32 (x : f32) : Prop := valid_binary 24 128 x = true.
#[global] Instance is_f32_dec x : Decision (is_f32 x).
Proof. unfold is_f32. apply _. Defined.

Lemma digits2_pos_bound m : Zpos m < 2 ^ Zpos (digits2_pos m).
Proof.
  induction m as [m IH|m IH|]; cbn [digits2_pos]; [..|done];
    rewrite Pos2Z.inj_succ, Z.pow_succ_r by lia; lia.
Qed.

Lemma is_f32_bounds s m e : is_f32 (S754_finite s m e) → Zpos m < 2 ^ 24 ∧ e ≤ 104.
Proof.
  unfold is_f32. cbn -[Z.sub]. unfold bounded, canonical_mantissa, fexp, emin.
  intros [H1 H2]%andb_true_iff. apply Z.leb_le in H2.
  apply Z.eqb_eq in H1. split; [|lia].
  eapply Z.lt_le_trans; [apply digits2_pos_bound|]. apply Z.pow_le_mono_r; lia.
Qed.

Lemma scaled_bound s m e :
  is_f32 (S754_finite s m e) → 0 ≤ scaled m e < 10 ^ 43.
Proof.
  intros [Hm He]%is_f32_bounds. unfold scaled. destruct (Z.leb_spec 0 e).
  - assert (2 ^ e ≤ 2 ^ 104) by (apply Z.pow_le_mono_r; lia).
    assert (0 < 2 ^ e) by (apply Z.pow_pos_nonneg; lia).
    split; [lia|]. apply Z.le_lt_trans with (2 ^ 24 * 2 ^ 104 * 10000); [|done].
    apply Z.mul_le_mono_nonneg_r; [lia|]. apply Z.mul_le_mono_nonneg; lia.
  - assert (0 < 2 ^ (- e)) by (apply Z.pow_pos_nonneg; lia).
    assert (0 ≤ Zpos m * 10000 / 2 ^ (- e) ≤ Zpos m * 10000).
    { split; [apply Z.div_pos; lia|]. apply Z.div_le_upper_bound; nia. }
    change (2 ^ 24) with 16777216 in Hm. repeat case_match; lia.
Qed.

Lemma fmt_f4_length `{NanSign} x : is_f32 x → zlen (fmt_f4 x) ≤ 45.
Proof.
  assert (Hs : ∀ s, zlen (sign_text s) ≤ 1) by (by intros []).
  assert (Hq : ∀ q, 0 ≤ q < 10 ^ 43 → zlen (fixed4 q) ≤ 44).
  { intros q Hq. unfold fixed4, frac4. autorewrite with zlen.
    assert (0 ≤ q / 10000 < 10 ^ Z.of_nat 39).
    { split; [apply Z.div_pos; lia|]. apply Z.div_lt_upper_bound; simpl; lia. }
    pose proof (udec_length (q / 10000) 38). lia. }
  intros Hx. destruct x as [s|s| |s m e]; unfold fmt_f4; autorewrite with zlen.
  - pose proof (Hs s). pose proof (Hq 0). lia.
  - pose proof (Hs s). change (zlen (bytes_of_string "inf")) with 3. lia.
  - pose proof (Hs nan_negative). change (zlen (bytes_of_string "nan")) with 3. lia.
  - pose proof (Hs s). pose proof (Hq _ (scaled_bound s m e Hx)). lia.
Qed.

Lemma snprintf_fits size text : zlen text < size → snprintf size text = text.
Proof. unfold zlen, snprintf. intros. apply take_ge. lia. Qed.

Lemma snprintf_length size text : 0 < size → zlen (snprintf size text) < size.
Proof. unfold zlen, snprintf. intros. rewrite length_take. lia. Qed.

(** ** C strings *)

Lemma c_str_no_nul l : 0 ∉ l → c_str l = l.
Proof.
  induction l as [|c l IH]; simpl; [done|]. intros [Hc Hl]%not_elem_of_cons.
  destruct (Z.eqb_spec c 0); [congruence|]. by rewrite IH.
Qed.

Lemma c_str_length l : zlen (c_str l) ≤ zlen l.
Proof.
  induction l as [|c l IH]; simpl; [done|].
  destruct (c =? 0); autorewrite with zlen; pose proof (zlen_nonneg l); lia.
Qed.

Lemma c_str_cut l k : 0 ∉ l → c_str (l ++ 0 :: k) = l.
Proof.
  induction l as [|c l IH]; simpl; [done|]. intros [Hc Hl]%not_elem_of_cons.
  destruct (Z.eqb_spec c 0); [congruence|]. by rewrite IH.
Qed.

Lemma udec_no_nul n : 0 ≤ n → 0 ∉ udec n.
Proof. intros Hn Hin. by apply (proj1 (Forall_forall _ _) (udec_digits n Hn)) in Hin. Qed.

Lemma to_string_no_nul z : 0 ∉ to_string z.
Proof.
  unfold to_string. destruct (Z.ltb_spec z 0); [|apply udec_no_nul; lia].
  apply not_elem_of_cons. split; [done|]. apply udec_no_nul. lia.
Qed.
