(* ===== verification/CoreObjects.v ===== *)
(** * Thread group and player object
      ([src/server/core/thread_group.{hpp,cpp}], [src/server/game/objects/player.{hpp,cpp}])

    Two classes that the program compiles but the running server does not use:
    the runner for a group of threads and the stand-alone player. *)

From S2P Require Import Prelude Floats.

(** ** Thread group *)

Module thread_group.
Section group.
(** What a task can do to the world: it is called with its index. *)
Context {W : Type} (task : nat → W → W).

(** A thread is the index of its task, and whether it has finished. *)
Record t := mk { threads_ : list (nat * bool); running_ : bool }.
#[global] Instance t_eta : Settable t := λ g, mk (threads_ g) (running_ g).

Definition make : t := mk [] false.

Definition start (count : nat) (g : t) : t :=
  if running_ g then g
  else mk (threads_ g ++ ((λ i, (i, false)) <$> seq 0 count)) true.

(** The [k]-th thread runs its task. *)
Definition finish (k : nat) (g : t) (w : W) : t * W :=
  match threads_ g !! k with
  | Some (i, false) => (g <| threads_ ::= <[k := (i, true)]> |>, task i w)
  | _ => (g, w)
  end.

(** [join] returns once every thread has finished, in which case it forgets
    them; [None]: it still waits. *)
Definition join (g : t) : option t :=
  if negb (running_ g) then Some g
  else if forallb snd (threads_ g) then Some (mk [] false) else None.

Definition size (g : t) : Z := zlen (threads_ g).

(** One run: started, finished in the order of the list, joined. *)
Definition finish_all (ks : list nat) (g : t) (w : W) : t * W :=
  foldl (λ '(g, w) k, finish k g w) (g, w) ks.

Lemma finish_seq done pending w :
  finish_all (seq (length done) (length pending))
    (mk (((λ i, (i, true)) <$> done) ++ ((λ i, (i, false)) <$> pending)) true) w =
  (mk ((λ i, (i, true)) <$> done ++ pending) true, foldl (λ w i, task i w) w pending).
Proof.
  revert done w. induction pending as [|i pending IH]; intros done w.
  { cbn. by rewrite !app_nil_r. }
  cbn [length seq]. unfold finish_all. cbn [foldl]. unfold finish at 2.
  rewrite fmap_cons. cbn [threads_].
  rewrite lookup_app_r, length_fmap, Nat.sub_diag by (by rewrite length_fmap). cbn [lookup list_lookup].
  specialize (IH (done ++ [i]) (task i w)). unfold finish_all in IH.
  rewrite length_app, Nat.add_1_r, fmap_app, <- !app_assoc in IH. cbn [app fmap list_fmap] in IH.
  rewrite <- IH. do 2 f_equal. unfold set. cbn. f_equal.
  rewrite insert_app_r_alt by (by rewrite length_fmap). by rewrite length_fmap, Nat.sub_diag.
Qed.

(** A fresh group runs the task once for every index, [join] waits for all of
    them, and the group can then be started again. *)
Lemma group_runs_all count w :
  let '(g, w') := finish_all (seq 0 count) (start count make) w in
  w' = foldl (λ w i, task i w) w (seq 0 count) ∧ join g = Some make ∧ size g = Z.of_nat count.
Proof.
  pose proof (finish_seq [] (seq 0 count) w) as H. cbn in H. rewrite length_seq in H.
  unfold start, make. cbn [running_ threads_]. cbn [app]. rewrite H. split_and!; [done| |].
  - unfold join. cbn. rewrite (proj2 (forallb_forall snd _)); [done|].
    intros [i b] (j & [= -> ->] & _)%list_elem_of_In%list_elem_of_fmap. done.
  - unfold size, zlen. cbn. by rewrite length_fmap, length_seq.
Qed.

(** Until then a second [start] does nothing, even if all threads have finished. *)
Lemma start_while_running count g : running_ g = true → start count g = g.
Proof. intros H. unfold start. by rewrite H. Qed.
Lemma join_waits count : count ≠ 0%nat → join (start count make) = None.
Proof. intros H. destruct count; done. Qed.
End group.
End thread_group.

(** ** Player object *)

Record Vector3 := mkVector3 { vx : f32; vy : f32; vz : f32 }.

Definition Vector3_eq (a b : Vector3) : bool :=
  feqb (vx a) (vx b) && feqb (vy a) (vy b) && feqb (vz a) (vz b).

Inductive player_state := offline | online | in_game | in_room.
#[global] Instance player_state_eq_dec : EqDecision player_state.
Proof. solve_decision. Defined.

Module player.

Record t := mk {
  player_id_ : Z;
  name_ : list Z;
  state_ : player_state;
  position_ : Vector3;
  level_ : Z;
  hp_ : Z;
  max_hp_ : Z;
  channel_id_ : Z;
  last_activity_ : Z }.
#[global] Instance t_eta : Settable t := λ p,
  mk (player_id_ p) (name_ p) (state_ p) (position_ p) (level_ p) (hp_ p) (max_hp_ p)
     (channel_id_ p) (last_activity_ p).

Definition make (now : Z) (player_id : Z) (name : list Z) : t :=
  mk player_id name offline (mkVector3 f0 f0 f0) 1 100 100 (-1) now.

Definition set_position (pos : Vector3) (p : t) : t := p <| position_ := pos |>.
Definition set_state (st : player_state) (p : t) : t := p <| state_ := st |>.
Definition set_hp (hp : Z) (p : t) : t := p <| hp_ := Z.min hp (max_hp_ p) |>.
Definition set_channel_id (channel_id : Z) (p : t) : t := p <| channel_id_ := channel_id |>.
Definition update_activity (now : Z) (p : t) : t := p <| last_activity_ := now |>.
Definition is_online (p : t) : bool := bool_decide (state_ p ≠ offline).
Definition is_in_game (p : t) : bool := bool_decide (state_ p = in_game).

Definition move_to (now : Z) (new_position : Vector3) (p : t) : t :=
  update_activity now (p <| position_ := new_position |>).

Definition distance_to (other : Vector3) (p : t) : f32 :=
  let dx := fsub (vx (position_ p)) (vx other) in
  let dy := fsub (vy (position_ p)) (vy other) in
  let dz := fsub (vz (position_ p)) (vz other) in
  fsqrt (fadd (fadd (fmul dx dx) (fmul dy dy)) (fmul dz dz)).

(** The operations that change a player, at some time each. *)
Inductive step : t → t → Prop :=
| step_position pos p : step p (set_position pos p)
| step_state st p : step p (set_state st p)
| step_hp hp p : step p (set_hp hp p)
| step_channel c p : step p (set_channel_id c p)
| step_activity now p : step p (update_activity now p)
| step_move now pos p : step p (move_to now pos p).

(** Hit points stay at or below the maximum of 100, level, id and name never
    change; nothing keeps the hit points above zero. *)
Lemma player_steps now id name p :
  rtc step (make now id name) p →
  hp_ p ≤ 100 ∧ max_hp_ p = 100 ∧ level_ p = 1 ∧ player_id_ p = id ∧ name_ p = name.
Proof.
  remember (make now id name) as p0 eqn:E.
  assert (hp_ p0 ≤ 100 ∧ max_hp_ p0 = 100 ∧ level_ p0 = 1 ∧ player_id_ p0 = id ∧ name_ p0 = name)
    as H0 by (by subst). clear E. induction 1 as [|p0 p1 p2 H1 _ IH]; [done|].
  apply IH. clear IH. destruct H0 as (? & Hm & ? & ? & ?). destruct H1; cbn; split_and!; try done.
  rewrite Hm. lia.
Qed.

Lemma hp_below_zero now id name : hp_ (set_hp (-5) (make now id name)) = -5.
Proof. done. Qed.

(** Where a finite player stands, it is at distance zero. *)
Lemma distance_to_self p :
  is_finite (vx (position_ p)) = true → is_finite (vy (position_ p)) = true →
  is_finite (vz (position_ p)) = true → distance_to (position_ p) p = S754_zero false.
Proof. intros Hx Hy Hz. unfold distance_to. by rewrite !fsub_diag. Qed.
End player.
