(* ===== verification/Components.v ===== *)
(** * ECS components ([src/server/game/components/*.hpp])

    The data attached to entities, with the constructors and the methods the
    component structs carry. *)

From S2P Require Import Prelude Floats.

(** An [Entity] is a 32-bit id. *)
Abbreviation Entity := Z (only parsing).

(** ** [transform.hpp] *)

Record Position := mkPosition { pos_x : f32; pos_y : f32; pos_z : f32 }.
Record Rotation := mkRotation { rot_x : f32; rot_y : f32; rot_z : f32; rot_w : f32 }.
Record Scale := mkScale { scl_x : f32; scl_y : f32; scl_z : f32 }.
Record Velocity := mkVelocity { vel_x : f32; vel_y : f32; vel_z : f32 }.

Definition Position_default : Position := mkPosition f0 f0 f0.
Definition Rotation_default : Rotation := mkRotation f0 f0 f0 f1.
Definition Scale_default : Scale := mkScale f1 f1 f1.
Definition Velocity_default : Velocity := mkVelocity f0 f0 f0.

#[global] Instance Position_eq_dec : EqDecision Position.
Proof. solve_decision. Defined.

(** ** [health.hpp] *)

Record Health := mkHealth { hp : Z; max_hp : Z; mp : Z; max_mp : Z; is_alive : bool }.
#[global] Instance Health_eta : Settable Health := λ h,
  mkHealth (hp h) (max_hp h) (mp h) (max_mp h) (is_alive h).

Module Health_.

Definition make (max_hp max_mp : Z) : Health := mkHealth max_hp max_hp max_mp max_mp true.

Definition clone (h : Health) : Health :=
  (make (max_hp h) (max_mp h)) <| hp := hp h |> <| mp := mp h |> <| is_alive := is_alive h |>.

Definition take_damage (damage : Z) (h : Health) : Health :=
  if hp h <=? damage then h <| hp := 0 |> <| is_alive := false |>
  else h <| hp := u32 (hp h - damage) |>.

Definition heal (amount : Z) (h : Health) : Health :=
  let h := h <| hp := Z.min (u32 (hp h + amount)) (max_hp h) |> in
  if 0 <? hp h then h <| is_alive := true |> else h.

Definition get_hp_percentage (h : Health) : f32 := fdiv (f32_of_Z (hp h)) (f32_of_Z (max_hp h)).
Definition get_mp_percentage (h : Health) : f32 := fdiv (f32_of_Z (mp h)) (f32_of_Z (max_mp h)).

(** Widths, the cap, and [is_alive] as the sign of [hp]. *)
Record ok (h : Health) : Prop := {
  ok_hp : 0 ≤ hp h ≤ max_hp h;
  ok_max : is_u32 (max_hp h);
  ok_mp : is_u32 (mp h) ∧ is_u32 (max_mp h);
  ok_alive : is_alive h = (0 <? hp h)
}.

#[global] Instance ok_dec h : Decision (ok h).
Proof.
  refine (cast_if (decide ((0 ≤ hp h ≤ max_hp h) ∧ is_u32 (max_hp h)
    ∧ (is_u32 (mp h) ∧ is_u32 (max_mp h)) ∧ is_alive h = (0 <? hp h)))).
  - abstract (by destruct_and!).
  - abstract (intros []; tauto).
Defined.

Lemma health_make_ok m n : is_u32 m → 0 < m → is_u32 n → ok (make m n).
Proof. intros. split; cbn; try done; [int_unfold; lia|]. symmetry. by apply Z.ltb_lt. Qed.

Lemma take_damage_ok d h : ok h → is_u32 d → ok (take_damage d h).
Proof.
  intros [H1 H2 H3 H4] Hd. unfold take_damage. case_cmp; split; cbn; try done; try lia.
  - rewrite u32_small; int_unfold; lia.
  - rewrite u32_small by (int_unfold; lia). rewrite H4.
    destruct (Z.ltb_spec 0 (hp h)), (Z.ltb_spec 0 (hp h - d)); try done; int_unfold; lia.
Qed.

Lemma heal_ok a h : ok h → is_u32 a → hp h + a < 2 ^ 32 → ok (heal a h).
Proof.
  intros [H1 H2 H3 H4] Ha Hm. unfold heal. rewrite u32_small by (int_unfold; lia). cbn.
  destruct (Z.ltb_spec 0 (Z.min (hp h + a) (max_hp h))); split; cbn; try done; int_unfold; try lia.
  rewrite H4. destruct (Z.ltb_spec 0 (hp h)), (Z.ltb_spec 0 (Z.min (hp h + a) (max_hp h))); lia.
Qed.

End Health_.

(** [Status] *)
Record Status := mkStatus
  { st_level : Z; experience : Z; gold : Z; is_in_combat : bool; is_moving : bool }.
#[global] Instance Status_eta : Settable Status := λ s,
  mkStatus (st_level s) (experience s) (gold s) (is_in_combat s) (is_moving s).

Module Status_.
Definition make (level : Z) : Status := mkStatus level 0 0 false false.
Definition add_experience (exp : Z) (s : Status) : Status :=
  s <| experience := u32 (experience s + exp) |>.
Definition add_gold (amount : Z) (s : Status) : Status := s <| gold := u32 (gold s + amount) |>.
Definition spend_gold (amount : Z) (s : Status) : bool * Status :=
  if amount <=? gold s then (true, s <| gold := u32 (gold s - amount) |>) else (false, s).
End Status_.

(** ** [game_object.hpp] *)

Inductive GameObjectType :=
| PLAYER | NPC_TYPE | MONSTER | ITEM | INTERACTIVE_OBJECT | PROJECTILE | EFFECT.

Record GameObject := mkGameObject
  { go_type : GameObjectType; go_name : list Z; object_id : Z; is_active : bool }.
Definition GameObject_make (type : GameObjectType) (name : list Z) (object_id : Z) : GameObject :=
  mkGameObject type name object_id true.

Record Player := mkPlayer
  { player_name : list Z; player_id : Z; pl_level : Z; pl_experience : Z; pl_map_id : Z;
    pl_channel_id : Z }.
#[global] Instance Player_eta : Settable Player := λ p,
  mkPlayer (player_name p) (player_id p) (pl_level p) (pl_experience p) (pl_map_id p)
    (pl_channel_id p).
Definition Player_make (name : list Z) (id channel_id map_id : Z) : Player :=
  mkPlayer name id 1 0 map_id channel_id.

Record Monster := mkMonster
  { monster_type : Z; mo_level : Z; mo_hp : Z; mo_max_hp : Z; target_entity : Z }.
#[global] Instance Monster_eta : Settable Monster := λ m,
  mkMonster (monster_type m) (mo_level m) (mo_hp m) (mo_max_hp m) (target_entity m).
Definition Monster_make (type level : Z) : Monster := mkMonster type level 100 100 0.

Record NPC := mkNPC
  { npc_type : Z; npc_name : list Z; npc_level : Z; is_interactable : bool }.
Definition NPC_make (type : Z) (name : list Z) : NPC := mkNPC type name 1 true.

Record Item := mkItem
  { item_id : Z; item_name : list Z; item_type : Z; quantity : Z; is_pickupable : bool }.
Definition Item_make (id : Z) (name : list Z) (type : Z) : Item := mkItem id name type 1 true.

(** ** [map.hpp] *)

Record MapComponent := mkMapComponent
  { map_id : Z; map_name : list Z; width : f32; height : f32; max_players : Z;
    map_data : list Z }.
Definition MapComponent_make (id : Z) (name : list Z) (w h : f32) (max_players : Z)
    : MapComponent := mkMapComponent id name w h max_players [].

Record MapObjectsComponent := mkMapObjects
  { mo_players : gset Z; mo_monsters : gset Z; mo_npcs : gset Z; mo_items : gset Z }.
#[global] Instance MapObjects_eta : Settable MapObjectsComponent := λ m,
  mkMapObjects (mo_players m) (mo_monsters m) (mo_npcs m) (mo_items m).
Definition MapObjects_empty : MapObjectsComponent := mkMapObjects ∅ ∅ ∅ ∅.

Definition add_player (e : Z) (m : MapObjectsComponent) := m <| mo_players ::= λ s, {[e]} ∪ s |>.
Definition add_monster (e : Z) (m : MapObjectsComponent) := m <| mo_monsters ::= λ s, {[e]} ∪ s |>.
Definition add_npc (e : Z) (m : MapObjectsComponent) := m <| mo_npcs ::= λ s, {[e]} ∪ s |>.
Definition add_item (e : Z) (m : MapObjectsComponent) := m <| mo_items ::= λ s, {[e]} ∪ s |>.
Definition remove_player (e : Z) (m : MapObjectsComponent) := m <| mo_players ::= λ s, s ∖ {[e]} |>.
Definition remove_monster (e : Z) (m : MapObjectsComponent) := m <| mo_monsters ::= λ s, s ∖ {[e]} |>.
Definition remove_npc (e : Z) (m : MapObjectsComponent) := m <| mo_npcs ::= λ s, s ∖ {[e]} |>.
Definition remove_item (e : Z) (m : MapObjectsComponent) := m <| mo_items ::= λ s, s ∖ {[e]} |>.

Record MapBoundsComponent := mkMapBounds
  { min_x : f32; min_y : f32; min_z : f32; max_x : f32; max_y : f32; max_z : f32 }.

Definition is_inside (b : MapBoundsComponent) (x y z : f32) : bool :=
  fleb (min_x b) x && fleb x (max_x b) &&
  (fleb (min_y b) y && fleb y (max_y b)) &&
  (fleb (min_z b) z && fleb z (max_z b)).

(** ** Properties *)

(** Damage and healing keep a character's health consistent
    (hit points between zero and the maximum, alive exactly while they are
    positive) as long as the healing does not overflow 32 bits; damage never
    wraps below zero. *)
Theorem health_invariant h d a :
  Health_.ok h → is_u32 d → is_u32 a → hp h + a < 2 ^ 32 →
  Health_.ok (Health_.take_damage d h) ∧ hp (Health_.take_damage d h) = Z.max 0 (hp h - d)
  ∧ Health_.ok (Health_.heal a h) ∧ hp (Health_.heal a h) = Z.min (hp h + a) (max_hp h).
Proof.
  intros Hok Hd Ha Ho. pose proof Hok as [H1 H2 _ _]. split_and!.
  - by apply Health_.take_damage_ok.
  - unfold Health_.take_damage. case_cmp; cbn; [lia|]. rewrite u32_small; int_unfold; lia.
  - by apply Health_.heal_ok.
  - unfold Health_.heal. rewrite u32_small by (int_unfold; lia). cbn. by case_cmp.
Qed.

Lemma health_invariant_witness :
  let h := Health_.make 100 50 in
  Health_.ok (Health_.take_damage 30 h) ∧ hp (Health_.take_damage 30 h) = Z.max 0 (hp h - 30)
  ∧ Health_.ok (Health_.heal 5 h) ∧ hp (Health_.heal 5 h) = Z.min (hp h + 5) (max_hp h).
Proof. intros h. apply (health_invariant h 30 5); by_decide. Defined.

(** Healing adds in 32 bits before it caps: an amount that
    overflows lowers a character's hit points instead of restoring them, down
    to zero while the character stays marked alive. *)
Theorem heal_overflow_damages h a :
  Health_.ok h → is_u32 a → 2 ^ 32 ≤ hp h + a →
  hp (Health_.heal a h) = Z.min (hp h + a - 2 ^ 32) (max_hp h) ∧ hp (Health_.heal a h) < hp h
  ∧ is_alive (Health_.heal a h) = true.
Proof.
  intros [H1 H2 _ H4] Ha Ho.
  assert (u32 (hp h + a) = hp h + a - 2 ^ 32) as E by (int_unfold; rewrite Z.mod_eq by lia; int_lia).
  assert (is_alive h = true) as Hal by (rewrite H4; apply Z.ltb_lt; int_unfold; lia).
  unfold Health_.heal. rewrite E. cbn. case_cmp; cbn; split_and!; try done; int_unfold; lia.
Qed.

Lemma heal_overflow_damages_witness :
  let h := Health_.make 100 50 in
  hp (Health_.heal 4294967246 h) = Z.min (hp h + 4294967246 - 2 ^ 32) (max_hp h)
  ∧ hp (Health_.heal 4294967246 h) < hp h ∧ is_alive (Health_.heal 4294967246 h) = true.
Proof. intros h. apply (heal_overflow_damages h 4294967246); by_decide. Defined.
