(* ===== verification/Ecs.v ===== *)
(** * Entity-component-system core ([src/server/game/ecs/])

    The entity manager, the component stores, the system manager with its
    update order, the game service that owns the three, and the object pool.
    Iteration over an [unordered_map] or [unordered_set] and the order in which
    [std::sort] leaves equal keys are parameters with the laws the C++ library
    documents ([HashOrder], [StdSort]). *)

From S2P Require Import Prelude Floats Components.
From Stdlib Require Import Sorting.Sorted.

(** ** Unordered containers and sorting *)

Class HashOrder := {
  hash_order : ∀ {A : Type}, gmap Z A → list (Z * A);
  hash_order_perm : ∀ {A} (m : gmap Z A), hash_order m ≡ₚ map_to_list m;
  hash_elements : gset Z → list Z;
  hash_elements_perm : ∀ s, hash_elements s ≡ₚ elements s
}.

Class StdSort := {
  std_sort : ∀ {A : Type}, (A → Z) → list A → list A;
  std_sort_perm : ∀ {A} (key : A → Z) l, std_sort key l ≡ₚ l;
  std_sort_sorted : ∀ {A} (key : A → Z) l, StronglySorted Z.le (key <$> std_sort key l)
}.

(** Instances to run the model: key order, and insertion sort. *)
Definition key_order : HashOrder := {|
  hash_order A m := map_to_list m;
  hash_order_perm A m := Permutation_refl _;
  hash_elements s := elements s;
  hash_elements_perm s := Permutation_refl _
|}.

Fixpoint insert_by {A} (key : A → Z) (x : A) (l : list A) : list A :=
  match l with
  | [] => [x]
  | y :: l' => if key x <=? key y then x :: l else y :: insert_by key x l'
  end.
Definition sort_by {A} (key : A → Z) (l : list A) : list A := foldr (insert_by key) [] l.

Lemma insert_by_perm {A} (key : A → Z) x l : insert_by key x l ≡ₚ x :: l.
Proof.
  induction l as [|y l IH]; [done|]. cbn. case_match; [done|].
  rewrite IH. apply Permutation_swap.
Qed.
Lemma sort_by_perm {A} (key : A → Z) l : sort_by key l ≡ₚ l.
Proof. induction l as [|x l IH]; [done|]. cbn. by rewrite insert_by_perm, IH. Qed.

Lemma insert_by_sorted {A} (key : A → Z) x l :
  StronglySorted Z.le (key <$> l) → StronglySorted Z.le (key <$> insert_by key x l).
Proof.
  induction l as [|y l IH]; cbn; [repeat constructor|].
  inversion 1 as [|? ? Hs Hf]; subst. case_cmp; cbn.
  - constructor; [done|]. constructor; [done|]. eapply Forall_impl; [exact Hf|]. cbn. lia.
  - constructor; [by apply IH|]. rewrite insert_by_perm. cbn. constructor; [lia|done].
Qed.
Lemma sort_by_sorted {A} (key : A → Z) l : StronglySorted Z.le (key <$> sort_by key l).
Proof. induction l as [|x l IH]; [constructor|]. by apply insert_by_sorted. Qed.

Definition insertion_sort : StdSort := {|
  std_sort A := sort_by; std_sort_perm A := sort_by_perm; std_sort_sorted A := sort_by_sorted
|}.

(** ** Entities ([entity.hpp], [entity.cpp]) *)
Module EntityManager.

Record t := mk { active_entities_ : gset Z; next_entity_id_ : Z; entity_count_ : Z }.
#[global] Instance t_eta : Settable t := λ m,
  mk (active_entities_ m) (next_entity_id_ m) (entity_count_ m).

Definition make : t := mk ∅ 1 0.

Definition create_entity (m : t) : Z * t :=
  let entity := next_entity_id_ m in
  (entity, m <| next_entity_id_ := u32 (entity + 1) |>
             <| active_entities_ ::= λ s, {[entity]} ∪ s |>
             <| entity_count_ ::= λ n, u32 (n + 1) |>).

Definition destroy_entity (entity : Z) (m : t) : t :=
  if decide (entity ∈ active_entities_ m)
  then m <| active_entities_ ::= λ s, s ∖ {[entity]} |> <| entity_count_ ::= λ n, u32 (n - 1) |>
  else m.

Definition is_valid (entity : Z) (m : t) : bool := bool_decide (entity ∈ active_entities_ m).

Definition get_all_entities `{HashOrder} (m : t) : list Z := hash_elements (active_entities_ m).

(** The range is ignored: spatial indexing is a TODO of the code. *)
Definition get_entities_in_range `{HashOrder} (x y z range : f32) (m : t) : list Z :=
  get_all_entities m.

Definition get_entity_count (m : t) : Z := entity_count_ m.
Definition get_next_id (m : t) : Z := next_entity_id_ m.

Definition destroy_entities (es : list Z) (m : t) : t :=
  foldl (λ m e, destroy_entity e m) m es.

Fixpoint create_loop (count : nat) (m : t) : list Z * t :=
  match count with
  | O => ([], m)
  | S count =>
      let entity := next_entity_id_ m in
      let m := m <| next_entity_id_ := u32 (entity + 1) |>
                 <| active_entities_ ::= λ s, {[entity]} ∪ s |> in
      let '(es, m) := create_loop count m in (entity :: es, m)
  end.

Definition create_entities (count : Z) (m : t) : list Z * t :=
  let '(es, m) := create_loop (Z.to_nat count) m in
  (es, m <| entity_count_ ::= λ n, u32 (n + count) |>).

(** *** Runs *)

Inductive op :=
| Create | CreateN (count : Z) | Destroy (entity : Z) | DestroyN (es : list Z).

Definition step (o : op) (m : t) : list Z * t :=
  match o with
  | Create => let '(e, m) := create_entity m in ([e], m)
  | CreateN count => create_entities count m
  | Destroy entity => ([], destroy_entity entity m)
  | DestroyN es => ([], destroy_entities es m)
  end.

Fixpoint run (os : list op) (m : t) : list Z * t :=
  match os with
  | [] => ([], m)
  | o :: os => let '(es, m) := step o m in let '(es', m) := run os m in (es ++ es', m)
  end.

(** Entities an operation asks for. *)
Definition created (o : op) : Z :=
  match o with Create => 1 | CreateN n => n | _ => 0 end.
Definition op_ok (o : op) : Prop := 0 ≤ created o.
#[global] Instance op_ok_dec o : Decision (op_ok o).
Proof. unfold op_ok. apply _. Defined.
Definition total_created (os : list op) : Z := foldr (λ o n, created o + n) 0 os.

(** Live ids have been handed out, and the counter counts them. *)
Record ids_ok (m : t) : Prop := {
  ok_next : 1 ≤ next_entity_id_ m < 2 ^ 32;
  ok_active : ∀ e, e ∈ active_entities_ m → 1 ≤ e < next_entity_id_ m
}.
Definition ok (m : t) : Prop :=
  ids_ok m ∧ entity_count_ m = Z.of_nat (size (active_entities_ m)).

Lemma make_ok : ok make.
Proof. split; [split; cbn; [lia|set_solver]|done]. Qed.

Lemma ids_ok_size m : ids_ok m → Z.of_nat (size (active_entities_ m)) < next_entity_id_ m.
Proof.
  intros [Hn Ha].
  assert (active_entities_ m ⊆ list_to_set (seqZ 1 (next_entity_id_ m - 1))) as Hsub.
  { intros e He. apply elem_of_list_to_set, elem_of_seqZ. specialize (Ha e He). lia. }
  apply subseteq_size in Hsub. rewrite size_list_to_set in Hsub by apply NoDup_seqZ.
  rewrite length_seqZ in Hsub. lia.
Qed.

Lemma destroy_ok e m :
  ok m → ok (destroy_entity e m) ∧ next_entity_id_ (destroy_entity e m) = next_entity_id_ m.
Proof.
  intros [Hok Hc]. pose proof (ids_ok_size m Hok). pose proof Hok as [Hn Ha].
  unfold destroy_entity. destruct (decide _) as [He|]; [|done].
  split; [|done]. split; [split; cbn; [done|set_solver]|]. cbn.
  assert (size (active_entities_ m ∖ {[e]}) = size (active_entities_ m) - 1)%nat as ->.
  { rewrite size_difference, size_singleton by set_solver. done. }
  assert (size (active_entities_ m) ≠ 0%nat) by (intros Hz%size_empty_inv; set_solver).
  rewrite u32_small by (int_unfold; lia). lia.
Qed.

Lemma destroys_ok es m :
  ok m → ok (destroy_entities es m) ∧ next_entity_id_ (destroy_entities es m) = next_entity_id_ m.
Proof.
  revert m. induction es as [|e es IH]; intros m Hok; [done|]. cbn.
  destruct (destroy_ok e m Hok) as [Hok' Hn]. destruct (IH _ Hok') as [? Hn']. split; [done|].
  rewrite <- Hn. exact Hn'.
Qed.

Lemma create_loop_spec n m :
  ids_ok m → next_entity_id_ m + Z.of_nat n < 2 ^ 32 →
  ∃ m', create_loop n m = (seqZ (next_entity_id_ m) (Z.of_nat n), m')
    ∧ next_entity_id_ m' = next_entity_id_ m + Z.of_nat n ∧ ids_ok m'
    ∧ entity_count_ m' = entity_count_ m
    ∧ size (active_entities_ m') = (size (active_entities_ m) + n)%nat.
Proof.
  revert m. induction n as [|n IH]; intros m Hok Hn.
  { exists m. cbn. split_and!; [done|lia|done|done|lia]. }
  pose proof Hok as [Hnx Ha]. cbn [create_loop]. rewrite u32_small by (int_unfold; lia).
  set (m1 := m <| next_entity_id_ := next_entity_id_ m + 1 |>
               <| active_entities_ ::= λ s, {[next_entity_id_ m]} ∪ s |>).
  assert (ids_ok m1) as Hok1.
  { split; cbn; [lia|]. intros e [->%elem_of_singleton|He]%elem_of_union; [lia|].
    specialize (Ha e He). lia. }
  destruct (IH m1 Hok1) as (m' & Hl & Hnx' & Hok' & Hc & Hsz); [cbn; lia|].
  fold m1. rewrite Hl. exists m'. rewrite Hnx', Hc, Hsz. cbn.
  split_and!; [|lia|done|done|].
  - f_equal. rewrite (seqZ_cons (next_entity_id_ m)) by lia. f_equal. f_equal; lia.
  - rewrite size_union, size_singleton; [lia|]. apply disjoint_singleton_l. intros He%Ha. lia.
Qed.

Lemma step_spec o m :
  ok m → op_ok o → next_entity_id_ m + created o < 2 ^ 32 →
  ∃ m', step o m = (seqZ (next_entity_id_ m) (created o), m')
    ∧ next_entity_id_ m' = next_entity_id_ m + created o ∧ ok m'.
Proof.
  intros Hok Ho Hn. unfold op_ok in Ho. destruct o as [|n|e|es]; cbn [step created] in *.
  - destruct (create_loop_spec 1 m) as (m' & Hl & Hnx & Hok' & Hc & Hsz); [apply Hok|lia|].
    apply (f_equal snd) in Hl. cbn in Hl. subst m'. destruct Hok as [[? _] Hcm].
    pose proof (ids_ok_size _ Hok'). cbn in *.
    eexists. split; [reflexivity|]. split; [done|]. split; [by destruct Hok'|]. cbn.
    rewrite Hsz, Hcm, u32_small; int_unfold; lia.
  - unfold create_entities.
    destruct (create_loop_spec (Z.to_nat n) m) as (m' & Hl & Hnx & Hok' & Hc & Hsz);
      [apply Hok|lia|]. rewrite Hl. rewrite Z2Nat.id in * by done.
    pose proof (ids_ok_size _ Hok'). destruct Hok as [[? _] Hcm]. pose proof Hok' as [? _].
    eexists. split; [reflexivity|]. split; [done|]. split; [by destruct Hok'|]. cbn.
    rewrite Hc, Hcm, Hsz, u32_small; int_unfold; lia.
  - destruct (destroy_ok e m Hok) as [? E]. eexists. split_and!; [done|rewrite E; lia|done].
  - destruct (destroys_ok es m Hok) as [? E]. eexists. split_and!; [done|rewrite E; lia|done].
Qed.

Lemma run_spec os m :
  ok m → Forall op_ok os → next_entity_id_ m + total_created os < 2 ^ 32 →
  ∃ m', run os m = (seqZ (next_entity_id_ m) (total_created os), m')
    ∧ next_entity_id_ m' = next_entity_id_ m + total_created os ∧ ok m' ∧ 0 ≤ total_created os.
Proof.
  revert m. induction os as [|o os IH]; intros m Hok Ho Hn.
  { exists m. cbn. split_and!; [done|lia|done|done]. }
  apply Forall_cons in Ho as [Ho Hos]. cbn [total_created foldr] in Hn. fold (total_created os) in Hn.
  assert (0 ≤ total_created os) as Hpos.
  { clear -Hos. induction Hos as [|o os Ho _ IH]; cbn; [done|]. unfold op_ok in Ho.
    fold (total_created os). lia. }
  destruct (step_spec o m) as (m1 & Hs & Hn1 & Hok1); [done|done|lia|].
  destruct (IH m1) as (m' & Hr & Hn' & Hok' & _); [done|done|lia|].
  exists m'. cbn [run total_created foldr]. fold (total_created os). unfold op_ok in Ho.
  rewrite Hs, Hr, Hn'. split_and!; [|lia|done|lia]. f_equal.
  rewrite Hn1. rewrite <- seqZ_app by lia. done.
Qed.

End EntityManager.

(** ** Components ([component.hpp], [component.cpp])

    A store that has not been created yet and an empty one behave alike in
    every operation, so both are the empty map. *)
Module ComponentStore.
Section store.
Context {T : Type}.

Definition add (entity : Z) (component : T) (s : gmap Z T) : gmap Z T := <[entity := component]> s.
Definition remove (entity : Z) (s : gmap Z T) : gmap Z T := delete entity s.
Definition get (entity : Z) (s : gmap Z T) : option T := s !! entity.
Definition has (entity : Z) (s : gmap Z T) : bool := bool_decide (is_Some (s !! entity)).
Definition snapshot `{HashOrder} (s : gmap Z T) : list (Z * T) := hash_order s.
Definition snapshot_entities `{HashOrder} (s : gmap Z T) : list Z := (hash_order s).*1.
Definition store_size (s : gmap Z T) : Z := Z.of_nat (size s).

End store.
End ComponentStore.

(** The stores, one per component type. *)
Record ComponentManager := mkComponents {
  cm_position : gmap Z Position;
  cm_velocity : gmap Z Velocity;
  cm_rotation : gmap Z Rotation;
  cm_scale : gmap Z Scale;
  cm_health : gmap Z Health;
  cm_status : gmap Z Status;
  cm_game_object : gmap Z GameObject;
  cm_player : gmap Z Player;
  cm_monster : gmap Z Monster;
  cm_npc : gmap Z NPC;
  cm_item : gmap Z Item;
  cm_map : gmap Z MapComponent;
  cm_map_objects : gmap Z MapObjectsComponent;
  cm_map_bounds : gmap Z MapBoundsComponent
}.
#[global] Instance ComponentManager_eta : Settable ComponentManager := λ c,
  mkComponents (cm_position c) (cm_velocity c) (cm_rotation c) (cm_scale c) (cm_health c)
    (cm_status c) (cm_game_object c) (cm_player c) (cm_monster c) (cm_npc c) (cm_item c)
    (cm_map c) (cm_map_objects c) (cm_map_bounds c).

Definition no_components : ComponentManager := mkComponents ∅ ∅ ∅ ∅ ∅ ∅ ∅ ∅ ∅ ∅ ∅ ∅ ∅ ∅.

(** [get_store<T>()]: the store of a component type inside the manager. *)
Class ComponentType (T : Type) := {
  get_store : ComponentManager → gmap Z T;
  set_store : (gmap Z T → gmap Z T) → ComponentManager → ComponentManager;
  get_set_store : ∀ f c, get_store (set_store f c) = f (get_store c);
  set_get_store : ∀ c, set_store (λ s, s) c = c
}.

#[global] Instance Position_type : ComponentType Position.
Proof.
  refine {| get_store := cm_position; set_store f c := c <| cm_position ::= f |> |};
    [done|by intros []].
Defined.
#[global] Instance Velocity_type : ComponentType Velocity.
Proof.
  refine {| get_store := cm_velocity; set_store f c := c <| cm_velocity ::= f |> |};
    [done|by intros []].
Defined.
#[global] Instance Health_type : ComponentType Health.
Proof.
  refine {| get_store := cm_health; set_store f c := c <| cm_health ::= f |> |};
    [done|by intros []].
Defined.
#[global] Instance Player_type : ComponentType Player.
Proof.
  refine {| get_store := cm_player; set_store f c := c <| cm_player ::= f |> |};
    [done|by intros []].
Defined.
#[global] Instance Monster_type : ComponentType Monster.
Proof.
  refine {| get_store := cm_monster; set_store f c := c <| cm_monster ::= f |> |};
    [done|by intros []].
Defined.
#[global] Instance NPC_type : ComponentType NPC.
Proof.
  refine {| get_store := cm_npc; set_store f c := c <| cm_npc ::= f |> |};
    [done|by intros []].
Defined.
#[global] Instance Item_type : ComponentType Item.
Proof.
  refine {| get_store := cm_item; set_store f c := c <| cm_item ::= f |> |};
    [done|by intros []].
Defined.
#[global] Instance GameObject_type : ComponentType GameObject.
Proof.
  refine {| get_store := cm_game_object; set_store f c := c <| cm_game_object ::= f |> |};
    [done|by intros []].
Defined.
#[global] Instance MapComponent_type : ComponentType MapComponent.
Proof.
  refine {| get_store := cm_map; set_store f c := c <| cm_map ::= f |> |};
    [done|by intros []].
Defined.
#[global] Instance MapObjects_type : ComponentType MapObjectsComponent.
Proof.
  refine {| get_store := cm_map_objects; set_store f c := c <| cm_map_objects ::= f |> |};
    [done|by intros []].
Defined.
#[global] Instance MapBounds_type : ComponentType MapBoundsComponent.
Proof.
  refine {| get_store := cm_map_bounds; set_store f c := c <| cm_map_bounds ::= f |> |};
    [done|by intros []].
Defined.

Section components.
Context {T : Type} `{ComponentType T}.

Definition add_component (entity : Z) (component : T) (c : ComponentManager) : ComponentManager :=
  set_store (ComponentStore.add entity component) c.
Definition remove_component (entity : Z) (c : ComponentManager) : ComponentManager :=
  set_store (ComponentStore.remove entity) c.
Definition get_component (entity : Z) (c : ComponentManager) : option T :=
  ComponentStore.get entity (get_store c).
Definition has_component (entity : Z) (c : ComponentManager) : bool :=
  ComponentStore.has entity (get_store c).
Definition get_entities_with_component `{HashOrder} (c : ComponentManager) : list Z :=
  ComponentStore.snapshot_entities (get_store c).
Definition get_components `{HashOrder} (c : ComponentManager) : list (Z * T) :=
  ComponentStore.snapshot (get_store c).

(** Writing through the pointer that [get_component] returned. *)
Definition update_component (f : T → T) (entity : Z) (c : ComponentManager) : ComponentManager :=
  set_store (alter f entity) c.

Lemma get_add_component e x c : get_component e (add_component e x c) = Some x.
Proof. unfold get_component, add_component. rewrite get_set_store. apply lookup_insert_eq. Qed.

Lemma get_update_component f e c :
  get_component e (update_component f e c) = f <$> get_component e c.
Proof. unfold get_component, update_component. rewrite get_set_store. apply lookup_alter_eq. Qed.

Lemma get_update_component_ne f e e' c :
  e ≠ e' → get_component e' (update_component f e c) = get_component e' c.
Proof. intros. unfold get_component, update_component. rewrite get_set_store. by apply lookup_alter_ne. Qed.

Lemma get_components_elem `{HashOrder} e x c :
  (e, x) ∈ get_components c ↔ get_component e c = Some x.
Proof.
  unfold get_components, ComponentStore.snapshot. rewrite hash_order_perm.
  apply elem_of_map_to_list.
Qed.

Lemma get_components_NoDup `{HashOrder} c : NoDup (get_components c).*1.
Proof.
  unfold get_components, ComponentStore.snapshot. rewrite hash_order_perm.
  apply NoDup_fst_map_to_list.
Qed.
End components.

(** The loop over the stores has an empty body (a TODO of the code), and so has
    the one that should add up their sizes. *)
Definition remove_all_components (entity : Z) (c : ComponentManager) : ComponentManager := c.
Definition get_component_count (c : ComponentManager) : Z := 0.

(** Entities and components together: what the systems work on. *)
Record world := mkWorld { em : EntityManager.t; cm : ComponentManager }.
#[global] Instance world_eta : Settable world := λ w, mkWorld (em w) (cm w).

Definition new_world : world := mkWorld EntityManager.make no_components.

Definition create_entity (w : world) : Z * world :=
  let '(e, m) := EntityManager.create_entity (em w) in (e, w <| em := m |>).

Definition destroy_entity (entity : Z) (w : world) : world :=
  let w := w <| cm ::= remove_all_components entity |> in
  w <| em ::= EntityManager.destroy_entity entity |>.

Definition is_valid (entity : Z) (w : world) : bool := EntityManager.is_valid entity (em w).

(** ** Systems ([system.hpp], [system.cpp]) *)
Module SystemManager.

(** A registered system object; its type identifies it. *)
Record System := mkSystem { enabled_ : bool; priority_ : Z }.
#[global] Instance System_eta : Settable System := λ s, mkSystem (enabled_ s) (priority_ s).

Record t := mk { systems_ : gmap Z System; update_order_ : list Z }.
#[global] Instance t_eta : Settable t := λ m, mk (systems_ m) (update_order_ m).

Definition make : t := mk ∅ [].

Section systems.
Context `{HashOrder} `{StdSort}.
(** The virtual [update] of each system type. *)
Context {W : Type} (system_update : Z → f32 → W → W).

Definition priority_of (m : t) (type_id : Z) : Z :=
  default 0 (priority_ <$> systems_ m !! type_id).

Definition rebuild_update_order (m : t) : t :=
  m <| update_order_ := std_sort (priority_of m) (hash_order (systems_ m)).*1 |>.

Definition register_system (type_id : Z) (m : t) : t :=
  match systems_ m !! type_id with
  | Some _ => m
  | None => rebuild_update_order (m <| systems_ ::= <[type_id := mkSystem true 0]> |>)
  end.

Definition get_system (type_id : Z) (m : t) : option System := systems_ m !! type_id.

Definition unregister_system (type_id : Z) (m : t) : t :=
  rebuild_update_order (m <| systems_ ::= delete type_id |>).

Definition set_enabled (type_id : Z) (enabled : bool) (m : t) : t :=
  m <| systems_ ::= alter (λ s, s <| enabled_ := enabled |>) type_id |>.

(** Does not reorder: the new priority takes effect at the next rebuild. *)
Definition set_priority (type_id : Z) (priority : Z) (m : t) : t :=
  m <| systems_ ::= alter (λ s, s <| priority_ := priority |>) type_id |>.

Definition update_all (delta_time : f32) (m : t) (w : W) : W :=
  foldl (λ w type_id,
    match systems_ m !! type_id with
    | Some s => if enabled_ s then system_update type_id delta_time w else w
    | None => w
    end) w (update_order_ m).

Definition get_system_count (m : t) : Z := Z.of_nat (size (systems_ m)).

Inductive op :=
| Register (type_id : Z) | Unregister (type_id : Z)
| SetEnabled (type_id : Z) (enabled : bool).

Definition step (o : op) (m : t) : t :=
  match o with
  | Register i => register_system i m
  | Unregister i => unregister_system i m
  | SetEnabled i b => set_enabled i b m
  end.

(** The update order lists the registered systems once each, by priority. *)
Definition ok (m : t) : Prop :=
  NoDup (update_order_ m) ∧ (∀ i, i ∈ update_order_ m ↔ is_Some (systems_ m !! i))
  ∧ StronglySorted Z.le (priority_of m <$> update_order_ m).

Lemma rebuild_ok m : ok (rebuild_update_order m).
Proof.
  unfold ok, rebuild_update_order. cbn.
  change (priority_of (mk _ _)) with (priority_of m). split_and!.
  - rewrite std_sort_perm, hash_order_perm. apply NoDup_fst_map_to_list.
  - intros i. rewrite std_sort_perm, hash_order_perm, list_elem_of_fmap. split.
    + intros ([j s] & -> & Hj%elem_of_map_to_list). by exists s.
    + intros [s Hs]. exists (i, s). split; [done|]. by apply elem_of_map_to_list.
  - apply std_sort_sorted.
Qed.

Lemma step_ok o m : ok m → ok (step o m).
Proof.
  intros Hok. destruct o as [i|i|i b]; cbn [step].
  - unfold register_system. case_match; [done|apply rebuild_ok].
  - apply rebuild_ok.
  - destruct Hok as (H1 & H2 & H3). unfold ok, set_enabled. cbn. split_and!; [done| |].
    + intros j. rewrite H2, lookup_alter_is_Some. done.
    + erewrite list_fmap_ext; [exact H3|]. intros _ j _. unfold priority_of. cbn.
      destruct (decide (i = j)) as [->|]; [rewrite lookup_alter_eq|by rewrite lookup_alter_ne].
      by destruct (systems_ m !! j).
Qed.
End systems.
End SystemManager.

(** ** Game service ([game_service.hpp], [game_service.cpp])

    The three managers are null until [initialize]; [None] is the dereference
    of a null manager. *)
Module GameService.

Record t := mk {
  entity_manager_ : option EntityManager.t;
  component_manager_ : option ComponentManager;
  system_manager_ : option SystemManager.t;
  initialized_ : bool
}.
#[global] Instance t_eta : Settable t := λ g,
  mk (entity_manager_ g) (component_manager_ g) (system_manager_ g) (initialized_ g).

Definition make : t := mk None None None false.

(** Type ids of the built-in systems. *)
Definition MovementSystem_id : Z := 0.
Definition AISystem_id : Z := 1.
Definition CombatSystem_id : Z := 2.
Definition MapSystem_id : Z := 3.

Section service.
Context `{HashOrder} `{StdSort}.
Context (system_update : Z → f32 → world → world).

(** The systems' own [initialize] and [shutdown] are the empty defaults. *)
Definition initialize (g : t) : bool * t :=
  if initialized_ g then (true, g) else
  let sm := SystemManager.register_system MovementSystem_id SystemManager.make in
  let sm := SystemManager.register_system AISystem_id sm in
  let sm := SystemManager.register_system CombatSystem_id sm in
  let sm := SystemManager.register_system MapSystem_id sm in
  (true, mk (Some EntityManager.make) (Some no_components) (Some sm) true).

Definition shutdown (g : t) : t :=
  if initialized_ g then mk None None None false else g.

Definition update (delta_time : f32) (g : t) : option t :=
  if initialized_ g then
    em ← entity_manager_ g; cm ← component_manager_ g; sm ← system_manager_ g;
    let w := SystemManager.update_all system_update delta_time sm (mkWorld em cm) in
    Some (mk (Some (Ecs.em w)) (Some (Ecs.cm w)) (Some sm) true)
  else Some g.

Definition create_entity (g : t) : option (Z * t) :=
  em ← entity_manager_ g;
  let '(e, em) := EntityManager.create_entity em in
  Some (e, g <| entity_manager_ := Some em |>).

Definition destroy_entity (entity : Z) (g : t) : option t :=
  cm ← component_manager_ g;
  em ← entity_manager_ g;
  Some (g <| component_manager_ := Some (remove_all_components entity cm) |>
          <| entity_manager_ := Some (EntityManager.destroy_entity entity em) |>).

Definition is_valid (entity : Z) (g : t) : option bool :=
  EntityManager.is_valid entity <$> entity_manager_ g.

End service.
End GameService.

(** ** Object pool ([memory_pool.hpp]) *)
Module MemoryPool.
Section pool.
Context {T : Type} (T_default : T).

Record t := mk { free_objects_ : list T; pool_size_ : Z }.

Definition make (initial_size : Z) : t :=
  mk (replicate (Z.to_nat initial_size) T_default) initial_size.

Definition expand_pool (p : t) : t :=
  let new_size := u64 (pool_size_ p * 2) in
  mk (free_objects_ p ++ replicate (Z.to_nat (new_size - pool_size_ p)) T_default) new_size.

(** [None]: [front()] of an empty queue. *)
Definition acquire (p : t) : option (T * t) :=
  let p := match free_objects_ p with [] => expand_pool p | _ => p end in
  match free_objects_ p with
  | [] => None
  | obj :: free => Some (obj, mk free (pool_size_ p))
  end.

(** [release(nullptr)] is [None]. *)
Definition release (obj : option T) (p : t) : t :=
  match obj with
  | None => p
  | Some _ => mk (free_objects_ p ++ [T_default]) (pool_size_ p)
  end.

Definition reserve (n : Z) (p : t) : t :=
  mk (free_objects_ p ++ replicate (Z.to_nat n - length (free_objects_ p)) T_default) (pool_size_ p).

Definition get_free_count (p : t) : Z := zlen (free_objects_ p).
Definition get_total_count (p : t) : Z := pool_size_ p.

(** Everything in the pool is a fresh object. *)
Definition ok (p : t) : Prop :=
  Forall (λ x, x = T_default) (free_objects_ p) ∧ 1 ≤ pool_size_ p.

Lemma acquire_ok p :
  ok p → pool_size_ p < 2 ^ 63 →
  ∃ p', acquire p = Some (T_default, p') ∧ ok p' ∧ pool_size_ p ≤ pool_size_ p' ≤ 2 * pool_size_ p.
Proof.
  intros [Hf Hp] Hs. unfold acquire. destruct (free_objects_ p) as [|x fr] eqn:E.
  - unfold expand_pool. rewrite E, u64_small by (int_unfold; lia). cbn.
    replace (Z.to_nat (pool_size_ p * 2 - pool_size_ p)) with (S (Z.to_nat (pool_size_ p) - 1)) by lia.
    cbn. eexists. split; [reflexivity|]. split; [|cbn; lia]. split; cbn; [|lia].
    apply Forall_replicate. done.
  - apply Forall_cons in Hf as [-> Hf]. rewrite E. eexists. split; [reflexivity|].
    split; [by split|]. cbn. lia.
Qed.

Lemma release_ok obj p : ok p → ok (release obj p).
Proof.
  intros [Hf Hp]. destruct obj; [|by split]. split; cbn; [|done].
  apply Forall_app_2; [done|by constructor].
Qed.

Lemma reserve_ok n p : ok p → ok (reserve n p).
Proof.
  intros [Hf Hp]. split; cbn; [|done]. apply Forall_app_2; [done|by apply Forall_replicate].
Qed.
End pool.
End MemoryPool.

(** ** Properties *)

(** Entity ids are unique: over any sequence of single and
    batch creations and destructions, with fewer than 2^32 - 1 creations in all,
    the ids handed out are 1, 2, 3, ... without repetition, and the counter
    always equals the number of live entities. *)
Theorem entity_ids_unique os :
  Forall EntityManager.op_ok os → EntityManager.total_created os < 2 ^ 32 - 1 →
  ∃ m, EntityManager.run os EntityManager.make = (seqZ 1 (EntityManager.total_created os), m)
    ∧ NoDup (EntityManager.run os EntityManager.make).1
    ∧ EntityManager.entity_count_ m = Z.of_nat (size (EntityManager.active_entities_ m))
    ∧ (∀ e, EntityManager.is_valid e m = true → 1 ≤ e < EntityManager.next_entity_id_ m).
Proof.
  intros Ho Hn. destruct (EntityManager.run_spec os EntityManager.make)
    as (m & Hr & _ & [[_ Ha] Hc] & _); [apply EntityManager.make_ok|done|cbn; lia|].
  exists m. rewrite Hr. cbn. split_and!; [done|apply NoDup_seqZ|done|].
  intros e He%bool_decide_eq_true. by apply Ha.
Qed.

Lemma entity_ids_unique_witness :
  let os := [EntityManager.Create; EntityManager.Destroy 1; EntityManager.CreateN 3] in
  ∃ m, EntityManager.run os EntityManager.make = (seqZ 1 (EntityManager.total_created os), m)
    ∧ NoDup (EntityManager.run os EntityManager.make).1
    ∧ EntityManager.entity_count_ m = Z.of_nat (size (EntityManager.active_entities_ m))
    ∧ (∀ e, EntityManager.is_valid e m = true → 1 ≤ e < EntityManager.next_entity_id_ m).
Proof. intros os. apply (entity_ids_unique os); by_decide. Defined.

(** Destroying an entity removes it from the live set but leaves
    every component of it in its store, so that systems keep iterating over
    it: [remove_all_components] does nothing. *)
Theorem destroy_keeps_components {T} `{ComponentType T} `{HashOrder} e (x : T) w :
  get_component e (cm w) = Some x →
  is_valid e (destroy_entity e w) = false
  ∧ get_component e (cm (destroy_entity e w)) = Some x
  ∧ (e, x) ∈ get_components (cm (destroy_entity e w)).
Proof.
  intros Hx. unfold is_valid, EntityManager.is_valid, destroy_entity, EntityManager.destroy_entity.
  cbn. split_and!.
  - apply bool_decide_eq_false. destruct (decide _); cbn; set_solver.
  - done.
  - by apply get_components_elem.
Qed.

Lemma destroy_keeps_components_witness :
  let w := mkWorld EntityManager.make (add_component 7 (Health_.make 100 50) no_components) in
  is_valid 7 (destroy_entity 7 w) = false
  ∧ get_component 7 (cm (destroy_entity 7 w)) = Some (Health_.make 100 50)
  ∧ (7, Health_.make 100 50) ∈ @get_components _ _ key_order (cm (destroy_entity 7 w)).
Proof.
  intros w. apply (@destroy_keeps_components _ _ key_order 7 (Health_.make 100 50) w).
  vm_compute. reflexivity.
Defined.

(** Whatever order the hash map and the sort produce, after
    any sequence of registrations, removals and switches the update order
    contains each registered system exactly once, in order of priority. *)
Theorem update_order_complete `{HashOrder} `{StdSort} os :
  SystemManager.ok (foldl (λ m o, SystemManager.step o m) SystemManager.make os).
Proof.
  assert (SystemManager.ok SystemManager.make) as Hok.
  { split_and!; cbn; [constructor| |constructor]. intros i. rewrite lookup_empty.
    split; [by intros ?%elem_of_nil|by intros [? ?]]. }
  revert Hok. generalize SystemManager.make. induction os as [|o os IH]; intros m Hok; [done|].
  apply IH. by apply SystemManager.step_ok.
Qed.

(** A pool created with a positive size never hands out a
    used object: over any interleaving of acquires and releases, [acquire]
    succeeds with a default-constructed object.  (A pool of size zero has
    nothing to double and takes the front of an empty queue.) *)
Theorem pool_always_fresh {T} (d : T) n (uses : list (option (option T))) :
  1 ≤ n → n * 2 ^ zlen uses < 2 ^ 62 →
  let use := λ p u, p ← p; match u with
                          | None => '(x, p) ← MemoryPool.acquire d p; Some p
                          | Some obj => Some (MemoryPool.release d obj p)
                          end in
  ∃ p p', foldl use (Some (MemoryPool.make d n)) uses = Some p
    ∧ MemoryPool.acquire d p = Some (d, p')
    ∧ MemoryPool.acquire d (MemoryPool.make d 0) = None.
Proof.
  intros Hn Hs use.
  assert (∃ p, foldl use (Some (MemoryPool.make d n)) uses = Some p ∧ MemoryPool.ok d p
    ∧ MemoryPool.pool_size_ p ≤ n * 2 ^ zlen uses) as (p & Hp & Hok & Hsz).
  { induction uses as [|u uses IH] using rev_ind.
    - exists (MemoryPool.make d n). split_and!; [done| |cbn [MemoryPool.make MemoryPool.pool_size_]; rewrite zlen_nil; lia].
      split; [by apply Forall_replicate|done].
    - pose proof (zlen_nonneg uses). rewrite zlen_app, Z.pow_add_r in Hs by done.
      change (2 ^ zlen [u]) with 2 in Hs.
      destruct IH as (p & Hp & Hok & Hsz); [lia|]. rewrite foldl_app, Hp. cbn.
      rewrite zlen_app, Z.pow_add_r by done. change (2 ^ zlen [u]) with 2.
      destruct u as [obj|]; cbn.
      + eexists. split_and!; [done|by apply MemoryPool.release_ok|]. destruct obj; cbn; lia.
      + destruct (MemoryPool.acquire_ok d p Hok) as (p' & Ha & Hok' & Hs'); [lia|].
        rewrite Ha. cbn. exists p'. split_and!; [done|done|lia]. }
  destruct (MemoryPool.acquire_ok d p Hok) as (p' & Ha & _); [lia|]. by exists p, p'.
Qed.

Lemma pool_always_fresh_witness :
  let use := λ p u, p ← p; match u with
                          | None => '(x, p) ← MemoryPool.acquire 0 p; Some p
                          | Some obj => Some (MemoryPool.release 0 obj p)
                          end in
  ∃ p p', foldl use (Some (MemoryPool.make 0 1)) [None; None; Some (Some 5); None] = Some p
    ∧ MemoryPool.acquire 0 p = Some (0, p')
    ∧ MemoryPool.acquire 0 (MemoryPool.make 0 0) = None.
Proof.
  apply (pool_always_fresh 0 1 [None; None; Some (Some 5); None]); [lia|].
  vm_compute. reflexivity.
Defined.
