(* ===== verification/Systems.v ===== *)
(** * Game systems ([src/server/game/systems/])

    Movement, AI, combat and maps, as functions on the component stores.  A
    system iterates over a snapshot of (entity, pointer) pairs and writes
    through the pointers: a write updates the entity's component in its store. *)

From S2P Require Import Prelude Floats Components Ecs.

(** [sqrt(dx*dx + dy*dy + dz*dz)] *)
Definition norm3 (dx dy dz : f32) : f32 :=
  fsqrt (fadd (fadd (fmul dx dx) (fmul dy dy)) (fmul dz dz)).

(** ** [movement_system.cpp] *)
Module MovementSystem.
Section movement.
Context `{HashOrder}.

Definition move_entity (entity : Z) (dx dy dz : f32) (c : ComponentManager) : ComponentManager :=
  update_component (λ p, mkPosition (fadd (pos_x p) dx) (fadd (pos_y p) dy) (fadd (pos_z p) dz))
    entity c.

Definition set_velocity (entity : Z) (vx vy vz : f32) (c : ComponentManager) : ComponentManager :=
  update_component (λ _ : Velocity, mkVelocity vx vy vz) entity c.

Definition stop_entity (entity : Z) (c : ComponentManager) : ComponentManager :=
  set_velocity entity f0 f0 f0 c.

Definition get_position (entity : Z) (c : ComponentManager) : option Position := get_component entity c.
Definition get_velocity (entity : Z) (c : ComponentManager) : option Velocity := get_component entity c.

Definition get_entities_in_range (x y z range : f32) (c : ComponentManager) : list Z :=
  omap (λ '(entity, p),
    let distance := norm3 (fsub (pos_x p) x) (fsub (pos_y p) y) (fsub (pos_z p) z) in
    if fleb distance range then Some entity else None) (get_components c : list (Z * Position)).

(** One entity of the loop of [update_positions]. *)
Definition advance (delta_time : f32) (entity : Z) (c : ComponentManager) : ComponentManager :=
  match (get_component entity c : option Velocity) with
  | Some v =>
      update_component (λ p, mkPosition
        (fadd (pos_x p) (fmul (vel_x v) delta_time))
        (fadd (pos_y p) (fmul (vel_y v) delta_time))
        (fadd (pos_z p) (fmul (vel_z v) delta_time))) entity c
  | None => c
  end.

Definition update_positions (delta_time : f32) (c : ComponentManager) : ComponentManager :=
  foldl (λ c e, advance delta_time e c) c (get_components c : list (Z * Position)).*1.

Definition MIN_BOUND : f32 := fm1000.
Definition MAX_BOUND : f32 := f1000.

(** The two [if]s per coordinate. *)
Definition bound (x : f32) : f32 :=
  let x := if fltb x MIN_BOUND then MIN_BOUND else x in
  if fltb MAX_BOUND x then MAX_BOUND else x.

Definition bound_position (p : Position) : Position :=
  mkPosition (bound (pos_x p)) (bound (pos_y p)) (bound (pos_z p)).

Definition check_boundaries (c : ComponentManager) : ComponentManager :=
  foldl (λ c e, update_component bound_position e c) c (get_components c : list (Z * Position)).*1.

Definition COLLISION_RADIUS : f32 := f1.

(** The positions of a colliding pair after the separation. *)
Definition separate (p1 p2 : Position) : option (Position * Position) :=
  let dx := fsub (pos_x p1) (pos_x p2) in
  let dy := fsub (pos_y p1) (pos_y p2) in
  let dz := fsub (pos_z p1) (pos_z p2) in
  let distance := norm3 dx dy dz in
  if fltb distance (fmul COLLISION_RADIUS f2) then
    let separation := fdiv (fsub (fmul COLLISION_RADIUS f2) distance) f2 in
    let dx_norm := fdiv dx distance in
    let dy_norm := fdiv dy distance in
    let dz_norm := fdiv dz distance in
    Some (mkPosition (fadd (pos_x p1) (fmul dx_norm separation))
                     (fadd (pos_y p1) (fmul dy_norm separation))
                     (fadd (pos_z p1) (fmul dz_norm separation)),
          mkPosition (fsub (pos_x p2) (fmul dx_norm separation))
                     (fsub (pos_y p2) (fmul dy_norm separation))
                     (fsub (pos_z p2) (fmul dz_norm separation)))
  else None.

Definition collide (e1 e2 : Z) (c : ComponentManager) : ComponentManager :=
  match get_component e1 c, get_component e2 c with
  | Some p1, Some p2 =>
      match separate p1 p2 with
      | Some (q1, q2) => update_component (λ _, q2) e2 (update_component (λ _, q1) e1 c)
      | None => c
      end
  | _, _ => c
  end.

(** All pairs [i < j] of the snapshot. *)
Fixpoint collide_pairs (es : list Z) (c : ComponentManager) : ComponentManager :=
  match es with
  | [] => c
  | e1 :: rest => collide_pairs rest (foldl (λ c e2, collide e1 e2 c) c rest)
  end.

Definition handle_collisions (c : ComponentManager) : ComponentManager :=
  collide_pairs (get_components c : list (Z * Position)).*1 c.

Definition update (delta_time : f32) (c : ComponentManager) : ComponentManager :=
  handle_collisions (check_boundaries (update_positions delta_time c)).

End movement.
End MovementSystem.

(** ** [combat_system.cpp] *)
Module CombatSystem.
Section combat.
Context `{HashOrder}.

(** The update only logs deaths. *)
Definition update (delta_time : f32) (c : ComponentManager) : ComponentManager := c.

Definition take_damage (entity damage : Z) (c : ComponentManager) : ComponentManager :=
  update_component (λ h, h <| hp := if damage <? hp h then u32 (hp h - damage) else 0 |>) entity c.

Definition attack (attacker target : Z) (c : ComponentManager) : ComponentManager :=
  take_damage target 10 c.

Definition heal (entity amount : Z) (c : ComponentManager) : ComponentManager :=
  update_component (λ h, h <| hp := Z.min (max_hp h) (u32 (hp h + amount)) |>) entity c.

Definition is_in_combat (entity : Z) (c : ComponentManager) : bool :=
  match (get_component entity c : option Health) with
  | Some h => hp h <? max_hp h
  | None => false
  end.

Definition get_target (entity : Z) (c : ComponentManager) : Z :=
  match (get_component entity c : option Monster) with Some m => target_entity m | None => 0 end.

Definition get_hp (entity : Z) (c : ComponentManager) : Z :=
  match (get_component entity c : option Health) with Some h => hp h | None => 0 end.

Definition get_max_hp (entity : Z) (c : ComponentManager) : Z :=
  match (get_component entity c : option Health) with Some h => max_hp h | None => 0 end.

End combat.
End CombatSystem.

(** ** [ai_system.cpp] *)
Module AISystem.
Section ai.
Context `{HashOrder}.

Definition set_target (entity target : Z) (c : ComponentManager) : ComponentManager :=
  update_component (λ m, m <| target_entity := target |>) entity c.

Definition clear_target (entity : Z) (c : ComponentManager) : ComponentManager :=
  set_target entity 0 c.

(** [get_component<Velocity>], creating the component when it is missing. *)
Definition ensure_velocity (entity : Z) (c : ComponentManager) : ComponentManager :=
  match (get_component entity c : option Velocity) with
  | Some _ => c
  | None => add_component entity Velocity_default c
  end.

Definition move_towards_target (entity : Z) (speed : f32) (c : ComponentManager) : ComponentManager :=
  match (get_component entity c : option Position), (get_component entity c : option Monster) with
  | Some position, Some monster =>
      if target_entity monster =? 0 then c else
      match (get_component (target_entity monster) c : option Position) with
      | None => c
      | Some target_position =>
          let dx := fsub (pos_x target_position) (pos_x position) in
          let dy := fsub (pos_y target_position) (pos_y position) in
          let dz := fsub (pos_z target_position) (pos_z position) in
          let distance := norm3 dx dy dz in
          if fltb f0_1 distance then
            let c := ensure_velocity entity c in
            update_component (λ _, mkVelocity (fmul (fdiv dx distance) speed)
              (fmul (fdiv dy distance) speed) (fmul (fdiv dz distance) speed)) entity c
          else c
      end
  | _, _ => c
  end.

(** [patrol], with the three draws of the random generator. *)
Definition patrol (draw : f32 * f32 * f32) (entity : Z) (range : f32) (c : ComponentManager)
    : ComponentManager :=
  match (get_component entity c : option Position) with
  | None => c
  | Some _ =>
      let '(dx, dy, dz) := draw in
      let distance := norm3 dx dy dz in
      let '(dx, dy, dz) :=
        if fltb range distance
        then (fmul (fdiv dx distance) range, fmul (fdiv dy distance) range,
              fmul (fdiv dz distance) range)
        else (dx, dy, dz) in
      let c := ensure_velocity entity c in
      update_component (λ _, mkVelocity (fmul dx f0_5) (fmul dy f0_5) (fmul dz f0_5)) entity c
  end.

Definition attack_target (entity : Z) (c : ComponentManager) : ComponentManager :=
  match (get_component entity c : option Monster) with
  | None => c
  | Some monster =>
      if target_entity monster =? 0 then c
      else update_component (Health_.take_damage 10) (target_entity monster) c
  end.

(** The loop of [find_nearest_target] over the players. *)
Definition nearest (position : Position) (c : ComponentManager) (players : list Z) : Z * f32 :=
  foldl (λ '(nearest_target, nearest_distance) player_entity,
    match (get_component player_entity c : option Position) with
    | None => (nearest_target, nearest_distance)
    | Some p =>
        let distance := norm3 (fsub (pos_x p) (pos_x position)) (fsub (pos_y p) (pos_y position))
                          (fsub (pos_z p) (pos_z position)) in
        if fltb distance nearest_distance && fltb distance f20
        then (player_entity, distance) else (nearest_target, nearest_distance)
    end) (0, fmax_float) players.

Definition find_nearest_target (entity : Z) (c : ComponentManager) : ComponentManager :=
  match (get_component entity c : option Position) with
  | None => c
  | Some position =>
      let '(nearest_target, _) :=
        nearest position c (get_components c : list (Z * Player)).*1 in
      if nearest_target =? 0 then c else set_target entity nearest_target c
  end.

Definition update_ai_state (entity : Z) (c : ComponentManager) : ComponentManager :=
  match (get_component entity c : option Monster) with
  | None => c
  | Some monster =>
      if target_entity monster =? 0 then find_nearest_target entity c
      else match (get_component (target_entity monster) c : option Health) with
           | Some h => if is_alive h then attack_target entity c else clear_target entity c
           | None => clear_target entity c
           end
  end.

Definition update_monster_ai (c : ComponentManager) : ComponentManager :=
  foldl (λ c e, update_ai_state e c) c (get_components c : list (Z * Monster)).*1.

(** [draws e]: the three numbers drawn for the NPC [e]. *)
Definition update_npc_ai (draws : Z → f32 * f32 * f32) (c : ComponentManager) : ComponentManager :=
  foldl (λ c e, patrol (draws e) e f10 c) c (get_components c : list (Z * NPC)).*1.

Definition update (draws : Z → f32 * f32 * f32) (c : ComponentManager) : ComponentManager :=
  update_npc_ai draws (update_monster_ai c).

End ai.
End AISystem.

(** ** [map_system.cpp] *)
Module MapSystem.
Section maps.
Context `{HashOrder}.

(** The per-map object cache. *)
Record t := mk { map_object_cache_ : gmap Z (list Z); cache_dirty_ : bool }.
#[global] Instance t_eta : Settable t := λ s, mk (map_object_cache_ s) (cache_dirty_ s).
Definition make : t := mk ∅ true.

Definition create_map (map_id : Z) (map_name : list Z) (width height : f32) (max_players : Z)
    (w : world) : Z * world :=
  let '(map_entity, w) := create_entity w in
  let w := w <| cm ::= add_component map_entity
                  (MapComponent_make map_id map_name width height max_players) |> in
  let w := w <| cm ::= add_component map_entity MapObjects_empty |> in
  let w := w <| cm ::= add_component map_entity (mkMapBounds f0 f0 f0 width height f1000) |> in
  (map_entity, w).

Definition destroy_map (map_entity : Z) (w : world) : world :=
  let destroy_all s w := foldl (λ w e, destroy_entity e w) w (hash_elements s) in
  let w := match (get_component map_entity (cm w) : option MapObjectsComponent) with
           | Some o => destroy_all (mo_items o) (destroy_all (mo_npcs o)
                         (destroy_all (mo_monsters o) (destroy_all (mo_players o) w)))
           | None => w
           end in
  destroy_entity map_entity w.

(** The set an object is filed under, by the components it has. *)
Definition classify (fp fm fn fi : MapObjectsComponent → MapObjectsComponent)
    (object_entity : Z) (c : ComponentManager) : MapObjectsComponent → MapObjectsComponent :=
  if has_component (T:=Player) object_entity c then fp
  else if has_component (T:=Monster) object_entity c then fm
  else if has_component (T:=NPC) object_entity c then fn
  else if has_component (T:=Item) object_entity c then fi
  else λ o, o.

Definition add_object_to_map (map_entity object_entity : Z) (s : t) (c : ComponentManager)
    : t * ComponentManager :=
  match (get_component map_entity c : option MapObjectsComponent) with
  | None => (s, c)
  | Some _ =>
      (s <| cache_dirty_ := true |>,
       update_component (classify (add_player object_entity) (add_monster object_entity)
         (add_npc object_entity) (add_item object_entity) object_entity c) map_entity c)
  end.

Definition remove_object_from_map (map_entity object_entity : Z) (s : t) (c : ComponentManager)
    : t * ComponentManager :=
  match (get_component map_entity c : option MapObjectsComponent) with
  | None => (s, c)
  | Some _ =>
      (s <| cache_dirty_ := true |>,
       update_component (classify (remove_player object_entity) (remove_monster object_entity)
         (remove_npc object_entity) (remove_item object_entity) object_entity c) map_entity c)
  end.

Definition get_objects_in_map (map_entity : Z) (c : ComponentManager) : list Z :=
  match (get_component map_entity c : option MapObjectsComponent) with
  | None => []
  | Some o => hash_elements (mo_players o) ++ hash_elements (mo_monsters o)
                ++ hash_elements (mo_npcs o) ++ hash_elements (mo_items o)
  end.

(** [std::pow(float, 2)] is a [double]. *)
Definition pow2 (x : f32) : f64 := dmul (f64_of_f32 x) (f64_of_f32 x).

Definition get_objects_in_range (map_entity : Z) (x y z range : f32) (c : ComponentManager)
    : list Z :=
  omap (λ e, match (get_component e c : option Position) with
             | None => None
             | Some p =>
                 let distance := f32_of_f64 (dsqrt (dadd
                   (dadd (pow2 (fsub (pos_x p) x)) (pow2 (fsub (pos_y p) y)))
                   (pow2 (fsub (pos_z p) z)))) in
                 if fleb distance range then Some e else None
             end) (get_objects_in_map map_entity c).

Definition is_object_in_bounds (map_entity object_entity : Z) (c : ComponentManager) : bool :=
  match (get_component map_entity c : option MapBoundsComponent),
        (get_component object_entity c : option Position) with
  | Some b, Some p => is_inside b (pos_x p) (pos_y p) (pos_z p)
  | _, _ => false
  end.

Definition clamp_position (b : MapBoundsComponent) (p : Position) : Position :=
  mkPosition (fclamp (pos_x p) (min_x b) (max_x b)) (fclamp (pos_y p) (min_y b) (max_y b))
    (fclamp (pos_z p) (min_z b) (max_z b)).

Definition clamp_object_to_bounds (map_entity object_entity : Z) (c : ComponentManager)
    : ComponentManager :=
  match (get_component map_entity c : option MapBoundsComponent) with
  | Some b => update_component (clamp_position b) object_entity c
  | None => c
  end.

Definition get_player_count (map_entity : Z) (c : ComponentManager) : Z :=
  match (get_component map_entity c : option MapObjectsComponent) with
  | Some o => Z.of_nat (size (mo_players o)) | None => 0 end.
Definition get_monster_count (map_entity : Z) (c : ComponentManager) : Z :=
  match (get_component map_entity c : option MapObjectsComponent) with
  | Some o => Z.of_nat (size (mo_monsters o)) | None => 0 end.
Definition get_total_object_count (map_entity : Z) (c : ComponentManager) : Z :=
  match (get_component map_entity c : option MapObjectsComponent) with
  | Some o => Z.of_nat (size (mo_players o) + size (mo_monsters o) + size (mo_npcs o)
                        + size (mo_items o))
  | None => 0
  end.

Definition check_map_collisions (map_entity : Z) (c : ComponentManager) : ComponentManager :=
  foldl (λ c e, if is_object_in_bounds map_entity e c then c
                else clamp_object_to_bounds map_entity e c) c (get_objects_in_map map_entity c).

Definition update_object_cache (s : t) (c : ComponentManager) : t :=
  s <| map_object_cache_ := foldl (λ m e, <[e := get_objects_in_map e c]> m) ∅
                              (get_components c : list (Z * MapComponent)).*1 |>.

(** [update_map_objects] and [process_map_events] are empty. *)
Definition update (s : t) (c : ComponentManager) : t * ComponentManager :=
  let c := foldl (λ c e, check_map_collisions e c) c
             (get_components c : list (Z * MapComponent)).*1 in
  if cache_dirty_ s then ((update_object_cache s c) <| cache_dirty_ := false |>, c) else (s, c).

End maps.
End MapSystem.

(** ** Lemmas: loops over component pointers *)

Section loops.
Context {T : Type} `{ComponentType T}.

(** A loop that writes once through each pointer of a snapshot. *)
Lemma foldl_update (f : T → T) es e c :
  NoDup es →
  get_component e (foldl (λ c e, update_component f e c) c es)
  = if decide (e ∈ es) then f <$> get_component e c else get_component e c.
Proof.
  revert c. induction es as [|e' es IH]; intros c Hnd; [done|].
  apply NoDup_cons in Hnd as [Hni Hnd]. cbn. rewrite IH by done.
  destruct (decide (e = e')) as [->|Hne].
  - rewrite decide_False by done. rewrite decide_True by left. apply get_update_component.
  - rewrite get_update_component_ne by done.
    destruct (decide (e ∈ es)); [rewrite decide_True by (by right)|
      rewrite decide_False by set_solver]; done.
Qed.

(** What every iteration preserves, the loop does. *)
Lemma foldl_inv {A} (P : ComponentManager → Prop) (f : ComponentManager → A → ComponentManager) l c :
  P c → (∀ c x, P c → P (f c x)) → P (foldl f c l).
Proof. revert c. induction l as [|x l IH]; intros c Hc Hf; [done|]. cbn. auto. Qed.
End loops.

Lemma snapshot_keys `{ComponentType T} `{HashOrder} e c :
  e ∈ (get_components (T:=T) c).*1 ↔ is_Some (get_component (T:=T) e c).
Proof.
  rewrite list_elem_of_fmap. split.
  - intros ([e' x] & -> & Hx%get_components_elem). by exists x.
  - intros [x Hx]. exists (e, x). split; [done|]. by apply get_components_elem.
Qed.

(** ** Lemmas: movement *)
Section movement_laws.
Context `{HashOrder}.
Import MovementSystem.

Lemma check_boundaries_get e c :
  get_component e (check_boundaries c) = bound_position <$> get_component e c.
Proof.
  unfold check_boundaries. rewrite foldl_update by apply get_components_NoDup.
  destruct (decide _) as [|Hn]; [done|]. rewrite snapshot_keys in Hn.
  destruct (get_component e c) eqn:E; [|done]. by destruct Hn.
Qed.

(** [bound] lands in the interval, except on NaN, which it leaves alone. *)
Lemma bound_in x : is_nan x = false → fleb MIN_BOUND (bound x) = true ∧ fleb (bound x) MAX_BOUND = true.
Proof.
  intros Hx. unfold bound. destruct (fltb x MIN_BOUND) eqn:E1; [done|].
  rewrite fltb_fleb in E1 by done. apply negb_false_iff in E1.
  destruct (fltb MAX_BOUND x) eqn:E2; [done|].
  rewrite fltb_fleb in E2 by done. apply negb_false_iff in E2. done.
Qed.

Lemma bound_finite x : is_finite x = true → is_finite (bound x) = true.
Proof. intros Hx. unfold bound. destruct (fltb x _); [done|]. by destruct (fltb _ x). Qed.

Definition nan3 : Position := mkPosition S754_nan S754_nan S754_nan.
Definition finite3 (p : Position) : bool :=
  is_finite (pos_x p) && is_finite (pos_y p) && is_finite (pos_z p).

(** Two bodies in the same place: the direction is 0/0. *)
Lemma separate_same p : finite3 p = true → separate p p = Some (nan3, nan3).
Proof.
  unfold finite3. rewrite !andb_true_iff. intros [[Hx Hy] Hz].
  unfold separate. rewrite !fsub_diag by done.
  replace (norm3 _ _ _) with (S754_zero false) by (vm_compute; reflexivity).
  replace (fltb _ _) with true by (vm_compute; reflexivity).
  replace (fdiv (S754_zero false) (S754_zero false)) with S754_nan by (vm_compute; reflexivity).
  by autorewrite with fnan.
Qed.

Lemma norm3_nan_l y z : norm3 S754_nan y z = S754_nan.
Proof. unfold norm3. by autorewrite with fnan. Qed.

Lemma separate_nan_l p : separate nan3 p = None.
Proof. unfold separate. cbn [pos_x nan3]. autorewrite with fnan. by rewrite norm3_nan_l. Qed.
Lemma separate_nan_r p : separate p nan3 = None.
Proof. unfold separate. cbn [pos_x nan3]. autorewrite with fnan. by rewrite norm3_nan_l. Qed.


Lemma collide_nan e e1 e2 c :
  get_component e c = Some nan3 → get_component e (collide e1 e2 c) = Some nan3.
Proof.
  intros He. unfold collide. destruct (get_component e1 c) as [p1|] eqn:H1; [|done].
  destruct (get_component e2 c) as [p2|] eqn:H2; [|done].
  destruct (separate p1 p2) as [[q1 q2]|] eqn:Hs; [|done].
  assert (e1 ≠ e) by (intros ->; simplify_eq; by rewrite separate_nan_l in Hs).
  assert (e2 ≠ e) by (intros ->; simplify_eq; by rewrite separate_nan_r in Hs).
  by rewrite !get_update_component_ne.
Qed.

Lemma collide_pairs_nan e es c :
  get_component e c = Some nan3 → get_component e (collide_pairs es c) = Some nan3.
Proof.
  revert c. induction es as [|e1 es IH]; intros c He; [done|]. cbn. apply IH.
  apply (foldl_inv (λ c, get_component e c = Some nan3)); [done|].
  intros. by apply collide_nan.
Qed.

Lemma advance_nan dt e e' c :
  get_component e c = Some nan3 → get_component e (advance dt e' c) = Some nan3.
Proof.
  intros He. unfold advance. destruct (get_component e' c : option Velocity) as [v|]; [|done].
  destruct (decide (e' = e)) as [->|]; [|by rewrite get_update_component_ne].
  rewrite get_update_component, He. cbn. by autorewrite with fnan.
Qed.

(** NaN is for ever. *)
Lemma update_nan dt e c :
  get_component e c = Some nan3 → get_component e (update dt c) = Some nan3.
Proof.
  intros He. unfold update, handle_collisions. apply collide_pairs_nan.
  rewrite check_boundaries_get.
  assert (get_component e (update_positions dt c) = Some nan3) as ->; [|done].
  apply (foldl_inv (λ c, get_component e c = Some nan3)); [done|].
  intros. by apply advance_nan.
Qed.

Lemma update_positions_still dt c :
  (∀ e, is_Some (get_component (T:=Position) e c) → get_component (T:=Velocity) e c = None) →
  update_positions dt c = c.
Proof.
  intros Hv. unfold update_positions.
  assert (∀ e, e ∈ (get_components (T:=Position) c).*1 → get_component (T:=Velocity) e c = None) as Hk.
  { intros e He. apply Hv. by apply snapshot_keys in He. }
  revert Hk. generalize ((get_components (T:=Position) c).*1) as es.
  induction es as [|e es IH]; intros Hk; [done|]. cbn. unfold advance at 2. rewrite Hk by left.
  apply IH. intros. apply Hk. by right.
Qed.

(** Exactly two bodies, at the same finite place and without velocity. *)
Record same_spot (e1 e2 : Z) (p : Position) (c : ComponentManager) : Prop := {
  ss_ne : e1 ≠ e2;
  ss_finite : finite3 p = true;
  ss_pos : ∀ e, get_component e c = if decide (e = e1 ∨ e = e2) then Some p else None;
  ss_vel : ∀ e, get_component (T:=Velocity) e c = None
}.

Lemma collide_same e1 e2 p c :
  e1 ≠ e2 → finite3 p = true → get_component e1 c = Some p → get_component e2 c = Some p →
  get_component e1 (collide e1 e2 c) = Some nan3 ∧ get_component e2 (collide e1 e2 c) = Some nan3.
Proof.
  intros Hne Hf H1 H2. unfold collide. rewrite H1, H2, separate_same by done. split.
  - by rewrite get_update_component_ne, get_update_component, H1.
  - by rewrite get_update_component, get_update_component_ne, H2.
Qed.

Lemma update_same_spot dt e1 e2 p c :
  same_spot e1 e2 p c →
  get_component e1 (update dt c) = Some nan3 ∧ get_component e2 (update dt c) = Some nan3.
Proof.
  intros [Hne Hf Hp Hv]. unfold update. rewrite update_positions_still by (intros; apply Hv).
  set (c1 := check_boundaries c). set (q := bound_position p).
  assert (∀ e, get_component e c1 = if decide (e = e1 ∨ e = e2) then Some q else None) as Hq.
  { intros e. unfold c1. rewrite check_boundaries_get, Hp. by destruct (decide _). }
  assert (finite3 q = true) as Hfq.
  { unfold finite3 in *. rewrite !andb_true_iff in *. cbn. destruct Hf as [[]].
    auto using bound_finite. }
  assert ((get_components (T:=Position) c1).*1 ≡ₚ [e1; e2]) as Hk.
  { apply NoDup_Permutation; [apply get_components_NoDup| |].
    - apply NoDup_cons; split; [set_solver|]. apply NoDup_singleton.
    - intros e. rewrite snapshot_keys, Hq, !elem_of_cons.
      destruct (decide _) as [?|Hn]; split; [naive_solver|eauto|by intros []|].
      intros [?|[?|?%elem_of_nil]]; by destruct Hn; auto. }
  unfold handle_collisions.
  destruct (collide_same e1 e2 q c1) as [? ?]; try done; [rewrite Hq, decide_True; auto..|].
  destruct (collide_same e2 e1 q c1) as [? ?]; try done; [rewrite Hq, decide_True; auto..|].
  symmetry in Hk. apply Permutation_length_2_inv in Hk as [-> | ->]; done.
Qed.

End movement_laws.

(** ** Lemmas: maps *)
Section map_laws.
Context `{HashOrder}.
Import MapSystem.

Definition bounds_ok (b : MapBoundsComponent) : bool :=
  fleb (min_x b) (max_x b) && fleb (min_y b) (max_y b) && fleb (min_z b) (max_z b).
Definition no_nan (p : Position) : bool :=
  negb (is_nan (pos_x p)) && negb (is_nan (pos_y p)) && negb (is_nan (pos_z p)).

Lemma clamp_inside b p :
  bounds_ok b = true → no_nan p = true →
  is_inside b (pos_x (clamp_position b p)) (pos_y (clamp_position b p)) (pos_z (clamp_position b p)) = true.
Proof.
  unfold bounds_ok, no_nan, is_inside. rewrite !andb_true_iff, !negb_true_iff.
  intros [[Hx Hy] Hz] [[Nx Ny] Nz]. cbn. split_and!; by apply fclamp_in.
Qed.

Definition settle (map_entity : Z) (c : ComponentManager) (e : Z) : ComponentManager :=
  if is_object_in_bounds map_entity e c then c else clamp_object_to_bounds map_entity e c.

Lemma settle_bounds m c e e' :
  get_component (T:=MapBoundsComponent) e' (settle m c e) = get_component e' c.
Proof.
  unfold settle. destruct (is_object_in_bounds _ _ _); [done|].
  unfold clamp_object_to_bounds. by destruct (get_component m c : option MapBoundsComponent).
Qed.

(** What an object of the map looks like after its turn. *)
Definition settled (b : MapBoundsComponent) (p : Position) : Position :=
  if is_inside b (pos_x p) (pos_y p) (pos_z p) then p else clamp_position b p.

Lemma settle_get m b c e e' :
  get_component m c = Some b →
  get_component e' (settle m c e)
  = if decide (e = e') then settled b <$> get_component e' c else get_component e' c.
Proof.
  intros Hb. unfold settle, is_object_in_bounds, clamp_object_to_bounds. rewrite Hb.
  destruct (decide (e = e')) as [->|Hne].
  - destruct (get_component e' c : option Position) as [p|] eqn:Hp.
    + cbn [fmap option_fmap option_map]. unfold settled. destruct (is_inside _ _ _ _); [done|].
      by rewrite get_update_component, Hp.
    + by rewrite get_update_component, Hp.
  - destruct (match _ with Some _ => _ | None => _ end); [done|].
    by rewrite get_update_component_ne.
Qed.

Lemma settled_idemp b p :
  bounds_ok b = true → no_nan p = true → settled b (settled b p) = settled b p.
Proof.
  intros Hb Hp. unfold settled. destruct (is_inside b (pos_x p) _ _) eqn:E; [by rewrite E|].
  by rewrite clamp_inside.
Qed.

(** The loop: an object of the list ends up settled, others stay. *)
Lemma foldl_settle m b p e es c :
  bounds_ok b = true → no_nan p = true → get_component m c = Some b →
  get_component e c = Some p ∨ get_component e c = Some (settled b p) →
  get_component e (foldl (settle m) c es)
  = if decide (e ∈ es) then Some (settled b p) else get_component e c.
Proof.
  intros Hok Hn. revert c. induction es as [|e' es IH]; intros c Hb Hp; [done|]. cbn.
  assert (get_component e (settle m c e')
    = if decide (e' = e) then Some (settled b p) else get_component e c) as Hs.
  { rewrite (settle_get _ b) by done. destruct (decide (e' = e)); [|done].
    destruct Hp as [-> | ->]; cbn; by rewrite ?settled_idemp. }
  rewrite IH; [|by rewrite settle_bounds|rewrite Hs; destruct (decide (e' = e)); auto].
  rewrite Hs. destruct (decide (e ∈ es)), (decide (e' = e)) as [->|]; try
    (rewrite decide_True by set_solver; done). by rewrite decide_False by set_solver.
Qed.

Lemma check_collisions_get m b c e p :
  get_component m c = Some b → bounds_ok b = true →
  get_component e c = Some p → no_nan p = true →
  get_component e (check_map_collisions m c)
  = Some (if decide (e ∈ get_objects_in_map m c) then settled b p else p).
Proof.
  intros Hb Hok Hp Hn.
  change (check_map_collisions m c) with (foldl (settle m) c (get_objects_in_map m c)).
  rewrite (foldl_settle m b p) by auto. by destruct (decide _).
Qed.

End map_laws.

(** ** Lemmas: target selection *)
Section ai_laws.
Context `{HashOrder}.
Import AISystem.

(** The distance at which a player is seen from [position]. *)
Definition seen_at (position : Position) (c : ComponentManager) (e : Z) : option f32 :=
  (λ p, norm3 (fsub (pos_x p) (pos_x position)) (fsub (pos_y p) (pos_y position))
          (fsub (pos_z p) (pos_z position))) <$> get_component e c.

(** A candidate: a player seen within 20 units. *)
Definition candidate position c e d : Prop := seen_at position c e = Some d ∧ fltb d f20 = true.

Lemma nearest_spec position c players :
  let '(t, d) := nearest position c players in
  (t = 0 ∧ d = fmax_float ∧ ∀ e d', e ∈ players → ~ candidate position c e d')
  ∨ (t ∈ players ∧ candidate position c t d
     ∧ ∀ e d', e ∈ players → candidate position c e d' → fleb d d' = true).
Proof.
  induction players as [|e es IH] using rev_ind.
  { left. split_and!; [done|done|]. by intros e d' ?%elem_of_nil. }
  unfold nearest in *. rewrite foldl_app. cbn [foldl].
  destruct (foldl _ _ es) as [t d]. unfold candidate, seen_at in *.
  destruct (get_component e c : option Position) as [p|] eqn:Hp.
  2: { destruct IH as [(-> & -> & Hn)|(Ht & [Hd Hd20] & Hm)]; [left|right]; split_and!; try done.
    - intros e' d' [He| ->%list_elem_of_singleton]%elem_of_app; [by eapply Hn|].
      rewrite Hp. by intros [].
    - set_solver.
    - intros e' d' [He| ->%list_elem_of_singleton]%elem_of_app; [by eapply Hm|].
      rewrite Hp. by intros []. }
  set (k := norm3 _ _ _).
  assert (∀ e', e' ∈ es ++ [e] → e' ∈ es ∨ e' = e) as Hin by set_solver.
  destruct (fltb k d && fltb k f20) eqn:Hk.
  - apply andb_true_iff in Hk as [Hkd Hk20]. right. split_and!; [set_solver|by rewrite Hp|done|].
    intros e' d' [He| ->]%Hin [Hs Hd'].
    + destruct IH as [(-> & -> & Hn)|(Ht & _ & Hm)]; [by destruct (Hn e' d' He)|].
      apply (fleb_trans _ d); [by apply fltb_fleb_le|]. by apply (Hm e').
    + rewrite Hp in Hs. injection Hs as <-. apply fleb_refl. by apply fltb_nan in Hkd as [].
  - apply andb_false_iff in Hk. destruct IH as [(-> & -> & Hn)|(Ht & [Hs0 Hd] & Hm)].
    + left. split_and!; try done. intros e' d' [He| ->]%Hin [Hs Hd']; [by eapply Hn|].
      rewrite Hp in Hs. injection Hs as <-. fold k in Hd'. destruct Hk as [Hk|Hk]; [|congruence].
      clear -Hk Hd'. pose proof (fltb_nan _ _ Hd') as [Hnk _].
      rewrite fltb_fleb in Hk, Hd' by done. apply negb_false_iff in Hk. apply negb_true_iff in Hd'.
      assert (fleb f20 k = true) as E by (eapply fleb_trans; [|exact Hk]; done). congruence.
    + right. split_and!; try done; [set_solver|].
      intros e' d' [He| ->]%Hin [Hs Hd']; [by apply (Hm e')|].
      rewrite Hp in Hs. injection Hs as <-. fold k in Hd'. destruct Hk as [Hk|Hk]; [|congruence].
      pose proof (fltb_nan _ _ Hd') as [Hnk _]. apply fltb_nan in Hd as [Hnd _].
      rewrite fltb_fleb in Hk by done. by apply negb_false_iff in Hk.
Qed.
End ai_laws.

(** ** Properties *)

(** One boundary pass moves every coordinate that is a number into
    [-1000, 1000], keeps the ones already inside, and touches no other
    component; a NaN coordinate passes through. *)
Theorem boundaries_enforced `{HashOrder} c e p :
  get_component e c = Some p →
  ∃ q, get_component e (MovementSystem.check_boundaries c) = Some q
    ∧ (is_nan (pos_x p) = false →
       fleb fm1000 (pos_x q) = true ∧ fleb (pos_x q) f1000 = true)
    ∧ (is_nan (pos_y p) = false →
       fleb fm1000 (pos_y q) = true ∧ fleb (pos_y q) f1000 = true)
    ∧ (is_nan (pos_z p) = false →
       fleb fm1000 (pos_z q) = true ∧ fleb (pos_z q) f1000 = true)
    ∧ (fleb fm1000 (pos_x p) && fleb (pos_x p) f1000 = true → pos_x q = pos_x p)
    ∧ (is_nan (pos_x p) = true → is_nan (pos_x q) = true).
Proof.
  intros Hp. exists (MovementSystem.bound_position p). rewrite check_boundaries_get, Hp. cbn.
  split_and!; [done|apply bound_in..| |].
  - intros [H1 H2]%andb_true_iff. unfold MovementSystem.bound, MovementSystem.MIN_BOUND,
      MovementSystem.MAX_BOUND.
    pose proof (fleb_nan_l _ _ H2). rewrite (fltb_fleb _ fm1000), H1 by done. cbn [negb].
    by rewrite fltb_fleb, H2.
  - by destruct (pos_x p).
Qed.

Lemma boundaries_enforced_witness :
  let c := add_component 4 (mkPosition (f32_of_Z 5000) f0 S754_nan) no_components in
  ∃ q, get_component 4 (@MovementSystem.check_boundaries key_order c) = Some q
    ∧ (is_nan (f32_of_Z 5000) = false →
       fleb fm1000 (pos_x q) = true ∧ fleb (pos_x q) f1000 = true)
    ∧ (is_nan f0 = false → fleb fm1000 (pos_y q) = true ∧ fleb (pos_y q) f1000 = true)
    ∧ (is_nan S754_nan = false → fleb fm1000 (pos_z q) = true ∧ fleb (pos_z q) f1000 = true)
    ∧ (fleb fm1000 (f32_of_Z 5000) && fleb (f32_of_Z 5000) f1000 = true →
       pos_x q = f32_of_Z 5000)
    ∧ (is_nan (f32_of_Z 5000) = true → is_nan (pos_x q) = true).
Proof.
  intros c.
  apply (@boundaries_enforced key_order c 4 (mkPosition (f32_of_Z 5000) f0 S754_nan)).
  vm_compute. reflexivity.
Defined.

(** Two resting characters at the same place (every player
    without a saved position starts at the origin) are destroyed by the
    collision step: it divides by their distance, zero, and from the first
    update on both positions are NaN for ever. *)
Theorem same_spot_becomes_nan `{HashOrder} e1 e2 p c dt dts :
  same_spot e1 e2 p c →
  let c' := foldl (λ c dt, MovementSystem.update dt c) c (dt :: dts) in
  get_component e1 c' = Some nan3 ∧ get_component e2 c' = Some nan3.
Proof.
  intros Hs c'. subst c'. cbn [foldl]. destruct (update_same_spot dt e1 e2 p c Hs) as [H1 H2].
  split; apply (foldl_inv (λ c, get_component _ c = Some nan3)); try done;
    intros; by apply update_nan.
Qed.

Lemma same_spot_becomes_nan_witness :
  let c := add_component 2 Position_default (add_component 1 Position_default no_components) in
  let c' := foldl (λ c dt, @MovementSystem.update key_order dt c) c [f1; f1] in
  get_component 1 c' = Some nan3 ∧ get_component 2 c' = Some nan3.
Proof.
  intros c. apply (@same_spot_becomes_nan key_order 1 2 Position_default c f1 [f1]).
  split; [done|reflexivity| |reflexivity]. intros e. unfold c, get_component, add_component. cbn.
  unfold ComponentStore.get, ComponentStore.add.
  destruct (decide _) as [[-> | ->]|Hn]; [reflexivity..|].
  rewrite !lookup_insert_ne by (intros <-; destruct Hn; auto). apply lookup_empty.
Defined.

(** The map system keeps the objects of a map inside it: after a
    collision pass every object of the map whose position is a number is within
    the map's bounds, and objects of other maps do not move. *)
Theorem map_objects_kept_inside `{HashOrder} m b c e p :
  get_component m c = Some b → bounds_ok b = true →
  get_component e c = Some p → no_nan p = true →
  (e ∈ MapSystem.get_objects_in_map m c →
   MapSystem.is_object_in_bounds m e (MapSystem.check_map_collisions m c) = true)
  ∧ (e ∉ MapSystem.get_objects_in_map m c →
     get_component e (MapSystem.check_map_collisions m c) = Some p).
Proof.
  intros Hb Hok Hp Hn. pose proof (check_collisions_get m b c e p Hb Hok Hp Hn) as Hg. split.
  - intros He. rewrite decide_True in Hg by done. unfold MapSystem.is_object_in_bounds.
    assert (get_component (T:=MapBoundsComponent) m (MapSystem.check_map_collisions m c) = Some b) as ->.
    { apply (foldl_inv (λ c, get_component m c = Some b)); [done|]. intros c1 x Hc1.
      by rewrite <- (settle_bounds m c1 x m) in Hc1. }
    rewrite Hg. unfold settled. destruct (is_inside b (pos_x p) _ _) eqn:E; [done|].
    by apply clamp_inside.
  - intros He. by rewrite decide_False in Hg.
Qed.

Lemma map_objects_kept_inside_witness :
  let w := (MapSystem.create_map 1 [] f1000 f1000 10 new_world).2 in
  let c := add_component 5 (mkPosition (f32_of_Z 5000) f0 f0)
             (update_component (add_player 5) 1 (cm w)) in
  (5 ∈ @MapSystem.get_objects_in_map key_order 1 c →
   MapSystem.is_object_in_bounds 1 5 (@MapSystem.check_map_collisions key_order 1 c) = true)
  ∧ (5 ∉ @MapSystem.get_objects_in_map key_order 1 c →
     get_component 5 (@MapSystem.check_map_collisions key_order 1 c)
     = Some (mkPosition (f32_of_Z 5000) f0 f0)).
Proof.
  intros w c. apply (@map_objects_kept_inside key_order 1 (mkMapBounds f0 f0 f0 f1000 f1000 f1000));
    vm_compute; reflexivity.
Defined.

(** A monster without a target picks the nearest player: if
    the AI step sets a target, it is a player with a position at less than 20
    units and no player in range is nearer; if no player is in range the monster
    stays without a target. *)
Theorem nearest_player_targeted `{HashOrder} e position m c :
  get_component e c = Some position → get_component e c = Some m → target_entity m = 0 →
  let players := (get_components (T:=Player) c).*1 in
  let c' := AISystem.update_ai_state e c in
  (∃ t d, t ≠ 0 ∧ t ∈ players ∧ candidate position c t d
    ∧ (∀ e' d', e' ∈ players → candidate position c e' d' → fleb d d' = true)
    ∧ get_component e c' = Some (m <| target_entity := t |>))
  ∨ (c' = c ∧ ∀ e' d', e' ≠ 0 → e' ∈ players → candidate position c e' d' →
       ∃ d, candidate position c 0 d ∧ fleb d d' = true).
Proof.
  intros Hp Hm Ht players c'. subst c'. unfold AISystem.update_ai_state. rewrite Hm, Ht. cbn.
  unfold AISystem.find_nearest_target. rewrite Hp. fold players.
  pose proof (nearest_spec position c players) as Hn.
  destruct (AISystem.nearest position c players) as [t d].
  destruct (Z.eqb_spec t 0) as [->|Hne].
  - right. split; [done|]. intros e' d' He' Hin Hc. destruct Hn as [(_ & _ & Hn)|(_ & Hd & Hmin)].
    + by destruct (Hn e' d' Hin).
    + exists d. split; [done|]. by apply (Hmin e').
  - left. destruct Hn as [(? & _)|(Hin & Hc & Hmin)]; [done|]. exists t, d.
    split_and!; try done. unfold AISystem.set_target. by rewrite get_update_component, Hm.
Qed.

Lemma nearest_player_targeted_witness :
  let c := add_component 9 (Player_make [] 9 1 1) (add_component 9 (mkPosition f10 f0 f0)
             (add_component 3 (Monster_make 1 1) (add_component 3 Position_default no_components))) in
  let players := (@get_components Player _ key_order c).*1 in
  let c' := @AISystem.update_ai_state key_order 3 c in
  (∃ t d, t ≠ 0 ∧ t ∈ players ∧ candidate Position_default c t d
    ∧ (∀ e' d', e' ∈ players → candidate Position_default c e' d' → fleb d d' = true)
    ∧ get_component 3 c' = Some ((Monster_make 1 1) <| target_entity := t |>))
  ∨ (c' = c ∧ ∀ e' d', e' ≠ 0 → e' ∈ players → candidate Position_default c e' d' →
       ∃ d, candidate Position_default c 0 d ∧ fleb d d' = true).
Proof.
  intros c. apply (@nearest_player_targeted key_order 3 Position_default (Monster_make 1 1) c);
    vm_compute; reflexivity.
Defined.

(** The two ways to deal damage disagree about death: a lethal
    hit through the combat system leaves a character with no hit points that is
    still marked alive, where [Health::take_damage] marks it dead. *)
Theorem combat_kill_keeps_alive_flag e h d c :
  get_component e c = Some h → Health_.ok h → 0 < hp h ≤ d →
  ∃ h', get_component e (CombatSystem.take_damage e d c) = Some h'
    ∧ hp h' = 0 ∧ is_alive h' = true
    ∧ hp (Health_.take_damage d h) = 0 ∧ is_alive (Health_.take_damage d h) = false.
Proof.
  intros Hh Hok Hd. unfold CombatSystem.take_damage. rewrite get_update_component, Hh. cbn.
  eexists. split; [reflexivity|]. unfold Health_.take_damage.
  destruct (Z.ltb_spec d (hp h)), (Z.leb_spec (hp h) d); try lia. cbn.
  destruct Hok as [_ _ _ ->]. split_and!; try done. apply Z.ltb_lt. lia.
Qed.

Lemma combat_kill_keeps_alive_flag_witness :
  let c := add_component 7 (Health_.make 100 50) no_components in
  ∃ h', get_component 7 (CombatSystem.take_damage 7 100 c) = Some h'
    ∧ hp h' = 0 ∧ is_alive h' = true
    ∧ hp (Health_.take_damage 100 (Health_.make 100 50)) = 0
    ∧ is_alive (Health_.take_damage 100 (Health_.make 100 50)) = false.
Proof.
  intros c. apply (combat_kill_keeps_alive_flag 7 (Health_.make 100 50) 100 c);
    [vm_compute; reflexivity|by_decide|by_decide].
Defined.
