(* ===== verification/Threads.v ===== *)
(** * Map threads ([src/server/game/threading/])

    One [MapThread] per map with its packet and task queues and the objects of
    the map, the [MapThreadManager] that owns the map threads, and the
    [MainThreadManager] with its queues.  An iteration of a thread's loop is one
    function; every access is under the owner's mutex, so a run is a sequence of
    the operations.  The world (ECS state) and the seed of the spawn generator,
    a function-local static, are shared and passed along. *)

From S2P Require Import Prelude Floats Components Ecs Systems.
From Stdlib Require Import Sorting.Sorted.

(** [std::priority_queue]: which of several top elements [top()] gives is up to
    the library. *)
Class PriorityQueue := {
  pq_pop : ∀ {T : Type}, (T → Z) → list T → option (T * list T);
  pq_pop_perm : ∀ {T} (prio : T → Z) l x l', pq_pop prio l = Some (x, l') → l ≡ₚ x :: l';
  pq_pop_top : ∀ {T} (prio : T → Z) l x l',
    pq_pop prio l = Some (x, l') → Forall (λ y, prio x ≤ prio y) l';
  pq_pop_empty : ∀ {T} (prio : T → Z) l, pq_pop prio l = None ↔ l = []
}.

Record shared := Shared { sh_world : world; sh_seed : Z }.
#[global] Instance shared_eta : Settable shared := λ s, Shared (sh_world s) (sh_seed s).

(** ** [map_thread.hpp], [map_thread.cpp] *)
Module MapThread.

Record MapPacket := mkPacket { pk_channel_id : Z; pk_cmd : Z; pk_data : list Z }.

(** A task is known by its number; [operator<] makes the lowest priority value
    the top of the queue. *)
Record MapTask := mkTask { task_id : Z; priority : Z }.

Record t := mk {
  map_id_ : Z; map_name_ : list Z; map_entity_ : Z; width_ : f32; height_ : f32;
  max_players_ : Z;
  running_ : bool;
  packet_queue_ : list MapPacket;
  task_queue_ : list MapTask;
  local_players_ : gset Z; local_monsters_ : gset Z; local_npcs_ : gset Z; local_items_ : gset Z;
  player_count_ : Z; monster_count_ : Z; npc_count_ : Z; item_count_ : Z;
  spawn_timer_ : f32
}.
#[global] Instance t_eta : Settable t := λ m,
  mk (map_id_ m) (map_name_ m) (map_entity_ m) (width_ m) (height_ m) (max_players_ m)
    (running_ m) (packet_queue_ m) (task_queue_ m) (local_players_ m) (local_monsters_ m)
    (local_npcs_ m) (local_items_ m) (player_count_ m) (monster_count_ m) (npc_count_ m)
    (item_count_ m) (spawn_timer_ m).

Definition SPAWN_INTERVAL : f32 := Eval vm_compute in f32_of_Z 30.
Definition MAX_MONSTERS : Z := 10.

Section map_thread.
Context `{HashOrder} `{PriorityQueue}.

Definition make (map_id : Z) (map_name : list Z) (width height : f32) (max_players : Z)
    (s : shared) : t * shared :=
  let '(e, w) := create_entity (sh_world s) in
  let w := w <| cm ::= add_component e
                  (MapComponent_make map_id map_name width height max_players) |> in
  let w := w <| cm ::= add_component e MapObjects_empty |> in
  let w := w <| cm ::= add_component e (mkMapBounds f0 f0 f0 width height f1000) |> in
  (mk map_id map_name e width height max_players false [] [] ∅ ∅ ∅ ∅ 0 0 0 0 f0,
   s <| sh_world := w |>).

Definition start (m : t) : t := m <| running_ := true |>.
Definition stop (m : t) : t := m <| running_ := false |>.

Definition add_packet (channel_id cmd : Z) (data : list Z) (m : t) : t :=
  m <| packet_queue_ ::= λ q, q ++ [mkPacket channel_id cmd data] |>.

(** The packet handlers of the map thread only log what they got. *)
Inductive handled :=
| Movement (channel_id x y z : Z) | Combat (channel_id : Z) | Interaction (channel_id : Z)
| Chat (channel_id : Z) (data : list Z) | Unknown (cmd : Z).

(** The four bytes at [p], as the [memcpy] into a [float] sees them. *)
Definition bits_at (data : list Z) (p : nat) : Z :=
  join32 (data !!! p) (data !!! S p) (data !!! S (S p)) (data !!! S (S (S p))).

Definition handle_movement_packet (channel_id : Z) (data : list Z) : list handled :=
  if zlen data <? 12 then []
  else [Movement channel_id (bits_at data 0) (bits_at data 4) (bits_at data 8)].

Definition process_single_packet (p : MapPacket) : list handled :=
  if pk_cmd p =? 0x1001 then handle_movement_packet (pk_channel_id p) (pk_data p)
  else if pk_cmd p =? 0x1002 then [Combat (pk_channel_id p)]
  else if pk_cmd p =? 0x1003 then [Interaction (pk_channel_id p)]
  else if pk_cmd p =? 0x1004 then [Chat (pk_channel_id p) (pk_data p)]
  else [Unknown (pk_cmd p)].

(** The handlers do not add packets, so the loop empties the queue it finds. *)
Definition process_packets (m : t) : list handled * t :=
  (concat (process_single_packet <$> packet_queue_ m), m <| packet_queue_ := [] |>).

Definition add_task (task p : Z) (m : t) : t :=
  m <| task_queue_ ::= λ q, mkTask task p :: q |>.

(** Tasks in the order in which they run, for tasks that add no task. *)
Fixpoint drain_tasks (fuel : nat) (q : list MapTask) : list Z :=
  match fuel with
  | O => []
  | S fuel => match pq_pop priority q with
              | None => []
              | Some (x, q) => task_id x :: drain_tasks fuel q
              end
  end.
Definition process_tasks (m : t) : list Z * t :=
  (drain_tasks (length (task_queue_ m)) (task_queue_ m), m <| task_queue_ := [] |>).

Definition add_player (channel_id player_entity : Z) (m : t) (s : shared) : t * shared :=
  let m := m <| local_players_ ::= λ p, {[channel_id]} ∪ p |> in
  let m := m <| player_count_ := Z.of_nat (size (local_players_ m)) |> in
  (m, s <| sh_world ::= λ w, w <| cm ::= update_component (Components.add_player player_entity)
                                           (map_entity_ m) |> |>).

Definition remove_player (channel_id : Z) (m : t) : t :=
  let m := m <| local_players_ ::= λ p, p ∖ {[channel_id]} |> in
  m <| player_count_ := Z.of_nat (size (local_players_ m)) |>.

Definition is_object_in_bounds (entity : Z) (m : t) (c : ComponentManager) : bool :=
  match (get_component (map_entity_ m) c : option MapBoundsComponent),
        (get_component entity c : option Position) with
  | Some b, Some p => is_inside b (pos_x p) (pos_y p) (pos_z p)
  | _, _ => true
  end.

Definition clamp_object_to_bounds (entity : Z) (m : t) (c : ComponentManager) : ComponentManager :=
  match (get_component (map_entity_ m) c : option MapBoundsComponent) with
  | Some b => update_component (MapSystem.clamp_position b) entity c
  | None => c
  end.

Definition update_object_position (delta_time : f32) (entity : Z) (m : t) (c : ComponentManager)
    : ComponentManager :=
  match (get_component entity c : option Position), (get_component entity c : option Velocity) with
  | Some _, Some v =>
      let c := update_component (λ p, mkPosition
                 (fadd (pos_x p) (fmul (vel_x v) delta_time))
                 (fadd (pos_y p) (fmul (vel_y v) delta_time))
                 (fadd (pos_z p) (fmul (vel_z v) delta_time))) entity c in
      if is_object_in_bounds entity m c then c else clamp_object_to_bounds entity m c
  | _, _ => c
  end.

(** [update_object_ai], [check_object_collisions] and
    [handle_object_interactions] are empty, as are the player and item loops. *)
Definition update_objects (delta_time : f32) (es : list Z) (m : t) (c : ComponentManager)
    : ComponentManager :=
  foldl (λ c e, update_object_position delta_time e m c) c es.

(** The linear congruential generator of [spawn_monsters]. *)
Definition next_seed (seed : Z) : Z := u32 (u32 (seed * 1664525) + 1013904223).
Definition f10000 : f32 := Eval vm_compute in f32_of_Z 10000.
Definition rand_coord (seed : Z) (max : f32) : f32 :=
  fmul (fdiv (f32_of_Z (seed mod 10000)) f10000) max.

Definition goblin : list Z := Eval vm_compute in bytes_of_string "Goblin".

(** One round of the spawn loop. *)
Definition spawn_one (m : t) (s : shared) : t * shared :=
  let '(entity, w) := create_entity (sh_world s) in
  let seed1 := next_seed (sh_seed s) in
  let x := rand_coord seed1 (width_ m) in
  let seed2 := next_seed seed1 in
  let z := rand_coord seed2 (height_ m) in
  let w := w <| cm ::= add_component entity (mkPosition x f0 z) |> in
  let w := w <| cm ::= add_component entity (mkVelocity f0 f0 f0) |> in
  let w := w <| cm ::= add_component entity (Health_.make 100 0) |> in
  let w := w <| cm ::= add_component entity (Monster_make 1 1) |> in
  let w := w <| cm ::= add_component entity (GameObject_make MONSTER goblin entity) |> in
  let m := m <| local_monsters_ ::= λ l, {[entity]} ∪ l |> in
  let m := m <| monster_count_ := Z.of_nat (size (local_monsters_ m)) |> in
  let w := w <| cm ::= update_component (Components.add_monster entity) (map_entity_ m) |> in
  (m, Shared w seed2).

Fixpoint spawn_loop (n : nat) (m : t) (s : shared) : t * shared :=
  match n with
  | O => (m, s)
  | S n => let '(m, s) := spawn_one m s in spawn_loop n m s
  end.

Definition spawn_monsters (delta_time : f32) (m : t) (s : shared) : t * shared :=
  let m := m <| spawn_timer_ := fadd (spawn_timer_ m) delta_time |> in
  if fltb (spawn_timer_ m) SPAWN_INTERVAL then (m, s) else
  let m := m <| spawn_timer_ := f0 |> in
  let n := Z.of_nat (size (local_monsters_ m)) in
  if MAX_MONSTERS <=? n then (m, s)
  else spawn_loop (Z.to_nat (Z.min 3 (MAX_MONSTERS - n))) m s.

Definition update_map (delta_time : f32) (m : t) (s : shared) : t * shared :=
  let c := cm (sh_world s) in
  let c := update_objects delta_time (hash_elements (local_monsters_ m)) m c in
  let c := update_objects delta_time (hash_elements (local_npcs_ m)) m c in
  spawn_monsters delta_time m (s <| sh_world ::= λ w, w <| cm := c |> |>).

(** One iteration of [thread_loop]. *)
Definition loop_body (delta_time : f32) (m : t) (s : shared) : (list handled * list Z) * (t * shared) :=
  let '(hs, m) := process_packets m in
  let '(ts, m) := process_tasks m in
  ((hs, ts), update_map delta_time m s).

End map_thread.
End MapThread.

(** ** [map_thread_manager.cpp] *)
Module MapThreadManager.

Record t := mk { map_threads_ : gmap Z MapThread.t; player_map_mapping_ : gmap Z Z }.
#[global] Instance t_eta : Settable t := λ m, mk (map_threads_ m) (player_map_mapping_ m).
Definition make : t := mk ∅ ∅.

Section manager.
Context `{HashOrder} `{PriorityQueue}.

Definition create_map_thread (map_id : Z) (map_name : list Z) (width height : f32)
    (max_players : Z) (m : t) (s : shared) : t * shared :=
  match map_threads_ m !! map_id with
  | Some _ => (m, s)
  | None =>
      let '(th, s) := MapThread.make map_id map_name width height max_players s in
      (m <| map_threads_ ::= <[map_id := MapThread.start th]> |>, s)
  end.

Definition destroy_map_thread (map_id : Z) (m : t) : t :=
  m <| map_threads_ ::= delete map_id |>.

Definition send_packet_to_map (map_id channel_id cmd : Z) (data : list Z) (m : t) : t :=
  m <| map_threads_ ::= alter (MapThread.add_packet channel_id cmd data) map_id |>.

Definition update_player_map (channel_id map_id : Z) (m : t) : t :=
  m <| player_map_mapping_ ::= <[channel_id := map_id]> |>.

Definition get_player_map (channel_id : Z) (m : t) : Z :=
  default (-1) (player_map_mapping_ m !! channel_id).

Definition add_player_to_map (map_id channel_id player_entity : Z) (m : t) (s : shared)
    : t * shared :=
  match map_threads_ m !! map_id with
  | None => (m, s)
  | Some th =>
      let '(th, s) := MapThread.add_player channel_id player_entity th s in
      (update_player_map channel_id map_id (m <| map_threads_ ::= <[map_id := th]> |>), s)
  end.

Definition remove_player_from_map (map_id channel_id : Z) (m : t) : t :=
  match map_threads_ m !! map_id with
  | None => m
  | Some th =>
      m <| map_threads_ ::= <[map_id := MapThread.remove_player channel_id th]> |>
        <| player_map_mapping_ ::= delete channel_id |>
  end.

Definition move_player_to_map (channel_id from_map to_map : Z) (m : t) (s : shared) : t * shared :=
  let m := m <| map_threads_ ::= alter (MapThread.remove_player channel_id) from_map |> in
  match map_threads_ m !! to_map with
  | None => (m, s)
  | Some th =>
      let '(player_entity, w) := create_entity (sh_world s) in
      let s := s <| sh_world := w |> in
      let '(th, s) := MapThread.add_player channel_id player_entity th s in
      (update_player_map channel_id to_map (m <| map_threads_ ::= <[to_map := th]> |>), s)
  end.

Definition is_map_thread_running (map_id : Z) (m : t) : bool :=
  match map_threads_ m !! map_id with Some th => MapThread.running_ th | None => false end.

Definition get_map_player_count (map_id : Z) (m : t) : Z :=
  match map_threads_ m !! map_id with Some th => MapThread.player_count_ th | None => 0 end.

Definition get_active_map_ids (m : t) : list Z :=
  omap (λ '(i, th), if MapThread.running_ th then Some i else None) (hash_order (map_threads_ m)).

Definition stop_all_map_threads (m : t) : t := m <| map_threads_ := ∅ |>.

(** The main thread updates every running map, besides the map's own thread. *)
Definition update_all_map_threads (delta_time : f32) (m : t) (s : shared) : t * shared :=
  foldl (λ '(m, s) '(i, _),
    match map_threads_ m !! i with
    | Some th =>
        if MapThread.running_ th then
          let '(th, s) := MapThread.update_map delta_time th s in
          (m <| map_threads_ ::= <[i := th]> |>, s)
        else (m, s)
    | None => (m, s)
    end) (m, s) (hash_order (map_threads_ m)).

End manager.
End MapThreadManager.

(** ** [main_thread_manager.cpp] *)
Module MainThreadManager.

(** The closures that the code queues. *)
Inductive task :=
| GlobalChat (channel_id : Z) (message : list Z)
| LogOnly
| MapTransfer (channel_id from_map to_map : Z).

Record MainThreadTask := mkTask { the_task : task; priority : Z }.

Record t := mk {
  running_ : bool;
  task_queue_ : list MainThreadTask;
  network_tasks_ : list task;
  global_tasks_ : list task;
  map_thread_manager_ : MapThreadManager.t
}.
#[global] Instance t_eta : Settable t := λ m,
  mk (running_ m) (task_queue_ m) (network_tasks_ m) (global_tasks_ m) (map_thread_manager_ m).

Definition make : t := mk false [] [] [] MapThreadManager.make.

Section main.
Context `{HashOrder} `{PriorityQueue}.
(** The virtual [update] of the ECS systems. *)
Context (update_systems : f32 → world → world).

Definition start (m : t) : t := m <| running_ := true |>.

Definition stop (m : t) : t :=
  if running_ m
  then m <| running_ := false |> <| map_thread_manager_ ::= MapThreadManager.stop_all_map_threads |>
  else m.

Definition add_task (x : task) (p : Z) (m : t) : t :=
  m <| task_queue_ ::= λ q, mkTask x p :: q |>.
Definition add_network_task (x : task) (m : t) : t := m <| network_tasks_ ::= λ q, q ++ [x] |>.
Definition add_global_task (x : task) (m : t) : t := m <| global_tasks_ ::= λ q, q ++ [x] |>.

(** The configured size and player limit are not passed on. *)
Definition create_map_thread (map_id : Z) (map_name : list Z) (m : t) (s : shared) : t * shared :=
  let '(mgr, s) := MapThreadManager.create_map_thread map_id map_name f1000 f1000 100
                     (map_thread_manager_ m) s in
  (m <| map_thread_manager_ := mgr |>, s).

Definition destroy_map_thread (map_id : Z) (m : t) : t :=
  m <| map_thread_manager_ ::= MapThreadManager.destroy_map_thread map_id |>.

Definition send_packet_to_map (map_id channel_id cmd : Z) (data : list Z) (m : t) : t :=
  m <| map_thread_manager_ ::= MapThreadManager.send_packet_to_map map_id channel_id cmd data |>.

Definition handle_global_chat (channel_id : Z) (message : list Z) (m : t) : t :=
  add_global_task (GlobalChat channel_id message) m.
Definition handle_guild_system (channel_id : Z) (message : list Z) (m : t) : t :=
  add_global_task LogOnly m.
Definition handle_friend_system (channel_id : Z) (message : list Z) (m : t) : t :=
  add_global_task LogOnly m.
Definition handle_map_transfer (channel_id from_map to_map : Z) (m : t) : t :=
  add_task (MapTransfer channel_id from_map to_map) 1 m.

(** Running a closure. *)
Definition exec (x : task) (m : t) (s : shared) : t * shared :=
  match x with
  | LogOnly => (m, s)
  | GlobalChat channel_id message =>
      (foldl (λ m i, send_packet_to_map i channel_id 0x1004 message m) m
         (MapThreadManager.get_active_map_ids (map_thread_manager_ m)), s)
  | MapTransfer channel_id from_map to_map =>
      let '(mgr, s) := MapThreadManager.move_player_to_map channel_id from_map to_map
                         (map_thread_manager_ m) s in
      (m <| map_thread_manager_ := mgr |>, s)
  end.

Definition exec_all (xs : list task) (m : t) (s : shared) : t * shared :=
  foldl (λ '(m, s) x, exec x m s) (m, s) xs.

Definition process_network_events (m : t) (s : shared) : t * shared :=
  exec_all (network_tasks_ m) (m <| network_tasks_ := [] |>) s.
Definition process_global_systems (m : t) (s : shared) : t * shared :=
  exec_all (global_tasks_ m) (m <| global_tasks_ := [] |>) s.

(** None of the queued closures queues another, so the queue is drained. *)
Fixpoint drain_queue (fuel : nat) (q : list MainThreadTask) (m : t) (s : shared) : t * shared :=
  match fuel with
  | O => (m, s)
  | S fuel => match pq_pop priority q with
              | None => (m, s)
              | Some (x, q) => let '(m, s) := exec (the_task x) m s in drain_queue fuel q m s
              end
  end.
Definition process_task_queue (m : t) (s : shared) : t * shared :=
  drain_queue (length (task_queue_ m)) (task_queue_ m) (m <| task_queue_ := [] |>) s.

Definition update_ecs (delta_time : f32) (s : shared) : shared :=
  s <| sh_world ::= update_systems delta_time |>.

Definition get_map_thread_count (m : t) : Z :=
  zlen (MapThreadManager.get_active_map_ids (map_thread_manager_ m)).

(** One iteration of [main_loop]; [process_map_transfers] is empty. *)
Definition loop_body (delta_time : f32) (m : t) (s : shared) : t * shared :=
  let '(m, s) := process_network_events m s in
  let '(m, s) := process_global_systems m s in
  let s := update_ecs delta_time s in
  let '(m, s) := process_task_queue m s in
  let '(mgr, s) := MapThreadManager.update_all_map_threads delta_time (map_thread_manager_ m) s in
  (m <| map_thread_manager_ := mgr |>, s).

End main.
End MainThreadManager.

(** ** An instance of the queue, to run the model: the first smallest element. *)
Fixpoint take_min {T} (prio : T → Z) (x : T) (l : list T) : T * list T :=
  match l with
  | [] => (x, [])
  | y :: l => if prio y <? prio x
              then let '(z, l) := take_min prio y l in (z, x :: l)
              else let '(z, l) := take_min prio x l in (z, y :: l)
  end.
Definition pop_min {T} (prio : T → Z) (l : list T) : option (T * list T) :=
  match l with [] => None | x :: l => Some (take_min prio x l) end.

Lemma take_min_spec {T} (prio : T → Z) x l z l' :
  take_min prio x l = (z, l') →
  x :: l ≡ₚ z :: l' ∧ prio z ≤ prio x ∧ Forall (λ y, prio z ≤ prio y) l'.
Proof.
  revert x z l'. induction l as [|y l IH]; intros x z l' H; cbn in H.
  { injection H as <- <-. split_and!; [done|lia|constructor]. }
  revert H. case_cmp; destruct (take_min prio _ l) as [z1 l1] eqn:E; intros [= <- <-];
    apply IH in E as (Hp & Hz & Hf); (split_and!; [|lia|]).
  - rewrite Hp. apply Permutation_swap.
  - constructor; [lia|done].
  - rewrite Permutation_swap, Hp. apply Permutation_swap.
  - constructor; [lia|done].
Qed.

Definition min_queue : PriorityQueue.
Proof.
  refine {| pq_pop := @pop_min |}.
  - intros T prio [|x l] z l' [= H]. by apply take_min_spec in H as [].
  - intros T prio [|x l] z l' [= H]. by apply take_min_spec in H as (_ & _ & H).
  - intros T prio [|x l]; done.
Defined.

(** ** Lemmas *)

Section thread_laws.
Context `{HashOrder} `{PriorityQueue}.
Import MapThread.

(** The order in which a priority queue hands out its elements. *)
Lemma drain_sorted fuel (q : list MapTask) :
  (length q ≤ fuel)%nat →
  ∃ l, l ≡ₚ q ∧ StronglySorted Z.le (priority <$> l) ∧ drain_tasks fuel q = task_id <$> l.
Proof.
  revert q. induction fuel as [|fuel IH]; intros q Hl.
  { destruct q; [|cbn in Hl; lia]. exists []. split_and!; [done|constructor|done]. }
  cbn. destruct (pq_pop priority q) as [[x q']|] eqn:E.
  - pose proof (pq_pop_perm _ _ _ _ E) as Hp. pose proof (pq_pop_top _ _ _ _ E) as Ht.
    apply Permutation_length in Hp as Hlen. cbn in Hlen.
    destruct (IH q') as (l & Hl' & Hs & Hd); [lia|]. exists (x :: l).
    rewrite Hd. split_and!; [by rewrite Hl', Hp| |done]. cbn. constructor; [done|].
    rewrite <- Hl' in Ht. by apply Forall_fmap.
  - apply pq_pop_empty in E as ->. exists []. split_and!; [done|constructor|done].
Qed.

(** Counters and the monster limit. *)
Record ok (m : t) : Prop := {
  ok_players : player_count_ m = Z.of_nat (size (local_players_ m));
  ok_monsters : monster_count_ m = Z.of_nat (size (local_monsters_ m));
  ok_limit : monster_count_ m ≤ MAX_MONSTERS
}.

Lemma spawn_one_grows m s :
  (size (local_monsters_ m) ≤ size (local_monsters_ (spawn_one m s).1) ≤ size (local_monsters_ m) + 1)%nat
  ∧ monster_count_ (spawn_one m s).1 = Z.of_nat (size (local_monsters_ (spawn_one m s).1))
  ∧ local_players_ (spawn_one m s).1 = local_players_ m
  ∧ player_count_ (spawn_one m s).1 = player_count_ m.
Proof.
  unfold spawn_one. destruct (create_entity (sh_world s)) as [e w]. cbn [fst]. cbn.
  split_and!; try done.
  - apply subseteq_size. set_solver.
  - rewrite size_union_alt, size_singleton.
    assert (local_monsters_ m ∖ {[e]} ⊆ local_monsters_ m) as Hs by set_solver.
    apply subseteq_size in Hs. lia.
Qed.

Lemma spawn_loop_ok n m s :
  ok m → monster_count_ m + Z.of_nat n ≤ MAX_MONSTERS → ok (spawn_loop n m s).1.
Proof.
  revert m s. induction n as [|n IH]; intros m s [Hp Hm Hl] Hn; [by split|]. cbn [spawn_loop].
  pose proof (spawn_one_grows m s) as (H1 & H2 & H3 & H4).
  destruct (spawn_one m s) as [m' s']. cbn [fst] in *.
  apply IH; [split; [congruence|done|]|]; rewrite H2; lia.
Qed.

Lemma spawn_monsters_ok dt m s : ok m → ok (spawn_monsters dt m s).1.
Proof.
  intros [Hp Hm Hl]. unfold spawn_monsters. destruct (fltb _ _); [by split|].
  case_cmp; [by split|]. apply spawn_loop_ok; [by split|]. cbn in *. lia.
Qed.

Inductive op :=
| AddPacket (channel_id cmd : Z) (data : list Z) | AddTask (task prio : Z)
| AddPlayer (channel_id entity : Z) | RemovePlayer (channel_id : Z)
| Iterate (delta_time : f32) | UpdateMap (delta_time : f32).

Definition step (o : op) (m : t) (s : shared) : t * shared :=
  match o with
  | AddPacket ch cmd data => (add_packet ch cmd data m, s)
  | AddTask x p => (add_task x p m, s)
  | AddPlayer ch e => add_player ch e m s
  | RemovePlayer ch => (remove_player ch m, s)
  | Iterate dt => (loop_body dt m s).2
  | UpdateMap dt => update_map dt m s
  end.

Lemma thread_step_ok o m s : ok m → ok (step o m s).1.
Proof.
  intros Hok. destruct o; cbn [step]; try (by destruct Hok; split).
  - cbn. by apply spawn_monsters_ok; destruct Hok; split.
  - by apply spawn_monsters_ok.
Qed.

(** Every value the generator can produce for a 1000-unit side is on the map. *)
Lemma rand_coord_bounds seed :
  fleb f0 (rand_coord seed f1000) = true ∧ fleb (rand_coord seed f1000) f1000 = true.
Proof.
  assert (Forall (λ k, fleb f0 (fmul (fdiv (f32_of_Z k) f10000) f1000)
    && fleb (fmul (fdiv (f32_of_Z k) f10000) f1000) f1000 = true) (seqZ 0 10000)) as Hall.
  { apply Forall_forall. intros k Hk.
    assert (forallb (λ k, fleb f0 (fmul (fdiv (f32_of_Z k) f10000) f1000)
      && fleb (fmul (fdiv (f32_of_Z k) f10000) f1000) f1000) (seqZ 0 10000) = true) as E
      by (vm_compute; reflexivity).
    rewrite forallb_forall in E. apply E. by apply list_elem_of_In. }
  unfold rand_coord. rewrite Forall_forall in Hall.
  apply andb_true_iff, (Hall (seed mod 10000)). apply elem_of_seqZ.
  pose proof (Z.mod_pos_bound seed 10000). lia.
Qed.
End thread_laws.

(** ** Properties *)

(** A map thread's counters are exact and the monster limit
    holds: over any sequence of packets, tasks, joins, leaves and updates, by
    the map's own thread or by the main thread, the player and monster counts
    equal the sets they count and a map never has more than ten monsters. *)
Theorem map_thread_counts `{HashOrder} `{PriorityQueue} id name w h mp s os :
  let '(m, s') := MapThread.make id name w h mp s in
  ok (foldl (λ '(m, s) o, step o m s) (m, s') os).1.
Proof.
  destruct (MapThread.make id name w h mp s) as [m s'] eqn:E.
  assert (ok m) as Hok.
  { unfold MapThread.make in E. destruct (create_entity (sh_world s)). injection E as <- _.
    by split. }
  clear E. revert m s' Hok. induction os as [|o os IH]; intros m s' Hok; [done|]. cbn.
  pose proof (thread_step_ok o m s' Hok) as Hok'. destruct (step o m s') as [m1 s1]. by apply IH.
Qed.

(** A spawned monster is a live goblin on the map: for the
    1000 by 1000 maps that the server creates, whatever the seed, the new
    entity has full health, no target and a position inside the map's
    bounds, and is registered with the map. *)
Theorem spawned_monster_on_map m s :
  MapThread.width_ m = f1000 → MapThread.height_ m = f1000 →
  let e := EntityManager.next_entity_id_ (em (sh_world s)) in
  let '(m', s') := MapThread.spawn_one m s in
  e ∈ MapThread.local_monsters_ m' ∧ is_valid e (sh_world s') = true
  ∧ get_component e (cm (sh_world s')) = Some (Health_.make 100 0)
  ∧ get_component e (cm (sh_world s')) = Some (Monster_make 1 1)
  ∧ ∃ p, get_component e (cm (sh_world s')) = Some p
    ∧ is_inside (mkMapBounds f0 f0 f0 f1000 f1000 f1000) (pos_x p) (pos_y p) (pos_z p) = true.
Proof.
  intros Hw Hh. unfold MapThread.spawn_one, create_entity.
  destruct (EntityManager.create_entity (em (sh_world s))) as [e' em'] eqn:E.
  unfold EntityManager.create_entity in E. injection E as <- <-. cbn.
  unfold get_component, ComponentStore.get. cbn. unfold ComponentStore.add.
  rewrite !lookup_insert_eq. split_and!; [set_solver| |done|done|].
  - apply bool_decide_eq_true. cbn. set_solver.
  - eexists. split; [done|]. rewrite Hw, Hh. unfold is_inside. cbn.
    pose proof (rand_coord_bounds (MapThread.next_seed (sh_seed s))) as [H1 H2].
    pose proof (rand_coord_bounds (MapThread.next_seed (MapThread.next_seed (sh_seed s)))) as [H3 H4].
    by rewrite H1, H2, H3, H4.
Qed.

Lemma spawned_monster_on_map_witness :
  let '(m, s) := MapThread.make 1 [] f1000 f1000 100 (Shared new_world 42) in
  let e := EntityManager.next_entity_id_ (em (sh_world s)) in
  let '(m', s') := MapThread.spawn_one m s in
  e ∈ MapThread.local_monsters_ m' ∧ is_valid e (sh_world s') = true
  ∧ get_component e (cm (sh_world s')) = Some (Health_.make 100 0)
  ∧ get_component e (cm (sh_world s')) = Some (Monster_make 1 1)
  ∧ ∃ p, get_component e (cm (sh_world s')) = Some p
    ∧ is_inside (mkMapBounds f0 f0 f0 f1000 f1000 f1000) (pos_x p) (pos_y p) (pos_z p) = true.
Proof.
  apply (spawned_monster_on_map
    (MapThread.make 1 [] f1000 f1000 100 (Shared new_world 42)).1
    (MapThread.make 1 [] f1000 f1000 100 (Shared new_world 42)).2); reflexivity.
Defined.

(** Tasks run by priority value, lowest first: whichever way
    the queue breaks ties, a drain runs every task once, in non-decreasing
    order of its number, so that a map transfer, queued with 1, waits for
    every task queued with the default 0. *)
Theorem tasks_run_by_priority `{PriorityQueue} m :
  ∃ l, l ≡ₚ MapThread.task_queue_ m
    ∧ StronglySorted Z.le (MapThread.priority <$> l)
    ∧ MapThread.process_tasks m
      = (MapThread.task_id <$> l, m <| MapThread.task_queue_ := [] |>).
Proof.
  destruct (drain_sorted (length (MapThread.task_queue_ m)) (MapThread.task_queue_ m))
    as (l & Hp & Hs & Hd); [done|]. exists l. unfold MapThread.process_tasks. by rewrite Hd.
Qed.

(** Moving a player to a map that does not exist loses them: they
    are taken off the old map, join no map, and the manager still answers with
    the old map. *)
Theorem transfer_to_missing_map m s ch from to th :
  MapThreadManager.map_threads_ m !! from = Some th →
  MapThreadManager.map_threads_ m !! to = None →
  ch ∈ MapThread.local_players_ th →
  MapThreadManager.player_map_mapping_ m !! ch = Some from →
  (∀ i th', i ≠ from → MapThreadManager.map_threads_ m !! i = Some th' →
     ch ∉ MapThread.local_players_ th') →
  let '(m', s') := MapThreadManager.move_player_to_map ch from to m s in
  s' = s ∧ MapThreadManager.get_player_map ch m' = from
  ∧ ∀ i th', MapThreadManager.map_threads_ m' !! i = Some th' →
      ch ∉ MapThread.local_players_ th'.
Proof.
  intros Hf Ht Hin Hmap Hothers. unfold MapThreadManager.move_player_to_map. cbn.
  rewrite lookup_alter_ne by congruence. rewrite Ht. split_and!; [done| |].
  - unfold MapThreadManager.get_player_map. cbn. by rewrite Hmap.
  - cbn. intros i th' Hi. destruct (decide (from = i)) as [<-|Hne].
    + rewrite lookup_alter_eq, Hf in Hi. injection Hi as <-. cbn. set_solver.
    + rewrite lookup_alter_ne in Hi by done. by apply (Hothers i).
Qed.

Lemma transfer_to_missing_map_witness :
  let s := Shared new_world 42 in
  let '(m, s) := MapThreadManager.create_map_thread 1 [] f1000 f1000 100 MapThreadManager.make s in
  let '(m, s) := MapThreadManager.add_player_to_map 1 7 5 m s in
  let '(m', s') := MapThreadManager.move_player_to_map 7 1 99 m s in
  s' = s ∧ MapThreadManager.get_player_map 7 m' = 1
  ∧ ∀ i th', MapThreadManager.map_threads_ m' !! i = Some th' →
      7 ∉ MapThread.local_players_ th'.
Proof.
  set (r1 := MapThreadManager.create_map_thread 1 [] f1000 f1000 100 MapThreadManager.make
               (Shared new_world 42)).
  set (r2 := MapThreadManager.add_player_to_map 1 7 5 r1.1 r1.2).
  assert (∃ th, MapThreadManager.map_threads_ r2.1 !! 1 = Some th ∧ 7 ∈ MapThread.local_players_ th)
    as (th & H1 & H2) by (eexists; split; [vm_compute; reflexivity|by_decide]).
  apply (transfer_to_missing_map r2.1 r2.2 7 1 99 th); [exact H1| |exact H2| |].
  - vm_compute. reflexivity.
  - vm_compute. reflexivity.
  - intros i th' Hi Hth. exfalso.
    change (MapThreadManager.map_threads_ r2.1) with
      (<[1 := (MapThread.add_player 7 5 (default (MapThread.make 1 [] f1000 f1000 100
        (Shared new_world 42)).1 (MapThreadManager.map_threads_ r1.1 !! 1)) r1.2).1]>
        (MapThreadManager.map_threads_ r1.1)) in Hth.
    rewrite lookup_insert_ne in Hth by done.
    change (MapThreadManager.map_threads_ r1.1) with
      (<[1 := MapThread.start (MapThread.make 1 [] f1000 f1000 100 (Shared new_world 42)).1]>
        (∅ : gmap Z MapThread.t)) in Hth.
    rewrite lookup_insert_ne, lookup_empty in Hth by done. discriminate.
Defined.
