(* ===== verification/ProtocolBase.v ===== *)
(** * Wire format primitives and base messages
      ([src/common/protocol/protocol_base.hpp])

    The little-endian writers append to a byte vector; the readers move a
    cursor [p] towards [end].  A parser therefore maps the bytes between [p]
    and [end] to an [outcome]: the value with the bytes left, the [false] of a
    failed guard, or [POob] for a read at or behind [end], which is undefined
    behaviour in C++. *)

From S2P Require Import Prelude.

Inductive outcome (A : Type) :=
| POk (a : A) (p : list Z)
| PFalse
| POob.
#[global] Arguments POk {A} a p.
#[global] Arguments PFalse {A}.
#[global] Arguments POob {A}.

Definition parser (A : Type) : Type := list Z → outcome A.

#[global] Instance parser_ret : MRet parser := λ A a p, POk a p.
#[global] Instance parser_bind : MBind parser := λ A B f m p,
  match m p with
  | POk a p' => f a p'
  | PFalse => PFalse
  | POob => POob
  end.

Module shared.

(** ** Writers (lines 11-44) *)

Definition push_back (out : list Z) (c : Z) : list Z := out ++ [c].

Definition write_le16 (out : list Z) (v : Z) : list Z :=
  let out := push_back out (byte_at v 0) in
  push_back out (byte_at v 1).

Definition write_le32 (out : list Z) (v : Z) : list Z :=
  let out := push_back out (byte_at v 0) in
  let out := push_back out (byte_at v 1) in
  let out := push_back out (byte_at v 2) in
  push_back out (byte_at v 3).

(** A [float] is carried as the 32 bits [memcpy] copies. *)
Definition write_float_le (out : list Z) (v : Z) : list Z := write_le32 out v.

Definition write_lp_string (out : list Z) (s : list Z) : list Z :=
  let out := write_le32 out (u32 (zlen s)) in
  out ++ s.

(** ** Readers (lines 23-52) *)

Definition read_le16 (p : list Z) : option Z :=
  match p with
  | b0 :: b1 :: _ => Some (join16 b0 b1)
  | _ => None
  end.

Definition read_le32 (p : list Z) : option Z :=
  match p with
  | b0 :: b1 :: b2 :: b3 :: _ => Some (join32 b0 b1 b2 b3)
  | _ => None
  end.

Definition read_float_le (p : list Z) : option Z := read_le32 p.

(** [if (end - p < n) return false;], also [if (p + n > end) return false;]
    and the conjunct [p + n <= end]. *)
Definition need (n : Z) : parser unit := λ p,
  if zlen p <? n then PFalse else POk tt p.

(** [v = read_le32(p); p += 4;] *)
Definition take_le32 : parser Z := λ p,
  match read_le32 p with Some v => POk v (drop 4 p) | None => POob end.

(** [v = read_float_le(p); p += 4;] *)
Definition take_float_le : parser Z := λ p,
  match read_float_le p with Some v => POk v (drop 4 p) | None => POob end.

(** [*p++] *)
Definition take_byte : parser Z := λ p,
  match p with b :: p' => POk b p' | [] => POob end.

(** [p += 1] with nothing read: past [end] the pointer itself is invalid. *)
Definition skip_byte : parser unit := λ p,
  match p with _ :: p' => POk tt p' | [] => POob end.

(** [success = ( *p++ != 0)] *)
Definition take_bool : parser bool := b ← take_byte; mret (negb (b =? 0)).

(** [if (len > end - p) return false; out.assign(p, p + len); p += len;] *)
Definition take_bytes (len : Z) : parser (list Z) := λ p,
  if zlen p <? len then PFalse
  else POk (take (Z.to_nat len) p) (drop (Z.to_nat len) p).

Definition read_lp_string : parser (list Z) :=
  need 4;;
  len ← take_le32;
  take_bytes len.

(** [for (i = 0; i < n; ++i) { if (!m(p)) return false; out.push_back(..); }] *)
Fixpoint repeat_parser {A} (n : nat) (m : parser A) : parser (list A) :=
  match n with
  | O => mret []
  | S n => a ← m; l ← repeat_parser n m; mret (a :: l)
  end.

(** A callee that receives the cursor by value leaves the caller's in place. *)
Definition peek {A} (m : parser A) : parser A := λ p,
  match m p with POk a _ => POk a p | PFalse => PFalse | POob => POob end.

(** [success ? 1 : 0] *)
Definition char_of_bool (b : bool) : Z := if b then 1 else 0.

End shared.
Import shared.

(** ** Messages: what a protocol struct provides *)

Class Message (M : Type) := {
  serialize : M → list Z;
  parse : parser M;
  wf : M → Prop   (** the field ranges of the struct's types *)
}.

(** The definitions of the concrete messages, for [autounfold]. *)
Create HintDb msg.

(** Whatever the peer sends behind it, a serialized struct parses back. *)
Class RoundTrip (M : Type) `{Message M} :=
  round_trip : ∀ m rest, wf m → parse (serialize m ++ rest) = POk m rest.

(** No input makes the parser read outside of [[p, end)]. *)
Class MemSafe (M : Type) `{Message M} :=
  mem_safe : ∀ p, parse p ≠ (POob : outcome M).

(** The parser accepts nothing but encodings: it inverts [serialize]. *)
Class Exact (M : Type) `{Message M} :=
  exact_encoding : ∀ p m rest, Forall is_u8 p →
    parse p = POk m rest → p = serialize m ++ rest ∧ wf m.

(** A [std::string] field: bytes, shorter than 4 GiB. *)
Definition is_str (s : list Z) : Prop := Forall is_u8 s ∧ is_u32 (zlen s).
#[global] Instance is_str_dec s : Decision (is_str s).
Proof. unfold is_str. apply _. Defined.

(** ** Message ids (lines 56-99) *)

Inductive MessageID :=
| ECHO_REQ | ECHO_RES
| LOGIN_REQ | LOGIN_RES | LOGOUT_REQ | LOGOUT_RES
| PLAYER_MOVE_REQ | PLAYER_MOVE_RES | PLAYER_INFO_REQ | PLAYER_INFO_RES
| CHAT_REQ | CHAT_RES | CHAT_BROADCAST
| ATTACK_REQ | ATTACK_RES | DAMAGE_NOTIFY
| MAP_ENTER_REQ | MAP_ENTER_RES | MAP_LEAVE_REQ | MAP_LEAVE_RES | MAP_OBJECTS_UPDATE
| GUILD_CREATE_REQ | GUILD_CREATE_RES | GUILD_JOIN_REQ | GUILD_JOIN_RES
| GUILD_LEAVE_REQ | GUILD_LEAVE_RES | GUILD_INFO_REQ | GUILD_INFO_RES.

Definition message_id_u16 (m : MessageID) : Z :=
  match m with
  | ECHO_REQ => 0x0001 | ECHO_RES => 0x0002
  | LOGIN_REQ => 0x1001 | LOGIN_RES => 0x1002 | LOGOUT_REQ => 0x1003 | LOGOUT_RES => 0x1004
  | PLAYER_MOVE_REQ => 0x2001 | PLAYER_MOVE_RES => 0x2002
  | PLAYER_INFO_REQ => 0x2003 | PLAYER_INFO_RES => 0x2004
  | CHAT_REQ => 0x3001 | CHAT_RES => 0x3002 | CHAT_BROADCAST => 0x3003
  | ATTACK_REQ => 0x4001 | ATTACK_RES => 0x4002 | DAMAGE_NOTIFY => 0x4003
  | MAP_ENTER_REQ => 0x5001 | MAP_ENTER_RES => 0x5002 | MAP_LEAVE_REQ => 0x5003
  | MAP_LEAVE_RES => 0x5004 | MAP_OBJECTS_UPDATE => 0x5005
  | GUILD_CREATE_REQ => 0x6001 | GUILD_CREATE_RES => 0x6002 | GUILD_JOIN_REQ => 0x6003
  | GUILD_JOIN_RES => 0x6004 | GUILD_LEAVE_REQ => 0x6005 | GUILD_LEAVE_RES => 0x6006
  | GUILD_INFO_REQ => 0x6007 | GUILD_INFO_RES => 0x6008
  end.

(** ** Base messages (lines 103-170) *)

Module echo_req.
Record t := mk { text : list Z }.
Definition serialize (m : t) : list Z :=
  let out := [] in
  let out := write_lp_string out (text m) in
  out.
Definition parse : parser t := text ← read_lp_string; mret (mk text).
#[global] Instance message : Message t :=
  { serialize := serialize; parse := parse; wf m := is_str (text m) }.
#[global] Hint Unfold serialize parse message : msg.
End echo_req.

Module echo_res.
Record t := mk { text : list Z }.
Definition serialize (m : t) : list Z :=
  let out := [] in
  let out := write_lp_string out (text m) in
  out.
Definition parse : parser t := text ← read_lp_string; mret (mk text).
#[global] Instance message : Message t :=
  { serialize := serialize; parse := parse; wf m := is_str (text m) }.
#[global] Hint Unfold serialize parse message : msg.
End echo_res.

Module login_req.
Record t := mk { player_name : list Z; session_token : list Z }.
Definition serialize (m : t) : list Z :=
  let out := [] in
  let out := write_lp_string out (player_name m) in
  let out := write_lp_string out (session_token m) in
  out.
Definition parse : parser t :=
  player_name ← read_lp_string;
  session_token ← read_lp_string;
  mret (mk player_name session_token).
#[global] Instance message : Message t :=
  { serialize := serialize; parse := parse;
    wf m := is_str (player_name m) ∧ is_str (session_token m) }.
#[global] Hint Unfold serialize parse message : msg.
End login_req.

Module login_res.
Record t := mk { success : bool; message : list Z; player_id : Z; map_id : Z }.
Definition serialize (m : t) : list Z :=
  let out := [] in
  let out := push_back out (char_of_bool (success m)) in
  let out := write_lp_string out (message m) in
  let out := write_le32 out (player_id m) in
  let out := write_le32 out (map_id m) in
  out.
Definition parse : parser t :=
  need 1;;
  success ← take_bool;
  message ← read_lp_string;
  need 8;;
  player_id ← take_le32;
  map_id ← take_le32;
  mret (mk success message player_id map_id).
#[global] Instance message_inst : Message t :=
  { serialize := serialize; parse := parse;
    wf m := is_str (message m) ∧ is_u32 (player_id m) ∧ is_u32 (map_id m) }.
#[global] Hint Unfold serialize parse message_inst : msg.
End login_res.

(** ** Lemmas *)

Definition le16 (v : Z) : list Z := [byte_at v 0; byte_at v 1].
Definition le32 (v : Z) : list Z := [byte_at v 0; byte_at v 1; byte_at v 2; byte_at v 3].

Lemma write_le32_app out v : write_le32 out v = out ++ le32 v.
Proof. unfold write_le32, push_back. by rewrite <- !app_assoc. Qed.
Lemma write_float_le_app out v : write_float_le out v = out ++ le32 v.
Proof. apply write_le32_app. Qed.
Lemma write_lp_string_app out s :
  is_u32 (zlen s) → write_lp_string out s = out ++ le32 (zlen s) ++ s.
Proof. intros. unfold write_lp_string. by rewrite u32_small, write_le32_app, <- app_assoc. Qed.

(** Appending every element's encoding in turn. *)
Lemma write_all_app {A} (f : A → list Z) out l :
  foldl (λ out x, out ++ f x) out l = out ++ concat (f <$> l).
Proof.
  revert out. induction l as [|x l IH]; intros out; cbn; [by rewrite app_nil_r|].
  by rewrite IH, <- app_assoc.
Qed.

Lemma zlen_le32 v : zlen (le32 v) = 4.
Proof. done. Qed.
#[export] Hint Rewrite zlen_le32 : zlen.

Lemma le32_bytes v : Forall is_u8 (le32 v).
Proof. unfold le32. repeat apply Forall_cons_2; auto with ints. Qed.

Section steps.
Context {A B : Type}.
Implicit Types (m : parser A) (f : A → parser B) (p : list Z).

Lemma bind_ok m f p a p' : m p = POk a p' → (m ≫= f) p = f a p'.
Proof. unfold mbind, parser_bind. by intros ->. Qed.
Lemma bind_oob m f p :
  m p ≠ POob → (∀ a p', m p = POk a p' → f a p' ≠ POob) → (m ≫= f) p ≠ POob.
Proof. unfold mbind, parser_bind. destruct (m p); naive_solver. Qed.
Lemma bind_inv m f p b p' :
  (m ≫= f) p = POk b p' → ∃ a p1, m p = POk a p1 ∧ f a p1 = POk b p'.
Proof. unfold mbind, parser_bind. destruct (m p); naive_solver. Qed.
End steps.

Lemma need_ok n p : n ≤ zlen p → need n p = POk tt p.
Proof. intros. unfold need. case_cmp; [lia|done]. Qed.
Lemma need_inv n p a p' : need n p = POk a p' → p' = p ∧ n ≤ zlen p.
Proof. unfold need. case_cmp; [done|]. intros [= _ <-]. done. Qed.
Lemma need_not_oob n p : need n p ≠ POob.
Proof. unfold need. by case_cmp. Qed.

Lemma take_le32_app v rest : is_u32 v → take_le32 (le32 v ++ rest) = POk v rest.
Proof.
  intros. transitivity (POk (join32 (byte_at v 0) (byte_at v 1) (byte_at v 2) (byte_at v 3)) rest);
    [reflexivity|]. by rewrite join32_byte_at.
Qed.
Lemma take_float_le_app v rest : is_u32 v → take_float_le (le32 v ++ rest) = POk v rest.
Proof. apply take_le32_app. Qed.

Lemma take_le32_not_oob p : 4 ≤ zlen p → take_le32 p ≠ POob.
Proof.
  intros H. destruct p as [|b0 [|b1 [|b2 [|b3 p]]]]; autorewrite with zlen in H; try lia. done.
Qed.
Lemma take_le32_len p v p' : take_le32 p = POk v p' → zlen p = 4 + zlen p'.
Proof.
  destruct p as [|b0 [|b1 [|b2 [|b3 p]]]]; try done. intros [= _ <-].
  exact (zlen_app [b0; b1; b2; b3] p).
Qed.

Lemma byte_at_join32 b0 b1 b2 b3 :
  is_u8 b0 → is_u8 b1 → is_u8 b2 → is_u8 b3 → le32 (join32 b0 b1 b2 b3) = [b0; b1; b2; b3].
Proof.
  intros. rewrite join32_add by done. unfold le32. rewrite !byte_at_div by lia.
  simpl Z.mul. int_unfold. repeat f_equal; Z.to_euclidean_division_equations; lia.
Qed.

Lemma take_le32_inv p v p' :
  Forall is_u8 p → take_le32 p = POk v p' →
  p = le32 v ++ p' ∧ is_u32 v ∧ Forall is_u8 p'.
Proof.
  intros Hp. destruct p as [|b0 [|b1 [|b2 [|b3 p]]]]; try done.
  change (take_le32 _) with (POk (join32 b0 b1 b2 b3) p). intros H.
  assert (v = join32 b0 b1 b2 b3 ∧ p' = p) as [-> ->] by (split; congruence).
  rewrite !Forall_cons in Hp. destruct Hp as (? & ? & ? & ? & ?).
  rewrite byte_at_join32 by done. auto with ints.
Qed.

Lemma take_byte_inv p v p' :
  Forall is_u8 p → take_byte p = POk v p' → p = [v] ++ p' ∧ is_u8 v ∧ Forall is_u8 p'.
Proof. intros Hp. destruct p; [done|]. intros [= <- <-]. by decompose_Forall_hyps. Qed.
Lemma take_byte_not_oob p : 1 ≤ zlen p → take_byte p ≠ POob.
Proof. by destruct p. Qed.
Lemma take_byte_len p v p' : take_byte p = POk v p' → zlen p = 1 + zlen p'.
Proof. destruct p; [done|]. intros [= _ <-]. apply zlen_cons. Qed.
Lemma take_bool_not_oob p : 1 ≤ zlen p → take_bool p ≠ POob.
Proof. by destruct p. Qed.
Lemma take_bool_len p v p' : take_bool p = POk v p' → zlen p = 1 + zlen p'.
Proof. destruct p; [done|]. intros [= _ <-]. apply zlen_cons. Qed.
Lemma take_bool_app b rest : take_bool ([char_of_bool b] ++ rest) = POk b rest.
Proof. by destruct b. Qed.

Lemma read_lp_string_app s rest :
  is_u32 (zlen s) → read_lp_string (le32 (zlen s) ++ s ++ rest) = POk s rest.
Proof.
  intros Hs. unfold read_lp_string.
  rewrite (bind_ok _ _ _ tt (le32 (zlen s) ++ s ++ rest)).
  2: { apply need_ok. autorewrite with zlen.
       pose proof (zlen_nonneg s). pose proof (zlen_nonneg rest). lia. }
  rewrite (bind_ok _ _ _ _ _ (take_le32_app _ _ Hs)).
  unfold take_bytes. autorewrite with zlen. pose proof (zlen_nonneg rest). case_cmp; [lia|].
  assert (Z.to_nat (zlen s) = length s) as -> by (unfold zlen; lia).
  by rewrite take_app_length, drop_app_length.
Qed.

Lemma read_lp_string_not_oob p : read_lp_string p ≠ POob.
Proof.
  unfold read_lp_string. apply bind_oob; [apply need_not_oob|].
  intros _ p1 [-> Hp]%need_inv. apply bind_oob; [by apply take_le32_not_oob|].
  intros len p' _. unfold take_bytes. by case_cmp.
Qed.

Lemma read_lp_string_inv p s p' :
  Forall is_u8 p → read_lp_string p = POk s p' →
  p = (le32 (zlen s) ++ s) ++ p' ∧ is_str s ∧ Forall is_u8 p'.
Proof.
  intros Hp. unfold read_lp_string.
  intros (? & p1 & [-> _]%need_inv & H)%bind_inv.
  apply bind_inv in H as (len & p2 & (-> & Hlen & Hp2)%take_le32_inv & H); [|done].
  revert H. unfold take_bytes. case_cmp; [done|]. intros [= <- <-].
  assert (zlen (take (Z.to_nat len) p2) = len) as Hz
    by (unfold zlen in *; rewrite length_take; int_unfold; lia).
  rewrite Hz, <- app_assoc, take_drop. split; [done|]. unfold is_str. rewrite Hz.
  auto using Forall_take, Forall_drop.
Qed.

Lemma read_lp_string_len p s p' :
  read_lp_string p = POk s p' → zlen p = 4 + zlen s + zlen p'.
Proof.
  unfold read_lp_string. intros (? & p1 & [-> _]%need_inv & H)%bind_inv.
  apply bind_inv in H as (len & p2 & Hl%take_le32_len & H).
  revert H. unfold take_bytes. case_cmp; [done|]. intros [= <- <-]. rewrite Hl.
  rewrite <- (take_drop (Z.to_nat len) p2) at 1. rewrite zlen_app. lia.
Qed.

Lemma repeat_parser_not_oob {A} n (m : parser A) p :
  (∀ q, m q ≠ POob) → repeat_parser n m p ≠ POob.
Proof.
  intros Hm. revert p. induction n as [|n IH]; intros p; simpl; [done|].
  apply bind_oob; [done|]. intros a p' _. by apply bind_oob.
Qed.

(** A peeking loop reads the same element every time. *)
Lemma repeat_peek {A} n (m : parser A) p a p' :
  m p = POk a p' → repeat_parser n (peek m) p = POk (replicate n a) p.
Proof.
  intros Hm. induction n as [|n IH]; [done|]. simpl.
  rewrite (bind_ok _ _ _ a p) by (unfold peek; by rewrite Hm). by rewrite (bind_ok _ _ _ _ _ IH).
Qed.

(** ** Automation for the three message laws *)

Create Rewrite HintDb wire.
#[export] Hint Rewrite write_le32_app write_float_le_app write_lp_string_app @app_nil_l
  using (unfold is_str in *; tauto) : wire.

Tactic Notation "wire_cbn" :=
  repeat autounfold with msg;
  cbn -[app mbind mret write_lp_string write_le32 write_float_le push_back need take_le32
        take_float_le take_byte take_bool skip_byte read_lp_string zlen le32 u32 char_of_bool].
Tactic Notation "wire_cbn" "in" hyp(H) :=
  repeat autounfold with msg in H;
  cbn -[app mbind mret write_lp_string write_le32 write_float_le push_back need take_le32
        take_float_le take_byte take_bool skip_byte read_lp_string zlen le32 u32 char_of_bool] in H.

Ltac lens := autorewrite with zlen;
  repeat match goal with |- context [zlen ?l] =>
    lazymatch goal with H : 0 ≤ zlen l |- _ => fail | _ => pose proof (zlen_nonneg l) end end;
  lia.

(** One primitive read of a concatenation of encoded fields. *)
Ltac wire_prim :=
  first [ apply take_le32_app; tauto | apply take_float_le_app; tauto
        | apply read_lp_string_app; unfold is_str in *; tauto
        | apply take_bool_app | reflexivity
        | apply need_ok; lens ].

Ltac wire_step := erewrite bind_ok; [|wire_prim].

Ltac solve_roundtrip :=
  intros [] rest; wire_cbn; intros; destruct_and?; unfold push_back;
  autorewrite with wire; rewrite <- ?app_assoc; repeat wire_step; reflexivity.

Ltac oob_step :=
  lazymatch goal with
  | |- (mret _) _ ≠ POob => done
  | |- mbind _ (need _) _ ≠ POob =>
      apply bind_oob; [apply need_not_oob|intros ? ? [-> ?]%need_inv]
  | |- mbind _ take_le32 _ ≠ POob =>
      apply bind_oob; [apply take_le32_not_oob; lia|intros ? ? ?%take_le32_len]
  | |- mbind _ take_float_le _ ≠ POob =>
      apply bind_oob; [apply take_le32_not_oob; lia|intros ? ? ?%take_le32_len]
  | |- mbind _ take_byte _ ≠ POob =>
      apply bind_oob; [apply take_byte_not_oob; lia|intros ? ? ?%take_byte_len]
  | |- mbind _ take_bool _ ≠ POob =>
      apply bind_oob; [apply take_bool_not_oob; lia|intros ? ? ?%take_bool_len]
  | |- mbind _ read_lp_string _ ≠ POob =>
      apply bind_oob; [apply read_lp_string_not_oob|intros ? ? ?%read_lp_string_len]
  end.

Ltac solve_memsafe := intros p; wire_cbn; repeat oob_step.

Ltac exact_with H lem :=
  let Hx := fresh in
  apply bind_inv in H; destruct H as (? & ? & Hx & H);
  apply lem in Hx; [destruct Hx as (-> & ? & ?)|assumption].

Ltac exact_step :=
  match goal with
  | H : mbind _ (need _) _ = POk _ _ |- _ =>
      apply bind_inv in H; destruct H as (? & ? & [-> _]%need_inv & H)
  | H : mbind _ take_le32 _ = POk _ _ |- _ => exact_with H take_le32_inv
  | H : mbind _ take_float_le _ = POk _ _ |- _ => exact_with H take_le32_inv
  | H : mbind _ take_byte _ = POk _ _ |- _ => exact_with H take_byte_inv
  | H : mbind _ read_lp_string _ = POk _ _ |- _ => exact_with H read_lp_string_inv
  end.

Ltac solve_exact :=
  intros p m rest Hp H; wire_cbn in H; repeat exact_step;
  unfold mret, parser_ret in H; injection H as <- <-; wire_cbn; unfold push_back; unfold is_str in *; destruct_and?;
  autorewrite with wire; rewrite <- ?app_assoc; split_and!; done.

(** ** Laws of the base messages *)

#[global] Instance echo_req_roundtrip : RoundTrip echo_req.t.
Proof. solve_roundtrip. Qed.
#[global] Instance echo_res_roundtrip : RoundTrip echo_res.t.
Proof. solve_roundtrip. Qed.
#[global] Instance login_req_roundtrip : RoundTrip login_req.t.
Proof. solve_roundtrip. Qed.
#[global] Instance login_res_roundtrip : RoundTrip login_res.t.
Proof. solve_roundtrip. Qed.

#[global] Instance echo_req_memsafe : MemSafe echo_req.t.
Proof. solve_memsafe. Qed.
#[global] Instance echo_res_memsafe : MemSafe echo_res.t.
Proof. solve_memsafe. Qed.
#[global] Instance login_req_memsafe : MemSafe login_req.t.
Proof. solve_memsafe. Qed.
#[global] Instance login_res_memsafe : MemSafe login_res.t.
Proof. solve_memsafe. Qed.

#[global] Instance echo_req_exact : Exact echo_req.t.
Proof. solve_exact. Qed.
#[global] Instance login_req_exact : Exact login_req.t.
Proof. solve_exact. Qed.
