(* ===== verification/ProtocolPlayer.v ===== *)
(** * Player messages ([src/common/protocol/protocol_player.hpp])

    Movement, player information and status messages. *)

From S2P Require Import Prelude ProtocolBase.
Import shared.

Module player_move_req.
Record t := mk { x : Z; y : Z; z : Z; rotation : Z; timestamp : Z }.
Definition serialize (m : t) : list Z :=
  let out := [] in
  let out := write_float_le out (x m) in
  let out := write_float_le out (y m) in
  let out := write_float_le out (z m) in
  let out := write_float_le out (rotation m) in
  let out := write_le32 out (timestamp m) in
  out.
Definition parse : parser t :=
  need 20;;
  x ← take_float_le;
  y ← take_float_le;
  z ← take_float_le;
  rotation ← take_float_le;
  timestamp ← take_le32;
  mret (mk x y z rotation timestamp).
#[global] Instance message_inst : Message t :=
  { serialize := serialize; parse := parse;
    wf m := is_u32 (x m) ∧ is_u32 (y m) ∧ is_u32 (z m) ∧ is_u32 (rotation m) ∧
      is_u32 (timestamp m) }.
#[global] Hint Unfold serialize parse message_inst : msg.
End player_move_req.

Module player_move_res.
Record t := mk { player_id : Z; x : Z; y : Z; z : Z; rotation : Z; timestamp : Z }.
Definition serialize (m : t) : list Z :=
  let out := [] in
  let out := write_le32 out (player_id m) in
  let out := write_float_le out (x m) in
  let out := write_float_le out (y m) in
  let out := write_float_le out (z m) in
  let out := write_float_le out (rotation m) in
  let out := write_le32 out (timestamp m) in
  out.
Definition parse : parser t :=
  need 24;;
  player_id ← take_le32;
  x ← take_float_le;
  y ← take_float_le;
  z ← take_float_le;
  rotation ← take_float_le;
  timestamp ← take_le32;
  mret (mk player_id x y z rotation timestamp).
#[global] Instance message_inst : Message t :=
  { serialize := serialize; parse := parse;
    wf m := is_u32 (player_id m) ∧ is_u32 (x m) ∧ is_u32 (y m) ∧ is_u32 (z m) ∧
      is_u32 (rotation m) ∧ is_u32 (timestamp m) }.
#[global] Hint Unfold serialize parse message_inst : msg.
End player_move_res.

Module player_info_req.
Record t := mk { player_id : Z }.
Definition serialize (m : t) : list Z :=
  let out := [] in
  let out := write_le32 out (player_id m) in
  out.
Definition parse : parser t :=
  need 4;;
  player_id ← take_le32;
  mret (mk player_id).
#[global] Instance message_inst : Message t :=
  { serialize := serialize; parse := parse;
    wf m := is_u32 (player_id m) }.
#[global] Hint Unfold serialize parse message_inst : msg.
End player_info_req.

Module player_info_res.
Record t := mk { player_id : Z; player_name : list Z; level : Z; experience : Z; x : Z; y : Z;
  z : Z; rotation : Z; map_id : Z }.
Definition serialize (m : t) : list Z :=
  let out := [] in
  let out := write_le32 out (player_id m) in
  let out := write_lp_string out (player_name m) in
  let out := write_le32 out (level m) in
  let out := write_le32 out (experience m) in
  let out := write_float_le out (x m) in
  let out := write_float_le out (y m) in
  let out := write_float_le out (z m) in
  let out := write_float_le out (rotation m) in
  let out := write_le32 out (map_id m) in
  out.
Definition parse : parser t :=
  need 28;;
  player_id ← take_le32;
  player_name ← read_lp_string;
  level ← take_le32;
  experience ← take_le32;
  x ← take_float_le;
  y ← take_float_le;
  z ← take_float_le;
  rotation ← take_float_le;
  map_id ← take_le32;
  mret (mk player_id player_name level experience x y z rotation map_id).
#[global] Instance message_inst : Message t :=
  { serialize := serialize; parse := parse;
    wf m := is_u32 (player_id m) ∧ is_str (player_name m) ∧ is_u32 (level m) ∧
      is_u32 (experience m) ∧ is_u32 (x m) ∧ is_u32 (y m) ∧ is_u32 (z m) ∧
      is_u32 (rotation m) ∧ is_u32 (map_id m) }.
#[global] Hint Unfold serialize parse message_inst : msg.
End player_info_res.

Module player_status_update.
Record t := mk { player_id : Z; status : Z; timestamp : Z }.
Definition serialize (m : t) : list Z :=
  let out := [] in
  let out := write_le32 out (player_id m) in
  let out := write_le32 out (status m) in
  let out := write_le32 out (timestamp m) in
  out.
Definition parse : parser t :=
  need 12;;
  player_id ← take_le32;
  status ← take_le32;
  timestamp ← take_le32;
  mret (mk player_id status timestamp).
#[global] Instance message_inst : Message t :=
  { serialize := serialize; parse := parse;
    wf m := is_u32 (player_id m) ∧ is_u32 (status m) ∧ is_u32 (timestamp m) }.
#[global] Hint Unfold serialize parse message_inst : msg.
End player_status_update.

(** ** Laws *)

#[global] Instance player_move_req_roundtrip : RoundTrip player_move_req.t.
Proof. solve_roundtrip. Qed.
#[global] Instance player_move_res_roundtrip : RoundTrip player_move_res.t.
Proof. solve_roundtrip. Qed.
#[global] Instance player_info_req_roundtrip : RoundTrip player_info_req.t.
Proof. solve_roundtrip. Qed.
#[global] Instance player_info_res_roundtrip : RoundTrip player_info_res.t.
Proof. solve_roundtrip. Qed.
#[global] Instance player_status_update_roundtrip : RoundTrip player_status_update.t.
Proof. solve_roundtrip. Qed.

#[global] Instance player_move_req_memsafe : MemSafe player_move_req.t.
Proof. solve_memsafe. Qed.
#[global] Instance player_move_res_memsafe : MemSafe player_move_res.t.
Proof. solve_memsafe. Qed.
#[global] Instance player_info_req_memsafe : MemSafe player_info_req.t.
Proof. solve_memsafe. Qed.
#[global] Instance player_status_update_memsafe : MemSafe player_status_update.t.
Proof. solve_memsafe. Qed.

#[global] Instance player_move_req_exact : Exact player_move_req.t.
Proof. solve_exact. Qed.
#[global] Instance player_move_res_exact : Exact player_move_res.t.
Proof. solve_exact. Qed.
#[global] Instance player_info_req_exact : Exact player_info_req.t.
Proof. solve_exact. Qed.
#[global] Instance player_status_update_exact : Exact player_status_update.t.
Proof. solve_exact. Qed.
