(* ===== verification/ProtocolChat.v ===== *)
(** * Chat messages ([src/common/protocol/protocol_chat.hpp])

    Chat, broadcast, system and report messages. *)

From S2P Require Import Prelude ProtocolBase.
Import shared.

Module chat_req.
Record t := mk { message : list Z; channel : Z; target_id : Z }.
Definition serialize (m : t) : list Z :=
  let out := [] in
  let out := write_lp_string out (message m) in
  let out := push_back out (channel m) in
  let out := write_le32 out (target_id m) in
  out.
Definition parse : parser t :=
  message ← read_lp_string;
  need 1;;
  channel ← take_byte;
  need 4;;
  target_id ← take_le32;
  mret (mk message channel target_id).
#[global] Instance message_inst : Message t :=
  { serialize := serialize; parse := parse;
    wf m := is_str (message m) ∧ is_u8 (channel m) ∧ is_u32 (target_id m) }.
#[global] Hint Unfold serialize parse message_inst : msg.
End chat_req.

Module chat_res.
Record t := mk { success : bool; message : list Z }.
Definition serialize (m : t) : list Z :=
  let out := [] in
  let out := push_back out (char_of_bool (success m)) in
  let out := write_lp_string out (message m) in
  out.
Definition parse : parser t :=
  need 1;;
  success ← take_bool;
  message ← read_lp_string;
  mret (mk success message).
#[global] Instance message_inst : Message t :=
  { serialize := serialize; parse := parse;
    wf m := is_str (message m) }.
#[global] Hint Unfold serialize parse message_inst : msg.
End chat_res.

Module chat_broadcast.
Record t := mk { sender_id : Z; sender_name : list Z; message : list Z; channel : Z;
  timestamp : Z }.
Definition serialize (m : t) : list Z :=
  let out := [] in
  let out := write_le32 out (sender_id m) in
  let out := write_lp_string out (sender_name m) in
  let out := write_lp_string out (message m) in
  let out := push_back out (channel m) in
  let out := write_le32 out (timestamp m) in
  out.
Definition parse : parser t :=
  need 4;;
  sender_id ← take_le32;
  sender_name ← read_lp_string;
  message ← read_lp_string;
  need 1;;
  channel ← take_byte;
  need 4;;
  timestamp ← take_le32;
  mret (mk sender_id sender_name message channel timestamp).
#[global] Instance message_inst : Message t :=
  { serialize := serialize; parse := parse;
    wf m := is_u32 (sender_id m) ∧ is_str (sender_name m) ∧ is_str (message m) ∧
      is_u8 (channel m) ∧ is_u32 (timestamp m) }.
#[global] Hint Unfold serialize parse message_inst : msg.
End chat_broadcast.

Module chat_system_message.
Record t := mk { message_type : Z; title : list Z; content : list Z; priority : Z;
  timestamp : Z }.
Definition serialize (m : t) : list Z :=
  let out := [] in
  let out := write_le32 out (message_type m) in
  let out := write_lp_string out (title m) in
  let out := write_lp_string out (content m) in
  let out := write_le32 out (priority m) in
  let out := write_le32 out (timestamp m) in
  out.
Definition parse : parser t :=
  need 12;;
  message_type ← take_le32;
  title ← read_lp_string;
  content ← read_lp_string;
  priority ← take_le32;
  timestamp ← take_le32;
  mret (mk message_type title content priority timestamp).
#[global] Instance message_inst : Message t :=
  { serialize := serialize; parse := parse;
    wf m := is_u32 (message_type m) ∧ is_str (title m) ∧ is_str (content m) ∧
      is_u32 (priority m) ∧ is_u32 (timestamp m) }.
#[global] Hint Unfold serialize parse message_inst : msg.
End chat_system_message.

Module chat_filter_req.
Record t := mk { filter_type : Z; target_message : list Z; reporter_id : Z }.
Definition serialize (m : t) : list Z :=
  let out := [] in
  let out := push_back out (filter_type m) in
  let out := write_lp_string out (target_message m) in
  let out := write_le32 out (reporter_id m) in
  out.
Definition parse : parser t :=
  need 1;;
  filter_type ← take_byte;
  target_message ← read_lp_string;
  need 4;;
  reporter_id ← take_le32;
  mret (mk filter_type target_message reporter_id).
#[global] Instance message_inst : Message t :=
  { serialize := serialize; parse := parse;
    wf m := is_u8 (filter_type m) ∧ is_str (target_message m) ∧ is_u32 (reporter_id m) }.
#[global] Hint Unfold serialize parse message_inst : msg.
End chat_filter_req.

Module chat_filter_res.
Record t := mk { success : bool; message : list Z; case_id : Z }.
Definition serialize (m : t) : list Z :=
  let out := [] in
  let out := push_back out (char_of_bool (success m)) in
  let out := write_lp_string out (message m) in
  let out := write_le32 out (case_id m) in
  out.
Definition parse : parser t :=
  need 1;;
  success ← take_bool;
  message ← read_lp_string;
  need 4;;
  case_id ← take_le32;
  mret (mk success message case_id).
#[global] Instance message_inst : Message t :=
  { serialize := serialize; parse := parse;
    wf m := is_str (message m) ∧ is_u32 (case_id m) }.
#[global] Hint Unfold serialize parse message_inst : msg.
End chat_filter_res.

(** ** Laws *)

#[global] Instance chat_req_roundtrip : RoundTrip chat_req.t.
Proof. solve_roundtrip. Qed.
#[global] Instance chat_res_roundtrip : RoundTrip chat_res.t.
Proof. solve_roundtrip. Qed.
#[global] Instance chat_broadcast_roundtrip : RoundTrip chat_broadcast.t.
Proof. solve_roundtrip. Qed.
#[global] Instance chat_system_message_roundtrip : RoundTrip chat_system_message.t.
Proof. solve_roundtrip. Qed.
#[global] Instance chat_filter_req_roundtrip : RoundTrip chat_filter_req.t.
Proof. solve_roundtrip. Qed.
#[global] Instance chat_filter_res_roundtrip : RoundTrip chat_filter_res.t.
Proof. solve_roundtrip. Qed.

#[global] Instance chat_req_memsafe : MemSafe chat_req.t.
Proof. solve_memsafe. Qed.
#[global] Instance chat_res_memsafe : MemSafe chat_res.t.
Proof. solve_memsafe. Qed.
#[global] Instance chat_broadcast_memsafe : MemSafe chat_broadcast.t.
Proof. solve_memsafe. Qed.
#[global] Instance chat_filter_req_memsafe : MemSafe chat_filter_req.t.
Proof. solve_memsafe. Qed.
#[global] Instance chat_filter_res_memsafe : MemSafe chat_filter_res.t.
Proof. solve_memsafe. Qed.

#[global] Instance chat_req_exact : Exact chat_req.t.
Proof. solve_exact. Qed.
#[global] Instance chat_broadcast_exact : Exact chat_broadcast.t.
Proof. solve_exact. Qed.
#[global] Instance chat_filter_req_exact : Exact chat_filter_req.t.
Proof. solve_exact. Qed.
