(* ===== verification/ProtocolCombat.v ===== *)
(** * Combat messages ([src/common/protocol/protocol_combat.hpp])

    Attack, skill, status-effect and combat-result messages. *)

From S2P Require Import Prelude ProtocolBase.
Import shared.

Module attack_req.
Record t := mk { target_id : Z; skill_id : Z; x : Z; y : Z; z : Z; timestamp : Z }.
Definition serialize (m : t) : list Z :=
  let out := [] in
  let out := write_le32 out (target_id m) in
  let out := write_le32 out (skill_id m) in
  let out := write_float_le out (x m) in
  let out := write_float_le out (y m) in
  let out := write_float_le out (z m) in
  let out := write_le32 out (timestamp m) in
  out.
Definition parse : parser t :=
  need 24;;
  target_id ← take_le32;
  skill_id ← take_le32;
  x ← take_float_le;
  y ← take_float_le;
  z ← take_float_le;
  timestamp ← take_le32;
  mret (mk target_id skill_id x y z timestamp).
#[global] Instance message_inst : Message t :=
  { serialize := serialize; parse := parse;
    wf m := is_u32 (target_id m) ∧ is_u32 (skill_id m) ∧ is_u32 (x m) ∧ is_u32 (y m) ∧
      is_u32 (z m) ∧ is_u32 (timestamp m) }.
#[global] Hint Unfold serialize parse message_inst : msg.
End attack_req.

Module attack_res.
Record t := mk { success : bool; message : list Z; attack_id : Z; damage : Z;
  target_remaining_hp : Z }.
Definition serialize (m : t) : list Z :=
  let out := [] in
  let out := push_back out (char_of_bool (success m)) in
  let out := write_lp_string out (message m) in
  let out := write_le32 out (attack_id m) in
  let out := write_le32 out (damage m) in
  let out := write_le32 out (target_remaining_hp m) in
  out.
Definition parse : parser t :=
  need 12;;
  success ← take_bool;
  message ← read_lp_string;
  attack_id ← take_le32;
  damage ← take_le32;
  target_remaining_hp ← take_le32;
  mret (mk success message attack_id damage target_remaining_hp).
#[global] Instance message_inst : Message t :=
  { serialize := serialize; parse := parse;
    wf m := is_str (message m) ∧ is_u32 (attack_id m) ∧ is_u32 (damage m) ∧
      is_u32 (target_remaining_hp m) }.
#[global] Hint Unfold serialize parse message_inst : msg.
End attack_res.

Module damage_notify.
Record t := mk { attacker_id : Z; target_id : Z; damage : Z; remaining_hp : Z; attack_id : Z;
  timestamp : Z }.
Definition serialize (m : t) : list Z :=
  let out := [] in
  let out := write_le32 out (attacker_id m) in
  let out := write_le32 out (target_id m) in
  let out := write_le32 out (damage m) in
  let out := write_le32 out (remaining_hp m) in
  let out := write_le32 out (attack_id m) in
  let out := write_le32 out (timestamp m) in
  out.
Definition parse : parser t :=
  need 24;;
  attacker_id ← take_le32;
  target_id ← take_le32;
  damage ← take_le32;
  remaining_hp ← take_le32;
  attack_id ← take_le32;
  timestamp ← take_le32;
  mret (mk attacker_id target_id damage remaining_hp attack_id timestamp).
#[global] Instance message_inst : Message t :=
  { serialize := serialize; parse := parse;
    wf m := is_u32 (attacker_id m) ∧ is_u32 (target_id m) ∧ is_u32 (damage m) ∧
      is_u32 (remaining_hp m) ∧ is_u32 (attack_id m) ∧ is_u32 (timestamp m) }.
#[global] Hint Unfold serialize parse message_inst : msg.
End damage_notify.

Module skill_use_req.
Record t := mk { skill_id : Z; target_id : Z; x : Z; y : Z; z : Z; timestamp : Z }.
Definition serialize (m : t) : list Z :=
  let out := [] in
  let out := write_le32 out (skill_id m) in
  let out := write_le32 out (target_id m) in
  let out := write_float_le out (x m) in
  let out := write_float_le out (y m) in
  let out := write_float_le out (z m) in
  let out := write_le32 out (timestamp m) in
  out.
Definition parse : parser t :=
  need 24;;
  skill_id ← take_le32;
  target_id ← take_le32;
  x ← take_float_le;
  y ← take_float_le;
  z ← take_float_le;
  timestamp ← take_le32;
  mret (mk skill_id target_id x y z timestamp).
#[global] Instance message_inst : Message t :=
  { serialize := serialize; parse := parse;
    wf m := is_u32 (skill_id m) ∧ is_u32 (target_id m) ∧ is_u32 (x m) ∧ is_u32 (y m) ∧
      is_u32 (z m) ∧ is_u32 (timestamp m) }.
#[global] Hint Unfold serialize parse message_inst : msg.
End skill_use_req.

Module skill_use_res.
Record t := mk { success : bool; message : list Z; skill_id : Z; cooldown_time : Z;
  mana_cost : Z }.
Definition serialize (m : t) : list Z :=
  let out := [] in
  let out := push_back out (char_of_bool (success m)) in
  let out := write_lp_string out (message m) in
  let out := write_le32 out (skill_id m) in
  let out := write_le32 out (cooldown_time m) in
  let out := write_le32 out (mana_cost m) in
  out.
Definition parse : parser t :=
  need 12;;
  success ← take_bool;
  message ← read_lp_string;
  skill_id ← take_le32;
  cooldown_time ← take_le32;
  mana_cost ← take_le32;
  mret (mk success message skill_id cooldown_time mana_cost).
#[global] Instance message_inst : Message t :=
  { serialize := serialize; parse := parse;
    wf m := is_str (message m) ∧ is_u32 (skill_id m) ∧ is_u32 (cooldown_time m) ∧
      is_u32 (mana_cost m) }.
#[global] Hint Unfold serialize parse message_inst : msg.
End skill_use_res.

Module status_effect_notify.
Record t := mk { target_id : Z; effect_id : Z; effect_type : Z; duration : Z; value : Z;
  timestamp : Z }.
Definition serialize (m : t) : list Z :=
  let out := [] in
  let out := write_le32 out (target_id m) in
  let out := write_le32 out (effect_id m) in
  let out := push_back out (effect_type m) in
  let out := write_le32 out (duration m) in
  let out := write_le32 out (value m) in
  let out := write_le32 out (timestamp m) in
  out.
Definition parse : parser t :=
  need 21;;
  target_id ← take_le32;
  effect_id ← take_le32;
  effect_type ← take_byte;
  duration ← take_le32;
  value ← take_le32;
  timestamp ← take_le32;
  mret (mk target_id effect_id effect_type duration value timestamp).
#[global] Instance message_inst : Message t :=
  { serialize := serialize; parse := parse;
    wf m := is_u32 (target_id m) ∧ is_u32 (effect_id m) ∧ is_u8 (effect_type m) ∧
      is_u32 (duration m) ∧ is_u32 (value m) ∧ is_u32 (timestamp m) }.
#[global] Hint Unfold serialize parse message_inst : msg.
End status_effect_notify.

Module combat_result_notify.
Record t := mk { winner_id : Z; loser_id : Z; experience_gained : Z; gold_gained : Z;
  item_ids : list Z; timestamp : Z }.
Definition serialize (m : t) : list Z :=
  let out := [] in
  let out := write_le32 out (winner_id m) in
  let out := write_le32 out (loser_id m) in
  let out := write_le32 out (experience_gained m) in
  let out := write_le32 out (gold_gained m) in
  let out := write_le32 out (u32 (zlen (item_ids m))) in
  let out := foldl write_le32 out (item_ids m) in
  let out := write_le32 out (timestamp m) in
  out.
(** The loop over [item_count] guarded reads. *)
Definition parse_item : parser Z := need 4;; take_le32.
Definition parse : parser t :=
  need 20;;
  winner_id ← take_le32;
  loser_id ← take_le32;
  experience_gained ← take_le32;
  gold_gained ← take_le32;
  item_count ← take_le32;
  item_ids ← repeat_parser (Z.to_nat item_count) parse_item;
  need 4;;
  timestamp ← take_le32;
  mret (mk winner_id loser_id experience_gained gold_gained item_ids timestamp).
#[global] Instance message_inst : Message t :=
  { serialize := serialize; parse := parse;
    wf m := is_u32 (winner_id m) ∧ is_u32 (loser_id m) ∧ is_u32 (experience_gained m) ∧
      is_u32 (gold_gained m) ∧ Forall is_u32 (item_ids m) ∧ is_u32 (zlen (item_ids m)) ∧
      is_u32 (timestamp m) }.
#[global] Hint Unfold serialize parse message_inst : msg.
End combat_result_notify.

(** ** Laws *)

#[global] Instance attack_req_roundtrip : RoundTrip attack_req.t.
Proof. solve_roundtrip. Qed.
#[global] Instance attack_res_roundtrip : RoundTrip attack_res.t.
Proof. solve_roundtrip. Qed.
#[global] Instance damage_notify_roundtrip : RoundTrip damage_notify.t.
Proof. solve_roundtrip. Qed.
#[global] Instance skill_use_req_roundtrip : RoundTrip skill_use_req.t.
Proof. solve_roundtrip. Qed.
#[global] Instance skill_use_res_roundtrip : RoundTrip skill_use_res.t.
Proof. solve_roundtrip. Qed.
#[global] Instance status_effect_notify_roundtrip : RoundTrip status_effect_notify.t.
Proof. solve_roundtrip. Qed.

#[global] Instance attack_req_memsafe : MemSafe attack_req.t.
Proof. solve_memsafe. Qed.
#[global] Instance damage_notify_memsafe : MemSafe damage_notify.t.
Proof. solve_memsafe. Qed.
#[global] Instance skill_use_req_memsafe : MemSafe skill_use_req.t.
Proof. solve_memsafe. Qed.
#[global] Instance status_effect_notify_memsafe : MemSafe status_effect_notify.t.
Proof. solve_memsafe. Qed.

#[global] Instance attack_req_exact : Exact attack_req.t.
Proof. solve_exact. Qed.
#[global] Instance damage_notify_exact : Exact damage_notify.t.
Proof. solve_exact. Qed.
#[global] Instance skill_use_req_exact : Exact skill_use_req.t.
Proof. solve_exact. Qed.
#[global] Instance status_effect_notify_exact : Exact status_effect_notify.t.
Proof. solve_exact. Qed.

Lemma write_items_app out ids : foldl write_le32 out ids = out ++ concat (le32 <$> ids).
Proof.
  revert out. induction ids as [|i ids IH]; intros out; simpl; [by rewrite app_nil_r|].
  by rewrite IH, write_le32_app, <- app_assoc.
Qed.

Lemma parse_items_app ids rest :
  Forall is_u32 ids →
  repeat_parser (length ids) combat_result_notify.parse_item (concat (le32 <$> ids) ++ rest)
  = POk ids rest.
Proof.
  induction 1 as [|i ids Hi _ IH]; [done|]. cbn [repeat_parser length].
  change (concat (le32 <$> i :: ids)) with (le32 i ++ concat (le32 <$> ids)).
  rewrite <- app_assoc.
  erewrite bind_ok.
  2: { unfold combat_result_notify.parse_item. wire_step. by apply take_le32_app. }
  by erewrite bind_ok.
Qed.

#[global] Instance combat_result_notify_roundtrip : RoundTrip combat_result_notify.t.
Proof.
  intros [] rest. wire_cbn. intros. destruct_and?.
  rewrite u32_small, write_items_app by done. autorewrite with wire. rewrite <- ?app_assoc.
  do 6 wire_step. erewrite bind_ok.
  2: { unfold zlen. rewrite Nat2Z.id. by apply parse_items_app. }
  repeat wire_step. reflexivity.
Qed.

#[global] Instance combat_result_notify_memsafe : MemSafe combat_result_notify.t.
Proof.
  intros p. wire_cbn. repeat oob_step. apply bind_oob.
  { apply repeat_parser_not_oob. intros q. unfold combat_result_notify.parse_item.
    oob_step. apply take_le32_not_oob. lia. }
  intros. repeat oob_step.
Qed.
