(* ===== verification/ProtocolMap.v ===== *)
(** * Map messages ([src/common/protocol/protocol_map.hpp])

    Map transfer, map object and map information messages. *)

From S2P Require Import Prelude ProtocolBase.
Import shared.

Module map_enter_req.
Record t := mk { map_id : Z; x : Z; y : Z; z : Z; timestamp : Z }.
Definition serialize (m : t) : list Z :=
  let out := [] in
  let out := write_le32 out (map_id m) in
  let out := write_float_le out (x m) in
  let out := write_float_le out (y m) in
  let out := write_float_le out (z m) in
  let out := write_le32 out (timestamp m) in
  out.
Definition parse : parser t :=
  need 20;;
  map_id ← take_le32;
  x ← take_float_le;
  y ← take_float_le;
  z ← take_float_le;
  timestamp ← take_le32;
  mret (mk map_id x y z timestamp).
#[global] Instance message_inst : Message t :=
  { serialize := serialize; parse := parse;
    wf m := is_u32 (map_id m) ∧ is_u32 (x m) ∧ is_u32 (y m) ∧ is_u32 (z m) ∧
      is_u32 (timestamp m) }.
#[global] Hint Unfold serialize parse message_inst : msg.
End map_enter_req.

Module map_enter_res.
Record t := mk { success : bool; message : list Z; map_id : Z; map_name : list Z; x : Z;
  y : Z; z : Z; player_count : Z }.
Definition serialize (m : t) : list Z :=
  let out := [] in
  let out := push_back out (char_of_bool (success m)) in
  let out := write_lp_string out (message m) in
  let out := write_le32 out (map_id m) in
  let out := write_lp_string out (map_name m) in
  let out := write_float_le out (x m) in
  let out := write_float_le out (y m) in
  let out := write_float_le out (z m) in
  let out := write_le32 out (player_count m) in
  out.
Definition parse : parser t :=
  need 20;;
  success ← take_bool;
  message ← read_lp_string;
  map_id ← take_le32;
  map_name ← read_lp_string;
  x ← take_float_le;
  y ← take_float_le;
  z ← take_float_le;
  player_count ← take_le32;
  mret (mk success message map_id map_name x y z player_count).
#[global] Instance message_inst : Message t :=
  { serialize := serialize; parse := parse;
    wf m := is_str (message m) ∧ is_u32 (map_id m) ∧ is_str (map_name m) ∧ is_u32 (x m) ∧
      is_u32 (y m) ∧ is_u32 (z m) ∧ is_u32 (player_count m) }.
#[global] Hint Unfold serialize parse message_inst : msg.
End map_enter_res.

Module map_leave_req.
Record t := mk { map_id : Z; timestamp : Z }.
Definition serialize (m : t) : list Z :=
  let out := [] in
  let out := write_le32 out (map_id m) in
  let out := write_le32 out (timestamp m) in
  out.
Definition parse : parser t :=
  need 8;;
  map_id ← take_le32;
  timestamp ← take_le32;
  mret (mk map_id timestamp).
#[global] Instance message_inst : Message t :=
  { serialize := serialize; parse := parse;
    wf m := is_u32 (map_id m) ∧ is_u32 (timestamp m) }.
#[global] Hint Unfold serialize parse message_inst : msg.
End map_leave_req.

Module map_leave_res.
Record t := mk { success : bool; message : list Z; map_id : Z }.
Definition serialize (m : t) : list Z :=
  let out := [] in
  let out := push_back out (char_of_bool (success m)) in
  let out := write_lp_string out (message m) in
  let out := write_le32 out (map_id m) in
  out.
Definition parse : parser t :=
  need 8;;
  success ← take_bool;
  message ← read_lp_string;
  map_id ← take_le32;
  mret (mk success message map_id).
#[global] Instance message_inst : Message t :=
  { serialize := serialize; parse := parse;
    wf m := is_str (message m) ∧ is_u32 (map_id m) }.
#[global] Hint Unfold serialize parse message_inst : msg.
End map_leave_res.

Module map_object_info.
Record t := mk { object_id : Z; object_type : Z; object_name : list Z; x : Z; y : Z; z : Z;
  rotation : Z; level : Z; hp : Z; max_hp : Z }.
Definition serialize (m : t) : list Z :=
  let out := [] in
  let out := write_le32 out (object_id m) in
  let out := push_back out (object_type m) in
  let out := write_lp_string out (object_name m) in
  let out := write_float_le out (x m) in
  let out := write_float_le out (y m) in
  let out := write_float_le out (z m) in
  let out := write_float_le out (rotation m) in
  let out := write_le32 out (level m) in
  let out := write_le32 out (hp m) in
  let out := write_le32 out (max_hp m) in
  out.
Definition parse : parser t :=
  need 28;;
  object_id ← take_le32;
  object_type ← take_byte;
  object_name ← read_lp_string;
  x ← take_float_le;
  y ← take_float_le;
  z ← take_float_le;
  rotation ← take_float_le;
  level ← take_le32;
  hp ← take_le32;
  max_hp ← take_le32;
  mret (mk object_id object_type object_name x y z rotation level hp max_hp).
#[global] Instance message_inst : Message t :=
  { serialize := serialize; parse := parse;
    wf m := is_u32 (object_id m) ∧ is_u8 (object_type m) ∧ is_str (object_name m) ∧
      is_u32 (x m) ∧ is_u32 (y m) ∧ is_u32 (z m) ∧ is_u32 (rotation m) ∧
      is_u32 (level m) ∧ is_u32 (hp m) ∧ is_u32 (max_hp m) }.
#[global] Hint Unfold serialize parse message_inst : msg.
End map_object_info.

Module map_objects_update.
Record t := mk { map_id : Z; update_type : Z; objects : list map_object_info.t; timestamp : Z }.
Definition serialize (m : t) : list Z :=
  let out := [] in
  let out := write_le32 out (map_id m) in
  let out := write_le32 out (update_type m) in
  let out := write_le32 out (u32 (zlen (objects m))) in
  let out := foldl (λ out obj, out ++ map_object_info.serialize obj) out (objects m) in
  let out := write_le32 out (timestamp m) in
  out.
(** [map_object_info::parse(p, end, obj)] takes [p] by value: the caller's
    cursor does not move. *)
Definition parse : parser t :=
  need 12;;
  map_id ← take_le32;
  update_type ← take_le32;
  object_count ← take_le32;
  objects ← repeat_parser (Z.to_nat object_count) (peek map_object_info.parse);
  need 4;;
  timestamp ← take_le32;
  mret (mk map_id update_type objects timestamp).
#[global] Instance message_inst : Message t :=
  { serialize := serialize; parse := parse;
    wf m := is_u32 (map_id m) ∧ is_u32 (update_type m) ∧ Forall wf (objects m) ∧
      is_u32 (zlen (objects m)) ∧ is_u32 (timestamp m) }.
#[global] Hint Unfold serialize parse message_inst : msg.
End map_objects_update.

Module map_info_req.
Record t := mk { map_id : Z }.
Definition serialize (m : t) : list Z :=
  let out := [] in
  let out := write_le32 out (map_id m) in
  out.
Definition parse : parser t :=
  need 4;;
  map_id ← take_le32;
  mret (mk map_id).
#[global] Instance message_inst : Message t :=
  { serialize := serialize; parse := parse;
    wf m := is_u32 (map_id m) }.
#[global] Hint Unfold serialize parse message_inst : msg.
End map_info_req.

Module map_info_res.
Record t := mk { map_id : Z; map_name : list Z; map_description : list Z; map_width : Z;
  map_height : Z; max_players : Z; current_players : Z; map_type : Z; required_level : Z }.
Definition serialize (m : t) : list Z :=
  let out := [] in
  let out := write_le32 out (map_id m) in
  let out := write_lp_string out (map_name m) in
  let out := write_lp_string out (map_description m) in
  let out := write_le32 out (map_width m) in
  let out := write_le32 out (map_height m) in
  let out := write_le32 out (max_players m) in
  let out := write_le32 out (current_players m) in
  let out := push_back out (map_type m) in
  let out := write_le32 out (required_level m) in
  out.
Definition parse : parser t :=
  need 24;;
  map_id ← take_le32;
  map_name ← read_lp_string;
  map_description ← read_lp_string;
  map_width ← take_le32;
  map_height ← take_le32;
  max_players ← take_le32;
  current_players ← take_le32;
  map_type ← take_byte;
  required_level ← take_le32;
  mret (mk map_id map_name map_description map_width map_height max_players current_players map_type required_level).
#[global] Instance message_inst : Message t :=
  { serialize := serialize; parse := parse;
    wf m := is_u32 (map_id m) ∧ is_str (map_name m) ∧ is_str (map_description m) ∧
      is_u32 (map_width m) ∧ is_u32 (map_height m) ∧ is_u32 (max_players m) ∧
      is_u32 (current_players m) ∧ is_u8 (map_type m) ∧ is_u32 (required_level m) }.
#[global] Hint Unfold serialize parse message_inst : msg.
End map_info_res.

(** ** Laws *)

#[global] Instance map_enter_req_roundtrip : RoundTrip map_enter_req.t.
Proof. solve_roundtrip. Qed.
#[global] Instance map_enter_res_roundtrip : RoundTrip map_enter_res.t.
Proof. solve_roundtrip. Qed.
#[global] Instance map_leave_req_roundtrip : RoundTrip map_leave_req.t.
Proof. solve_roundtrip. Qed.
#[global] Instance map_leave_res_roundtrip : RoundTrip map_leave_res.t.
Proof. solve_roundtrip. Qed.
#[global] Instance map_object_info_roundtrip : RoundTrip map_object_info.t.
Proof. solve_roundtrip. Qed.
#[global] Instance map_info_req_roundtrip : RoundTrip map_info_req.t.
Proof. solve_roundtrip. Qed.
#[global] Instance map_info_res_roundtrip : RoundTrip map_info_res.t.
Proof. solve_roundtrip. Qed.

#[global] Instance map_enter_req_memsafe : MemSafe map_enter_req.t.
Proof. solve_memsafe. Qed.
#[global] Instance map_leave_req_memsafe : MemSafe map_leave_req.t.
Proof. solve_memsafe. Qed.
#[global] Instance map_info_req_memsafe : MemSafe map_info_req.t.
Proof. solve_memsafe. Qed.

#[global] Instance map_enter_req_exact : Exact map_enter_req.t.
Proof. solve_exact. Qed.
#[global] Instance map_leave_req_exact : Exact map_leave_req.t.
Proof. solve_exact. Qed.
#[global] Instance map_info_req_exact : Exact map_info_req.t.
Proof. solve_exact. Qed.
