(* ===== verification/ProtocolGuild.v ===== *)
(** * Guild messages ([src/common/protocol/protocol_guild.hpp])

    Guild creation, membership and information messages. *)

From S2P Require Import Prelude ProtocolBase.
Import shared.

Module guild_create_req.
Record t := mk { guild_name : list Z; guild_description : list Z; max_members : Z;
  guild_type : Z }.
Definition serialize (m : t) : list Z :=
  let out := [] in
  let out := write_lp_string out (guild_name m) in
  let out := write_lp_string out (guild_description m) in
  let out := write_le32 out (max_members m) in
  let out := push_back out (guild_type m) in
  out.
Definition parse : parser t :=
  guild_name ← read_lp_string;
  guild_description ← read_lp_string;
  need 4;;
  max_members ← take_le32;
  need 1;;
  guild_type ← take_byte;
  mret (mk guild_name guild_description max_members guild_type).
#[global] Instance message_inst : Message t :=
  { serialize := serialize; parse := parse;
    wf m := is_str (guild_name m) ∧ is_str (guild_description m) ∧ is_u32 (max_members m) ∧
      is_u8 (guild_type m) }.
#[global] Hint Unfold serialize parse message_inst : msg.
End guild_create_req.

Module guild_create_res.
Record t := mk { success : bool; message : list Z; guild_id : Z }.
Definition serialize (m : t) : list Z :=
  let out := [] in
  let out := push_back out (char_of_bool (success m)) in
  let out := write_lp_string out (message m) in
  let out := write_le32 out (guild_id m) in
  out.
Definition parse : parser t :=
  need 1;;
  success ← take_bool;
  message ← read_lp_string;
  need 4;;
  guild_id ← take_le32;
  mret (mk success message guild_id).
#[global] Instance message_inst : Message t :=
  { serialize := serialize; parse := parse;
    wf m := is_str (message m) ∧ is_u32 (guild_id m) }.
#[global] Hint Unfold serialize parse message_inst : msg.
End guild_create_res.

Module guild_join_req.
Record t := mk { guild_id : Z; application_message : list Z }.
Definition serialize (m : t) : list Z :=
  let out := [] in
  let out := write_le32 out (guild_id m) in
  let out := write_lp_string out (application_message m) in
  out.
Definition parse : parser t :=
  need 4;;
  guild_id ← take_le32;
  application_message ← read_lp_string;
  mret (mk guild_id application_message).
#[global] Instance message_inst : Message t :=
  { serialize := serialize; parse := parse;
    wf m := is_u32 (guild_id m) ∧ is_str (application_message m) }.
#[global] Hint Unfold serialize parse message_inst : msg.
End guild_join_req.

Module guild_join_res.
Record t := mk { success : bool; message : list Z; application_id : Z }.
Definition serialize (m : t) : list Z :=
  let out := [] in
  let out := push_back out (char_of_bool (success m)) in
  let out := write_lp_string out (message m) in
  let out := write_le32 out (application_id m) in
  out.
Definition parse : parser t :=
  need 1;;
  success ← take_bool;
  message ← read_lp_string;
  need 4;;
  application_id ← take_le32;
  mret (mk success message application_id).
#[global] Instance message_inst : Message t :=
  { serialize := serialize; parse := parse;
    wf m := is_str (message m) ∧ is_u32 (application_id m) }.
#[global] Hint Unfold serialize parse message_inst : msg.
End guild_join_res.

Module guild_leave_req.
Record t := mk { guild_id : Z; reason : list Z }.
Definition serialize (m : t) : list Z :=
  let out := [] in
  let out := write_le32 out (guild_id m) in
  let out := write_lp_string out (reason m) in
  out.
Definition parse : parser t :=
  need 4;;
  guild_id ← take_le32;
  reason ← read_lp_string;
  mret (mk guild_id reason).
#[global] Instance message_inst : Message t :=
  { serialize := serialize; parse := parse;
    wf m := is_u32 (guild_id m) ∧ is_str (reason m) }.
#[global] Hint Unfold serialize parse message_inst : msg.
End guild_leave_req.

Module guild_leave_res.
Record t := mk { success : bool; message : list Z }.
Definition serialize (m : t) : list Z :=
  let out := [] in
  let out := push_back out (char_of_bool (success m)) in
  let out := write_lp_string out (message m) in
  out.
Definition parse : parser t :=
  need 1;;
  success ← take_bool;
  message ← read_lp_string;
  mret (mk success message).
#[global] Instance message_inst : Message t :=
  { serialize := serialize; parse := parse;
    wf m := is_str (message m) }.
#[global] Hint Unfold serialize parse message_inst : msg.
End guild_leave_res.

Module guild_info_req.
Record t := mk { guild_id : Z }.
Definition serialize (m : t) : list Z :=
  let out := [] in
  let out := write_le32 out (guild_id m) in
  out.
Definition parse : parser t :=
  need 4;;
  guild_id ← take_le32;
  mret (mk guild_id).
#[global] Instance message_inst : Message t :=
  { serialize := serialize; parse := parse;
    wf m := is_u32 (guild_id m) }.
#[global] Hint Unfold serialize parse message_inst : msg.
End guild_info_req.

(** The parser steps over [guild_type] twice: [guild_type = *p++; p += 1;]. *)
Module guild_info_res.
Record t := mk { guild_id : Z; guild_name : list Z; guild_description : list Z;
  member_count : Z; max_members : Z; guild_type : Z; guild_level : Z; guild_exp : Z;
  leader_id : Z; leader_name : list Z }.
Definition serialize (m : t) : list Z :=
  let out := [] in
  let out := write_le32 out (guild_id m) in
  let out := write_lp_string out (guild_name m) in
  let out := write_lp_string out (guild_description m) in
  let out := write_le32 out (member_count m) in
  let out := write_le32 out (max_members m) in
  let out := push_back out (guild_type m) in
  let out := write_le32 out (guild_level m) in
  let out := write_le32 out (guild_exp m) in
  let out := write_le32 out (leader_id m) in
  let out := write_lp_string out (leader_name m) in
  out.
Definition parse : parser t :=
  need 24;;
  guild_id ← take_le32;
  guild_name ← read_lp_string;
  guild_description ← read_lp_string;
  member_count ← take_le32;
  max_members ← take_le32;
  guild_type ← take_byte;
  skip_byte;;
  guild_level ← take_le32;
  guild_exp ← take_le32;
  leader_id ← take_le32;
  leader_name ← read_lp_string;
  mret (mk guild_id guild_name guild_description member_count max_members guild_type guild_level guild_exp leader_id leader_name).
#[global] Instance message_inst : Message t :=
  { serialize := serialize; parse := parse;
    wf m := is_u32 (guild_id m) ∧ is_str (guild_name m) ∧ is_str (guild_description m) ∧
      is_u32 (member_count m) ∧ is_u32 (max_members m) ∧ is_u8 (guild_type m) ∧
      is_u32 (guild_level m) ∧ is_u32 (guild_exp m) ∧ is_u32 (leader_id m) ∧
      is_str (leader_name m) }.
#[global] Hint Unfold serialize parse message_inst : msg.
End guild_info_res.

Module guild_member_list_req.
Record t := mk { guild_id : Z; page : Z; page_size : Z }.
Definition serialize (m : t) : list Z :=
  let out := [] in
  let out := write_le32 out (guild_id m) in
  let out := write_le32 out (page m) in
  let out := write_le32 out (page_size m) in
  out.
Definition parse : parser t :=
  need 12;;
  guild_id ← take_le32;
  page ← take_le32;
  page_size ← take_le32;
  mret (mk guild_id page page_size).
#[global] Instance message_inst : Message t :=
  { serialize := serialize; parse := parse;
    wf m := is_u32 (guild_id m) ∧ is_u32 (page m) ∧ is_u32 (page_size m) }.
#[global] Hint Unfold serialize parse message_inst : msg.
End guild_member_list_req.

(** As in [guild_info_res], [rank = *p++; p += 1;] skips a byte too many. *)
Module guild_member_info.
Record t := mk { player_id : Z; player_name : list Z; level : Z; rank : Z; join_date : Z;
  last_online : Z }.
Definition serialize (m : t) : list Z :=
  let out := [] in
  let out := write_le32 out (player_id m) in
  let out := write_lp_string out (player_name m) in
  let out := write_le32 out (level m) in
  let out := push_back out (rank m) in
  let out := write_le32 out (join_date m) in
  let out := write_le32 out (last_online m) in
  out.
Definition parse : parser t :=
  need 16;;
  player_id ← take_le32;
  player_name ← read_lp_string;
  level ← take_le32;
  rank ← take_byte;
  skip_byte;;
  join_date ← take_le32;
  last_online ← take_le32;
  mret (mk player_id player_name level rank join_date last_online).
#[global] Instance message_inst : Message t :=
  { serialize := serialize; parse := parse;
    wf m := is_u32 (player_id m) ∧ is_str (player_name m) ∧ is_u32 (level m) ∧ is_u8 (rank m) ∧
      is_u32 (join_date m) ∧ is_u32 (last_online m) }.
#[global] Hint Unfold serialize parse message_inst : msg.
End guild_member_info.

Module guild_member_list_res.
Record t := mk { guild_id : Z; total_members : Z; page : Z; page_size : Z;
  members : list guild_member_info.t }.
Definition serialize (m : t) : list Z :=
  let out := [] in
  let out := write_le32 out (guild_id m) in
  let out := write_le32 out (total_members m) in
  let out := write_le32 out (page m) in
  let out := write_le32 out (page_size m) in
  let out := write_le32 out (u32 (zlen (members m))) in
  let out := foldl (λ out member, out ++ guild_member_info.serialize member) out (members m) in
  out.
(** The guard asks for 16 bytes, 20 are read; [guild_member_info::parse] takes
    the cursor by value. *)
Definition parse : parser t :=
  need 16;;
  guild_id ← take_le32;
  total_members ← take_le32;
  page ← take_le32;
  page_size ← take_le32;
  member_count ← take_le32;
  members ← repeat_parser (Z.to_nat member_count) (peek guild_member_info.parse);
  mret (mk guild_id total_members page page_size members).
#[global] Instance message_inst : Message t :=
  { serialize := serialize; parse := parse;
    wf m := is_u32 (guild_id m) ∧ is_u32 (total_members m) ∧ is_u32 (page m) ∧
      is_u32 (page_size m) ∧ Forall wf (members m) ∧ is_u32 (zlen (members m)) }.
#[global] Hint Unfold serialize parse message_inst : msg.
End guild_member_list_res.

(** ** Laws *)

#[global] Instance guild_create_req_roundtrip : RoundTrip guild_create_req.t.
Proof. solve_roundtrip. Qed.
#[global] Instance guild_create_res_roundtrip : RoundTrip guild_create_res.t.
Proof. solve_roundtrip. Qed.
#[global] Instance guild_join_req_roundtrip : RoundTrip guild_join_req.t.
Proof. solve_roundtrip. Qed.
#[global] Instance guild_join_res_roundtrip : RoundTrip guild_join_res.t.
Proof. solve_roundtrip. Qed.
#[global] Instance guild_leave_req_roundtrip : RoundTrip guild_leave_req.t.
Proof. solve_roundtrip. Qed.
#[global] Instance guild_leave_res_roundtrip : RoundTrip guild_leave_res.t.
Proof. solve_roundtrip. Qed.
#[global] Instance guild_info_req_roundtrip : RoundTrip guild_info_req.t.
Proof. solve_roundtrip. Qed.
#[global] Instance guild_member_list_req_roundtrip : RoundTrip guild_member_list_req.t.
Proof. solve_roundtrip. Qed.

#[global] Instance guild_create_req_memsafe : MemSafe guild_create_req.t.
Proof. solve_memsafe. Qed.
#[global] Instance guild_create_res_memsafe : MemSafe guild_create_res.t.
Proof. solve_memsafe. Qed.
#[global] Instance guild_join_req_memsafe : MemSafe guild_join_req.t.
Proof. solve_memsafe. Qed.
#[global] Instance guild_join_res_memsafe : MemSafe guild_join_res.t.
Proof. solve_memsafe. Qed.
#[global] Instance guild_leave_req_memsafe : MemSafe guild_leave_req.t.
Proof. solve_memsafe. Qed.
#[global] Instance guild_leave_res_memsafe : MemSafe guild_leave_res.t.
Proof. solve_memsafe. Qed.
#[global] Instance guild_info_req_memsafe : MemSafe guild_info_req.t.
Proof. solve_memsafe. Qed.
#[global] Instance guild_member_list_req_memsafe : MemSafe guild_member_list_req.t.
Proof. solve_memsafe. Qed.

#[global] Instance guild_create_req_exact : Exact guild_create_req.t.
Proof. solve_exact. Qed.
#[global] Instance guild_join_req_exact : Exact guild_join_req.t.
Proof. solve_exact. Qed.
#[global] Instance guild_leave_req_exact : Exact guild_leave_req.t.
Proof. solve_exact. Qed.
#[global] Instance guild_info_req_exact : Exact guild_info_req.t.
Proof. solve_exact. Qed.
#[global] Instance guild_member_list_req_exact : Exact guild_member_list_req.t.
Proof. solve_exact. Qed.
