(* ===== verification/ProtocolLaws.v ===== *)
(** * Laws of the wire protocol ([src/common/protocol/])

    The message laws the server and the client rely on, collected from the
    per-message instances, and the exact behaviour of the parsers for which a
    law fails. *)

From S2P Require Import Prelude ProtocolBase ProtocolPlayer ProtocolChat ProtocolCombat ProtocolMap ProtocolGuild.
Import shared.

(** ** Lemmas *)

Lemma object_starts_with_id o tl :
  map_object_info.serialize o ++ tl =
  le32 (map_object_info.object_id o) ++ drop 4 (map_object_info.serialize o ++ tl).
Proof.
  destruct o. unfold map_object_info.serialize. cbn [map_object_info.object_id].
  unfold write_float_le, write_lp_string, write_le32, push_back. cbn [app].
  rewrite <- !app_assoc. reflexivity.
Qed.

(** A length field larger than the bytes that follow it is refused. *)
Lemma lp_string_too_long b0 b1 b2 b3 p :
  zlen p < join32 b0 b1 b2 b3 →
  read_lp_string (b0 :: b1 :: b2 :: b3 :: p) = PFalse.
Proof.
  intros Hlt. unfold read_lp_string.
  erewrite bind_ok; [|apply need_ok; lens].
  rewrite (bind_ok take_le32 _ (b0 :: b1 :: b2 :: b3 :: p) (join32 b0 b1 b2 b3) p eq_refl).
  unfold take_bytes. case_cmp; [done|lia].
Qed.

(** ** Properties *)

(** None of the parsers that the server applies to bytes from a
    client reads outside of the received payload, whatever the bytes are. *)
Theorem server_request_parsers_safe :
  MemSafe login_req.t ∧ MemSafe player_move_req.t ∧ MemSafe attack_req.t
  ∧ MemSafe map_enter_req.t ∧ MemSafe guild_create_req.t ∧ MemSafe guild_join_req.t.
Proof. split_and!; apply _. Qed.

(** C38: (round trip) Every message the server exchanges with its clients is
    recovered exactly by the receiver's parser, with any bytes behind it. *)
Theorem server_messages_roundtrip :
  RoundTrip login_req.t ∧ RoundTrip login_res.t ∧ RoundTrip player_move_req.t
  ∧ RoundTrip attack_req.t ∧ RoundTrip attack_res.t ∧ RoundTrip damage_notify.t
  ∧ RoundTrip map_enter_req.t ∧ RoundTrip map_enter_res.t
  ∧ RoundTrip guild_create_req.t ∧ RoundTrip guild_create_res.t
  ∧ RoundTrip guild_join_req.t ∧ RoundTrip guild_join_res.t ∧ RoundTrip guild_leave_res.t
  ∧ RoundTrip combat_result_notify.t ∧ RoundTrip chat_broadcast.t.
Proof. split_and!; apply _. Qed.

(** The request parsers accept nothing but encodings: an
    accepted byte string is the serialization of the parsed value followed by
    the unread bytes, so two different requests never parse from one payload. *)
Theorem server_request_parsers_exact :
  Exact login_req.t ∧ Exact player_move_req.t ∧ Exact attack_req.t
  ∧ Exact map_enter_req.t ∧ Exact guild_create_req.t ∧ Exact guild_join_req.t.
Proof. split_and!; apply _. Qed.

(** Eleven of the parsers test their length only once, before the
    variable-length strings: each of them has an input on which it reads behind
    the end of the payload. *)
Theorem response_parsers_overread :
  (∃ p, player_info_res.parse p = POob) ∧ (∃ p, chat_system_message.parse p = POob)
  ∧ (∃ p, attack_res.parse p = POob) ∧ (∃ p, skill_use_res.parse p = POob)
  ∧ (∃ p, map_enter_res.parse p = POob) ∧ (∃ p, map_leave_res.parse p = POob)
  ∧ (∃ p, map_object_info.parse p = POob) ∧ (∃ p, map_info_res.parse p = POob)
  ∧ (∃ p, guild_info_res.parse p = POob) ∧ (∃ p, guild_member_info.parse p = POob)
  ∧ (∃ p, guild_member_list_res.parse p = POob).
Proof.
  split_and!.
  - by exists (replicate 4 0 ++ [20; 0; 0; 0] ++ replicate 20 0).
  - by exists (replicate 12 0).
  - by exists (0 :: [7; 0; 0; 0] ++ replicate 7 0).
  - by exists (0 :: [7; 0; 0; 0] ++ replicate 7 0).
  - by exists (0 :: [15; 0; 0; 0] ++ replicate 15 0).
  - by exists (0 :: [3; 0; 0; 0] ++ replicate 3 0).
  - by exists (replicate 5 0 ++ [19; 0; 0; 0] ++ replicate 19 0).
  - by exists (replicate 4 0 ++ [12; 0; 0; 0] ++ replicate 12 0 ++ replicate 4 0).
  - by exists (replicate 4 0 ++ [12; 0; 0; 0] ++ replicate 12 0 ++ replicate 4 0).
  - by exists (replicate 4 0 ++ [8; 0; 0; 0] ++ replicate 8 0).
  - by exists (replicate 16 0).
Qed.

(** [map_objects_update::parse] passes its cursor by value to
    the object parser.  For every non-empty update it therefore returns the
    first object repeated, and the first object's id as the timestamp, instead
    of the objects and the timestamp that were sent. *)
Theorem map_objects_update_misparse map_id update_type o os timestamp rest :
  wf (map_objects_update.mk map_id update_type (o :: os) timestamp) →
  ∃ left,
  parse (serialize (map_objects_update.mk map_id update_type (o :: os) timestamp) ++ rest)
  = POk (map_objects_update.mk map_id update_type (replicate (length (o :: os)) o)
           (map_object_info.object_id o)) left.
Proof.
  unfold wf, serialize, parse, map_objects_update.message_inst, map_objects_update.serialize,
    map_objects_update.parse.
  cbn [map_objects_update.map_id map_objects_update.update_type map_objects_update.objects
       map_objects_update.timestamp].
  intros (Hm & Hu & Ho & Hl & Ht). apply Forall_cons in Ho as [Ho Hos].
  rewrite u32_small by done.
  rewrite (write_all_app map_object_info.serialize _ (o :: os)). autorewrite with wire. rewrite <- ?app_assoc.
  wire_step. do 3 wire_step.
  change (concat (map_object_info.serialize <$> o :: os)) with
    (map_object_info.serialize o ++ concat (map_object_info.serialize <$> os)).
  rewrite <- app_assoc. set (tl := concat _ ++ _).
  eexists. erewrite bind_ok.
  2: { eapply repeat_peek. exact (map_object_info_roundtrip o tl Ho). }
  rewrite object_starts_with_id.
  assert (is_u32 (map_object_info.object_id o)) by (destruct o; revert Ho; wire_cbn; tauto).
  repeat wire_step. unfold zlen. rewrite Nat2Z.id. reflexivity.
Qed.

Lemma map_objects_update_misparse_witness :
  ∃ left,
  parse (serialize (map_objects_update.mk 1 0
    [map_object_info.mk 7 1 [65] 0 0 0 0 1 50 100; map_object_info.mk 8 1 [66] 0 0 0 0 1 60 100]
    999) ++ [])
  = POk (map_objects_update.mk 1 0
      (replicate 2 (map_object_info.mk 7 1 [65] 0 0 0 0 1 50 100)) 7) left.
Proof.
  apply (map_objects_update_misparse 1 0 (map_object_info.mk 7 1 [65] 0 0 0 0 1 50 100)
    [map_object_info.mk 8 1 [66] 0 0 0 0 1 60 100] 999 []).
  wire_cbn. split_and!; by_decide.
Defined.

(** A serialized [guild_member_info] never parses back: the parser
    skips a byte behind [rank] and reads one byte past the end of the message. *)
Theorem guild_member_info_overreads (m : guild_member_info.t) :
  wf m → parse (serialize m) = (POob : outcome guild_member_info.t).
Proof.
  destruct m. wire_cbn. intros. destruct_and?. unfold push_back.
  autorewrite with wire. rewrite <- ?app_assoc. do 5 wire_step. reflexivity.
Qed.

Lemma guild_member_info_overreads_witness :
  parse (serialize (guild_member_info.mk 1 [65] 3 2 100 200)) = (POob : outcome guild_member_info.t).
Proof. apply guild_member_info_overreads. wire_cbn. split_and!; by_decide. Defined.

(** A serialized [guild_info_res] is refused by its own parser,
    since the cursor is off by one when it reaches the leader's name: the
    length it then reads ends in the first character of the name. *)
Theorem guild_info_res_refused (m : guild_info_res.t) c name :
  wf m → guild_info_res.leader_name m = c :: name → c ≠ 0 → zlen name < 2 ^ 23 →
  parse (serialize m) = (PFalse : outcome guild_info_res.t).
Proof.
  destruct m as [? ? ? ? ? ? ? ? ? leader]. wire_cbn. intros Hwf -> Hc Hn. destruct_and?.
  match goal with H : is_str (c :: name) |- _ => pose proof H as [[Hc8 _]%Forall_cons _] end.
  unfold push_back. autorewrite with wire. rewrite <- ?app_assoc. do 7 wire_step.
  do 4 (erewrite bind_ok; [|reflexivity]).
  set (n := zlen (c :: name)).
  lazymatch goal with |- mbind ?f _ _ = _ => change (mbind f read_lp_string
    (byte_at n 1 :: byte_at n 2 :: byte_at n 3 :: c :: name) = PFalse) end.
  unfold mbind, parser_bind. rewrite lp_string_too_long; [done|]. pose proof (byte_at_range n 1).
  pose proof (byte_at_range n 2). pose proof (byte_at_range n 3).
  rewrite join32_add by done. int_unfold. lia.
Qed.

Lemma guild_info_res_refused_witness :
  parse (serialize (guild_info_res.mk 1 [71] [] 2 50 0 3 10 7 [76; 101])) =
  (PFalse : outcome guild_info_res.t).
Proof.
  apply (guild_info_res_refused _ 76 [101]); [|reflexivity|done|by_decide].
  wire_cbn. split_and!; by_decide.
Defined.
