(* ===== verification/GameServer.v ===== *)
(** * Game server ([src/server/game/game_server.{hpp,cpp}], [handlers/*.cpp],
    [src/common/network/message_dispatcher.hpp])

    The server object: connection table, message dispatch and the handlers for
    player and guild messages.  A handler is a computation on the server state
    that can also run into its own lock ([Deadlock]: [std::mutex] is not
    recursive) or into undefined behaviour ([Undefined]).  The channels are the
    [asio_channel] objects of [Channel.v], so that a send that overflows a
    channel's queue calls back into [on_close] exactly as the code does.

    Without a database the login answers at once; with one (player_dao_) it
    posts a job to the player's strand, whose completion is a second step. *)

From S2P Require Import Prelude FrameCodec Channel Floats Components Ecs Systems Threads.
From S2P Require Import ProtocolBase ProtocolPlayer ProtocolCombat ProtocolMap ProtocolGuild.

Module game_server.

(** ** State *)

Record MapConfig := mkMapConfig
  { mc_id : Z; mc_name : list Z; mc_width : f32; mc_height : f32; mc_max_players : Z }.

Record GuildData := mkGuild
  { g_id : Z; g_name : list Z; g_description : list Z; master_channel_id : Z; members : list Z }.
#[global] Instance GuildData_eta : Settable GuildData := λ g,
  mkGuild (g_id g) (g_name g) (g_description g) (master_channel_id g) (members g).

#[global] Instance GuildData_eq : EqDecision GuildData.
Proof. solve_decision. Defined.

(** A row of the player table. *)
Record PlayerRecord := mkRecord
  { r_id : Z; r_name : list Z; r_level : Z; r_exp : Z; r_hp : Z; r_max_hp : Z;
    r_x : f32; r_y : f32; r_z : f32; r_map_id : Z }.

(** Work posted to a player's database strand. *)
Inductive db_job :=
| LoginJob (channel_id : Z) (player_name : list Z)
| SaveJob (db_id : Z) (x y z : f32) (map_id level exp hp : Z) (player_name : list Z)
| FlushJob (db_id : Z) (x y z : f32) (map_id : Z).

(** The functions bound in the dispatcher. *)
Inductive handler :=
| HPing | HEcho | HLogin | HMove | HChat | HAttack | HMapEnter
| HGuildCreate | HGuildJoin | HGuildLeave.

Record server := mk {
  use_ecs : bool;                                   (* config_.use_ecs *)
  config_maps : list MapConfig;                     (* config_.maps *)
  mtx_ : bool;                                      (* is the mutex held? *)
  channels_ : gmap Z asio_channel.channel;
  channel_to_entity_ : gmap Z Z;
  table_ : gmap Z handler;                          (* dispatcher_ *)
  main_thread_manager_ : option MainThreadManager.t;
  player_map_mapping_ : gmap Z Z;
  db_pool_ : bool;                                  (* built with a database *)
  player_dao_ : bool;
  channel_to_db_id_ : gmap Z Z;
  db_strands_ : gset Z;
  redis_client_ : bool;
  guilds_ : gmap Z GuildData;
  channel_to_guild_ : gmap Z Z;
  next_guild_id_ : Z;
  ecs : shared;                                     (* game_service(), spawn seed *)
  posted_ : list db_job;                            (* everything posted so far *)
  uncached_ : list Z;                               (* ids given to del_player_cache *)
  sent_ : list (Z * Z * list Z);                    (* every frame sent: channel, id, payload *)
  removed_ : list Z                                 (* close callbacks run: the ids they captured *)
}.
#[global] Instance server_eta : Settable server := λ s,
  mk (use_ecs s) (config_maps s) (mtx_ s) (channels_ s) (channel_to_entity_ s) (table_ s)
    (main_thread_manager_ s) (player_map_mapping_ s) (db_pool_ s) (player_dao_ s)
    (channel_to_db_id_ s) (db_strands_ s) (redis_client_ s) (guilds_ s) (channel_to_guild_ s) (next_guild_id_ s)
    (ecs s) (posted_ s) (uncached_ s) (sent_ s) (removed_ s).

Inductive outcome (A : Type) := Done (a : A) (s : server) | Deadlock | Undefined.
#[global] Arguments Done {A} a s.
#[global] Arguments Deadlock {A}.
#[global] Arguments Undefined {A}.

Definition M (A : Type) : Type := server → outcome A.
#[global] Instance M_ret : MRet M := λ A a s, Done a s.
#[global] Instance M_bind : MBind M := λ A B f m s,
  match m s with Done a s' => f a s' | Deadlock => Deadlock | Undefined => Undefined end.

Definition gets {A} (f : server → A) : M A := λ s, Done (f s) s.
Definition modify (f : server → server) : M unit := λ s, Done tt (f s).
Definition undefined {A} : M A := λ _, Undefined.
Definition skip : M unit := mret tt.

(** [std::lock_guard<std::mutex> lk(mtx_); body] *)
Definition with_mtx {A} (body : M A) : M A := λ s,
  if mtx_ s then Deadlock
  else match body (s <| mtx_ := true |>) with
       | Done a s' => Done a (s' <| mtx_ := false |>)
       | Deadlock => Deadlock
       | Undefined => Undefined
       end.

Definition for_each {A} (l : list A) (f : A → M unit) : M unit :=
  foldr (λ x k, f x ≫= λ _, k) skip l.

(** [parse(data, data + size, req)] in a handler. *)
Definition parsed {A} (r : ProtocolBase.outcome A) (bad : M unit) (k : A → M unit) : M unit :=
  match r with POk a _ => k a | PFalse => bad | POob => undefined end.

Section server.
Context `{HashOrder} `{PriorityQueue} {AO : ArgOrder}.
(** [redis_client_->get_player_id_by_token] *)
Context (player_id_by_token : list Z → option Z).
(** The virtual [update] of the registered ECS systems. *)
Context (update_systems : f32 → world → world).

(** ** Connections *)

(** [game_service()]: its managers are null pointers unless [init] has called
    [initialize], which it does when the ECS is on. *)
Definition game_service : M unit := λ s, if use_ecs s then Done tt s else Undefined.

Definition on_modify_world (f : world → world) : M unit :=
  game_service ;; modify (λ s, s <| ecs ::= λ e, e <| sh_world ::= f |> |>).

Definition get_comp (T : Type) `{ComponentType T} (e : Z) : M (option T) :=
  game_service ;; gets (λ s, get_component e (cm (sh_world (ecs s)))).

Definition get_player_map (channel_id : Z) : M Z :=
  gets (λ s, default 1 (player_map_mapping_ s !! channel_id)).
Definition update_player_map (channel_id map_id : Z) : M unit :=
  modify (λ s, s <| player_map_mapping_ ::= <[channel_id := map_id]> |>).

Definition on_accept (channel_id : Z) (channel : asio_channel.channel) : M unit :=
  with_mtx (
    modify (λ s, s <| channels_ ::= <[channel_id := channel]> |>) ;;
    modify (λ s, s <| db_strands_ ::= λ d, if db_pool_ s then {[channel_id]} ∪ d else d |>) ;;
    mtm ← gets main_thread_manager_;
    match mtm with Some _ => update_player_map channel_id 1 | None => skip end).

(** The save posted when a logged-in player disconnects. *)
Definition post_save (entity db_id : Z) : M unit :=
  pos ← get_comp Position entity;
  pl ← get_comp Player entity;
  he ← get_comp Health entity;
  let p := default (mkPosition f0 f0 f0) pos in
  let map_id := match pl with Some p => i32 (pl_map_id p) | None => 1 end in
  let name := match pl with Some p => player_name p | None => [] end in
  let hp := match he with Some h => i32 (hp h) | None => 100 end in
  modify (λ s, s <| posted_ ::= λ l,
    l ++ [SaveJob db_id (pos_x p) (pos_y p) (pos_z p) map_id 1 0 hp name] |>).

Definition on_close (channel_id : Z) (reason : close_function) : M unit :=
  r ← with_mtx (
    entity ← gets (λ s, default 0 (channel_to_entity_ s !! channel_id));
    modify (λ s, s <| channels_ ::= delete channel_id |>
                   <| channel_to_entity_ ::= delete channel_id |>) ;;
    db_id ← gets (λ s, default 0 (channel_to_db_id_ s !! channel_id));
    modify (λ s, s <| channel_to_db_id_ ::= delete channel_id |>) ;;
    strand ← gets (λ s, bool_decide (channel_id ∈ db_strands_ s));
    modify (λ s, s <| db_strands_ ::= λ d, d ∖ {[channel_id]} |>) ;;
    mret (entity, db_id, strand));
  let '(entity, db_id, strand) := r in
  dao ← gets player_dao_;
  (if strand && dao && (0 <? db_id) && negb (entity =? 0)
   then post_save entity db_id else skip) ;;
  modify (λ s, s <| uncached_ ::= λ l, if redis_client_ s && (0 <? db_id) then l ++ [db_id] else l |>) ;;
  mtm ← gets main_thread_manager_;
  match mtm with
  | Some _ => modify (λ s, s <| player_map_mapping_ ::= delete channel_id |>)
  | None => skip
  end ;;
  e ← gets use_ecs;
  if negb (entity =? 0) && e then on_modify_world (destroy_entity entity) else skip.

(** ** Sending *)

(** The close callback that [do_accept] installs in a channel, of the network server. *)
Definition close_callback (id : Z) : M unit := modify (λ s, s <| removed_ ::= λ l, l ++ [id] |>).

(** The channel's [on_close]: first the handler, then the close callback. *)
Definition channel_closed (channel_id : Z) (reason : close_function) (callbacks : list Z) : M unit :=
  on_close channel_id reason ;; for_each callbacks close_callback.

(** [ch->send(pkt.data(), pkt.size())]: the channel may close itself, call back into
    the server and then run its close callback. *)
Definition channel_send (channel_id : Z) (pkt : list Z) : M unit := λ s,
  match channels_ s !! channel_id with
  | None => Undefined
  | Some c =>
      let '(c, es) := asio_channel.send pkt c in
      let s := s <| channels_ ::= <[channel_id := c]> |> in
      match asio_channel.close_events es with
      | [] => Done tt s
      | reason :: _ =>
          channel_closed channel_id reason (asio_channel.close_callbacks es) s
      end
  end.

Definition send_frame (channel_id msg_id : Z) (data : list Z) : M unit :=
  modify (λ s, s <| sent_ ::= λ l, l ++ [(channel_id, msg_id, data)] |>) ;;
  channel_send channel_id (frame_codec.pack msg_id 0 1 0 data).

Definition connected (channel_id : Z) : M bool :=
  gets (λ s, bool_decide (is_Some (channels_ s !! channel_id))).

(** Find the channel under the lock, send after releasing it. *)
Definition find_and_send (channel_id msg_id : Z) (data : list Z) : M unit :=
  ch ← with_mtx (connected channel_id);
  if ch : bool then send_frame channel_id msg_id data else skip.

(** Find the channel and send, both under the lock. *)
Definition send_test_frame (channel_id msg_id : Z) (data : list Z) : M unit :=
  with_mtx (
    ch ← connected channel_id;
    if ch : bool then send_frame channel_id msg_id data else skip).

Definition broadcast (cmd : Z) (data : list Z) : M unit :=
  with_mtx (
    chs ← gets (λ s, (hash_order (channels_ s)).*1);
    for_each chs (λ id, send_frame id cmd data)).

Definition broadcast_except (exclude_channel_id cmd : Z) (data : list Z) : M unit :=
  with_mtx (
    chs ← gets (λ s, (hash_order (channels_ s)).*1);
    for_each chs (λ id, if id =? exclude_channel_id then skip else send_frame id cmd data)).

Definition route_packet_to_map (channel_id cmd : Z) (data : list Z) : M unit :=
  mtm ← gets main_thread_manager_;
  match mtm with
  | None => skip
  | Some m =>
      map_id ← get_player_map channel_id;
      modify (λ s, s <| main_thread_manager_ :=
                Some (MainThreadManager.send_packet_to_map map_id channel_id cmd data m) |>)
  end.

(** ** Player handlers *)

Definition str (s : string) : list Z := bytes_of_string s.

(** Entity, components and connection entry of a player who logged in. *)
Definition spawn_player (channel_id : Z) (name : list Z) (db_id : Z) (p : Position)
    (map_id : Z) (health : Health) : M Z :=
  e ← gets (λ s, (create_entity (sh_world (ecs s))).1);
  on_modify_world (λ w, (create_entity w).2) ;;
  on_modify_world (λ w, w <| cm ::= add_component e p |>) ;;
  on_modify_world (λ w, w <| cm ::= add_component e Velocity_default |>) ;;
  on_modify_world (λ w, w <| cm ::= add_component e
    (Player_make name (u32 (if 0 <? db_id then db_id else e)) channel_id (u32 map_id)) |>) ;;
  on_modify_world (λ w, w <| cm ::= add_component e health |>) ;;
  with_mtx (
    modify (λ s, s <| channel_to_entity_ ::= <[channel_id := e]> |>) ;;
    (if 0 <? db_id then modify (λ s, s <| channel_to_db_id_ ::= <[channel_id := db_id]> |>)
     else skip)) ;;
  mret e.

Definition login_without_db (channel_id : Z) (name : list Z) : M unit :=
  e ← gets use_ecs;
  player ← (if e : bool
            then spawn_player channel_id name 0 (mkPosition f0 f0 f0) 1 (Health_.make 100 50)
            else mret 0);
  find_and_send channel_id 1001
    (login_res.serialize (login_res.mk true (str "ok") (u32 player) 1)).

Definition handle_login (channel_id : Z) (data : list Z) : M unit :=
  parsed (login_req.parse data) skip (λ req,
    redis ← gets redis_client_;
    if redis && negb (bool_decide (login_req.session_token req = []))
       && bool_decide (player_id_by_token (login_req.session_token req) = None)
    then find_and_send channel_id 1001
           (login_res.serialize (login_res.mk false (str "invalid_token") 0 0))
    else
      dao ← gets player_dao_;
      if dao : bool then
        strand ← with_mtx (gets (λ s, bool_decide (channel_id ∈ db_strands_ s)));
        if strand : bool
        then modify (λ s, s <| posted_ ::= λ l,
                       l ++ [LoginJob channel_id (login_req.player_name req)] |>)
        else skip
      else login_without_db channel_id (login_req.player_name req)).

(** The completion posted back to the io_context once the database answered. *)
Definition login_done (rec : option PlayerRecord) (channel_id : Z) (name : list Z) : M unit :=
  ch ← with_mtx (connected channel_id);
  if negb ch then skip else
  match rec with
  | None => find_and_send channel_id 1001
              (login_res.serialize (login_res.mk false (str "db_error") 0 0))
  | Some r =>
      e ← gets use_ecs;
      player ← (if e : bool
                then spawn_player channel_id name (r_id r) (mkPosition (r_x r) (r_y r) (r_z r))
                       (r_map_id r) ((Health_.make (u32 (r_max_hp r)) 50) <| hp := u32 (r_hp r) |>)
                else mret 0);
      find_and_send channel_id 1001 (login_res.serialize (login_res.mk true (str "ok")
        (u32 (if 0 <? r_id r then r_id r else player)) (u32 (r_map_id r))))
  end.

Definition handle_move (channel_id : Z) (data : list Z) : M unit :=
  parsed (player_move_req.parse data) skip (λ req,
    mtm ← gets main_thread_manager_;
    match mtm with
    | Some _ => route_packet_to_map channel_id 0x1001 data
    | None =>
        e ← gets use_ecs;
        (if e : bool then
           player_entity ← with_mtx (gets (λ s, default 0 (channel_to_entity_ s !! channel_id)));
           if player_entity =? 0 then skip
           else on_modify_world (λ w, w <| cm ::= update_component (λ _,
                  mkPosition (f32_of_bits (player_move_req.x req))
                    (f32_of_bits (player_move_req.y req))
                    (f32_of_bits (player_move_req.z req))) player_entity |>)
         else skip) ;;
        let bcast := shared.write_le32 [] (u32 channel_id) in
        let bcast := shared.write_float_le bcast (player_move_req.x req) in
        let bcast := shared.write_float_le bcast (player_move_req.y req) in
        let bcast := shared.write_float_le bcast (player_move_req.z req) in
        broadcast_except channel_id 1002 bcast ;;
        send_test_frame channel_id 1002 (str "ok")
    end).

Definition handle_chat (channel_id : Z) (data : list Z) : M unit :=
  mtm ← gets main_thread_manager_;
  match mtm with
  | Some m => modify (λ s, s <| main_thread_manager_ :=
                        Some (MainThreadManager.handle_global_chat channel_id data m) |>)
  | None =>
      broadcast 1003 (shared.write_le32 [] (u32 channel_id) ++ data) ;;
      send_test_frame channel_id 1003 (str "CHAT_SUCCESS")
  end.

Definition handle_attack (channel_id : Z) (data : list Z) : M unit :=
  parsed (attack_req.parse data) skip (λ req,
    let target_channel := i32 (attack_req.target_id req) in
    es ← with_mtx (gets (λ s, (default 0 (channel_to_entity_ s !! channel_id),
                               default 0 (channel_to_entity_ s !! target_channel))));
    let '(attacker_entity, target_entity) := es in
    if (attacker_entity =? 0) || (target_entity =? 0) then
      send_test_frame channel_id 1004
        (attack_res.serialize (attack_res.mk false (str "target not found") 0 0 0))
    else
      (* [initialize] has registered the CombatSystem, so [combat] is not null *)
      let damage := u32 (10 + u32 (attack_req.skill_id req * 5)) in
      on_modify_world (λ w, w <| cm ::= CombatSystem.take_damage target_entity damage |>) ;;
      remaining_hp ← gets (λ s, CombatSystem.get_hp target_entity (cm (sh_world (ecs s))));
      let target_dead := remaining_hp =? 0 in
      send_test_frame channel_id 1004 (attack_res.serialize
        (attack_res.mk true (if target_dead then str "killed" else str "hit") 1 damage
           remaining_hp)) ;;
      broadcast_except channel_id 1004 (damage_notify.serialize
        (damage_notify.mk (u32 channel_id) (attack_req.target_id req) damage remaining_hp 1
           (attack_req.timestamp req))) ;;
      if target_dead then
        on_modify_world (destroy_entity target_entity) ;;
        with_mtx (modify (λ s, s <| channel_to_entity_ ::= delete target_channel |>))
      else skip).

Definition handle_map_enter (channel_id : Z) (data : list Z) : M unit :=
  parsed (map_enter_req.parse data) skip (λ req,
    let target_map_id := i32 (map_enter_req.map_id req) in
    map_cfg ← gets (λ s, list_find (λ c, mc_id c = target_map_id) (config_maps s));
    match map_cfg with
    | None => send_test_frame channel_id 1005 (map_enter_res.serialize
                (map_enter_res.mk false (str "map not found") 0 [] 0 0 0 0))
    | Some (_, cfg) =>
        mtm ← gets main_thread_manager_;
        match mtm with
        | Some _ =>
            current_map ← get_player_map channel_id;
            if current_map =? target_map_id then skip
            else update_player_map channel_id target_map_id
        | None => skip
        end ;;
        with_mtx (
          e ← gets (λ s, channel_to_entity_ s !! channel_id);
          match e with
          | Some e => on_modify_world (λ w, w <| cm ::=
                        update_component (λ p, p <| pl_map_id := u32 target_map_id |>) e |>)
          | None => skip
          end) ;;
        send_test_frame channel_id 1005 (map_enter_res.serialize
          (map_enter_res.mk true (str "ok") (map_enter_req.map_id req) (mc_name cfg)
             (map_enter_req.x req) (map_enter_req.y req) (map_enter_req.z req) 0))
    end).

(** ** Guild handlers (under [guild_mutex_], which nothing else takes) *)

Definition handle_guild_create (channel_id : Z) (data : list Z) : M unit :=
  parsed (guild_create_req.parse data) skip (λ req,
    g ← gets (λ s, channel_to_guild_ s !! channel_id);
    match g with
    | Some _ => send_test_frame channel_id 2001
                  (guild_create_res.serialize (guild_create_res.mk false (str "already in a guild") 0))
    | None =>
        guild_id ← gets next_guild_id_;
        modify (λ s, s <| next_guild_id_ := u32 (guild_id + 1) |>
          <| guilds_ ::= <[guild_id := mkGuild guild_id (guild_create_req.guild_name req)
               (guild_create_req.guild_description req) channel_id [channel_id]]> |>
          <| channel_to_guild_ ::= <[channel_id := guild_id]> |>) ;;
        send_test_frame channel_id 2001
          (guild_create_res.serialize (guild_create_res.mk true (str "ok") guild_id))
    end).

Definition handle_guild_join (channel_id : Z) (data : list Z) : M unit :=
  parsed (guild_join_req.parse data) skip (λ req,
    git ← gets (λ s, guilds_ s !! guild_join_req.guild_id req);
    cg ← gets (λ s, channel_to_guild_ s !! channel_id);
    match git, cg with
    | None, _ => send_test_frame channel_id 2002
                   (guild_join_res.serialize (guild_join_res.mk false (str "guild not found") 0))
    | _, Some _ => send_test_frame channel_id 2002
                     (guild_join_res.serialize (guild_join_res.mk false (str "already in a guild") 0))
    | Some _, None =>
        modify (λ s, s
          <| guilds_ ::= alter (λ g, g <| members ::= λ l, l ++ [channel_id] |>)
               (guild_join_req.guild_id req) |>
          <| channel_to_guild_ ::= <[channel_id := guild_join_req.guild_id req]> |>) ;;
        send_test_frame channel_id 2002
          (guild_join_res.serialize (guild_join_res.mk true (str "ok") 0))
    end).

(** [members.erase(std::remove(...))], and the guild itself when it is empty. *)
Definition leave_guild (channel_id guild_id : Z) (gs : gmap Z GuildData) : gmap Z GuildData :=
  match gs !! guild_id with
  | None => gs
  | Some g =>
      let rest := filter (λ c, c ≠ channel_id) (members g) in
      match rest with
      | [] => delete guild_id gs
      | _ => <[guild_id := g <| members := rest |>]> gs
      end
  end.

Definition handle_guild_leave (channel_id : Z) (data : list Z) : M unit :=
  cit ← gets (λ s, channel_to_guild_ s !! channel_id);
  match cit with
  | None => skip
  | Some guild_id =>
      modify (λ s, s <| channel_to_guild_ ::= delete channel_id |>
                     <| guilds_ ::= leave_guild channel_id guild_id |>) ;;
      send_test_frame channel_id 2003
        (guild_leave_res.serialize (guild_leave_res.mk true (str "ok")))
  end.

(** ** Dispatch *)

Definition bind_handler (msg_id : Z) (h : handler) (t : gmap Z handler) : gmap Z handler :=
  <[msg_id := h]> t.
Definition unbind (msg_id : Z) (t : gmap Z handler) : gmap Z handler := delete msg_id t.

Definition handle_ping (channel_id : Z) : M unit := find_and_send channel_id 2 (str "PONG").
Definition handle_echo (channel_id : Z) (data : list Z) : M unit := find_and_send channel_id 100 data.

Definition call (h : handler) (channel_id : Z) (data : list Z) : M unit :=
  match h with
  | HPing => handle_ping channel_id
  | HEcho => handle_echo channel_id data
  | HLogin => handle_login channel_id data
  | HMove => handle_move channel_id data
  | HChat => handle_chat channel_id data
  | HAttack => handle_attack channel_id data
  | HMapEnter => handle_map_enter channel_id data
  | HGuildCreate => handle_guild_create channel_id data
  | HGuildJoin => handle_guild_join channel_id data
  | HGuildLeave => handle_guild_leave channel_id data
  end.

Definition dispatch (msg_id channel_id : Z) (data : list Z) : M unit :=
  h ← gets (λ s, table_ s !! msg_id);
  match h with Some h => call h channel_id data | None => skip end.

Definition bind_player_handlers (t : gmap Z handler) : gmap Z handler :=
  bind_handler 1005 HMapEnter (bind_handler 1004 HAttack (bind_handler 1003 HChat
    (bind_handler 1002 HMove (bind_handler 1001 HLogin t)))).
Definition bind_guild_handlers (t : gmap Z handler) : gmap Z handler :=
  bind_handler 2003 HGuildLeave (bind_handler 2002 HGuildJoin (bind_handler 2001 HGuildCreate t)).

(** ** Start-up, flush *)

Definition initialize_threading_system (maps : list MapConfig) (s : shared)
    : MainThreadManager.t * shared :=
  foldl (λ '(m, s) c, MainThreadManager.create_map_thread (mc_id c) (mc_name c) m s)
    (MainThreadManager.start MainThreadManager.make, s) maps.

(** [init], for a build with or without a database, and the outcome of the
    database and Redis connections. *)
Definition init (ecs_on : bool) (maps : list MapConfig) (mysql dao redis : bool) : server :=
  let sh := Shared new_world 42 in
  let '(mtm, sh) := if ecs_on
                    then let '(m, sh) := initialize_threading_system maps sh in (Some m, sh)
                    else (None, sh) in
  mk ecs_on maps false ∅ ∅
    (bind_guild_handlers (bind_player_handlers (bind_handler 100 HEcho (bind_handler 1 HPing ∅))))
    mtm ∅ mysql dao ∅ ∅ redis ∅ ∅ 1 sh [] [] [] [].

(** [stop]: the jobs already posted are run to the end by [db_pool_->join()]. *)
Definition stop : M unit :=
  modify (λ s, s <| main_thread_manager_ := None |> <| player_dao_ := false |>) ;;
  with_mtx (modify (λ s, s <| channels_ := ∅ |>)).

(** 0.016f; nothing calls [on_tick]. *)
Definition on_tick : M unit :=
  e ← gets use_ecs;
  if e : bool
  then game_service ;; modify (λ s, s <| ecs ::= MainThreadManager.update_ecs update_systems (f32_of_bits 0x3C83126F) |>)
  else skip.

(** The jobs for the players whose entity and strand were found. *)
Fixpoint collect_entries (found : list (Z * Z)) : M (list db_job) :=
  match found with
  | [] => mret []
  | (db_id, entity) :: found =>
      pos ← get_comp Position entity;
      pl ← get_comp Player entity;
      let p := default (mkPosition f0 f0 f0) pos in
      let map_id := match pl with Some p => i32 (pl_map_id p) | None => 1 end in
      jobs ← collect_entries found;
      mret (FlushJob db_id (pos_x p) (pos_y p) (pos_z p) map_id :: jobs)
  end.

Definition flush_players : M unit :=
  dao ← gets player_dao_;
  if negb dao then skip else
  jobs ← with_mtx (
    found ← gets (λ s, omap (λ '(ch, db_id),
      if bool_decide (ch ∈ db_strands_ s) then pair db_id <$> channel_to_entity_ s !! ch else None)
      (hash_order (channel_to_db_id_ s)));
    collect_entries found);
  modify (λ s, s <| posted_ ::= λ l, l ++ jobs |>).

(** ** Events

    What drives the server: a connection is accepted, an asynchronous operation
    of a connected channel completes (bytes read, bytes written, a timer), the
    database has answered a login, the flush timer expires, or the main thread
    or the thread of a map runs one iteration of its loop.  The callbacks a
    channel makes are run in order after its own step; the ones that end up in
    [send] touch only the send side, which the receive loop does not read. *)

Inductive event :=
| Accept (channel_id now : Z)
| Io (channel_id : Z) (o : asio_channel.op)
| LateFrame (channel_id cmd : Z) (data : list Z)    (* read before its channel was closed *)
| LoginDone (rec : option PlayerRecord) (channel_id : Z) (name : list Z)
| Flush
| MainLoop (delta_time : f32)
| MapLoop (map_id : Z) (delta_time : f32).

(** One iteration of [MainThreadManager::main_loop]. *)
Definition main_loop (delta_time : f32) : M unit :=
  modify (λ s,
    match main_thread_manager_ s with
    | Some m =>
        let '(m, sh) := MainThreadManager.loop_body update_systems delta_time m (ecs s) in
        s <| main_thread_manager_ := Some m |> <| ecs := sh |>
    | None => s
    end).

(** One iteration of [MapThread::thread_loop]. *)
Definition map_loop (map_id : Z) (delta_time : f32) : M unit :=
  modify (λ s,
    match main_thread_manager_ s with
    | Some m =>
        let mgr := MainThreadManager.map_thread_manager_ m in
        match MapThreadManager.map_threads_ mgr !! map_id with
        | Some mt =>
            let '(_, (mt, sh)) := MapThread.loop_body delta_time mt (ecs s) in
            s <| main_thread_manager_ := Some (m <| MainThreadManager.map_thread_manager_ :=
                   mgr <| MapThreadManager.map_threads_ ::= <[map_id := mt]> |> |>) |>
              <| ecs := sh |>
        | None => s
        end
    | None => s
    end).

(** The callbacks [do_accept] installs in a channel. *)
Definition callback (e : asio_channel.effect) : M unit :=
  match e with
  | asio_channel.OnFrame id cmd payload => dispatch cmd id payload
  | asio_channel.HandlerClose id reason => on_close id reason
  | asio_channel.CloseCallback id _ => close_callback id
  | _ => skip
  end.

(** The other virtual functions of [net_handler]: messages with their header, and
    without, go to the dispatcher; the rest is logged or left at the empty default. *)
Record message_meta := mkMeta { meta_flags : Z; meta_ver : Z; meta_seq : Z; meta_crc : Z }.
Definition message_meta_default : message_meta := mkMeta 0 1 0 0.
Definition on_message (channel_id cmd : Z) (payload : list Z) : M unit := dispatch cmd channel_id payload.
Definition on_message_ex (channel_id cmd : Z) (payload : list Z) (_ : message_meta) : M unit :=
  on_message channel_id cmd payload.
Definition on_channel_init (_ : Z) (_ : bool) : M unit := skip.
Definition on_channel_destroy (_ : Z) : M unit := skip.
Definition on_connect (_ : Z) : M unit := skip.
Definition on_error (_ : Z) : M unit := skip.
Definition on_flush (_ _ : Z) : M unit := skip.

Definition channel_io (channel_id : Z) (o : asio_channel.op) : M unit := λ s,
  match channels_ s !! channel_id with
  | None => Done tt s
  | Some c =>
      match asio_channel.step o c with
      | None => Undefined
      | Some (c, es) => for_each es callback (s <| channels_ ::= <[channel_id := c]> |>)
      end
  end.

Definition step (ev : event) : M unit :=
  match ev with
  | Accept id now => on_accept id (asio_channel.start now (asio_channel.new_channel id)).1
  | Io id o => channel_io id o
  | LateFrame id cmd data => dispatch cmd id data
  | LoginDone r id name => login_done r id name
  | Flush => flush_players
  | MainLoop delta_time => main_loop delta_time
  | MapLoop map_id delta_time => map_loop map_id delta_time
  end.

Fixpoint run (evs : list event) : M unit :=
  match evs with
  | [] => skip
  | ev :: evs => step ev ;; run evs
  end.

End server.
#[global] Arguments channel_closed : simpl never.
End game_server.
