(* ===== verification/GameServerLaws.v ===== *)
(** * What the game server guarantees

    A small calculus for handlers (what a computation leaves unchanged, on
    every path, without undefined behaviour), the guild invariant over whole
    runs, and the functional behaviour of the player handlers. *)

From S2P Require Import Prelude FrameCodec Channel Floats Components Ecs Systems Threads.
From S2P Require Import ProtocolBase ProtocolPlayer ProtocolCombat ProtocolMap ProtocolGuild GameServer.
Import game_server.

(** ** A calculus of frames *)

(** Without the ECS there is no player entity; [b] tells which mode it is. *)
Definition sane (b : bool) (s : server) : Prop :=
  use_ecs s = b ∧ (b = false → channel_to_entity_ s = ∅).

Lemma sane_entity s ch e : sane false s → channel_to_entity_ s !! ch = Some e → False.
Proof. intros [_ Hs] He. by rewrite Hs, lookup_empty in He. Qed.

(** [keeps b v m]: run from any sane state, [m] does not go wrong, and if it
    returns, it has not changed the view [v] and left a sane state. *)
Section keeps.
Context {T : Type} (b : bool) (v : server → T).

Definition keeps {A} (m : M A) : Prop := ∀ s, sane b s →
  match m s with Done _ s' => v s' = v s ∧ sane b s' | Deadlock => True | Undefined => False end.

Lemma keeps_ret {A} (a : A) : keeps (mret a).
Proof. done. Qed.
Lemma keeps_skip : keeps skip.
Proof. done. Qed.
Lemma keeps_gets {A} (f : server → A) : keeps (gets f).
Proof. done. Qed.
Lemma keeps_modify f : (∀ s, sane b s → v (f s) = v s ∧ sane b (f s)) → keeps (modify f).
Proof. intros Hf s. apply Hf. Qed.
Lemma keeps_bind_post {A B} (Q : A → Prop) (m : M A) (f : A → M B) :
  (∀ s, sane b s → match m s with
    | Done a s' => (v s' = v s ∧ sane b s') ∧ Q a | Deadlock => True | Undefined => False end) →
  (∀ a, Q a → keeps (f a)) → keeps (m ≫= f).
Proof.
  intros Hm Hf s Hs. specialize (Hm s Hs). unfold mbind, M_bind.
  destruct (m s) as [a s1| |]; [|done|done]. destruct Hm as [[Hv Hs1] HQ]. specialize (Hf a HQ s1 Hs1).
  destruct (f a s1); [|done|done]. destruct Hf. split; [congruence|done].
Qed.
Lemma keeps_bind {A B} (m : M A) (f : A → M B) :
  keeps m → (∀ a, keeps (f a)) → keeps (m ≫= f).
Proof.
  intros Hm Hf. apply (keeps_bind_post (λ _, True)); [|auto].
  intros s Hs. specialize (Hm s Hs). by destruct (m s).
Qed.
(** What is read from a sane state is known to the rest. *)
Lemma keeps_gets_bind {A B} (f : server → A) (k : A → M B) :
  (∀ s, sane b s → keeps (k (f s))) → keeps (gets f ≫= k).
Proof. intros Hk s Hs. exact (Hk s Hs s Hs). Qed.
Lemma keeps_with_mtx {A} (m : M A) :
  (∀ s b, v (s <| mtx_ := b |>) = v s) → keeps m → keeps (with_mtx m).
Proof.
  intros Hv Hm s Hs. unfold with_mtx. destruct (mtx_ s); [done|].
  assert (sane b (s <| mtx_ := true |>)) as Hs1 by exact Hs. specialize (Hm _ Hs1).
  destruct (m _); [|done|done].
  rewrite Hv. destruct Hm as [Hm Hs']. rewrite Hm, Hv. split; [done|exact Hs'].
Qed.
Lemma keeps_locked_gets_bind {A B} (f : server → A) (k : A → M B) :
  (∀ s b, v (s <| mtx_ := b |>) = v s) →
  (∀ s, sane b s → keeps (k (f s))) → keeps (with_mtx (gets f) ≫= k).
Proof.
  intros Hv Hk. apply (keeps_bind_post (λ a, ∃ s, sane b s ∧ a = f s)).
  - intros s Hs. unfold with_mtx, gets. destruct (mtx_ s); [done|].
    split; [|exists (s <| mtx_ := true |>); split; [exact Hs|done]].
    split; [|exact Hs]. by rewrite !Hv.
  - intros a (s & Hs & ->). by apply Hk.
Qed.
Lemma keeps_for_each {A} (l : list A) (f : A → M unit) :
  (∀ x, keeps (f x)) → keeps (for_each l f).
Proof.
  intros Hf. induction l as [|x l IH]; [apply keeps_skip|]. by apply keeps_bind.
Qed.
Lemma keeps_parsed {A} (r : ProtocolBase.outcome A) bad k :
  r ≠ POob → keeps bad → (∀ a, keeps (k a)) → keeps (parsed r bad k).
Proof. intros Hr Hb Hk. destruct r; [apply Hk|done|done]. Qed.

End keeps.

(** With the ECS on, its state can be used. *)
Lemma keeps_game_service {T} (v : server → T) : keeps true v game_service.
Proof. intros s [Hs Hc]. unfold game_service. rewrite Hs. by repeat split. Qed.

Lemma for_each_cons {A} (x : A) l f s :
  for_each (x :: l) f s =
    match f x s with
    | Done _ s' => for_each l f s'
    | Deadlock => Deadlock
    | Undefined => Undefined
    end.
Proof. done. Qed.

Lemma gets_bind {A B} (f : server → A) (k : A → M B) s : (gets f ≫= k) s = k (f s) s.
Proof. done. Qed.

Create HintDb keeps.
#[export] Hint Resolve keeps_ret keeps_skip keeps_gets keeps_for_each keeps_game_service : keeps.

(** Follow the structure of a handler. *)
Ltac solve_keeps :=
  repeat first
    [ progress intros
    | solve [eauto with keeps nocore]
    | match goal with |- keeps _ _ (mbind _ _) => apply keeps_bind end
    | apply keeps_with_mtx; [done|]
    | apply keeps_modify; let Hs := fresh in intros ? Hs; split;
        [done|first [exact Hs|split; [apply Hs|discriminate]]]
    | case_match ].

(** How the server was set up. *)
Definition mode (s : server) :=
  (use_ecs s, config_maps s, table_ s, player_dao_ s, redis_client_ s, db_pool_ s,
   bool_decide (is_Some (main_thread_manager_ s))).

(** What the handlers other than the guild handlers leave alone. *)
Definition stable_view (s : server) :=
  (guilds_ s, channel_to_guild_ s, next_guild_id_ s, mode s).

(** ** Guilds

    [k] is a bound for the guild id to be handed out next. *)
Record guild_ok (k : Z) (gs : gmap Z GuildData) (cg : gmap Z Z) (next : Z) : Prop := {
  go_next : 1 ≤ next ≤ k;
  go_guild : ∀ g G, gs !! g = Some G →
    g_id G = g ∧ 1 ≤ g < next ∧ NoDup (members G) ∧ members G ≠ [];
  go_members : ∀ ch g, cg !! ch = Some g ↔ ∃ G, gs !! g = Some G ∧ ch ∈ members G
}.

Lemma guild_ok_init : guild_ok 1 ∅ ∅ 1.
Proof.
  split; [lia|intros ??; by rewrite lookup_empty|]. intros ch g. rewrite lookup_empty.
  split; [done|]. intros (G & HG & _). by rewrite lookup_empty in HG.
Qed.

Lemma guild_ok_mono k k' gs cg n : k ≤ k' → guild_ok k gs cg n → guild_ok k' gs cg n.
Proof. intros ? [? ? ?]. split; [lia|done|done]. Qed.

Lemma guild_ok_create k gs cg n ch name descr :
  guild_ok k gs cg n → cg !! ch = None → k + 1 < 2 ^ 32 →
  guild_ok (k + 1) (<[n := mkGuild n name descr ch [ch]]> gs) (<[ch := n]> cg) (u32 (n + 1)).
Proof.
  intros [Hn Hg Hm] Hch Hk. rewrite u32_small by (int_unfold; lia).
  assert (gs !! n = None) as Hfree.
  { destruct (gs !! n) as [G|] eqn:HG; [|done]. apply Hg in HG. lia. }
  split; [lia|..].
  - intros g G [[<- <-]|[Hne HG]]%lookup_insert_Some; cbn.
    + split_and!; try (done || lia). apply NoDup_singleton.
    + apply Hg in HG as (? & ? & ? & ?). split_and!; try done; lia.
  - intros c g. rewrite lookup_insert_Some, Hm. setoid_rewrite lookup_insert_Some.
    split; [intros [[<- <-]|(Hne & G & HG & Hc)]|intros (G & [[<- <-]|[Hne HG]] & Hc)].
    + eexists. split; [by left|]. cbn. set_solver.
    + exists G. split; [right|done]. split; [congruence|done].
    + cbn in Hc. left. split; [set_solver|done].
    + assert (cg !! c = Some g) as Hcg by (apply Hm; eauto).
      right. split; [congruence|eauto].
Qed.

Lemma guild_ok_join k gs cg n ch g G :
  guild_ok k gs cg n → cg !! ch = None → gs !! g = Some G →
  guild_ok k (alter (λ g, g <| members ::= λ l, l ++ [ch] |>) g gs) (<[ch := g]> cg) n.
Proof.
  intros [Hn Hg Hm] Hch HG.
  assert (ch ∉ members G) as Hnew.
  { intros Hin. assert (cg !! ch = Some g) by (apply Hm; eauto). congruence. }
  split; [done|..].
  - intros g' G' [(<- & G0 & HG0 & ->)|[Hne HG']]%lookup_alter_Some; [|by apply Hg].
    destruct (Hg _ _ HG0) as (? & ? & ? & ?). cbn. split_and!; try (done || lia).
    + apply NoDup_app. split_and!; [done| |apply NoDup_singleton]. set_solver.
    + by destruct (members G0).
  - intros c g'. rewrite lookup_insert_Some, Hm. setoid_rewrite lookup_alter_Some.
    split; [intros [[<- <-]|(Hne & G' & HG' & Hc)]
           |intros (G' & [(<- & G0 & HG0 & ->)|[Hne HG']] & Hc)].
    + eexists. split; [left; eauto|]. cbn. set_solver.
    + destruct (decide (g = g')) as [<-|]; [|by eauto 10].
      eexists. split; [left; eauto|]. cbn. set_solver.
    + cbn in Hc. apply elem_of_app in Hc as [Hc|Hc%list_elem_of_singleton]; [|by left].
      right. split; [|eauto]. simplify_eq. intros <-. done.
    + right. split; [|eauto]. intros <-. assert (cg !! ch = Some g') by (apply Hm; eauto). congruence.
Qed.

Lemma guild_ok_leave k gs cg n ch g :
  guild_ok k gs cg n → cg !! ch = Some g →
  guild_ok k (leave_guild ch g gs) (delete ch cg) n.
Proof.
  intros [Hn Hg Hm] Hch. destruct (proj1 (Hm _ _) Hch) as (G & HG & Hin).
  unfold leave_guild. rewrite HG. set (rest := filter _ _).
  assert (∀ c, c ∈ rest ↔ c ≠ ch ∧ c ∈ members G) as Hrest
    by (intros; unfold rest; by rewrite list_elem_of_filter).
  assert (∀ c g' G', gs !! g' = Some G' → c ∈ members G' → g' ≠ g → c ≠ ch) as Hother.
  { intros c g' G' HG' Hc Hne ->. assert (cg !! ch = Some g') by (apply Hm; eauto). congruence. }
  split; [done|..].
  - destruct (Hg _ _ HG) as (? & ? & Hnd & ?). intros g' G'.
    assert (NoDup rest) by (by apply NoDup_filter).
    destruct rest; [intros [_ ?]%lookup_delete_Some; by apply Hg|].
    intros [[<- <-]|[? ?]]%lookup_insert_Some; [|by apply Hg]. cbn. split_and!; done || lia.
  - intros c g'. rewrite lookup_delete_Some, Hm.
    destruct rest as [|r0 r]; setoid_rewrite lookup_delete_Some || setoid_rewrite lookup_insert_Some.
    + split; [intros (Hne & G' & HG' & Hc)|intros (G' & [Hne HG'] & Hc)]; [|naive_solver].
      exists G'. split; [|done]. split; [|done]. intros <-. simplify_eq. set_solver.
    + split; [intros (Hne & G' & HG' & Hc)|intros (G' & [[<- <-]|[Hne HG']] & Hc)].
      * destruct (decide (g = g')) as [<-|]; [|by eauto 10].
        simplify_eq. eexists. split; [by left|]. cbn [members]. apply Hrest. auto.
      * cbn in Hc. apply Hrest in Hc as [? ?]. eauto.
      * split; [|eauto]. intros <-. naive_solver.
Qed.

Section laws.
Context `{HashOrder} `{PriorityQueue} {AO : ArgOrder}.
Context (token : list Z → option Z) (upd : f32 → world → world).

Lemma keeps_on_modify_world f : keeps true stable_view (on_modify_world f).
Proof. unfold on_modify_world. solve_keeps. Qed.
#[local] Hint Resolve keeps_on_modify_world : keeps.

Lemma keeps_get_comp {T} `{ComponentType T} e : keeps true stable_view (get_comp T e).
Proof. unfold get_comp. solve_keeps. Qed.
#[local] Hint Resolve keeps_get_comp : keeps.

Lemma keeps_post_save e d : keeps true stable_view (post_save e d).
Proof. unfold post_save. solve_keeps. Qed.
#[local] Hint Resolve keeps_post_save : keeps.

(** A closed channel has an entity only if the ECS is on. *)
Lemma keeps_on_close {b} id r : keeps b stable_view (on_close id r).
Proof.
  unfold on_close. apply (keeps_bind_post _ _ (λ x, b = false → x.1.1 = 0)).
  - intros s [Hu Hs]. unfold with_mtx, gets, modify, mbind, M_bind, mret, M_ret.
    destruct (mtx_ s); [done|].
    split; [split; [reflexivity|split; [exact Hu|]]|]; intros Hb.
    + change (delete id (channel_to_entity_ s) = ∅). by rewrite (Hs Hb), delete_empty.
    + change (default 0 (channel_to_entity_ s !! id) = 0). by rewrite (Hs Hb), lookup_empty.
  - intros [[e d] st] He. cbn in He. destruct b; [solve_keeps|]. rewrite (He eq_refl). change (negb (0 =? 0)) with false.
    apply keeps_bind; [apply keeps_gets|]. intros dao. rewrite andb_false_r. cbn. solve_keeps.
Qed.

(** Everything but the lock, the channels and the record of what was sent. *)
Definition core (s : server) : server :=
  s <| mtx_ := false |> <| channels_ := ∅ |> <| sent_ := [] |>.

(** [m] changes nothing else, from any state. *)
Definition keeps_core {A} (m : M A) : Prop := ∀ s,
  match m s with Done _ s' => core s' = core s | Deadlock => True | Undefined => False end.

Lemma core_keeps {A T} b (v : server → T) (m : M A) :
  (∀ s, v (core s) = v s) → keeps_core m → keeps b v m.
Proof.
  intros Hv Hm s [Hu Hs]. specialize (Hm s). destruct (m s) as [a s'| |]; [|done|done].
  split; [by rewrite <- Hv, Hm, Hv|].
  apply (f_equal (λ s, (use_ecs s, channel_to_entity_ s))) in Hm as [= Hu' Hc'].
  unfold sane. rewrite Hu', Hc'. done.
Qed.

(** The close callbacks only leave a note for the network server. *)
Lemma close_callbacks_run l s :
  for_each l close_callback s = Done tt (s <| removed_ ::= λ r, r ++ l |>).
Proof.
  revert s. induction l as [|id l IH]; intros s.
  - cbn. by rewrite app_nil_r; destruct s.
  - change (for_each l close_callback (s <| removed_ ::= λ r, r ++ [id] |>)
      = Done tt (s <| removed_ ::= λ r, r ++ id :: l |>)).
    rewrite IH. cbn. by rewrite <- app_assoc.
Qed.

Lemma channel_closed_run id r l s :
  channel_closed id r l s =
  match on_close id r s with
  | Done _ s' => Done tt (s' <| removed_ ::= λ rs, rs ++ l |>)
  | Deadlock => Deadlock
  | Undefined => Undefined
  end.
Proof.
  unfold channel_closed, mbind, M_bind. destruct (on_close id r s) as [u s'| |]; [|done..].
  apply close_callbacks_run.
Qed.

(** Sending to a connected channel does not go wrong; while the lock is held it
    deadlocks, or changes that channel only. *)
Lemma send_frame_locked id msg data s :
  is_Some (channels_ s !! id) → mtx_ s = true →
  match send_frame id msg data s with
  | Done _ s' => core s' = core s ∧ mtx_ s' = true ∧ dom (channels_ s') = dom (channels_ s)
  | Deadlock => True
  | Undefined => False
  end.
Proof.
  intros [c Hc] Hm. unfold send_frame, modify, mbind, M_bind, channel_send. cbn. rewrite Hc.
  destruct (asio_channel.send _ c) as [c' es]. destruct (asio_channel.close_events es) as [|r ?].
  - split_and!; [done|done|]. cbn. rewrite dom_insert_lookup_L; [done|by exists c].
  - rewrite channel_closed_run. unfold on_close, mbind, M_bind, with_mtx. cbn. by rewrite Hm.
Qed.

Lemma send_frame_free {b} id msg data s :
  is_Some (channels_ s !! id) → sane b s →
  match send_frame id msg data s with
  | Done _ s' => stable_view s' = stable_view s ∧ sane b s'
  | Deadlock => True
  | Undefined => False
  end.
Proof.
  intros [c Hc] Hs. unfold send_frame, modify, mbind, M_bind, channel_send. cbn. rewrite Hc.
  destruct (asio_channel.send _ c) as [c' es]. destruct (asio_channel.close_events es) as [|r ?].
  - split; [done|exact Hs].
  - match goal with |- context [channel_closed id r ?l ?x] =>
      rewrite (channel_closed_run id r l x); pose proof (keeps_on_close id r x Hs) as Hk end.
    destruct (on_close _ _ _) as [u s1| |]; [|done|done]. exact Hk.
Qed.

Lemma keeps_find_and_send {b} id msg data : keeps b stable_view (find_and_send id msg data).
Proof.
  intros s Hs. unfold find_and_send, mbind, M_bind, with_mtx, connected, gets.
  destruct (mtx_ s); [done|]. destruct (bool_decide _) eqn:Hb; [|split; [done|exact Hs]].
  apply bool_decide_eq_true in Hb.
  set (s1 := s <| mtx_ := true |> <| mtx_ := false |>).
  assert (sane b s1) as Hs1 by exact Hs. exact (send_frame_free id msg data s1 Hb Hs1).
Qed.

(** A body that, run with the lock held, keeps the core. *)
Lemma keeps_core_locked {A} (m : M A) :
  (∀ s, mtx_ s = true →
    match m s with Done _ s' => core s' = core s | Deadlock => True | Undefined => False end) →
  keeps_core (with_mtx m).
Proof.
  intros Hm s. unfold with_mtx. destruct (mtx_ s); [done|].
  specialize (Hm (s <| mtx_ := true |>) eq_refl). by destruct (m _).
Qed.

Lemma send_test_frame_core id msg data : keeps_core (send_test_frame id msg data).
Proof.
  apply keeps_core_locked. intros s Hm. unfold connected. rewrite gets_bind.
  destruct (bool_decide _) eqn:Hb; [|done]. apply bool_decide_eq_true in Hb.
  pose proof (send_frame_locked id msg data s Hb Hm) as Hs.
  destruct (send_frame id msg data s); [|done|done]. by apply Hs.
Qed.

Lemma hash_keys_dom (s : server) : Forall (λ i, i ∈ dom (channels_ s)) (hash_order (channels_ s)).*1.
Proof.
  apply Forall_forall. intros i Hi. apply list_elem_of_fmap in Hi as ([j c] & -> & Hj).
  rewrite hash_order_perm in Hj. apply elem_of_map_to_list in Hj. apply elem_of_dom. by exists c.
Qed.

Lemma broadcast_loop_core (f : Z → M unit) :
  (∀ i, f i = skip ∨ ∃ msg data, f i = send_frame i msg data) →
  keeps_core (with_mtx (chs ← gets (λ s, (hash_order (channels_ s)).*1); for_each chs f)).
Proof.
  intros Hf. apply keeps_core_locked. intros s Hm. rewrite gets_bind.
  pose proof (hash_keys_dom s) as Hin. revert Hin. generalize (hash_order (channels_ s)).*1 as ids.
  intros ids. revert s Hm. induction ids as [|i ids IH]; intros s Hm Hin; [done|].
  apply Forall_cons in Hin as [Hi Hin]. rewrite for_each_cons.
  destruct (Hf i) as [-> |(msg & data & ->)]; [by apply IH|].
  apply elem_of_dom in Hi. pose proof (send_frame_locked i msg data s Hi Hm) as Hs.
  destruct (send_frame i msg data s) as [a s1| |]; [|done|done]. destruct Hs as (Hg & Hm1 & Hd1).
  specialize (IH s1 Hm1). rewrite Hd1 in IH. specialize (IH Hin).
  destruct (for_each ids f s1); [congruence|done|done].
Qed.

Lemma broadcast_core cmd data : keeps_core (broadcast cmd data).
Proof. apply broadcast_loop_core. eauto. Qed.
Lemma broadcast_except_core ex cmd data : keeps_core (broadcast_except ex cmd data).
Proof. apply broadcast_loop_core. intros i. destruct (i =? ex); eauto. Qed.

Lemma keeps_send_test_frame {b} id msg data : keeps b stable_view (send_test_frame id msg data).
Proof. apply core_keeps, send_test_frame_core; done. Qed.
Lemma keeps_broadcast {b} cmd data : keeps b stable_view (broadcast cmd data).
Proof. apply core_keeps, broadcast_core; done. Qed.
Lemma keeps_broadcast_except {b} ex cmd data : keeps b stable_view (broadcast_except ex cmd data).
Proof. apply core_keeps, broadcast_except_core; done. Qed.

#[local] Hint Resolve keeps_find_and_send keeps_send_test_frame keeps_broadcast
  keeps_broadcast_except keeps_on_close : keeps.

(** ** Which handlers touch the guilds: only the three guild handlers *)

Lemma keeps_spawn_player ch name db p m h : keeps true stable_view (spawn_player ch name db p m h).
Proof. unfold spawn_player. solve_keeps. Qed.
#[local] Hint Resolve keeps_spawn_player : keeps.

Lemma keeps_login_without_db {b} ch name : keeps b stable_view (login_without_db ch name).
Proof.
  unfold login_without_db. apply keeps_gets_bind. intros s [-> _]. destruct b; solve_keeps.
Qed.
#[local] Hint Resolve keeps_login_without_db : keeps.

Lemma keeps_handle_login {b} ch data : keeps b stable_view (handle_login token ch data).
Proof. unfold handle_login. apply keeps_parsed; [exact (mem_safe (M:=login_req.t) data)|..]; solve_keeps. Qed.

Lemma keeps_login_done {b} r ch name : keeps b stable_view (login_done r ch name).
Proof.
  unfold login_done. apply keeps_bind; [unfold connected; solve_keeps|]. intros c.
  destruct (negb c); [solve_keeps|]. destruct r as [r|]; [|solve_keeps].
  apply keeps_gets_bind. intros s [-> _]. destruct b; solve_keeps.
Qed.

Lemma keeps_route {b} ch cmd data : keeps b stable_view (route_packet_to_map ch cmd data).
Proof.
  intros s Hs. unfold route_packet_to_map, get_player_map. rewrite gets_bind.
  destruct (main_thread_manager_ s) eqn:E; [|done]. rewrite gets_bind. cbn.
  unfold stable_view, mode. cbn. by rewrite E.
Qed.
#[local] Hint Resolve keeps_route : keeps.

Lemma keeps_handle_move {b} ch data : keeps b stable_view (handle_move ch data).
Proof.
  unfold handle_move. apply keeps_parsed; [exact (mem_safe (M:=player_move_req.t) data)|solve_keeps|].
  intros req. apply keeps_bind; [apply keeps_gets|]. intros [m|]; [solve_keeps|].
  apply keeps_gets_bind. intros s [-> _]. destruct b; solve_keeps.
Qed.

Lemma keeps_handle_chat {b} ch data : keeps b stable_view (handle_chat ch data).
Proof.
  intros s Hs. unfold handle_chat. rewrite gets_bind.
  destruct (main_thread_manager_ s) eqn:E.
  - cbn. unfold stable_view, mode. cbn. by rewrite E.
  - match goal with |- context [mbind ?f ?m s] =>
      enough (keeps b stable_view (m ≫= f)) as Hk by exact (Hk s Hs) end.
    solve_keeps.
Qed.

Lemma keeps_handle_attack {b} ch data : keeps b stable_view (handle_attack ch data).
Proof.
  unfold handle_attack. apply keeps_parsed; [exact (mem_safe (M:=attack_req.t) data)|solve_keeps|].
  intros req. apply keeps_locked_gets_bind; [done|]. intros s [_ Hs]. destruct b; [solve_keeps|].
  rewrite (Hs eq_refl), !lookup_empty. cbn. solve_keeps.
Qed.

Lemma keeps_set_player_map {b} ch f :
  keeps b stable_view (with_mtx (
    e ← gets (λ s, channel_to_entity_ s !! ch);
    match e with Some e => on_modify_world (f e) | None => skip end)).
Proof.
  apply keeps_with_mtx; [done|]. apply keeps_gets_bind. intros s Hs.
  destruct (channel_to_entity_ s !! ch) eqn:He; [|solve_keeps].
  destruct b; [solve_keeps|]. by destruct (sane_entity _ _ _ Hs He).
Qed.

Lemma keeps_handle_map_enter {b} ch data : keeps b stable_view (handle_map_enter ch data).
Proof.
  unfold handle_map_enter, get_player_map, update_player_map.
  apply keeps_parsed; [exact (mem_safe (M:=map_enter_req.t) data)|solve_keeps|].
  intros req. apply keeps_bind; [apply keeps_gets|]. intros [[i cfg]|]; [|solve_keeps].
  apply keeps_bind; [solve_keeps|]. intros mtm.
  apply keeps_bind; [solve_keeps|]. intros _.
  apply keeps_bind; [apply keeps_set_player_map|]. solve_keeps.
Qed.

Lemma keeps_on_accept {b} ch c : keeps b stable_view (on_accept ch c).
Proof. unfold on_accept, update_player_map. solve_keeps. Qed.

Lemma keeps_collect found : keeps true stable_view (collect_entries found).
Proof. induction found as [|[db e] found IH]; cbn; solve_keeps. Qed.

Lemma keeps_flush {b} : keeps b stable_view flush_players.
Proof.
  unfold flush_players. apply keeps_bind; [apply keeps_gets|]. intros dao.
  destruct (negb dao); [solve_keeps|]. apply keeps_bind; [|solve_keeps].
  apply keeps_with_mtx; [done|]. apply keeps_gets_bind. intros s [_ Hs].
  destruct b; [apply keeps_collect|]. rewrite (Hs eq_refl).
  match goal with |- keeps _ _ (collect_entries ?l) => assert (l = []) as -> end; [|apply keeps_ret].
  induction (hash_order (channel_to_db_id_ s)) as [|[ch db] l IH]; [done|]. cbn.
  by destruct (bool_decide _).
Qed.

Lemma keeps_main_loop {b} dt : keeps b stable_view (main_loop upd dt).
Proof.
  apply keeps_modify. intros s Hs. destruct (main_thread_manager_ s) as [m|] eqn:Hm; [|done].
  destruct (MainThreadManager.loop_body _ _ _ _) as [m' sh].
  unfold stable_view, mode. cbn. by rewrite Hm.
Qed.
Lemma keeps_map_loop {b} i dt : keeps b stable_view (map_loop i dt).
Proof.
  apply keeps_modify. intros s Hs. destruct (main_thread_manager_ s) as [m|] eqn:Hm; [|done].
  cbn zeta. destruct (MapThreadManager.map_threads_ _ !! i) as [mt|]; [|done].
  destruct (MapThread.loop_body _ _ _) as [? [mt' sh]].
  unfold stable_view, mode. cbn. by rewrite Hm.
Qed.

(** ** Guild invariant: what each callback does to it *)

Definition ginv (b : bool) (k : Z) (s : server) : Prop :=
  sane b s ∧ guild_ok k (guilds_ s) (channel_to_guild_ s) (next_guild_id_ s).

Lemma ginv_mono b k k' s : k ≤ k' → ginv b k s → ginv b k' s.
Proof. intros Hk [Hs Hg]. split; [done|]. by eapply guild_ok_mono. Qed.

(** From [P], [m] does not go wrong, and it returns in [Q]. *)
Definition triple {A} (P Q : server → Prop) (m : M A) : Prop := ∀ s, P s →
  match m s with Done _ s' => Q s' | Deadlock => True | Undefined => False end.

Lemma triple_done {A} P Q (m : M A) s a s' : triple P Q m → P s → m s = Done a s' → Q s'.
Proof. intros Hm HP E. specialize (Hm s HP). by rewrite E in Hm. Qed.

Lemma keeps_triple {b} {A} k k' (m : M A) :
  k ≤ k' → keeps b stable_view m → triple (ginv b k) (ginv b k') m.
Proof.
  intros Hk Hm s [Hs Hi]. specialize (Hm s Hs). destruct (m s) as [a s'| |]; [|done|done].
  destruct Hm as [Hm Hs']. unfold stable_view in Hm. injection Hm as Hg Hc Hn _.
  split; [done|]. rewrite Hg, Hc, Hn. by eapply guild_ok_mono.
Qed.

Lemma modify_triple {b} {A} k k' f (m : M A) s :
  ginv b k (f s) → k ≤ k' → keeps b stable_view m →
  match (modify f ;; m) s with Done _ s' => ginv b k' s' | Deadlock => True | Undefined => False end.
Proof. intros Hf Hk Hm. exact (keeps_triple k k' m Hk Hm (f s) Hf). Qed.

Lemma guild_create_triple {b} k ch data :
  k + 1 < 2 ^ 32 → triple (ginv b k) (ginv b (k + 1)) (handle_guild_create ch data).
Proof.
  intros Hk s Hs. unfold handle_guild_create.
  pose proof (mem_safe (M:=guild_create_req.t) data) as Hp.
  change (parse data) with (guild_create_req.parse data) in Hp.
  destruct (guild_create_req.parse data) as [req rest| |];
    [|eapply ginv_mono; [|exact Hs]; lia|done].
  cbn [parsed]. rewrite gets_bind.
  destruct (channel_to_guild_ s !! ch) eqn:Hch.
  - refine (keeps_triple k _ _ _ _ s Hs); [lia|apply keeps_send_test_frame].
  - rewrite gets_bind. apply (modify_triple (k + 1)); [|lia|apply keeps_send_test_frame].
    destruct Hs. split; [done|]. by apply guild_ok_create.
Qed.

Lemma guild_join_triple {b} k ch data : triple (ginv b k) (ginv b (k + 1)) (handle_guild_join ch data).
Proof.
  intros s Hs. unfold handle_guild_join.
  pose proof (mem_safe (M:=guild_join_req.t) data) as Hp.
  change (parse data) with (guild_join_req.parse data) in Hp.
  destruct (guild_join_req.parse data) as [req rest| |];
    [|eapply ginv_mono; [|exact Hs]; lia|done].
  cbn [parsed]. rewrite !gets_bind.
  destruct (guilds_ s !! _) as [G|] eqn:HG; [destruct (channel_to_guild_ s !! ch) eqn:Hch|];
    try (refine (keeps_triple k _ _ _ _ s Hs); [lia|apply keeps_send_test_frame]).
  apply (modify_triple k); [|lia|apply keeps_send_test_frame].
  destruct Hs. split; [done|]. by eapply guild_ok_join.
Qed.

Lemma guild_leave_triple {b} k ch data : triple (ginv b k) (ginv b (k + 1)) (handle_guild_leave ch data).
Proof.
  intros s Hs. unfold handle_guild_leave. rewrite gets_bind.
  destruct (channel_to_guild_ s !! ch) as [g|] eqn:Hch; [|eapply ginv_mono; [|exact Hs]; lia].
  apply (modify_triple k); [|lia|apply keeps_send_test_frame].
  destruct Hs. split; [done|]. by apply guild_ok_leave.
Qed.

Lemma dispatch_triple {b} k cmd ch data :
  k + 1 < 2 ^ 32 → triple (ginv b k) (ginv b (k + 1)) (dispatch token cmd ch data).
Proof.
  intros Hk s Hs. unfold dispatch. rewrite gets_bind.
  destruct (table_ s !! cmd) as [h|]; [|eapply ginv_mono; [|exact Hs]; lia].
  destruct h; cbn [call];
    first [by apply guild_create_triple|by apply guild_join_triple|by apply guild_leave_triple|idtac];
    (refine (keeps_triple k _ _ _ _ s Hs); [lia|]).
  - apply keeps_find_and_send.
  - apply keeps_find_and_send.
  - apply keeps_handle_login.
  - apply keeps_handle_move.
  - apply keeps_handle_chat.
  - apply keeps_handle_attack.
  - apply keeps_handle_map_enter.
Qed.

(** ** Whole runs *)

(** How many frames an event hands to the dispatcher, and a run in total. *)
Definition event_frames (ev : event) (s : server) : Z :=
  match ev with
  | Io id o =>
      match channels_ s !! id with
      | Some c => match asio_channel.step o c with
                  | Some (_, es) => zlen (asio_channel.frames es) | None => 0 end
      | None => 0
      end
  | LateFrame _ _ _ => 1
  | _ => 0
  end.

Fixpoint dispatched (evs : list event) (s : server) : Z :=
  match evs with
  | [] => 0
  | ev :: evs => event_frames ev s +
      match step token upd ev s with Done _ s' => dispatched evs s' | _ => 0 end
  end.

Lemma event_frames_nonneg ev s : 0 ≤ event_frames ev s.
Proof.
  unfold event_frames. repeat case_match; try lia. apply zlen_nonneg.
Qed.
Lemma dispatched_nonneg evs s : 0 ≤ dispatched evs s.
Proof.
  revert s. induction evs as [|ev evs IH]; intros s; cbn [dispatched]; [lia|].
  pose proof (event_frames_nonneg ev s). case_match; [|lia..].
  pose proof (IH s0). lia.
Qed.

Lemma callbacks_triple {b} es k :
  k + zlen (asio_channel.frames es) < 2 ^ 32 →
  triple (ginv b k) (ginv b (k + zlen (asio_channel.frames es))) (for_each es (callback token)).
Proof.
  revert k. induction es as [|e es IH]; intros k Hk s Hs.
  - cbn. by rewrite zlen_nil, Z.add_0_r.
  - assert (∃ k1, k ≤ k1 ∧ k1 + zlen (asio_channel.frames es)
        = k + zlen (asio_channel.frames (e :: es))
      ∧ triple (ginv b k) (ginv b k1) (callback token e)) as (k1 & Hk1 & Heq & Ht).
    { unfold asio_channel.frames in *.
      destruct e; cbn [omap list_omap] in *; rewrite ?zlen_cons in *;
        try (exists k; split_and!; [lia|lia|]; apply keeps_triple; [lia|]).
      all: try apply keeps_skip; try apply keeps_on_close.
      exists (k + 1). pose proof (zlen_nonneg
        (omap (λ e, match e with asio_channel.OnFrame i c p => Some (i, c, p) | _ => None end) es)).
      split_and!; [lia|lia|]. apply dispatch_triple. lia. }
    rewrite for_each_cons. specialize (Ht s Hs). destruct (callback token e s) as [a s1| |]; [|done|done].
    specialize (IH k1 ltac:(lia) s1 Ht). by rewrite Heq in IH.
Qed.

Lemma step_ginv {b} k ev s a s' :
  ginv b k s → k + event_frames ev s < 2 ^ 32 → step token upd ev s = Done a s' →
  ginv b (k + event_frames ev s) s'.
Proof.
  intros Hs Hk Hst.
  assert (∀ (m : M unit), keeps b stable_view m → m s = Done a s' → ginv b k s') as Hkeep.
  { intros m Hm E. eapply triple_done; [by apply (keeps_triple k k)|exact Hs|exact E]. }
  destruct ev as [id now|id o|id cmd data|r id name| |dt|i dt];
    cbn [event_frames step] in *; rewrite ?Z.add_0_r.
  - eapply Hkeep; [|exact Hst]. apply keeps_on_accept.
  - unfold channel_io in Hst. destruct (channels_ s !! id) as [c|] eqn:Hc.
    + destruct (asio_channel.step o c) as [[c' es]|]; [|done].
      eapply triple_done; [by apply (callbacks_triple es k)| |exact Hst]. exact Hs.
    + injection Hst as _ <-. by rewrite Z.add_0_r.
  - eapply triple_done; [by apply (dispatch_triple k)|exact Hs|exact Hst].
  - eapply Hkeep; [|exact Hst]. apply keeps_login_done.
  - eapply Hkeep; [|exact Hst]. apply keeps_flush.
  - eapply Hkeep; [|exact Hst]. apply keeps_main_loop.
  - eapply Hkeep; [|exact Hst]. apply keeps_map_loop.
Qed.

Lemma run_ginv {b} evs k s s' :
  ginv b k s → k + dispatched evs s < 2 ^ 32 → run token upd evs s = Done tt s' → ∃ k', ginv b k' s'.
Proof.
  revert k s. induction evs as [|ev evs IH]; intros k s Hs Hk Hr.
  - injection Hr as <-. eauto.
  - cbn [dispatched run] in *. unfold mbind, M_bind in Hr.
    destruct (step token upd ev s) as [a s1| |] eqn:Hst; [|done|done].
    pose proof (dispatched_nonneg evs s1).
    apply (IH (k + event_frames ev s) s1); [|lia|done].
    eapply step_ginv; [done|lia|done].
Qed.

(** ** The set-up never changes *)

Lemma keeps_mode {b A} (m : M A) : keeps b stable_view m → keeps b mode m.
Proof.
  intros Hm s Hs. specialize (Hm s Hs). destruct (m s); [|done|done]. destruct Hm as [Hm Hs'].
  split; [|done]. unfold stable_view in Hm. congruence.
Qed.

Lemma mode_send_test_frame {b} id msg data : keeps b mode (send_test_frame id msg data).
Proof. apply core_keeps, send_test_frame_core; done. Qed.
#[local] Hint Resolve mode_send_test_frame : keeps.

Lemma call_mode {b} h ch data : keeps b mode (call token h ch data).
Proof.
  destruct h; cbn [call].
  - apply keeps_mode, keeps_find_and_send.
  - apply keeps_mode, keeps_find_and_send.
  - apply keeps_mode, keeps_handle_login.
  - apply keeps_mode, keeps_handle_move.
  - apply keeps_mode, keeps_handle_chat.
  - apply keeps_mode, keeps_handle_attack.
  - apply keeps_mode, keeps_handle_map_enter.
  - unfold handle_guild_create.
    apply keeps_parsed; [exact (mem_safe (M:=guild_create_req.t) data)|..]; solve_keeps.
  - unfold handle_guild_join.
    apply keeps_parsed; [exact (mem_safe (M:=guild_join_req.t) data)|..]; solve_keeps.
  - unfold handle_guild_leave. solve_keeps.
Qed.

Lemma dispatch_mode {b} cmd ch data : keeps b mode (dispatch token cmd ch data).
Proof. unfold dispatch. apply keeps_bind; [apply keeps_gets|]. intros []; [apply call_mode|apply keeps_skip]. Qed.

Lemma callback_mode {b} e : keeps b mode (callback token e).
Proof. destruct e; try apply keeps_skip; [apply keeps_mode, keeps_on_close|apply dispatch_mode]. Qed.

Lemma keeps_done {T A} b (v : server → T) (m : M A) s a s' :
  keeps b v m → sane b s → m s = Done a s' → v s' = v s ∧ sane b s'.
Proof. intros Hm Hs E. specialize (Hm s Hs). by rewrite E in Hm. Qed.

Lemma step_mode {b} ev s a s' :
  sane b s → step token upd ev s = Done a s' → mode s' = mode s ∧ sane b s'.
Proof.
  intros Hs. destruct ev as [id now|id o|id cmd data|r id name| |dt|i dt]; cbn [step]; intros E.
  - eapply keeps_done; [|exact Hs|exact E]. apply keeps_mode, keeps_on_accept.
  - unfold channel_io in E. destruct (channels_ s !! id) as [c|]; [|by injection E as _ <-].
    destruct (asio_channel.step o c) as [[c' es]|]; [|done].
    set (s1 := s <| channels_ ::= _ |>) in E. assert (sane b s1) as Hs1 by exact Hs.
    exact (keeps_done _ _ _ _ _ _ (keeps_for_each b mode es (callback token) callback_mode) Hs1 E).
  - eapply keeps_done; [|exact Hs|exact E]. apply dispatch_mode.
  - eapply keeps_done; [|exact Hs|exact E]. apply keeps_mode, keeps_login_done.
  - eapply keeps_done; [|exact Hs|exact E]. apply keeps_mode, keeps_flush.
  - eapply keeps_done; [|exact Hs|exact E]. apply keeps_mode, keeps_main_loop.
  - eapply keeps_done; [|exact Hs|exact E]. apply keeps_mode, keeps_map_loop.
Qed.

Lemma run_mode {b} evs s s' :
  sane b s → run token upd evs s = Done tt s' → mode s' = mode s ∧ sane b s'.
Proof.
  revert s. induction evs as [|ev evs IH]; intros s Hs E; [by injection E as <-|].
  cbn [run] in E. unfold mbind, M_bind in E.
  destruct (step token upd ev s) as [a s1| |] eqn:E1; [|done|done].
  apply (step_mode (b:=b)) in E1 as [Hm1 Hs1]; [|done]. destruct (IH s1 Hs1 E). split; [congruence|done].
Qed.

Lemma init_sane e maps mysql dao redis : sane e (init e maps mysql dao redis).
Proof. unfold init. destruct e; [destruct (initialize_threading_system _ _)|]; done. Qed.

Lemma init_ginv e maps mysql dao redis : ginv e 1 (init e maps mysql dao redis).
Proof.
  split; [apply init_sane|].
  unfold init. destruct e; [destruct (initialize_threading_system _ _)|]; exact guild_ok_init.
Qed.

(** ** Properties *)

(** C19: (safety) In every state the server reaches, whatever message id and
    bytes a client sends, handling the frame does not reach undefined behaviour:
    the request parsers stay inside of the payload, no handler sends through a
    channel that is gone, and without the ECS none touches its null managers. *)
Theorem dispatch_safe e maps mysql dao redis evs s cmd ch data :
  run token upd evs (init e maps mysql dao redis) = Done tt s →
  dispatch token cmd ch data s ≠ Undefined.
Proof.
  intros [_ Hs]%(run_mode (b:=e)); [|apply init_sane].
  pose proof (dispatch_mode cmd ch data s Hs) as Hk. by destruct (dispatch token cmd ch data s).
Qed.

(** C1: (invariant) In every state the server reaches, the two guild tables
    agree: a channel is mapped to a guild exactly if it is among the members of
    that existing guild (so it is in at most one); members are listed once, no
    guild is empty, and guild ids are the keys and below the next id. The ids
    are 32 bits wide, hence the bound on the number of frames handled. *)
Theorem guild_consistent e maps mysql dao redis evs s :
  let s0 := init e maps mysql dao redis in
  run token upd evs s0 = Done tt s → dispatched evs s0 < 2 ^ 32 - 1 →
  (∀ ch g, channel_to_guild_ s !! ch = Some g ↔
     ∃ G, guilds_ s !! g = Some G ∧ ch ∈ members G)
  ∧ ∀ g G, guilds_ s !! g = Some G →
      g_id G = g ∧ 1 ≤ g < next_guild_id_ s ∧ NoDup (members G) ∧ members G ≠ [].
Proof.
  intros s0 Hr Hd. destruct (run_ginv (b:=e) evs 1 s0 s) as [k [_ [? ? ?]]]; [apply init_ginv|lia|done|done].
Qed.

End laws.

#[local] Existing Instances key_order min_queue buffer_first.

(** Channel 7 founds a guild, channel 8 joins it, channel 7 leaves. *)
Definition guild_demo : list event :=
  [Accept 7 0; Accept 8 0;
   Io 7 (asio_channel.ReadDone (frame_codec.pack 2001 0 1 0
     (guild_create_req.serialize (guild_create_req.mk (str "ABC") [] 10 0))));
   Io 8 (asio_channel.ReadDone (frame_codec.pack 2002 0 1 0
     (guild_join_req.serialize (guild_join_req.mk 1 []))));
   LateFrame 7 2003 []].

Lemma dispatch_safe_witness :
  match run (λ _, None) (λ _ w, w) guild_demo (init false [] false false false) with
  | Done _ s => dispatch (λ _, None) 1004 7 (attack_req.serialize (attack_req.mk 8 2 0 0 0 0)) s ≠ Undefined
  | _ => False
  end.
Proof.
  set (s0 := init false [] false false false).
  assert (match run (λ _, None) (λ _ w, w) guild_demo s0 with Done _ _ => true | _ => false end = true)
    as Hd by (vm_compute; reflexivity).
  destruct (run (λ _, None) (λ _ w, w) guild_demo s0) as [[] s| |] eqn:Hr; [|done|done].
  exact (dispatch_safe (λ _, None) (λ _ w, w) false [] false false false guild_demo s _ _ _ Hr).
Defined.

Lemma guild_consistent_witness :
  match run (λ _, None) (λ _ w, w) guild_demo (init false [] false false false) with
  | Done _ s =>
      guilds_ s !! 1 = Some (mkGuild 1 (str "ABC") [] 7 [8])
      ∧ (channel_to_guild_ s !! 8 = Some 1 ↔ ∃ G, guilds_ s !! 1 = Some G ∧ 8 ∈ members G)
  | _ => False
  end.
Proof.
  set (s0 := init false [] false false false).
  assert (match run (λ _, None) (λ _ w, w) guild_demo s0 with
          | Done _ s => bool_decide (guilds_ s !! 1 = Some (mkGuild 1 (str "ABC") [] 7 [8]))
          | _ => false end = true) as Hd by (vm_compute; reflexivity).
  destruct (run (λ _, None) (λ _ w, w) guild_demo s0) as [[] s| |] eqn:Hr; [|done|done].
  apply bool_decide_eq_true in Hd. split; [done|].
  refine (proj1 (guild_consistent (λ _, None) (λ _ w, w) false [] false false false guild_demo s Hr _) 8 1).
  vm_compute. reflexivity.
Defined.
