(* ===== verification/GameServerProgress.v ===== *)
(** * When the game server's handlers return

    A handler sends its replies while it holds [mtx_].  As long as the send
    queues have room it returns with the lock released; when a queue overflows,
    the channel closes itself and the server's own [on_close] waits for the lock
    its caller holds.  Both directions are proved here. *)

From S2P Require Import Prelude FrameCodec Channel Floats Components Ecs Systems Threads.
From S2P Require Import ProtocolBase ProtocolPlayer ProtocolCombat ProtocolMap ProtocolGuild.
From S2P Require Import GameServer GameServerLaws.
Import game_server.

(** ** Room in the send queues *)

(** [n] more bytes fit into the channel's queue (a closed channel drops them). *)
Definition room (n : Z) (c : asio_channel.channel) : Prop :=
  asio_channel.closed_ c = true
  ∨ 0 ≤ asio_channel.current_queue_bytes c
    ∧ asio_channel.current_queue_bytes c + n ≤ asio_channel.max_queue_bytes.

#[global] Instance room_dec n c : Decision (room n c).
Proof. unfold room. apply _. Defined.

Definition roomy (n : Z) (s : server) : Prop := map_Forall (λ _, room n) (channels_ s).

#[global] Instance roomy_dec n s : Decision (roomy n s).
Proof. unfold roomy. apply _. Defined.

Lemma room_le n n' c : n ≤ n' → room n' c → room n c.
Proof. intros ? [?|?]; [by left|right; lia]. Qed.

Lemma roomy_le n n' s : n ≤ n' → roomy n' s → roomy n s.
Proof. intros Hn Hr i c Hc. eapply room_le; [exact Hn|]. by eapply Hr. Qed.

Lemma send_room {AO : ArgOrder} n data c c' es :
  0 ≤ n → 0 < zlen data → room (n + zlen data) c → asio_channel.send data c = (c', es) →
  asio_channel.close_events es = [] ∧ room n c'.
Proof.
  intros Hn Hd Hr [([Hcl|?] & -> & ->)|[(Hcl & _ & Hov & _)|Hs]]%asio_channel.send_spec.
  - split; [done|by left].
  - lia.
  - destruct Hr as [?|[? Hq]]; [congruence|]. unfold asio_channel.max_queue_bytes in *.
    rewrite u64_small in Hov by (int_unfold; lia). lia.
  - destruct Hs as (Hcl & _ & Hle & c1 & es1 & em & pk & -> & Hw & ->).
    destruct Hr as [?|[? Hq]]; [congruence|]. unfold room, asio_channel.max_queue_bytes in *.
    rewrite u64_small in Hw by (int_unfold; lia).
    apply asio_channel.try_write_spec in Hw
      as (taken & _ & [(_ & _ & -> & ->)|(_ & -> & ->)] & _); cbn; (split; [done|right; lia]).
Qed.

(** ** Computations that return

    [ready e b n s]: a sane state (with the ECS if [e]), the lock free ([b = false])
    or held ([b = true]), and [n] bytes of room in every queue.  [returns e b k m]:
    from such a state [m] returns, leaves the lock as it was, and the queues at
    most [k] bytes fuller. *)
Definition ready (e b : bool) (n : Z) (s : server) : Prop :=
  sane e s ∧ mtx_ s = b ∧ roomy n s.

Definition returns {A} (e b : bool) (k : Z) (m : M A) : Prop := ∀ n s,
  0 ≤ n → ready e b (n + k) s → ∃ a s', m s = Done a s' ∧ ready e b n s'.

Lemma ready_le e b n n' s : n ≤ n' → ready e b n' s → ready e b n s.
Proof. intros Hn (? & ? & ?). split_and!; [done|done|]. by eapply roomy_le. Qed.

Section returns.
Context {A B : Type} (e b : bool).

Lemma returns_le k k' (m : M A) : k ≤ k' → returns e b k m → returns e b k' m.
Proof. intros Hk Hm n s Hn Hr. apply Hm; [done|]. eapply ready_le; [|done]. lia. Qed.
Lemma returns_bind k k' (m : M A) (f : A → M B) :
  0 ≤ k' → returns e b k m → (∀ a, returns e b k' (f a)) → returns e b (k + k') (m ≫= f).
Proof.
  intros Hk Hm Hf n s Hn Hr. destruct (Hm (n + k') s) as (a & s1 & E1 & Hr1); [lia| |].
  { eapply ready_le; [|done]. lia. }
  destruct (Hf a n s1) as (a' & s2 & E2 & Hr2); [done|done|].
  exists a', s2. split; [|done]. unfold mbind, M_bind. by rewrite E1.
Qed.
Lemma returns_bind0 k (m : M A) (f : A → M B) :
  0 ≤ k → returns e b 0 m → (∀ a, returns e b k (f a)) → returns e b k (m ≫= f).
Proof. intros Hk Hm Hf. rewrite <- (Z.add_0_l k). by apply returns_bind. Qed.
Lemma returns_gets_bind k (f : server → A) (g : A → M B) :
  (∀ s, sane e s → returns e b k (g (f s))) → returns e b k (gets f ≫= g).
Proof. intros Hg n s Hn Hr. rewrite gets_bind. apply Hg; [apply Hr|done|done]. Qed.
Lemma returns_ret (a : A) k : 0 ≤ k → returns e b k (mret a).
Proof. intros Hk n s Hn Hr. exists a, s. split; [done|]. eapply ready_le; [|done]. lia. Qed.
Lemma returns_skip k : 0 ≤ k → returns e b k skip.
Proof. intros Hk n s Hn Hr. exists tt, s. split; [done|]. eapply ready_le; [|done]. lia. Qed.
Lemma returns_gets (f : server → A) : returns e b 0 (gets f).
Proof. intros n s Hn Hr. exists (f s), s. by rewrite Z.add_0_r in Hr. Qed.
Lemma returns_modify f :
  (∀ s, sane e s → sane e (f s) ∧ mtx_ (f s) = mtx_ s ∧ channels_ (f s) = channels_ s) →
  returns e b 0 (modify f).
Proof.
  intros Hf n s Hn (Hs & Hb & Hr). exists tt, (f s). destruct (Hf s Hs) as (Hs' & Hm & Hc).
  split; [done|]. split_and!; [done|congruence|]. unfold roomy. by rewrite Hc, <- (Z.add_0_r n).
Qed.
Lemma returns_with_mtx k (m : M A) : returns e true k m → returns e false k (with_mtx m).
Proof.
  intros Hm n s Hn (Hs & Hb & Hr). set (s0 := s <| mtx_ := true |>).
  destruct (Hm n s0) as (a & s1 & E & Hs1 & Hb1 & Hr1); [done|by split_and!|].
  exists a, (s1 <| mtx_ := false |>). split; [|by split_and!].
  unfold with_mtx. fold s0. by rewrite Hb, E.
Qed.
Lemma returns_parsed (r : ProtocolBase.outcome A) k bad f :
  r ≠ POob → returns e b k bad → (∀ a, returns e b k (f a)) → returns e b k (parsed r bad f).
Proof. intros Hr Hb Hk. destruct r; [apply Hk|done|done]. Qed.

End returns.

Lemma returns_locked_gets_bind {A B} e k (f : server → A) (g : A → M B) :
  (∀ s, sane e s → returns e false k (g (f s))) → returns e false k (with_mtx (gets f) ≫= g).
Proof.
  intros Hg n s Hn (Hs & Hb & Hr). unfold mbind, M_bind, with_mtx, gets. rewrite Hb.
  set (s0 := s <| mtx_ := true |>). set (s1 := s0 <| mtx_ := false |>).
  apply (Hg s0 Hs n s1 Hn). by split_and!.
Qed.

Lemma returns_game_service b : returns true b 0 game_service.
Proof.
  intros n s Hn Hr. exists tt, s. rewrite Z.add_0_r in Hr. split; [|done].
  unfold game_service. by rewrite (proj1 (proj1 Hr)).
Qed.

Create HintDb returns.
#[export] Hint Resolve returns_gets returns_game_service : returns.

(** Follow the structure of a handler; the remaining goals are its sends. *)
Ltac solve_returns :=
  repeat first
    [ progress intros
    | solve [eauto with returns nocore]
    | match goal with
      | |- returns _ _ _ (mret _) => apply returns_ret; lia
      | |- returns _ _ _ skip => apply returns_skip; lia
      | |- returns _ _ _ (modify _) => apply (returns_le _ _ 0); [lia|apply returns_modify;
          let Hs := fresh in
          intros ? Hs; split; [first [exact Hs|split; [apply Hs|discriminate]]|done]]
      | |- returns _ _ _ (mbind _ _) => apply returns_bind0; [lia|solve [solve_returns]|]
      | |- returns _ _ _ (with_mtx _) => apply returns_with_mtx
      end
    | case_match ].

Section laws.
Context `{HashOrder} {AO : ArgOrder}.
Context (token : list Z → option Z).

(** ** Sending *)

Lemma send_frame_ok n id msg data s c :
  0 ≤ n → channels_ s !! id = Some c → room (n + (16 + zlen data)) c →
  ∃ c' s', send_frame id msg data s = Done tt s' ∧ mtx_ s' = mtx_ s
    ∧ channels_ s' = <[id := c']> (channels_ s) ∧ room n c'
    ∧ core s' = core s ∧ sent_ s' = sent_ s ++ [(id, msg, data)].
Proof.
  intros Hn Hc Hr. unfold send_frame, modify, mbind, M_bind, channel_send.
  change (channels_ (s <| sent_ ::= _ |>)) with (channels_ s). rewrite Hc.
  destruct (asio_channel.send _ c) as [c' es] eqn:Hs.
  apply (send_room n) in Hs as [He Hr']; [|done|..]; rewrite ?frame_codec.zlen_pack;
    [|pose proof (zlen_nonneg data); lia|done].
  rewrite He. exists c'. eexists. by split_and!.
Qed.

Lemma sane_core e s s' : core s' = core s → sane e s → sane e s'.
Proof.
  intros Hc [Hu Hs]. apply (f_equal (λ s, (use_ecs s, channel_to_entity_ s))) in Hc as [= Hu' Hc'].
  unfold sane. by rewrite Hu', Hc'.
Qed.

Lemma send_connected_returns e b id msg data n s :
  0 ≤ n → ready e b (n + (16 + zlen data)) s → is_Some (channels_ s !! id) →
  ∃ s', send_frame id msg data s = Done tt s' ∧ ready e b n s'.
Proof.
  intros Hn (Hs & Hb & Hr) [c Hc].
  destruct (send_frame_ok n id msg data s c) as (c' & s' & E & Hb' & Hch & Hr' & Hcore & _);
    [done|done|by eapply Hr|].
  exists s'. split; [done|]. split_and!; [by eapply sane_core|congruence|].
  unfold roomy. rewrite Hch. apply map_Forall_insert_2; [done|].
  eapply (roomy_le n); [|done]. pose proof (zlen_nonneg data). lia.
Qed.

Lemma returns_if_connected e b id msg data :
  returns e b (16 + zlen data)
    (ch ← connected id; if ch : bool then send_frame id msg data else skip).
Proof.
  intros n s Hn Hr. unfold connected. rewrite gets_bind. pose proof (zlen_nonneg data).
  destruct (bool_decide _) eqn:Hd.
  - apply bool_decide_eq_true in Hd.
    destruct (send_connected_returns e b id msg data n s) as (s' & ? & ?); eauto.
  - apply (returns_skip e b (16 + zlen data)); [lia|done|done].
Qed.

Lemma returns_send_test_frame e k id msg data :
  16 + zlen data ≤ k → returns e false k (send_test_frame id msg data).
Proof. intros Hk. eapply returns_le; [exact Hk|]. apply returns_with_mtx, returns_if_connected. Qed.

Lemma returns_find_and_send e k id msg data :
  16 + zlen data ≤ k → returns e false k (find_and_send id msg data).
Proof.
  intros Hk. eapply returns_le; [exact Hk|]. intros n s Hn (Hs & Hb & Hr).
  unfold find_and_send, mbind, M_bind, with_mtx, connected, gets. rewrite Hb.
  set (s1 := s <| mtx_ := true |> <| mtx_ := false |>). pose proof (zlen_nonneg data).
  change (channels_ (s <| mtx_ := true |>)) with (channels_ s1).
  assert (ready e false (n + (16 + zlen data)) s1) as Hr1 by (by split_and!).
  destruct (bool_decide _) eqn:Hd.
  - apply bool_decide_eq_true in Hd.
    destruct (send_connected_returns e false id msg data n s1) as (s' & ? & ?); eauto.
  - exists tt, s1. split; [done|]. eapply ready_le; [|exact Hr1]. lia.
Qed.

Lemma for_each_returns k (f : Z → M unit) ids n s :
  0 ≤ n → 0 ≤ k → NoDup ids →
  (∀ i, f i = skip ∨ ∃ msg data, f i = send_frame i msg data ∧ 16 + zlen data ≤ k) →
  (∀ i, i ∈ ids → ∃ c, channels_ s !! i = Some c ∧ room (n + k) c) →
  (∀ i c, i ∉ ids → channels_ s !! i = Some c → room n c) →
  ∃ s', for_each ids f s = Done tt s' ∧ mtx_ s' = mtx_ s ∧ core s' = core s ∧ roomy n s'.
Proof.
  intros Hn Hk Hnd Hf. revert s. induction Hnd as [|i ids Hi Hnd IH]; intros s Hin Hout.
  { exists s. split_and!; [done..|]. intros i c Hc. eapply Hout; [apply not_elem_of_nil|exact Hc]. }
  rewrite for_each_cons. destruct (Hin i) as (c & Hc & Hr); [set_solver|].
  destruct (Hf i) as [-> |(msg & data & -> & Hd)].
  - cbn. apply IH; [set_solver|]. intros j c' Hj Hc'. destruct (decide (j = i)) as [->|].
    + rewrite Hc in Hc'. injection Hc' as <-. eapply room_le; [|exact Hr]. lia.
    + eapply Hout; [|exact Hc']. set_solver.
  - destruct (send_frame_ok n i msg data s c) as (c1 & s1 & -> & Hb1 & Hch & Hr1 & Hco & _); [done|done| |].
    { eapply room_le; [|exact Hr]. lia. }
    rewrite <- Hb1, <- Hco. apply IH; rewrite Hch.
    + intros j Hj. rewrite lookup_insert_ne by set_solver. apply Hin. set_solver.
    + intros j c' Hj [[<- <-]|[Hne Hc']]%lookup_insert_Some; [done|].
      eapply Hout; [|exact Hc']. set_solver.
Qed.

Lemma returns_broadcast_loop e k (f : Z → M unit) :
  0 ≤ k → (∀ i, f i = skip ∨ ∃ msg data, f i = send_frame i msg data ∧ 16 + zlen data ≤ k) →
  returns e true k (chs ← gets (λ s, (hash_order (channels_ s)).*1); for_each chs f).
Proof.
  intros Hk Hf n s Hn (Hs & Hb & Hr). rewrite gets_bind.
  destruct (for_each_returns k f (hash_order (channels_ s)).*1 n s) as (s' & -> & ? & Hco & ?); try done.
  - rewrite hash_order_perm. apply NoDup_fst_map_to_list.
  - intros i Hi. pose proof (hash_keys_dom s) as Hd. rewrite Forall_forall in Hd.
    apply Hd, elem_of_dom in Hi as [c Hc]. exists c. split; [done|]. by eapply Hr.
  - intros i c _ Hc. eapply room_le; [|by eapply Hr]. lia.
  - exists tt, s'. split; [done|]. split_and!; [by eapply sane_core|congruence|done].
Qed.

Lemma returns_broadcast e k cmd data : 16 + zlen data ≤ k → returns e false k (broadcast cmd data).
Proof.
  intros Hk. pose proof (zlen_nonneg data).
  apply returns_with_mtx, returns_broadcast_loop; [lia|]. eauto 10.
Qed.
Lemma returns_broadcast_except e k ex cmd data :
  16 + zlen data ≤ k → returns e false k (broadcast_except ex cmd data).
Proof.
  intros Hk. pose proof (zlen_nonneg data).
  apply returns_with_mtx, returns_broadcast_loop; [lia|]. intros i. destruct (i =? ex); eauto 10.
Qed.

(** ** The handlers *)

(** A message of fixed length is short. *)
Local Ltac short := vm_compute; discriminate.
Local Ltac returns_send :=
  first [ apply returns_send_test_frame; short | apply returns_find_and_send; short ].

Lemma returns_on_modify_world b f : returns true b 0 (on_modify_world f).
Proof. unfold on_modify_world. solve_returns. Qed.
#[local] Hint Resolve returns_on_modify_world : returns.

Lemma returns_spawn_player ch name db p m h : returns true false 0 (spawn_player ch name db p m h).
Proof. unfold spawn_player. solve_returns. Qed.
#[local] Hint Resolve returns_spawn_player : returns.

Lemma returns_login_without_db e ch name : returns e false 256 (login_without_db ch name).
Proof.
  unfold login_without_db. apply returns_gets_bind. intros s [-> _].
  destruct e; solve_returns; returns_send.
Qed.

Lemma returns_handle_login e ch data : returns e false 256 (handle_login token ch data).
Proof.
  unfold handle_login. apply returns_parsed; [exact (mem_safe (M:=login_req.t) data)|..];
    solve_returns; first [apply returns_login_without_db|returns_send].
Qed.

Lemma returns_route e ch cmd data : returns e false 256 (route_packet_to_map ch cmd data).
Proof. unfold route_packet_to_map, get_player_map. solve_returns. Qed.

Lemma returns_handle_move e ch data : returns e false 256 (handle_move ch data).
Proof.
  unfold handle_move. apply returns_parsed; [exact (mem_safe (M:=player_move_req.t) data)|solve_returns|].
  intros req. apply returns_bind0; [lia|solve_returns|]. intros [m|]; [apply returns_route|].
  apply returns_gets_bind. intros s [-> _].
  apply returns_bind0; [lia|destruct e; solve_returns|]. intros _.
  apply (returns_bind _ _ 128 128); [lia|apply returns_broadcast_except; short|]. intros _. returns_send.
Qed.

Lemma returns_handle_chat e ch data : returns e false (256 + zlen data) (handle_chat ch data).
Proof.
  pose proof (zlen_nonneg data). unfold handle_chat.
  apply returns_bind0; [lia|solve_returns|]. intros [m|]; [solve_returns|].
  rewrite Z.add_comm. replace (zlen data + 256) with (zlen data + 128 + 128) by lia.
  apply returns_bind; [lia|apply returns_broadcast|intros _; returns_send].
  rewrite zlen_app. change (zlen (shared.write_le32 [] (u32 ch))) with 4. lia.
Qed.

Lemma returns_handle_attack e ch data : returns e false 256 (handle_attack ch data).
Proof.
  unfold handle_attack. apply returns_parsed; [exact (mem_safe (M:=attack_req.t) data)|solve_returns|].
  intros req. apply returns_locked_gets_bind. intros s [_ Hs]. destruct e.
  2: { rewrite (Hs eq_refl), !lookup_empty. returns_send. }
  destruct (_ || _); [returns_send|].
  apply returns_bind0; [lia|solve_returns|]. intros _.
  apply returns_bind0; [lia|solve_returns|]. intros hp.
  apply (returns_bind _ _ 128 128); [lia|destruct (hp =? 0); returns_send|]. intros _.
  apply (returns_bind _ _ 128 0); [lia|apply returns_broadcast_except; short|]. intros _. solve_returns.
Qed.

Lemma returns_set_player_map e ch f :
  returns e false 0 (with_mtx (
    x ← gets (λ s, channel_to_entity_ s !! ch);
    match x with Some x => on_modify_world (f x) | None => skip end)).
Proof.
  apply returns_with_mtx, returns_gets_bind. intros s Hs.
  destruct (channel_to_entity_ s !! ch) eqn:He; [|solve_returns].
  destruct e; [solve_returns|]. by destruct (sane_entity _ _ _ Hs He).
Qed.

Lemma zlen_write_lp_string out l : zlen (shared.write_lp_string out l) = zlen out + 4 + zlen l.
Proof. unfold shared.write_lp_string. rewrite write_le32_app. by autorewrite with zlen. Qed.

(** The reply carries the name of the map, at most [L] bytes. *)
Lemma returns_handle_map_enter L e ch data n s :
  Forall (λ c, zlen (mc_name c) ≤ L) (config_maps s) → 0 ≤ L → 0 ≤ n →
  ready e false (n + (256 + L)) s →
  ∃ a s', handle_map_enter ch data s = Done a s' ∧ ready e false n s'.
Proof.
  intros HL HL0 Hn Hr. unfold handle_map_enter.
  pose proof (mem_safe (M:=map_enter_req.t) data) as Hp. change (parse data) with (map_enter_req.parse data) in Hp.
  destruct (map_enter_req.parse data) as [req rest| |]; [|by apply (returns_skip _ _ (256 + L)); [lia|..]|done].
  cbn [parsed]. rewrite gets_bind.
  destruct (list_find _ (config_maps s)) as [[i cfg]|] eqn:Hf.
  2: { revert Hn Hr. apply returns_send_test_frame. etrans; [|apply Z.add_le_mono_l, HL0]. short. }
  assert (zlen (mc_name cfg) ≤ L) as Hcfg.
  { apply list_find_Some in Hf as (Hi & _). rewrite Forall_lookup in HL. by eapply HL. }
  revert Hn Hr.
  match goal with |- _ → _ → ∃ a s', ?m s = Done a s' ∧ _ =>
    enough (returns e false (256 + L) m) as Hm by (intros; by apply Hm) end.
  unfold get_player_map, update_player_map.
  apply returns_bind0; [lia|solve_returns|]. intros m.
  apply returns_bind0; [lia|solve_returns|]. intros _.
  apply returns_bind0; [lia|apply returns_set_player_map|]. intros _.
  apply returns_send_test_frame. unfold map_enter_res.serialize, shared.push_back.
  rewrite ?write_float_le_app, ?write_le32_app.
  repeat (rewrite zlen_app || rewrite zlen_write_lp_string).
  rewrite !zlen_le32, zlen_cons, zlen_nil. change (zlen _) with 2 at 1. cbn [map_enter_res.map_name]. lia.
Qed.

Lemma returns_guild_create e ch data : returns e false 256 (handle_guild_create ch data).
Proof.
  unfold handle_guild_create. apply returns_parsed; [exact (mem_safe (M:=guild_create_req.t) data)|..];
    solve_returns; returns_send.
Qed.
Lemma returns_guild_join e ch data : returns e false 256 (handle_guild_join ch data).
Proof.
  unfold handle_guild_join. apply returns_parsed; [exact (mem_safe (M:=guild_join_req.t) data)|..];
    solve_returns; returns_send.
Qed.
Lemma returns_guild_leave e ch data : returns e false 256 (handle_guild_leave ch data).
Proof. unfold handle_guild_leave. solve_returns; returns_send. Qed.

(** ** Overflow *)

(** Returns from every sane state, and touches neither the lock nor a channel. *)
Definition quiet {A} (e : bool) (m : M A) : Prop := ∀ s, sane e s →
  ∃ a s', m s = Done a s' ∧ sane e s' ∧ mtx_ s' = mtx_ s ∧ channels_ s' = channels_ s.

Lemma quiet_bind {A B} e (m : M A) (f : A → M B) :
  quiet e m → (∀ a, quiet e (f a)) → quiet e (m ≫= f).
Proof.
  intros Hm Hf s Hs. destruct (Hm s Hs) as (a & s1 & E1 & Hs1 & Hm1 & Hc1).
  destruct (Hf a s1 Hs1) as (a' & s2 & E2 & Hs2 & Hm2 & Hc2).
  exists a', s2. unfold mbind, M_bind. rewrite E1. split_and!; congruence || done.
Qed.
Lemma quiet_gets {A} e (f : server → A) : quiet e (gets f).
Proof. intros s Hs. by exists (f s), s. Qed.
Lemma quiet_skip e : quiet e skip.
Proof. intros s Hs. by exists tt, s. Qed.
Lemma quiet_modify e f :
  (∀ s, sane e s → sane e (f s) ∧ mtx_ (f s) = mtx_ s ∧ channels_ (f s) = channels_ s) →
  quiet e (modify f).
Proof. intros Hf s Hs. exists tt, (f s). split; [done|]. by apply Hf. Qed.
Lemma quiet_game_service : quiet true game_service.
Proof. intros s Hs. exists tt, s. split_and!; try done. unfold game_service. by rewrite (proj1 Hs). Qed.

Local Ltac solve_quiet :=
  repeat first
    [ progress intros | apply quiet_game_service | apply quiet_gets | apply quiet_skip
    | match goal with |- quiet _ (mbind _ _) => apply quiet_bind end
    | apply quiet_modify; let Hs := fresh in intros ? Hs; split; [exact Hs|done]
    | case_match ].

(** The part of [on_close] behind the lock, for entity [x]. *)
Lemma on_close_tail_quiet e ch x db strand :
  (e = false → x = 0) →
  quiet e (
    dao ← gets player_dao_;
    (if strand && dao && (0 <? db) && negb (x =? 0) then post_save x db else skip) ;;
    modify (λ s, s <| uncached_ ::= λ l, if redis_client_ s && (0 <? db) then l ++ [db] else l |>) ;;
    mtm ← gets main_thread_manager_;
    match mtm with
    | Some _ => modify (λ s, s <| player_map_mapping_ ::= delete ch |>)
    | None => skip
    end ;;
    u ← gets use_ecs;
    if negb (x =? 0) && u then on_modify_world (destroy_entity x) else skip).
Proof.
  unfold post_save, get_comp, on_modify_world. destruct e; [solve_quiet|].
  intros Hx. rewrite (Hx eq_refl). change (negb (0 =? 0)) with false.
  apply quiet_bind; [apply quiet_gets|]. intros dao. rewrite andb_false_r. cbn. solve_quiet.
Qed.

Lemma on_close_done e ch r s :
  sane e s → mtx_ s = false →
  ∃ s', on_close ch r s = Done tt s' ∧ mtx_ s' = false ∧ channels_ s' = delete ch (channels_ s).
Proof.
  intros [Hu Hs] Hm. unfold on_close. unfold mbind at 1, M_bind at 1, with_mtx. rewrite Hm.
  unfold gets at 1 2 3, modify at 1 2 3, mbind at 1 2 3 4 5 6, M_bind at 1 2 3 4 5 6, mret, M_ret.
  match goal with |- ∃ s', ?m ?x = Done tt s' ∧ _ => set (s1 := x) end.
  assert (sane e s1) as Hs1.
  { split; [exact Hu|]. intros He. change (delete ch (channel_to_entity_ s) = ∅).
    by rewrite (Hs He), delete_empty. }
  destruct (on_close_tail_quiet e ch (default 0 (channel_to_entity_ s !! ch))
    (default 0 (channel_to_db_id_ s !! ch)) (bool_decide (ch ∈ db_strands_ s))) with s1
    as ([] & s' & E & _ & Hm' & Hc'); [|done|].
  { intros He. by rewrite (Hs He), lookup_empty. }
  exists s'. split_and!; [exact E|by rewrite Hm'|by rewrite Hc'].
Qed.

(** The queue of channel [c] has no room for the frame. *)
Definition overflows (c : asio_channel.channel) (data : list Z) : Prop :=
  asio_channel.closed_ c = false ∧ asio_channel.handler_ c = true
  ∧ 0 ≤ asio_channel.current_queue_bytes c ≤ asio_channel.max_queue_bytes
  ∧ zlen data < 2 ^ 31 - 16
  ∧ asio_channel.max_queue_bytes < asio_channel.current_queue_bytes c + (16 + zlen data).

Lemma send_frame_overflow ch msg data s c :
  channels_ s !! ch = Some c → overflows c data →
  ∃ c' s1 l, send_frame ch msg data s = channel_closed ch close_force_closed l s1
    ∧ mtx_ s1 = mtx_ s ∧ channels_ s1 = <[ch := c']> (channels_ s) ∧ core s1 = core s.
Proof.
  intros Hc (Hcl & Hh & Hq & Hd & Hov). unfold asio_channel.max_queue_bytes in *.
  unfold send_frame, modify, mbind, M_bind, channel_send.
  change (channels_ (s <| sent_ ::= _ |>)) with (channels_ s). rewrite Hc.
  destruct (asio_channel.send _ c) as [c' es] eqn:Hs. pose proof (zlen_nonneg data).
  apply asio_channel.send_spec in Hs as [([?|Hz] & _)|[(_ & _ & _ & -> & _)|(_ & _ & Hle & _)]].
  - congruence.
  - rewrite frame_codec.zlen_pack in Hz. lia.
  - unfold asio_channel.on_close. rewrite Hh. cbn. by eexists c', _, _.
  - rewrite frame_codec.zlen_pack, u64_small in Hle by (int_unfold; lia).
    unfold asio_channel.max_queue_bytes in Hle. lia.
Qed.

Lemma send_test_frame_deadlock ch msg data s c :
  mtx_ s = false → channels_ s !! ch = Some c → overflows c data →
  send_test_frame ch msg data s = Deadlock.
Proof.
  intros Hm Hc Hov. unfold send_test_frame, with_mtx. rewrite Hm. unfold connected. rewrite gets_bind.
  rewrite bool_decide_true by (by exists c).
  destruct (send_frame_overflow ch msg data (s <| mtx_ := true |>) c) as (c' & s1 & l & -> & Hm1 & _); [done|done|].
  rewrite channel_closed_run. unfold on_close, with_mtx, mbind, M_bind. by rewrite Hm1.
Qed.

Lemma find_and_send_overflow ch msg data s c :
  sane (use_ecs s) s → mtx_ s = false → channels_ s !! ch = Some c → overflows c data →
  ∃ s', find_and_send ch msg data s = Done tt s' ∧ mtx_ s' = false
    ∧ channels_ s' = delete ch (channels_ s).
Proof.
  intros Hsa Hm Hc Hov. unfold find_and_send, mbind, M_bind, with_mtx, connected, gets. rewrite Hm.
  set (s0 := s <| mtx_ := true |> <| mtx_ := false |>).
  change (channels_ (s <| mtx_ := true |>)) with (channels_ s).
  rewrite bool_decide_true by (by exists c).
  destruct (send_frame_overflow ch msg data s0 c) as (c' & s1 & l & -> & Hm1 & Hc1 & Hco); [done|done|].
  rewrite channel_closed_run. destruct (on_close_done (use_ecs s) ch close_force_closed s1) as (s' & -> & ? & Hc2);
    [eapply sane_core; [exact Hco|exact Hsa]|by rewrite Hm1|].
  eexists. split_and!; [done|done|]. cbn. rewrite Hc2, Hc1. by rewrite delete_insert_eq.
Qed.

(** ** Properties *)

(** C20: (termination) Handling a frame returns with the lock released, in every
    state in which the lock is free and each open channel's queue has room for
    256 bytes, the payload and a map name ([sane]: without the ECS there are no
    player entities, as in every state the server reaches). *)
Theorem dispatch_returns cmd ch data L s :
  sane (use_ecs s) s → mtx_ s = false →
  0 ≤ L → Forall (λ c, zlen (mc_name c) ≤ L) (config_maps s) →
  roomy (256 + zlen data + L) s →
  ∃ s', dispatch token cmd ch data s = Done tt s' ∧ mtx_ s' = false.
Proof.
  intros Hs Hm HL0 HL Hr. unfold dispatch. rewrite gets_bind. pose proof (zlen_nonneg data).
  set (e := use_ecs s) in Hs. assert (ready e false (256 + zlen data + L) s) as Hrd by (by split_and!).
  enough (∀ h, ∃ a s', call token h ch data s = Done a s' ∧ ready e false 0 s') as Hc.
  { destruct (table_ s !! cmd) as [h|]; [|by exists s].
    destruct (Hc h) as ([] & s' & ? & _ & ? & _). eauto. }
  assert (∀ m : M unit, returns e false (256 + zlen data) m →
    ∃ a s', m s = Done a s' ∧ ready e false 0 s') as Hall.
  { intros m Hret. apply Hret; [done|]. eapply ready_le; [|exact Hrd]. lia. }
  assert (∀ m : M unit, returns e false 256 m → returns e false (256 + zlen data) m) as H256
    by (intros m; apply returns_le; lia).
  intros []; cbn [call].
  - apply Hall, H256. returns_send.
  - apply Hall, returns_find_and_send. lia.
  - apply Hall, H256, returns_handle_login.
  - apply Hall, H256, returns_handle_move.
  - apply Hall, returns_handle_chat.
  - apply Hall, H256, returns_handle_attack.
  - eapply (returns_handle_map_enter L); try done. eapply ready_le; [|exact Hrd]. lia.
  - apply Hall, H256, returns_guild_create.
  - apply Hall, H256, returns_guild_join.
  - apply Hall, H256, returns_guild_leave.
Qed.

(** C36: (error) When a channel's send queue is too full for a frame, the way a
    handler sends it decides what happens: [send_test_frame] holds [mtx_] while
    the channel closes itself, and the server's [on_close] then waits for that
    lock forever; a send after the lock is released drops the connection, and
    only that one. *)
Theorem overflow_under_lock_deadlocks ch msg data s c :
  sane (use_ecs s) s → mtx_ s = false → channels_ s !! ch = Some c → overflows c data →
  send_test_frame ch msg data s = Deadlock
  ∧ ∃ s', find_and_send ch msg data s = Done tt s' ∧ mtx_ s' = false
      ∧ channels_ s' = delete ch (channels_ s).
Proof.
  intros Hs Hm Hc Hov. split; [by eapply send_test_frame_deadlock|by eapply find_and_send_overflow].
Qed.

End laws.

#[local] Existing Instances key_order buffer_first.

(** A server without ECS on which channel 7 is connected. *)
Definition one_channel (c : asio_channel.channel) : server :=
  (init false [] false false false) <| channels_ := {[7 := c]} |>.

Lemma dispatch_returns_witness :
  ∃ s', dispatch (λ _, None) 1003 7 [104; 105] (one_channel (asio_channel.new_channel 7)) = Done tt s'
    ∧ mtx_ s' = false.
Proof. apply (dispatch_returns (λ _, None) 1003 7 [104; 105] 0); [done|by_decide..]. Defined.

Lemma overflow_under_lock_deadlocks_witness :
  let c := (asio_channel.new_channel 7) <| asio_channel.current_queue_bytes := 262144 |> in
  send_test_frame 7 2003 [1] (one_channel c) = Deadlock
  ∧ ∃ s', find_and_send 7 2003 [1] (one_channel c) = Done tt s' ∧ mtx_ s' = false
      ∧ channels_ s' = delete 7 (channels_ (one_channel c)).
Proof.
  intros c. apply (overflow_under_lock_deadlocks 7 2003 [1] (one_channel c) c);
    [done|reflexivity|reflexivity|]. unfold overflows. by_decide.
Defined.
