(* ===== verification/GameServerHandlers.v ===== *)
(** * What the player handlers do

    Functional behaviour of login, attack, chat and move in the states a server
    reaches, and of a whole session with the database: a player is loaded,
    spawned, and saved when the connection closes. *)

From S2P Require Import Prelude FrameCodec Channel Floats Components Ecs Systems Threads.
From S2P Require Import ProtocolBase ProtocolPlayer ProtocolCombat ProtocolMap ProtocolGuild.
From S2P Require Import GameServer GameServerLaws GameServerProgress.
Import game_server.

Lemma bind_done {A B} (m : M A) (f : A → M B) s b s'' :
  (m ≫= f) s = Done b s'' ↔ ∃ a s', m s = Done a s' ∧ f a s' = Done b s''.
Proof.
  unfold mbind, M_bind. split; [destruct (m s) eqn:?; eauto; done|]. by intros (a & s' & -> & ->).
Qed.

Section laws.
Context `{HashOrder} `{PriorityQueue} {AO : ArgOrder}.
Context (token : list Z → option Z) (upd : f32 → world → world).

(** ** The set-up *)

(** The map threads exist exactly in ECS mode. *)
Lemma run_threads e maps mysql dao redis evs s :
  run token upd evs (init e maps mysql dao redis) = Done tt s →
  sane e s ∧ (e = true → is_Some (main_thread_manager_ s))
  ∧ (e = false → main_thread_manager_ s = None).
Proof.
  intros [E Hs]%(run_mode token upd (b:=e)); [|apply init_sane]. split; [done|].
  unfold mode in E. injection E as _ _ _ _ _ _ Hm. revert Hm. unfold init.
  destruct e; [destruct (initialize_threading_system _ _)|]; cbn; intros Hb; split; try done.
  - by apply bool_decide_eq_true in Hb.
  - apply bool_decide_eq_false in Hb. intros _. by apply eq_None_not_Some.
Qed.

(** ** What was sent *)

Lemma send_frame_sent id msg data s a s' :
  mtx_ s = true → send_frame id msg data s = Done a s' →
  sent_ s' = sent_ s ++ [(id, msg, data)] ∧ mtx_ s' = true.
Proof.
  intros Hm. unfold send_frame, modify, mbind, M_bind, channel_send. cbn.
  destruct (channels_ s !! id) as [c|]; [|done].
  destruct (asio_channel.send _ c) as [c' es]. destruct (asio_channel.close_events es).
  - by intros [= <- <-].
  - rewrite channel_closed_run. unfold on_close, with_mtx, mbind, M_bind. cbn. by rewrite Hm.
Qed.

Lemma for_each_sent msg data ids s a s' :
  mtx_ s = true → for_each ids (λ id, send_frame id msg data) s = Done a s' →
  sent_ s' = sent_ s ++ ((λ id, (id, msg, data)) <$> ids).
Proof.
  revert s. induction ids as [|i ids IH]; intros s Hm E.
  - injection E as _ <-. cbn. by rewrite app_nil_r.
  - rewrite for_each_cons in E. destruct (send_frame i msg data s) as [x s1| |] eqn:E1; [|done|done].
    apply send_frame_sent in E1 as [Hs1 Hm1]; [|done].
    rewrite (IH s1 Hm1 E), Hs1. cbn. by rewrite <- app_assoc.
Qed.

Lemma broadcast_sent cmd data s a s' :
  broadcast cmd data s = Done a s' →
  sent_ s' = sent_ s ++ ((λ id, (id, cmd, data)) <$> (hash_order (channels_ s)).*1).
Proof.
  unfold broadcast, with_mtx. destruct (mtx_ s); [done|]. rewrite gets_bind.
  destruct (for_each _ _ _) as [x s1| |] eqn:E; [|done|done]. intros [= _ <-].
  by apply for_each_sent in E.
Qed.

Lemma send_test_frame_sent id msg data s a s' :
  send_test_frame id msg data s = Done a s' →
  sent_ s' = sent_ s ++ if decide (is_Some (channels_ s !! id)) then [(id, msg, data)] else [].
Proof.
  unfold send_test_frame, with_mtx, connected. destruct (mtx_ s); [done|]. rewrite gets_bind.
  change (channels_ (s <| mtx_ := true |>)) with (channels_ s).
  destruct (decide _) as [Hc|Hc].
  - rewrite bool_decide_true by done.
    destruct (send_frame _ _ _ _) as [x s1| |] eqn:E; [|done|done]. intros [= _ <-].
    by apply send_frame_sent in E as [? _].
  - rewrite bool_decide_false by done. intros [= _ <-]. cbn. by rewrite app_nil_r.
Qed.

(** A broadcast leaves the set of channels alone. *)
Lemma for_each_dom msg data ids s a s' :
  mtx_ s = true → Forall (λ i, i ∈ dom (channels_ s)) ids →
  for_each ids (λ id, send_frame id msg data) s = Done a s' → dom (channels_ s') = dom (channels_ s).
Proof.
  revert s. induction ids as [|i ids IH]; intros s Hm Hin E; [by injection E as _ <-|].
  apply Forall_cons in Hin as [Hi Hin]. rewrite for_each_cons in E.
  apply elem_of_dom in Hi. pose proof (send_frame_locked i msg data s Hi Hm) as Hs.
  destruct (send_frame i msg data s) as [y s2| |]; [|done|done].
  destruct Hs as (_ & Hm2 & Hd2).
  rewrite <- Hd2. apply (IH s2 Hm2); [by rewrite Hd2|exact E].
Qed.

Lemma broadcast_dom cmd data s a s' :
  broadcast cmd data s = Done a s' → dom (channels_ s') = dom (channels_ s).
Proof.
  unfold broadcast, with_mtx. destruct (mtx_ s); [done|]. rewrite gets_bind.
  destruct (for_each _ _ _) as [x s1| |] eqn:E; [|done|done]. intros [= _ <-].
  apply for_each_dom in E; [exact E|done|]. apply (hash_keys_dom (s <| mtx_ := true |>)).
Qed.

(** A broadcast to all but one channel. *)
Lemma for_each_except msg data ex ids s :
  for_each ids (λ id, if id =? ex then skip else send_frame id msg data) s
  = for_each (filter (.≠ ex) ids) (λ id, send_frame id msg data) s.
Proof.
  revert s. induction ids as [|i ids IH]; intros s; [done|]. rewrite for_each_cons, filter_cons.
  destruct (Z.eqb_spec i ex) as [->|Hi].
  - rewrite decide_False by (intros Hn; by apply Hn). apply IH.
  - rewrite decide_True, for_each_cons by done. by destruct (send_frame i msg data s).
Qed.
Lemma broadcast_except_sent ex cmd data s a s' :
  broadcast_except ex cmd data s = Done a s' →
  sent_ s' = sent_ s ++ ((λ id, (id, cmd, data)) <$> filter (.≠ ex) (hash_order (channels_ s)).*1).
Proof.
  unfold broadcast_except, with_mtx. destruct (mtx_ s); [done|]. rewrite gets_bind.
  rewrite for_each_except. destruct (for_each _ _ _) as [x s1| |] eqn:E; [|done|done]. intros [= _ <-].
  by apply for_each_sent in E.
Qed.
Lemma send_test_frame_dom id msg data s a s' :
  send_test_frame id msg data s = Done a s' → dom (channels_ s') = dom (channels_ s).
Proof.
  unfold send_test_frame, with_mtx, connected. destruct (mtx_ s); [done|]. rewrite gets_bind.
  case_bool_decide as Hc; [|by intros [= _ <-]].
  pose proof (send_frame_locked id msg data (s <| mtx_ := true |>) Hc eq_refl) as Hs.
  destruct (send_frame _ _ _ _) as [x s1| |]; [|done|done]. intros [= _ <-]. by destruct Hs as (_ & _ & ?).
Qed.
Lemma others_perm {A} (m : gmap Z A) ex :
  filter (.≠ ex) (hash_order m).*1 ≡ₚ elements (dom m ∖ {[ex]}).
Proof.
  apply NoDup_Permutation; [|apply NoDup_elements|].
  - apply NoDup_filter. rewrite hash_order_perm. apply NoDup_fst_map_to_list.
  - intros i. rewrite list_elem_of_filter, elem_of_elements, elem_of_difference, not_elem_of_singleton.
    rewrite hash_order_perm, elem_of_dom, list_elem_of_fmap. split.
    + intros [Hi ([j x] & -> & Hx%elem_of_map_to_list)]. by split; [exists x|].
    + intros [[x Hx%elem_of_map_to_list] Hi]. split; [done|]. by exists (i, x).
Qed.

(** ** Login *)

Lemma find_and_send_ok id msg data s c :
  mtx_ s = false → channels_ s !! id = Some c → room (16 + zlen data) c →
  ∃ s', find_and_send id msg data s = Done tt s' ∧ mtx_ s' = false ∧ core s' = core s
    ∧ sent_ s' = sent_ s ++ [(id, msg, data)].
Proof.
  intros Hm Hc Hr. unfold find_and_send, mbind, M_bind, with_mtx, connected, gets. rewrite Hm.
  change (channels_ (s <| mtx_ := true |>)) with (channels_ s).
  rewrite bool_decide_true by (by exists c).
  destruct (send_frame_ok 0 id msg data (s <| mtx_ := true |> <| mtx_ := false |>) c)
    as (c' & s' & -> & Hm' & _ & _ & Hcore & Hsent); [done|done|by rewrite Z.add_0_l|].
  exists s'. by split_and!.
Qed.

(** The world after a player was spawned. *)
Definition spawned (name : list Z) (ch db : Z) (p : Position) (map_id : Z) (h : Health) (w : world) : world :=
  let e := (create_entity w).1 in
  (create_entity w).2 <| cm ::= λ c, add_component e h (add_component e
    (Player_make name (u32 (if 0 <? db then db else e)) ch (u32 map_id))
    (add_component e Velocity_default (add_component e p c))) |>.

Lemma spawn_player_eq ch name db p m h s :
  use_ecs s = true → mtx_ s = false →
  let e := (create_entity (sh_world (ecs s))).1 in
  spawn_player ch name db p m h s =
    Done e (s <| ecs ::= λ x, x <| sh_world ::= spawned name ch db p m h |> |>
              <| channel_to_entity_ ::= <[ch := e]> |>
              <| channel_to_db_id_ ::= λ d, if 0 <? db then <[ch := db]> d else d |>).
Proof.
  intros Hu Hm e. destruct s. cbn in Hu, Hm. subst. unfold spawn_player. rewrite gets_bind.
  unfold on_modify_world, game_service, with_mtx, modify, skip, mbind, M_bind, mret, M_ret. cbn.
  unfold spawned. by destruct (0 <? db).
Qed.

Lemma spawned_components name ch db p m h w :
  let e := (create_entity w).1 in
  let c := cm (spawned name ch db p m h w) in
  get_component e c = Some p ∧ get_component e c = Some h
  ∧ get_component e c = Some (Player_make name (u32 (if 0 <? db then db else e)) ch (u32 m)).
Proof.
  cbn. unfold get_component, ComponentStore.get. cbn.
  unfold ComponentStore.add. by rewrite !lookup_insert_eq.
Qed.

Lemma spawned_valid name ch db p m h w e' :
  e' = (create_entity w).1 ∨ is_valid e' w = true → is_valid e' (spawned name ch db p m h w) = true.
Proof.
  unfold is_valid, EntityManager.is_valid. cbn. rewrite !bool_decide_eq_true. set_solver.
Qed.

(** ** Save on disconnect *)

(** The job [on_close] posts for entity [e] of player [db]. *)
Definition save_of (e db : Z) (c : ComponentManager) : db_job :=
  let p := default (mkPosition f0 f0 f0) (get_component e c) in
  SaveJob db (pos_x p) (pos_y p) (pos_z p)
    (match (get_component e c : option Player) with Some p => i32 (pl_map_id p) | None => 1 end) 1 0
    (match (get_component e c : option Health) with Some h => i32 (hp h) | None => 100 end)
    (match (get_component e c : option Player) with Some p => player_name p | None => [] end).

Lemma on_close_posted ch r s e db :
  use_ecs s = true → mtx_ s = false → player_dao_ s = true → ch ∈ db_strands_ s →
  channel_to_entity_ s !! ch = Some e → channel_to_db_id_ s !! ch = Some db → e ≠ 0 → 0 < db →
  ∃ s', on_close ch r s = Done tt s' ∧ posted_ s' = posted_ s ++ [save_of e db (cm (sh_world (ecs s)))].
Proof.
  intros Hu Hm Hda Hst He Hdb He0 Hdb0. unfold on_close, post_save, get_comp, on_modify_world, game_service, with_mtx,
    skip, mbind, M_bind, gets, modify, mret, M_ret. rewrite Hm. cbn.
  rewrite He, Hdb, Hda, ?Hu. cbn. rewrite (bool_decide_true (ch ∈ db_strands_ s)) by done.
  destruct (Z.ltb_spec 0 db); [|lia]. destruct (Z.eqb_spec e 0); [done|]. cbn.
  rewrite ?Hu. cbn. rewrite ?Hu. destruct (main_thread_manager_ s); cbn; rewrite ?Hu; cbn;
    eexists; (split; [reflexivity|done]).
Qed.

(** A connection without an entity, as of a player that was killed, is not saved. *)
Lemma on_close_unsaved ch r s :
  mtx_ s = false → channel_to_entity_ s !! ch = None →
  ∃ s', on_close ch r s = Done tt s' ∧ posted_ s' = posted_ s.
Proof.
  intros Hm He. unfold on_close, post_save, get_comp, on_modify_world, game_service, with_mtx,
    skip, mbind, M_bind, gets, modify, mret, M_ret. rewrite Hm. cbn. rewrite He. cbn.
  rewrite !andb_false_r. cbn. destruct (main_thread_manager_ s); cbn; by eexists.
Qed.

(** ** Attack *)

Lemma locked_gets {A} (f : server → A) s a s' :
  with_mtx (gets f) s = Done a s' →
  a = f (s <| mtx_ := true |>) ∧ s' = s <| mtx_ := true |> <| mtx_ := false |>.
Proof. unfold with_mtx. destruct (mtx_ s) eqn:Hm; [done|]. by intros [= <- <-]. Qed.

Lemma core_done {A T} (v : server → T) (m : M A) s a s' :
  keeps_core m → m s = Done a s' → (∀ s, v (core s) = v s) → v s' = v s.
Proof. intros Hm E Hv. specialize (Hm s). rewrite E in Hm. by rewrite <- Hv, Hm, Hv. Qed.

Lemma on_modify_world_eq f s :
  use_ecs s = true →
  on_modify_world f s = Done tt (s <| ecs ::= λ e, e <| sh_world ::= f |> |>).
Proof. intros He. unfold on_modify_world, game_service, mbind, M_bind. by rewrite He. Qed.

(** The end of an attack: the reports, and the death. *)
Definition attack_tail (ch target damage left timestamp te tc : Z) : M unit :=
  send_test_frame ch 1004 (attack_res.serialize
    (attack_res.mk true (if left =? 0 then str "killed" else str "hit") 1 damage left)) ;;
  broadcast_except ch 1004 (damage_notify.serialize
    (damage_notify.mk (u32 ch) target damage left 1 timestamp)) ;;
  if left =? 0 then
    on_modify_world (destroy_entity te) ;;
    with_mtx (modify (λ s, s <| channel_to_entity_ ::= delete tc |>))
  else skip.
Lemma attack_reported ch target damage left timestamp te tc s s' :
  use_ecs s = true → attack_tail ch target damage left timestamp te tc s = Done tt s' →
  ∃ ids, ids ≡ₚ elements (dom (channels_ s) ∖ {[ch]}) ∧
    sent_ s' = sent_ s ++
      (if decide (is_Some (channels_ s !! ch)) then
         [(ch, 1004, attack_res.serialize (attack_res.mk true
             (if left =? 0 then str "killed" else str "hit") 1 damage left))] else []) ++
      ((λ id, (id, 1004, damage_notify.serialize (damage_notify.mk (u32 ch) target damage left 1
          timestamp))) <$> ids) ∧
    sh_world (ecs s') = (if left =? 0 then destroy_entity te else id) (sh_world (ecs s)) ∧
    channel_to_entity_ s' = (if left =? 0 then delete tc else id) (channel_to_entity_ s).
Proof.
  intros Hue E. set (view := λ s, (use_ecs s, channel_to_entity_ s, ecs s)).
  apply bind_done in E as ([] & s3 & E3 & E). apply bind_done in E as ([] & s4 & E4 & E).
  pose proof (core_done view _ _ _ _ (send_test_frame_core _ _ _) E3 (λ _, eq_refl)) as Hv3.
  pose proof (core_done view _ _ _ _ (broadcast_except_core _ _ _) E4 (λ _, eq_refl)) as Hv4.
  rewrite Hv3 in Hv4. injection Hv4 as Hu4 Hce4 He4. rewrite Hue in Hu4.
  apply broadcast_except_sent in E4. pose proof (others_perm (channels_ s3) ch) as Hperm.
  rewrite (send_test_frame_dom _ _ _ _ _ _ E3) in Hperm. apply send_test_frame_sent in E3. rewrite E3 in E4.
  eexists. split; [exact Hperm|]. rewrite <- app_assoc in E4. destruct (left =? 0).
  - apply bind_done in E as ([] & s5 & E5 & E). rewrite on_modify_world_eq in E5 by done.
    injection E5 as <-. unfold with_mtx, modify in E. destruct (mtx_ _) in E; [done|]. injection E as <-.
    cbn. by rewrite E4, He4, Hce4.
  - injection E as <-. by rewrite E4, He4, Hce4.
Qed.

Lemma attack_damage skill : u32 (10 + u32 (skill * 5)) = (10 + 5 * skill) mod 2 ^ 32.
Proof. unfold u32. rewrite Zplus_mod_idemp_r. f_equal. lia. Qed.

Lemma take_damage_component te d h c :
  get_component te c = Some h → is_u32 (hp h) → 0 ≤ d < 2 ^ 32 →
  get_component te (CombatSystem.take_damage te d c) = Some (h <| hp := Z.max 0 (hp h - d) |>).
Proof.
  intros Hh Hu Hd. unfold CombatSystem.take_damage. rewrite get_update_component, Hh. cbn.
  do 2 f_equal. case_cmp; rewrite ?u32_small by (int_unfold; lia); lia.
Qed.

Lemma destroyed_invalid e w : is_valid e (destroy_entity e w) = false.
Proof.
  unfold is_valid, EntityManager.is_valid, destroy_entity, EntityManager.destroy_entity. cbn.
  apply bool_decide_eq_false. case_decide; set_solver.
Qed.

(** ** Properties *)

(** In every state the server reaches: without the ECS a chat
    message is sent once to every connected channel, prefixed with the sender's
    id, and then acknowledged to the sender; with the ECS it is handed to the
    map threads, and nothing at all is sent to any client. *)
Theorem chat_delivery e maps mysql dao redis evs s ch data s' :
  run token upd evs (init e maps mysql dao redis) = Done tt s →
  handle_chat ch data s = Done tt s' →
  sent_ s' = sent_ s ++
    if e then []
    else ((λ id, (id, 1003, shared.write_le32 [] (u32 ch) ++ data)) <$> (hash_order (channels_ s)).*1)
         ++ if decide (is_Some (channels_ s !! ch)) then [(ch, 1003, str "CHAT_SUCCESS")] else [].
Proof.
  intros ([He Hs] & Ht & Hf)%run_threads. unfold handle_chat. rewrite gets_bind. destruct e.
  - destruct (Ht eq_refl) as [m ->]. intros [= <-]. cbn. by rewrite app_nil_r.
  - rewrite (Hf eq_refl). intros ([] & s1 & E1 & E2)%bind_done.
    pose proof (broadcast_dom _ _ _ _ _ E1) as Hd.
    apply send_test_frame_sent in E2. apply broadcast_sent in E1. rewrite E2, E1, <- app_assoc.
    do 2 f_equal. destruct (decide _) as [Hc|Hc], (decide _) as [Hc'|Hc']; try done;
      rewrite <- elem_of_dom, Hd in Hc || rewrite <- elem_of_dom, <- Hd in Hc';
      rewrite elem_of_dom in *; done.
Qed.

(** A movement request never moves anybody: in every state the
    server reaches, [handle_move] leaves the whole ECS state as it was. The
    assignment to the position is behind a test that excludes it. *)
Theorem move_never_applied e maps mysql dao redis evs s ch data s' :
  run token upd evs (init e maps mysql dao redis) = Done tt s →
  handle_move ch data s = Done tt s' → ecs s' = ecs s.
Proof.
  intros ([He Hs] & Ht & Hf)%run_threads. unfold handle_move.
  destruct (player_move_req.parse data) as [req rest| |]; cbn [parsed]; [|by intros [= <-]|done].
  rewrite gets_bind. destruct e.
  - destruct (Ht eq_refl) as [m Hm]. rewrite Hm. unfold route_packet_to_map, get_player_map.
    rewrite !gets_bind, Hm, gets_bind. by intros [= <-].
  - rewrite (Hf eq_refl), gets_bind, He. intros ([] & s1 & [= <-] & E)%bind_done.
    apply bind_done in E as ([] & s2 & E1 & E2).
    rewrite (core_done ecs _ _ _ _ (send_test_frame_core _ _ _) E2 (λ _, eq_refl)).
    exact (core_done ecs _ _ _ _ (broadcast_except_core _ _ _) E1 (λ _, eq_refl)).
Qed.

(** A login without a database creates one new entity at the
    origin with full health and the player's name, maps the channel to it and
    answers "ok" with the entity as the player's id. Entities that existed stay
    alive, including the one of an earlier login of the same channel. *)
Theorem login_creates_player ch data req rest s c :
  mtx_ s = false → use_ecs s = true → redis_client_ s = false → player_dao_ s = false →
  channels_ s !! ch = Some c → room 256 c → login_req.parse data = POk req rest →
  let w := sh_world (ecs s) in let e := (create_entity w).1 in
  ∃ s', handle_login token ch data s = Done tt s'
    ∧ channel_to_entity_ s' = <[ch := e]> (channel_to_entity_ s)
    ∧ (let w' := sh_world (ecs s') in
       get_component e (cm w') = Some (mkPosition f0 f0 f0)
       ∧ get_component e (cm w') = Some (Health_.make 100 50)
       ∧ get_component e (cm w') = Some (Player_make (login_req.player_name req) (u32 e) ch 1)
       ∧ ∀ e', e' = e ∨ is_valid e' w = true → is_valid e' w' = true)
    ∧ sent_ s' = sent_ s ++
        [(ch, 1001, login_res.serialize (login_res.mk true (str "ok") (u32 e) 1))].
Proof.
  intros Hm He Hre Hda Hc Hr Hp w e. unfold handle_login. rewrite Hp. cbn [parsed].
  rewrite !gets_bind, Hre. cbn [andb]. rewrite gets_bind, Hda.
  unfold login_without_db. rewrite gets_bind, He.
  unfold mbind at 1, M_bind at 1. rewrite spawn_player_eq by done.
  match goal with |- context [find_and_send ch _ ?d ?x] =>
    destruct (find_and_send_ok ch 1001 d x c) as (s' & -> & _ & Hcore & Hsent) end.
  - done.
  - done.
  - eapply room_le; [|exact Hr]. vm_compute. discriminate.
  - apply (f_equal (λ s, (channel_to_entity_ s, ecs s))) in Hcore as [= Hce Hecs].
    exists s'. split; [done|]. split; [done|]. split; [|done]. cbn zeta. rewrite Hecs. cbn.
    destruct (spawned_components (login_req.player_name req) ch 0 (mkPosition f0 f0 f0) 1
      (Health_.make 100 50) w) as (Hv1 & Hv2 & Hv3).
    split_and!; [exact Hv1|exact Hv2|exact Hv3|]. apply spawned_valid.
Qed.

(** The completion of a login with the row of the player: the reply, and the entity
    with the values of the row. *)
Lemma login_done_spawns ch name r s c :
  mtx_ s = false → use_ecs s = true → channels_ s !! ch = Some c → room 256 c → 0 < r_id r →
  let e := (create_entity (sh_world (ecs s))).1 in
  ∃ s1, login_done (Some r) ch name s = Done tt s1 ∧ mtx_ s1 = false
    ∧ sent_ s1 = sent_ s ++ [(ch, 1001, login_res.serialize (login_res.mk true (str "ok")
        (u32 (r_id r)) (u32 (r_map_id r))))]
    ∧ (use_ecs s1, player_dao_ s1, db_strands_ s1, posted_ s1)
      = (use_ecs s, player_dao_ s, db_strands_ s, posted_ s)
    ∧ channel_to_entity_ s1 = <[ch := e]> (channel_to_entity_ s)
    ∧ channel_to_db_id_ s1 = <[ch := r_id r]> (channel_to_db_id_ s)
    ∧ sh_world (ecs s1) = spawned name ch (r_id r) (mkPosition (r_x r) (r_y r) (r_z r)) (r_map_id r)
        ((Health_.make (u32 (r_max_hp r)) 50) <| hp := u32 (r_hp r) |>) (sh_world (ecs s)).
Proof.
  intros Hm He Hc Hr Hid e. unfold login_done.
  unfold mbind at 1, M_bind at 1, with_mtx, connected, gets at 1. rewrite Hm.
  change (channels_ (s <| mtx_ := true |>)) with (channels_ s).
  rewrite bool_decide_true by (by exists c). cbn [negb].
  set (s0 := s <| mtx_ := true |> <| mtx_ := false |>). rewrite gets_bind.
  change (use_ecs s0) with (use_ecs s). rewrite He.
  unfold mbind at 1, M_bind at 1. rewrite spawn_player_eq by done. destruct (Z.ltb_spec 0 (r_id r)); [|lia].
  match goal with |- context [find_and_send ch _ ?d ?x] =>
    destruct (find_and_send_ok ch 1001 d x c) as (s1 & -> & Hm1 & Hcore & Hsent) end; [done|done| |].
  { eapply room_le; [|exact Hr]. vm_compute. discriminate. }
  apply (f_equal (λ s, (use_ecs s, channel_to_entity_ s, channel_to_db_id_ s, ecs s, player_dao_ s,
    db_strands_ s, posted_ s))) in Hcore. injection Hcore as Hue Hce Hdb Hecs Hda1 Hst1 Hpo.
  exists s1. rewrite Hue, Hda1, Hst1, Hpo, Hce, Hdb, Hecs.
  split_and!; (done || by rewrite He).
Qed.

(** Without the ECS the login is answered, and nothing is kept of it. *)
Lemma login_done_answers ch name r s c :
  mtx_ s = false → use_ecs s = false → channels_ s !! ch = Some c → room 256 c → 0 < r_id r →
  ∃ s1, login_done (Some r) ch name s = Done tt s1 ∧ mtx_ s1 = false
    ∧ sent_ s1 = sent_ s ++ [(ch, 1001, login_res.serialize (login_res.mk true (str "ok")
        (u32 (r_id r)) (u32 (r_map_id r))))]
    ∧ channel_to_entity_ s1 = channel_to_entity_ s ∧ posted_ s1 = posted_ s.
Proof.
  intros Hm He Hc Hr Hid. unfold login_done.
  unfold mbind at 1, M_bind at 1, with_mtx, connected, gets at 1. rewrite Hm.
  change (channels_ (s <| mtx_ := true |>)) with (channels_ s).
  rewrite bool_decide_true by (by exists c). cbn [negb].
  set (s0 := s <| mtx_ := true |> <| mtx_ := false |>). rewrite gets_bind.
  change (use_ecs s0) with (use_ecs s). rewrite He.
  unfold mbind at 1, M_bind at 1. cbn [mret M_ret]. destruct (Z.ltb_spec 0 (r_id r)); [|lia].
  match goal with |- context [find_and_send ch _ ?d ?x] =>
    destruct (find_and_send_ok ch 1001 d x c) as (s1 & -> & Hm1 & Hcore & Hsent) end; [done|done| |].
  { eapply room_le; [|exact Hr]. vm_compute. discriminate. }
  apply (f_equal (λ s, (channel_to_entity_ s, posted_ s))) in Hcore. injection Hcore as Hce Hpo.
  by exists s1.
Qed.

(** A session with the database: the reply to the login and the job posted at the
    disconnect. *)
Lemma session_saved ch name r reason s c :
  mtx_ s = false → use_ecs s = true → player_dao_ s = true →
  channels_ s !! ch = Some c → room 256 c → ch ∈ db_strands_ s → 0 < r_id r →
  (create_entity (sh_world (ecs s))).1 ≠ 0 →
  ∃ s1 s2, login_done (Some r) ch name s = Done tt s1 ∧ on_close ch reason s1 = Done tt s2
    ∧ sent_ s1 = sent_ s ++ [(ch, 1001, login_res.serialize (login_res.mk true (str "ok")
        (u32 (r_id r)) (u32 (r_map_id r))))]
    ∧ posted_ s2 = posted_ s ++ [SaveJob (r_id r) (r_x r) (r_y r) (r_z r)
        (i32 (u32 (r_map_id r))) 1 0 (i32 (u32 (r_hp r))) name].
Proof.
  intros Hm He Hda Hc Hr Hst Hid He0.
  destruct (login_done_spawns ch name r s c) as (s1 & E1 & Hm1 & Hsent & Hcore & Hce & Hdb & Hecs); [done..|].
  injection Hcore as Hue Hda1 Hst1 Hpo. set (e := (create_entity (sh_world (ecs s))).1) in *.
  destruct (on_close_posted ch reason s1 e (r_id r)) as (s2 & E2 & Hp2);
    [congruence|done|congruence|by rewrite Hst1|rewrite Hce; apply lookup_insert_eq
    |rewrite Hdb; apply lookup_insert_eq|done|done|].
  exists s1, s2. split_and!; [done|done|exact Hsent|]. rewrite Hp2, Hecs, Hpo. do 2 f_equal.
  destruct (spawned_components name ch (r_id r) (mkPosition (r_x r) (r_y r) (r_z r)) (r_map_id r)
    ((Health_.make (u32 (r_max_hp r)) 50) <| hp := u32 (r_hp r) |>) (sh_world (ecs s))) as (Hv1 & Hv2 & Hv3).
  unfold save_of. fold e in Hv1, Hv2, Hv3. cbn zeta in Hv1, Hv2, Hv3.
  by rewrite Hv1, Hv2, Hv3.
Qed.

(** A session with the database, from the answered login to
    the disconnect: the position, map, hit points and name that were loaded are
    what is saved, but the level and experience of the record are dropped, and
    level 1 with experience 0 is written over them. *)
Theorem session_save_resets_progress ch name r reason s c :
  mtx_ s = false → use_ecs s = true → player_dao_ s = true →
  channels_ s !! ch = Some c → room 256 c → ch ∈ db_strands_ s → 0 < r_id r →
  (create_entity (sh_world (ecs s))).1 ≠ 0 →
  ∃ s1 s2, login_done (Some r) ch name s = Done tt s1 ∧ on_close ch reason s1 = Done tt s2
    ∧ posted_ s2 = posted_ s ++ [SaveJob (r_id r) (r_x r) (r_y r) (r_z r)
        (i32 (u32 (r_map_id r))) 1 0 (i32 (u32 (r_hp r))) name].
Proof.
  intros. destruct (session_saved ch name r reason s c) as (s1 & s2 & ? & ? & _ & ?); try done.
  by exists s1, s2.
Qed.

(** C30: (functional) An attack by a player that is logged in on one that is,
    itself included, takes [10 + 5 * skill_id] hit points, modulo 2^32, but not
    below zero. The attacker, if it is still connected, is told the damage and
    what is left, and all other connections get the notice with the two ids, in
    the order of the hash table. If no hit points are left, the target's entity
    is destroyed and its channel is no longer mapped to it; otherwise nobody's
    entity changes. The ECS has to be on and every send queue has to have room
    for the frames. *)
Theorem attack_applies_damage ch data req rest s ae te h :
  use_ecs s = true → mtx_ s = false → roomy 256 s → attack_req.parse data = POk req rest →
  let tc := i32 (attack_req.target_id req) in
  let d := (10 + 5 * attack_req.skill_id req) mod 2 ^ 32 in
  let left := Z.max 0 (hp h - d) in
  channel_to_entity_ s !! ch = Some ae → ae ≠ 0 →
  channel_to_entity_ s !! tc = Some te → te ≠ 0 →
  get_component te (cm (sh_world (ecs s))) = Some h → is_u32 (hp h) →
  ∃ s' ids, handle_attack ch data s = Done tt s'
    ∧ get_component te (cm (sh_world (ecs s'))) = Some (h <| hp := left |>)
    ∧ ids ≡ₚ elements (dom (channels_ s) ∖ {[ch]})
    ∧ sent_ s' = sent_ s ++
        (if decide (is_Some (channels_ s !! ch)) then
           [(ch, 1004, attack_res.serialize (attack_res.mk true
               (if d <? hp h then str "hit" else str "killed") 1 d left))] else []) ++
        ((λ id, (id, 1004, damage_notify.serialize (damage_notify.mk (u32 ch)
            (attack_req.target_id req) d left 1 (attack_req.timestamp req)))) <$> ids)
    ∧ if d <? hp h
      then channel_to_entity_ s' = channel_to_entity_ s ∧ em (sh_world (ecs s')) = em (sh_world (ecs s))
      else channel_to_entity_ s' = delete tc (channel_to_entity_ s)
           ∧ is_valid te (sh_world (ecs s')) = false.
Proof.
  intros Hue Hm Hr Hp tc d left Ha Ha0 Ht Ht0 Hh Hu.
  destruct (returns_handle_attack token true ch data 0 s) as ([] & s' & E & _); [done|by split_and!|].
  exists s'. pose proof E as E0. unfold handle_attack in E. rewrite Hp in E. cbn [parsed] in E. fold tc in E.
  apply bind_done in E as ([a t] & s1 & [Hat ->]%locked_gets & E). cbn in Hat. rewrite Ha, Ht in Hat.
  injection Hat as -> ->. destruct (Z.eqb_spec ae 0), (Z.eqb_spec te 0); try done. cbn [orb] in E.
  assert (u32 (10 + u32 (attack_req.skill_id req * 5)) = d) as Hd by apply attack_damage.
  rewrite Hd in E. assert (0 ≤ d < 2 ^ 32) by (apply Z.mod_pos_bound; lia).
  set (c' := CombatSystem.take_damage te d (cm (sh_world (ecs s)))).
  assert (get_component te c' = Some (h <| hp := left |>)) as Hh' by (by apply take_damage_component).
  apply bind_done in E as ([] & s2 & E2 & E). rewrite on_modify_world_eq in E2 by done. injection E2 as <-.
  rewrite gets_bind in E.
  match type of E with context [CombatSystem.get_hp te ?c] =>
    change c with c' in E; assert (CombatSystem.get_hp te c' = left) as Hhp
      by (unfold CombatSystem.get_hp; by rewrite Hh') end.
  rewrite Hhp in E.
  apply (attack_reported ch (attack_req.target_id req) d left (attack_req.timestamp req) te tc) in E
    as (ids & Hids & Hsent & He & Hce); [|done].
  exists ids. rewrite He, Hce, Hsent. cbn [ecs sh_world cm em channels_ sent_ channel_to_entity_ set].
  split; [done|]. destruct (Z.ltb_spec d (hp h)), (Z.eqb_spec left 0); try (unfold left in *; lia).
  - done.
  - split_and!; [done|done|done|done|apply destroyed_invalid].
Qed.

End laws.

#[local] Existing Instances key_order min_queue buffer_first.

Definition login_bytes : list Z :=
  login_req.serialize (login_req.mk (str "kim") []).

(** The state after some events, of a server with or without ECS. *)
Definition after (e : bool) (evs : list event) : server :=
  match run (λ _, None) (λ _ w, w) evs (init e [] false false false) with
  | Done _ s => s
  | _ => init e [] false false false
  end.

(** Two clients connected, and two players logged in. *)
Definition two_clients : list event := [Accept 7 0; Accept 8 0].
Definition two_players : list event :=
  two_clients ++ [LateFrame 7 1001 login_bytes; LateFrame 8 1001 login_bytes].

Lemma chat_delivery_witness :
  match handle_chat 7 [104; 105] (after false two_clients) with
  | Done _ s' => sent_ s' = [(7, 1003, [7; 0; 0; 0; 104; 105]); (8, 1003, [7; 0; 0; 0; 104; 105]);
                             (7, 1003, str "CHAT_SUCCESS")]
                 ∨ sent_ s' = [(8, 1003, [7; 0; 0; 0; 104; 105]); (7, 1003, [7; 0; 0; 0; 104; 105]);
                               (7, 1003, str "CHAT_SUCCESS")]
  | _ => False
  end.
Proof.
  assert (run (λ _, None) (λ _ w, w) two_clients (init false [] false false false)
    = Done tt (after false two_clients)) as Hr by (vm_compute; reflexivity).
  assert (match handle_chat 7 [104; 105] (after false two_clients) with Done _ _ => true | _ => false end
    = true) as Hd by (vm_compute; reflexivity).
  destruct (handle_chat 7 [104; 105] (after false two_clients)) as [[] s'| |] eqn:E; [|done|done].
  rewrite (chat_delivery (λ _, None) (λ _ w, w) false [] false false false two_clients _ 7 [104; 105] s' Hr E).
  vm_compute. auto.
Defined.

Lemma move_never_applied_witness :
  match handle_move 7 (player_move_req.serialize (player_move_req.mk 1 1065353216 0 0 0))
          (after true two_players) with
  | Done _ s' => ecs s' = ecs (after true two_players)
  | _ => False
  end.
Proof.
  set (data := player_move_req.serialize _).
  assert (run (λ _, None) (λ _ w, w) two_players (init true [] false false false)
    = Done tt (after true two_players)) as Hr by (vm_compute; reflexivity).
  assert (match handle_move 7 data (after true two_players) with Done _ _ => true | _ => false end
    = true) as Hd by (vm_compute; reflexivity).
  destruct (handle_move 7 data (after true two_players)) as [[] s'| |] eqn:E; [|done|done].
  exact (move_never_applied (λ _, None) (λ _ w, w) true [] false false false two_players _ 7 data s' Hr E).
Defined.

Lemma login_creates_player_witness :
  ∃ s', handle_login (λ _, None) 7 login_bytes (after true two_clients) = Done tt s'
    ∧ channel_to_entity_ s' !! 7 = Some 1.
Proof.
  destruct (login_creates_player (λ _, None) 7 login_bytes (login_req.mk (str "kim") []) []
    (after true two_clients) (asio_channel.start 0 (asio_channel.new_channel 7)).1)
    as (s' & E & Hc & _); try (vm_compute; reflexivity); [by_decide|].
  exists s'. split; [exact E|]. rewrite Hc. vm_compute. reflexivity.
Defined.

Definition veteran : PlayerRecord := mkRecord 31 (str "kim") 40 9000 77 100 f0 f0 f0 2.

Lemma session_save_resets_progress_witness :
  let s := (after true two_clients) <| player_dao_ := true |> <| db_strands_ := {[7]} |> in
  ∃ s1 s2, login_done (Some veteran) 7 (str "kim") s = Done tt s1
    ∧ on_close 7 close_read s1 = Done tt s2
    ∧ posted_ s2 = [SaveJob 31 f0 f0 f0 2 1 0 77 (str "kim")].
Proof.
  intros s. apply (session_save_resets_progress 7 (str "kim") veteran close_read s
    (asio_channel.start 0 (asio_channel.new_channel 7)).1);
    first [by_decide|vm_compute; reflexivity|vm_compute; discriminate].
Defined.

Lemma attack_applies_damage_witness :
  ∃ s', handle_attack 7 (attack_req.serialize (attack_req.mk 8 2 0 0 0 0)) (after true two_players)
        = Done tt s'
    ∧ get_component 2 (cm (sh_world (ecs s'))) = Some ((Health_.make 100 50) <| hp := 80 |>).
Proof.
  destruct (attack_applies_damage (λ _, None) 7 (attack_req.serialize (attack_req.mk 8 2 0 0 0 0))
    (attack_req.mk 8 2 0 0 0 0) [] (after true two_players) 1 2 (Health_.make 100 50))
    as (s' & ids & E & Hh & _);
    [vm_compute; reflexivity|vm_compute; reflexivity|by_decide|vm_compute; reflexivity|vm_compute; reflexivity|done
    |vm_compute; reflexivity|done|vm_compute; reflexivity|by_decide|].
  exists s'. split; [exact E|exact Hh].
Defined.
