(* ===== verification/ServerConfig.v ===== *)
(** * Server configuration ([src/server/core/server_config.{hpp,cpp}],
    [src/server/main.cpp])

    [load] reads a JSON document and overwrites the defaults key by key.  The
    document is a value of nlohmann's [json] as the accessors of that library
    treat it; the text parser of the library is a parameter.  Only parsing is
    inside of the [try] block: a member of the wrong type throws out of [load]
    ([Throws]), and a number that does not fit the integer type it is cast to
    from [double] is undefined behaviour ([Undef]). *)

From S2P Require Import Prelude Floats Text GameServer.
Import game_server(MapConfig, mkMapConfig, mc_id, mc_name, mc_width, mc_height, mc_max_players).

Module server_config.

#[local] Set Warnings "-register-all".

(** ** JSON values and accessors *)

Inductive json :=
| JNull
| JBool (b : bool)
| JInteger (z : Z)             (* negative, int64_t *)
| JUnsigned (z : Z)            (* uint64_t *)
| JFloat (x : f64)
| JString (s : list Z)
| JArray (l : list json)
| JObject (m : list (list Z * json)).

Inductive result (A : Type) := Val (a : A) | Throws | Undef.
#[global] Arguments Val {A} a.
#[global] Arguments Throws {A}.
#[global] Arguments Undef {A}.

#[global] Instance result_ret : MRet result := λ A a, Val a.
#[global] Instance result_bind : MBind result := λ A B f m,
  match m with Val a => f a | Throws => Throws | Undef => Undef end.

Definition key (s : string) : list Z := bytes_of_string s.

(** [j.find(k)]: [end()] unless [j] is an object with that key. *)
Definition find (j : json) (k : list Z) : option json :=
  match j with
  | JObject m => snd <$> (snd <$> list_find (λ p, p.1 = k) m)
  | _ => None
  end.

(** [static_cast] of a [double] to an integer type: truncation. *)
Definition truncate (x : f64) : option Z :=
  match x with
  | S754_zero _ => Some 0
  | S754_finite s m e =>
      let v := if 0 <=? e then Zpos m * 2 ^ e else Zpos m / 2 ^ (- e) in
      Some (if s : bool then - v else v)
  | _ => None
  end.

Definition b2z (b : bool) : Z := if b then 1 else 0.

(** [j.get<T>()] for an integer type [T] into which integers wrap. *)
Definition get_integral (wrap : Z → Z) (j : json) : result Z :=
  match j with
  | JInteger z | JUnsigned z => Val (wrap z)
  | JBool b => Val (b2z b)
  | JFloat x =>
      match truncate x with
      | Some z => if wrap z =? z then Val z else Undef
      | None => Undef
      end
  | _ => Throws
  end.
Definition get_int : json → result Z := get_integral i32.
Definition get_u16 : json → result Z := get_integral u16.

Definition get_float (j : json) : result f32 :=
  match j with
  | JInteger z | JUnsigned z => Val (f32_of_Z z)
  | JBool b => Val (f32_of_Z (b2z b))
  | JFloat x => Val (f32_of_f64 x)
  | _ => Throws
  end.

Definition get_string (j : json) : result (list Z) :=
  match j with JString s => Val s | _ => Throws end.
Definition get_bool (j : json) : result bool :=
  match j with JBool b => Val b | _ => Throws end.

(** [if (o.contains(k)) t.f = o[k].get<A>();] *)
Definition field {A T} (o : json) (k : string) (get : json → result A) (upd : A → T → T) (t : T)
    : result T :=
  match find o (key k) with
  | Some v => a ← get v; mret (upd a t)
  | None => mret t
  end.

(** ** The configuration and its defaults *)

Record DbConfig := mkDbConfig
  { db_enabled : bool; db_host : list Z; db_port : Z; db_name : list Z;
    db_user : list Z; db_password : list Z; pool_size : Z }.
#[global] Instance DbConfig_eta : Settable DbConfig := λ d,
  mkDbConfig (db_enabled d) (db_host d) (db_port d) (db_name d) (db_user d) (db_password d)
    (pool_size d).
Definition DbConfig_default : DbConfig :=
  mkDbConfig false (key "127.0.0.1") 3306 (key "lemondory_game") (key "game_user") [] 4.

Record RedisConfig := mkRedisConfig
  { redis_enabled : bool; redis_host : list Z; redis_port : Z; redis_password : list Z;
    db_index : Z; token_ttl_sec : Z; player_ttl_sec : Z }.
#[global] Instance RedisConfig_eta : Settable RedisConfig := λ r,
  mkRedisConfig (redis_enabled r) (redis_host r) (redis_port r) (redis_password r) (db_index r)
    (token_ttl_sec r) (player_ttl_sec r).
Definition RedisConfig_default : RedisConfig :=
  mkRedisConfig false (key "127.0.0.1") 6379 [] 0 7200 1800.

#[global] Instance MapConfig_eta : Settable MapConfig := λ m,
  mkMapConfig (mc_id m) (mc_name m) (mc_width m) (mc_height m) (mc_max_players m).
Definition MapConfig_default : MapConfig :=
  mkMapConfig 0 [] (f32_of_Z 1000) (f32_of_Z 1000) 100.

Record ServerConfig := mkServerConfig {
  host : list Z; port : Z; backlog : Z; max_connections : Z; tcp_no_delay : bool;
  log_level : list Z; log_file : bool; log_file_path : list Z;
  io_threads : Z; map_threads_enabled : bool;
  tick_rate : Z; cfg_use_ecs : bool; memory_pool_size : Z;
  databases : gmap (list Z) DbConfig;
  redis : RedisConfig;
  maps : list MapConfig }.
#[global] Instance ServerConfig_eta : Settable ServerConfig := λ c,
  mkServerConfig (host c) (port c) (backlog c) (max_connections c) (tcp_no_delay c)
    (log_level c) (log_file c) (log_file_path c) (io_threads c) (map_threads_enabled c)
    (tick_rate c) (cfg_use_ecs c) (memory_pool_size c) (databases c) (redis c) (maps c).

Definition ServerConfig_default : ServerConfig :=
  mkServerConfig (key "0.0.0.0") 12345 128 1000 true
    (key "debug") false (key "logs/server.log") 1 true 60 true 1000
    (<[key "game" := DbConfig_default]> (<[key "guild" := DbConfig_default]>
      {[key "common" := DbConfig_default]}))
    RedisConfig_default
    [mkMapConfig 1 (key "Forest") (f32_of_Z 1000) (f32_of_Z 1000) 100;
     mkMapConfig 2 (key "Dungeon") (f32_of_Z 800) (f32_of_Z 800) 50;
     mkMapConfig 3 (key "City") (f32_of_Z 1500) (f32_of_Z 1500) 200].

(** ** [ServerConfig::load] *)

Definition load_server (s : json) (c : ServerConfig) : result ServerConfig :=
  c ← field s "host" get_string (λ v c, c <| host := v |>) c;
  c ← field s "port" get_u16 (λ v c, c <| port := v |>) c;
  c ← field s "backlog" get_int (λ v c, c <| backlog := v |>) c;
  c ← field s "max_connections" get_int (λ v c, c <| max_connections := v |>) c;
  c ← field s "tcp_no_delay" get_bool (λ v c, c <| tcp_no_delay := v |>) c;
  field s "tick_rate" get_int (λ v c, c <| tick_rate := v |>) c.

Definition load_logging (l : json) (c : ServerConfig) : result ServerConfig :=
  c ← field l "level" get_string (λ v c, c <| log_level := v |>) c;
  c ← field l "file" get_bool (λ v c, c <| log_file := v |>) c;
  field l "file_path" get_string (λ v c, c <| log_file_path := v |>) c.

Definition load_threading (t : json) (c : ServerConfig) : result ServerConfig :=
  c ← field t "io_threads" get_int (λ v c, c <| io_threads := v |>) c;
  field t "map_threads_enabled" get_bool (λ v c, c <| map_threads_enabled := v |>) c.

Definition load_game (g : json) (c : ServerConfig) : result ServerConfig :=
  c ← field g "use_ecs" get_bool (λ v c, c <| cfg_use_ecs := v |>) c;
  field g "memory_pool_size" get_int (λ v c, c <| memory_pool_size := v |>) c.

Definition load_map (m : json) : result MapConfig :=
  mc ← field m "id" get_int (λ v mc, mc <| mc_id := v |>) MapConfig_default;
  mc ← field m "name" get_string (λ v mc, mc <| mc_name := v |>) mc;
  mc ← field m "width" get_float (λ v mc, mc <| mc_width := v |>) mc;
  mc ← field m "height" get_float (λ v mc, mc <| mc_height := v |>) mc;
  field m "max_players" get_int (λ v mc, mc <| mc_max_players := v |>) mc.

Fixpoint load_each {A} (f : json → result A) (l : list json) : result (list A) :=
  match l with
  | [] => mret []
  | j :: l => a ← f j; r ← load_each f l; mret (a :: r)
  end.

Definition load_maps (j : json) (c : ServerConfig) : result ServerConfig :=
  match find j (key "maps") with
  | Some (JArray (m :: l)) => ms ← load_each load_map (m :: l); mret (c <| maps := ms |>)
  | _ => mret c
  end.

Definition load_db (v : json) : result DbConfig :=
  dc ← field v "enabled" get_bool (λ v d, d <| db_enabled := v |>) DbConfig_default;
  dc ← field v "host" get_string (λ v d, d <| db_host := v |>) dc;
  dc ← field v "port" get_u16 (λ v d, d <| db_port := v |>) dc;
  dc ← field v "name" get_string (λ v d, d <| db_name := v |>) dc;
  dc ← field v "user" get_string (λ v d, d <| db_user := v |>) dc;
  dc ← field v "password" get_string (λ v d, d <| db_password := v |>) dc;
  field v "pool_size" get_int (λ v d, d <| pool_size := v |>) dc.

Fixpoint load_items (l : list (list Z * json)) (c : ServerConfig) : result ServerConfig :=
  match l with
  | [] => mret c
  | (k, v) :: l => dc ← load_db v; load_items l (c <| databases ::= <[k := dc]> |>)
  end.

Definition load_databases (j : json) (c : ServerConfig) : result ServerConfig :=
  match find j (key "databases") with
  | Some (JObject m) => load_items m c
  | _ => mret c
  end.

Definition load_redis (r : json) (c : ServerConfig) : result ServerConfig :=
  rc ← field r "enabled" get_bool (λ v r, r <| redis_enabled := v |>) (redis c);
  rc ← field r "host" get_string (λ v r, r <| redis_host := v |>) rc;
  rc ← field r "port" get_u16 (λ v r, r <| redis_port := v |>) rc;
  rc ← field r "password" get_string (λ v r, r <| redis_password := v |>) rc;
  rc ← field r "db_index" get_int (λ v r, r <| db_index := v |>) rc;
  rc ← field r "token_ttl_sec" get_int (λ v r, r <| token_ttl_sec := v |>) rc;
  rc ← field r "player_ttl_sec" get_int (λ v r, r <| player_ttl_sec := v |>) rc;
  mret (c <| redis := rc |>).

(** [if (auto s = j.find(k); s != j.end()) { ... }] *)
Definition in_section (j : json) (k : string) (f : json → ServerConfig → result ServerConfig)
    (c : ServerConfig) : result ServerConfig :=
  match find j (key k) with Some s => f s c | None => mret c end.

Definition load_json (j : json) : result ServerConfig :=
  c ← in_section j "server" load_server ServerConfig_default;
  c ← in_section j "logging" load_logging c;
  c ← in_section j "threading" load_threading c;
  c ← in_section j "game" load_game c;
  c ← load_maps j c;
  c ← load_databases j c;
  in_section j "redis" load_redis c.

(** The file ([None] if it cannot be opened), and the text parser. *)
Definition load (json_parse : list Z → option json) (file : option (list Z))
    : result ServerConfig :=
  match file with
  | None => mret ServerConfig_default
  | Some text =>
      match json_parse text with
      | None => mret ServerConfig_default
      | Some j => load_json j
      end
  end.

(** ** [main] *)

Inductive level_enum := trace | debug | info | warn | err | critical.

Definition parse_log_level (s : list Z) : level_enum :=
  if bool_decide (s = key "trace") then trace
  else if bool_decide (s = key "debug") then debug
  else if bool_decide (s = key "info") then info
  else if bool_decide (s = key "warn") then warn
  else if bool_decide (s = key "error") then err
  else if bool_decide (s = key "critical") then critical
  else debug.

(** ** Every loaded value has its C++ type *)

Definition db_typed (d : DbConfig) : Prop := is_u16 (db_port d) ∧ is_i32 (pool_size d).
Definition redis_typed (r : RedisConfig) : Prop :=
  is_u16 (redis_port r) ∧ is_i32 (db_index r) ∧ is_i32 (token_ttl_sec r) ∧ is_i32 (player_ttl_sec r).
Definition map_typed (m : MapConfig) : Prop := is_i32 (mc_id m) ∧ is_i32 (mc_max_players m).

Record typed (c : ServerConfig) : Prop := mkTyped
  { typed_port : is_u16 (port c);
    typed_ints : is_i32 (backlog c) ∧ is_i32 (max_connections c) ∧ is_i32 (io_threads c) ∧
                 is_i32 (tick_rate c) ∧ is_i32 (memory_pool_size c);
    typed_databases : map_Forall (λ _, db_typed) (databases c);
    typed_redis : redis_typed (redis c);
    typed_maps : Forall map_typed (maps c);
    typed_some_map : maps c ≠ [] }.

(** Whatever [r] returns satisfies [P]. *)
Definition ensures {A} (P : A → Prop) (r : result A) : Prop := ∀ a, r = Val a → P a.

Lemma ensures_ret {A} (P : A → Prop) a : P a → ensures P (mret a).
Proof. intros Ha b [= <-]. done. Qed.

Lemma ensures_bind {A B} (P : A → Prop) (Q : B → Prop) (m : result A) (f : A → result B) :
  ensures P m → (∀ a, P a → ensures Q (f a)) → ensures Q (m ≫= f).
Proof. intros Hm Hf. destruct m as [a| |]; intros b Hb; [|done..]. by apply (Hf a); [apply Hm|]. Qed.

Lemma ensures_field {A T} (Q : A → Prop) (P : T → Prop) o k get (upd : A → T → T) t :
  (∀ j, ensures Q (get j)) → P t → (∀ a, Q a → P t → P (upd a t)) →
  ensures P (field o k get upd t).
Proof.
  intros Hget Ht Hupd. unfold field. destruct (find o (key k)); [|by apply ensures_ret].
  apply (ensures_bind Q); [done|]. intros a Ha. apply ensures_ret. eauto.
Qed.

Lemma get_int_typed j : ensures is_i32 (get_int j).
Proof.
  intros z. unfold get_int, get_integral. destruct j; try done.
  - intros [= <-]. by destruct b.
  - intros [= <-]. apply i32_range.
  - intros [= <-]. apply i32_range.
  - destruct (truncate x) as [y|]; [|done]. destruct (Z.eqb_spec (i32 y) y) as [E|]; [|done].
    intros [= <-]. rewrite <- E. apply i32_range.
Qed.

Lemma get_u16_typed j : ensures is_u16 (get_u16 j).
Proof.
  intros z. unfold get_u16, get_integral. destruct j; try done.
  - intros [= <-]. by destruct b.
  - intros [= <-]. apply u16_range.
  - intros [= <-]. apply u16_range.
  - destruct (truncate x) as [y|]; [|done]. destruct (Z.eqb_spec (u16 y) y) as [E|]; [|done].
    intros [= <-]. rewrite <- E. apply u16_range.
Qed.

Lemma get_any {A} (get : json → result A) j : ensures (λ _, True) (get j).
Proof. done. Qed.

Create HintDb config.
#[export] Hint Resolve get_int_typed get_u16_typed : config.
#[export] Hint Resolve get_any | 10 : config.

(** A sequence of [field]s keeps [P] when every update does. *)
Ltac fields P :=
  repeat first
    [ eapply (ensures_bind P);
        [eapply ensures_field; [eauto with config|eassumption|]|intros ??]
    | eapply ensures_field; [eauto with config|eassumption|] ];
  simpl; try (intros ??; destruct 1; destruct_and?; done).

Lemma load_server_typed s c : typed c → ensures typed (load_server s c).
Proof. intros Hc. unfold load_server. fields typed. Qed.
Lemma load_logging_typed l c : typed c → ensures typed (load_logging l c).
Proof. intros Hc. unfold load_logging. fields typed. Qed.
Lemma load_threading_typed t c : typed c → ensures typed (load_threading t c).
Proof. intros Hc. unfold load_threading. fields typed. Qed.
Lemma load_game_typed g c : typed c → ensures typed (load_game g c).
Proof. intros Hc. unfold load_game. fields typed. Qed.

Lemma load_map_typed m : ensures map_typed (load_map m).
Proof.
  assert (Hd : map_typed MapConfig_default) by by_decide.
  unfold load_map. fields map_typed.
Qed.

Lemma load_db_typed v : ensures db_typed (load_db v).
Proof.
  assert (Hd : db_typed DbConfig_default) by by_decide.
  unfold load_db. fields db_typed.
Qed.

Lemma load_redis_typed r c : typed c → ensures typed (load_redis r c).
Proof.
  intros Hc. assert (Hr : redis_typed (redis c)) by apply Hc. unfold load_redis.
  fields redis_typed. apply ensures_ret. by destruct Hc.
Qed.

Lemma load_each_typed l : ensures (Forall map_typed) (load_each load_map l).
Proof.
  induction l as [|j l IH]; [by apply ensures_ret|]. simpl.
  apply (ensures_bind _ _ _ _ (load_map_typed j)). intros m Hm.
  apply (ensures_bind _ _ _ _ IH). intros r Hr. apply ensures_ret. by constructor.
Qed.

Lemma load_each_length {A} (f : json → result A) l r : load_each f l = Val r → length r = length l.
Proof.
  revert r. induction l as [|j l IH]; intros r; simpl; [by intros [= <-]|].
  destruct (f j) as [a| |]; [|done..]. simpl. destruct (load_each f l) as [r'| |]; [|done..].
  intros [= <-]. simpl. f_equal. by apply IH.
Qed.

Lemma load_maps_typed j c : typed c → ensures typed (load_maps j c).
Proof.
  intros Hc. unfold load_maps. destruct (find j (key "maps")) as [[]|];
    try by apply ensures_ret.
  destruct l as [|m l]; [by apply ensures_ret|].
  intros c'. destruct (load_each load_map (m :: l)) as [ms| |] eqn:E; [|done..].
  intros [= <-]. pose proof (load_each_typed _ _ E). apply load_each_length in E.
  destruct Hc. split; simpl; try done. by intros ->.
Qed.

Lemma load_items_typed l c : typed c → ensures typed (load_items l c).
Proof.
  revert c. induction l as [|[k v] l IH]; intros c Hc; simpl; [by apply ensures_ret|].
  apply (ensures_bind _ _ _ _ (load_db_typed v)). intros d Hd. apply IH.
  destruct Hc. split; simpl; try done. by apply map_Forall_insert_2.
Qed.

Lemma load_databases_typed j c : typed c → ensures typed (load_databases j c).
Proof.
  intros Hc. unfold load_databases. destruct (find j (key "databases")) as [[]|];
    try by apply ensures_ret. by apply load_items_typed.
Qed.

Lemma in_section_typed j k f c :
  (∀ s c, typed c → ensures typed (f s c)) → typed c → ensures typed (in_section j k f c).
Proof. intros Hf Hc. unfold in_section. destruct (find j (key k)); [by apply Hf|by apply ensures_ret]. Qed.

#[export] Hint Resolve load_server_typed load_logging_typed load_threading_typed load_game_typed
  load_maps_typed load_databases_typed load_redis_typed in_section_typed : config.

Lemma default_typed : typed ServerConfig_default.
Proof. split; by_decide. Qed.

Lemma load_json_typed j : ensures typed (load_json j).
Proof.
  pose proof default_typed. unfold load_json.
  repeat (eapply (ensures_bind typed); [by eauto with config|intros ??]). eauto with config.
Qed.

(** Whatever [ServerConfig::load] returns, every field is a value of
    its C++ type (16-bit ports, 32-bit integers, in the databases, the maps and
    Redis too), and there is at least one map, whatever the file contains. *)
Theorem loaded_config_typed json_parse file c : load json_parse file = Val c → typed c.
Proof.
  unfold load. destruct file as [text|]; [|intros [= <-]; apply default_typed].
  destruct (json_parse text) as [j|]; [apply load_json_typed|intros [= <-]; apply default_typed].
Qed.

(** ** Every configuration can be written down *)

Section Render.
Let obj (l : list (string * json)) : json := JObject ((λ '(k, v), (key k, v)) <$> l).
Let int (z : Z) : json := if z <? 0 then JInteger z else JUnsigned z.

Definition render_map (m : MapConfig) : json := obj
  [("id", int (mc_id m)); ("name", JString (mc_name m)); ("width", JFloat (f64_of_f32 (mc_width m)));
   ("height", JFloat (f64_of_f32 (mc_height m))); ("max_players", int (mc_max_players m))]%string.

Definition render_db (d : DbConfig) : json := obj
  [("enabled", JBool (db_enabled d)); ("host", JString (db_host d)); ("port", int (db_port d));
   ("name", JString (db_name d)); ("user", JString (db_user d));
   ("password", JString (db_password d)); ("pool_size", int (pool_size d))]%string.

Definition render_redis (r : RedisConfig) : json := obj
  [("enabled", JBool (redis_enabled r)); ("host", JString (redis_host r));
   ("port", int (redis_port r)); ("password", JString (redis_password r));
   ("db_index", int (db_index r)); ("token_ttl_sec", int (token_ttl_sec r));
   ("player_ttl_sec", int (player_ttl_sec r))]%string.

(** The document with every section and every key. *)
Definition render (c : ServerConfig) : json := obj
  [("server", obj
     [("host", JString (host c)); ("port", int (port c)); ("backlog", int (backlog c));
      ("max_connections", int (max_connections c)); ("tcp_no_delay", JBool (tcp_no_delay c));
      ("tick_rate", int (tick_rate c))]);
   ("logging", obj
     [("level", JString (log_level c)); ("file", JBool (log_file c));
      ("file_path", JString (log_file_path c))]);
   ("threading", obj
     [("io_threads", int (io_threads c)); ("map_threads_enabled", JBool (map_threads_enabled c))]);
   ("game", obj
     [("use_ecs", JBool (cfg_use_ecs c)); ("memory_pool_size", int (memory_pool_size c))]);
   ("maps", JArray (render_map <$> maps c));
   ("databases", JObject (prod_map id render_db <$> map_to_list (databases c)));
   ("redis", render_redis (redis c))]%string.

Lemma get_int_render z : is_i32 z → get_int (int z) = Val z.
Proof. intros. unfold int. by destruct (z <? 0); simpl; rewrite i32_small. Qed.
Lemma get_u16_render z : is_u16 z → get_u16 (int z) = Val z.
Proof. intros. unfold int. by destruct (z <? 0); simpl; rewrite u16_small. Qed.

(** A [float] of the configuration survives the way through [double]. *)
Definition float_ok (x : f32) : Prop := f32_of_f64 (f64_of_f32 x) = x.
Lemma get_float_render x : float_ok x → get_float (JFloat (f64_of_f32 x)) = Val x.
Proof. intros Hx. simpl. by rewrite Hx. Qed.

Lemma field_found {A T} o k get (upd : A → T → T) t v a :
  find o (key k) = Some v → get v = Val a → field o k get upd t = Val (upd a t).
Proof. unfold field. intros -> Ha. simpl. by rewrite Ha. Qed.

Ltac read_fields :=
  repeat (erewrite field_found;
            [|reflexivity|first [by apply get_int_render|by apply get_u16_render
                               |by apply get_float_render|reflexivity]];
          cbn [mbind result_bind mret result_ret]).

Lemma load_map_render m :
  map_typed m → float_ok (mc_width m) → float_ok (mc_height m) → load_map (render_map m) = Val m.
Proof. intros [??] ??. unfold load_map. read_fields. by destruct m. Qed.

Lemma load_db_render d : db_typed d → load_db (render_db d) = Val d.
Proof. intros [??]. unfold load_db. read_fields. by destruct d. Qed.

Lemma load_redis_render r c :
  redis_typed r → load_redis (render_redis r) c = Val (c <| redis := r |>).
Proof. intros (?&?&?&?). unfold load_redis. read_fields. by destruct r. Qed.

(** The section named [k] of [render c]. *)
Definition section_of (c : ServerConfig) (k : string) : json :=
  default JNull (find (render c) (key k)).

Lemma in_section_render c k f c0 :
  is_Some (find (render c) (key k)) →
  in_section (render c) k f c0 = f (section_of c k) c0.
Proof. unfold in_section, section_of. by intros [j ->]. Qed.

Lemma has_section c k :
  k ∈ ["server"; "logging"; "threading"; "game"; "redis"]%string →
  is_Some (find (render c) (key k)).
Proof. rewrite !elem_of_cons. intros [->|[->|[->|[->|[->|H]]]]]; [eexists; reflexivity..|set_solver]. Qed.

Lemma load_server_render c c0 :
  typed c →
  load_server (section_of c "server") c0 = Val (c0 <| host := host c |> <| port := port c |>
    <| backlog := backlog c |> <| max_connections := max_connections c |>
    <| tcp_no_delay := tcp_no_delay c |> <| tick_rate := tick_rate c |>).
Proof. intros [? (?&?&?&?&?) ????]. unfold load_server. by read_fields. Qed.

Lemma load_logging_render c c0 :
  load_logging (section_of c "logging") c0 = Val (c0 <| log_level := log_level c |>
    <| log_file := log_file c |> <| log_file_path := log_file_path c |>).
Proof. unfold load_logging. by read_fields. Qed.

Lemma load_threading_render c c0 :
  typed c →
  load_threading (section_of c "threading") c0 = Val (c0 <| io_threads := io_threads c |>
    <| map_threads_enabled := map_threads_enabled c |>).
Proof. intros [? (?&?&?&?&?) ????]. unfold load_threading. by read_fields. Qed.

Lemma load_game_render c c0 :
  typed c →
  load_game (section_of c "game") c0 = Val (c0 <| cfg_use_ecs := cfg_use_ecs c |>
    <| memory_pool_size := memory_pool_size c |>).
Proof. intros [? (?&?&?&?&?) ????]. unfold load_game. by read_fields. Qed.

Lemma load_redis_section c c0 :
  redis_typed (redis c) → load_redis (section_of c "redis") c0 = Val (c0 <| redis := redis c |>).
Proof. apply load_redis_render. Qed.

Lemma load_each_render ms :
  Forall (λ m, map_typed m ∧ float_ok (mc_width m) ∧ float_ok (mc_height m)) ms →
  load_each load_map (render_map <$> ms) = Val ms.
Proof.
  induction 1 as [|m ms (?&?&?) _ IH]; [done|].
  rewrite fmap_cons. cbn [load_each]. rewrite load_map_render by done.
  cbn [mbind result_bind]. by rewrite IH.
Qed.

Lemma load_items_render l c :
  Forall (λ p, db_typed p.2) l → NoDup l.*1 →
  load_items (prod_map id render_db <$> l) c
  = Val (c <| databases ::= λ m, list_to_map l ∪ m |>).
Proof.
  intros Hl. revert c. induction Hl as [|[k d] l Hd Hl IH]; intros c Hnd.
  - simpl. rewrite map_empty_union. by destruct c.
  - rewrite !fmap_cons. apply NoDup_cons in Hnd as [Hk Hnd]. cbn [prod_map load_items].
    rewrite load_db_render by done. cbn [mbind result_bind fst snd].
    rewrite IH by done. simpl. do 2 f_equal.
    rewrite <- insert_union_l, insert_union_r; [done|]. by apply not_elem_of_list_to_map_1.
Qed.

Definition role_keys : list (list Z) := [key "game"; key "guild"; key "common"].

Lemma databases_override dbs :
  Forall (λ k, is_Some (dbs !! k)) role_keys → dbs ∪ databases ServerConfig_default = dbs.
Proof.
  intros Hk. apply map_eq. intros k. rewrite lookup_union.
  destruct (dbs !! k) as [d|] eqn:E; [by destruct (databases ServerConfig_default !! k)|].
  rewrite (left_id_L None _). apply not_elem_of_dom. intros Hin.
  assert (k ∈ role_keys) as Hr.
  { cut (dom (databases ServerConfig_default) = list_to_set role_keys); [set_solver|].
    apply set_eq. intros x. simpl. set_solver. }
  apply (proj1 (Forall_forall _ _) Hk) in Hr as [? Hr]. congruence.
Qed.

(** The configurations [load] can produce from a document: typed, the three
    database roles present. *)
Definition expressible (c : ServerConfig) : Prop :=
  typed c ∧ Forall (λ m, float_ok (mc_width m) ∧ float_ok (mc_height m)) (maps c) ∧
  Forall (λ k, is_Some (databases c !! k)) role_keys.

Lemma load_databases_render c0 c :
  typed c → Forall (λ k, is_Some (databases c !! k)) role_keys →
  databases c0 = databases ServerConfig_default →
  load_databases (render c) c0 = Val (c0 <| databases := databases c |>).
Proof.
  intros Ht Hk H0. unfold load_databases.
  change (find (render c) (key "databases"))
    with (Some (JObject (prod_map id render_db <$> map_to_list (databases c)))). cbv iota beta.
  rewrite load_items_render; [| |apply NoDup_fst_map_to_list].
  2:{ apply Forall_forall. intros [k d] Hin%elem_of_map_to_list. by apply (typed_databases _ Ht k). }
  simpl. by rewrite list_to_map_to_list, H0, databases_override.
Qed.

Lemma load_maps_render c0 c :
  typed c → Forall (λ m, float_ok (mc_width m) ∧ float_ok (mc_height m)) (maps c) →
  load_maps (render c) c0 = Val (c0 <| maps := maps c |>).
Proof.
  intros Ht Hf. unfold load_maps.
  change (find (render c) (key "maps")) with (Some (JArray (render_map <$> maps c))).
  cbv iota beta.
  destruct Ht as [_ _ _ _ Hm Hne]. pose proof (load_each_render (maps c)) as H.
  destruct (maps c) as [|m ms]; [done|]. rewrite fmap_cons in H |- *. rewrite H; [done|].
  apply Forall_and. done.
Qed.
End Render.

Lemma load_json_chain j c1 c2 c3 c4 c5 c6 r :
  in_section j "server" load_server ServerConfig_default = Val c1 →
  in_section j "logging" load_logging c1 = Val c2 →
  in_section j "threading" load_threading c2 = Val c3 →
  in_section j "game" load_game c3 = Val c4 →
  load_maps j c4 = Val c5 → load_databases j c5 = Val c6 →
  in_section j "redis" load_redis c6 = r → load_json j = r.
Proof.
  intros H1 H2 H3 H4 H5 H6 H7. unfold load_json.
  rewrite H1. cbn. rewrite H2. cbn. rewrite H3. cbn. rewrite H4. cbn. rewrite H5. cbn.
  rewrite H6. exact H7.
Qed.

Ltac section_step L :=
  rewrite in_section_render by (apply has_section; set_solver); apply L; done.

(** C29: (round trip) A document with every key set loads to exactly the
    configuration it describes: each key is wired to its own field, in every
    section, for any number of maps and databases. *)
Theorem config_roundtrip c : expressible c → load_json (render c) = Val c.
Proof.
  intros (Ht & Hf & Hk). pose proof (typed_redis _ Ht). eapply load_json_chain.
  - section_step load_server_render.
  - section_step load_logging_render.
  - section_step load_threading_render.
  - section_step load_game_render.
  - by apply load_maps_render.
  - by apply load_databases_render.
  - rewrite in_section_render by (apply has_section; set_solver).
    rewrite load_redis_section by done. by destruct c.
Qed.

(** ** Errors *)

(** A file that parses but has a member of the wrong type does not fall back to
    the defaults: the exception leaves [load], and [main] does not catch it. *)
Lemma wrong_type_escapes json_parse text j s v :
  json_parse text = Some j → find j (key "server") = Some s → find s (key "host") = Some v →
  (∀ t, v ≠ JString t) → load json_parse (Some text) = Throws.
Proof.
  intros Hp Hs Hv Ht. unfold load. rewrite Hp. unfold load_json.
  assert (in_section j "server" load_server ServerConfig_default = Throws) as ->; [|done].
  unfold in_section. rewrite Hs. unfold load_server.
  assert (∀ upd c, @field _ ServerConfig s "host" get_string upd c = Throws) as Hf; [|by rewrite Hf].
  intros. unfold field. rewrite Hv. destruct v; try done. by destruct (Ht s0).
Qed.

(** An unreadable file, a file that is not JSON and a document without any of the
    sections all give the defaults. *)
Lemma load_without_sections json_parse file :
  (∀ text j k, file = Some text → json_parse text = Some j → find j k = None) →
  load json_parse file = Val ServerConfig_default.
Proof.
  intros Hn. destruct file as [text|]; [|done]. unfold load.
  destruct (json_parse text) as [j|] eqn:E; [|done].
  unfold load_json, in_section, load_maps, load_databases.
  by rewrite !(Hn text j) by done.
Qed.

(** ** Witnesses *)

Definition sample_document : json :=
  JObject [(key "server", JObject [(key "port", JUnsigned 70000); (key "backlog", JInteger (-1))])].

Lemma loaded_config_typed_witness :
  load (λ _, Some sample_document) (Some [])
    = Val (ServerConfig_default <| port := 4464 |> <| backlog := -1 |>)
  ∧ typed (ServerConfig_default <| port := 4464 |> <| backlog := -1 |>).
Proof.
  assert (load (λ _, Some sample_document) (Some [])
    = Val (ServerConfig_default <| port := 4464 |> <| backlog := -1 |>)) as H
    by (vm_compute; reflexivity).
  exact (conj H (loaded_config_typed _ _ _ H)).
Defined.

Definition sample_config : ServerConfig :=
  ServerConfig_default <| port := 7000 |> <| cfg_use_ecs := false |>
    <| maps := [mkMapConfig 9 (key "Arena") f0_1 f20 8] |>
    <| databases ::= <[key "game" := DbConfig_default <| db_enabled := true |> <| pool_size := 2 |>]> |>.

Lemma config_roundtrip_witness : load_json (render sample_config) = Val sample_config.
Proof. apply (config_roundtrip sample_config). split; [split; by_decide|split; by_decide]. Defined.

End server_config.
