(* ===== verification/DbConnection.v ===== *)
(** * Database connections ([src/server/db/db_connection.{hpp,cpp}],
    [transaction.hpp], [db_manager.{hpp,cpp}])

    The connection pool, the handle that gives its connection back when it goes
    out of scope, the transaction guard, and the manager with one pool per role.
    The MySQL client library is a parameter: the class [MySQL] lists the calls
    the code makes, on a state [W] of the library and the server behind it. *)

From S2P Require Import Prelude Floats Text GameServer ServerConfig.
Import server_config.

(** ** The client library *)

Inductive mysql_option :=
| MYSQL_OPT_RECONNECT (on : bool)
| MYSQL_OPT_CONNECT_TIMEOUT (seconds : Z)
| MYSQL_OPT_READ_TIMEOUT (seconds : Z)
| MYSQL_OPT_WRITE_TIMEOUT (seconds : Z).

(** Handles and statements are addresses; [None] is a null pointer.  A call that
    returns [int] gives 0 on success.  [mysql_stmt_bind_param] binds one string,
    [mysql_stmt_bind_result] the columns of a player row with the size of the
    buffer for the name, and [mysql_stmt_fetch] yields the return code, the row
    as written into the buffers and the length of the name column. *)
Class MySQL (W : Type) := {
  mysql_init : W → option Z * W;
  mysql_options : Z → mysql_option → W → W;
  mysql_real_connect : Z → list Z → list Z → list Z → list Z → Z → W → bool * W;
  mysql_close : Z → W → W;
  mysql_query : Z → list Z → W → Z * W;
  mysql_errno : Z → W → Z;
  mysql_stmt_init : Z → W → option Z * W;
  mysql_stmt_prepare : Z → list Z → W → Z * W;
  mysql_stmt_bind_param : Z → list Z → W → Z * W;
  mysql_stmt_execute : Z → W → Z * W;
  mysql_stmt_errno : Z → W → Z;
  mysql_stmt_bind_result : Z → Z → W → Z * W;
  mysql_stmt_fetch : Z → W → (Z * game_server.PlayerRecord * Z) * W;
  mysql_stmt_close : Z → W → W }.

Definition is_retryable_mysql_error (e : Z) : bool :=
  (e =? 2006) || (e =? 2013) || (e =? 1213) || (e =? 1205).

Module db.

(** ** State and effects *)

Record pool := mkPool
  { cfg_ : DbConfig; connections_ : list (option Z); free_indices_ : list Z; open_ : bool }.
#[global] Instance pool_eta : Settable pool := λ p,
  mkPool (cfg_ p) (connections_ p) (free_indices_ p) (open_ p).

(** The pool, the library, and the milliseconds slept between attempts. *)
Record state (W : Type) := mkState { s_pool : pool; s_world : W; s_slept : Z }.
#[global] Arguments mkState {W} _ _ _.
#[global] Arguments s_pool {W} _.
#[global] Arguments s_world {W} _.
#[global] Arguments s_slept {W} _.
#[global] Instance state_eta W : Settable (state W) := λ s,
  mkState (s_pool s) (s_world s) (s_slept s).

(** A computation returns, throws an exception nobody catches, or is undefined. *)
Inductive res (A : Type) := Ok (a : A) | Thrown | Bad.
#[global] Arguments Ok {A} a.
#[global] Arguments Thrown {A}.
#[global] Arguments Bad {A}.

Definition D (W A : Type) : Type := state W → res (A * state W).
#[global] Instance D_ret W : MRet (D W) := λ A a s, Ok (a, s).
#[global] Instance D_bind W : MBind (D W) := λ A B f m s,
  match m s with Ok (a, s') => f a s' | Thrown => Thrown | Bad => Bad end.

Section db.
Context {W : Type} `{MySQL W}.

Definition skip : D W unit := mret tt.
Definition lift {A} (f : W → A * W) : D W A := λ s,
  let '(a, w) := f (s_world s) in Ok (a, s <| s_world := w |>).
Definition exec (f : W → W) : D W unit := λ s, Ok (tt, s <| s_world ::= f |>).
Definition ask {A} (f : state W → A) : D W A := λ s, Ok (f s, s).
Definition on_pool (f : pool → pool) : D W unit := λ s, Ok (tt, s <| s_pool ::= f |>).
Definition throw {A} : D W A := λ _, Thrown.
Definition bad {A} : D W A := λ _, Bad.

(** ** DbConnectionPool *)

Definition make_pool (cfg : DbConfig) : pool := mkPool cfg [] [] false.

(** [for (auto* c : connections_) if (c) mysql_close(c);] *)
Definition close_all (cs : list (option Z)) (w : W) : W :=
  foldl (λ w c, match c with Some c => mysql_close c w | None => w end) w cs.

Definition close : D W unit := λ s,
  Ok (tt, s <| s_world ::= close_all (connections_ (s_pool s)) |>
            <| s_pool ::= λ p, mkPool (cfg_ p) [] [] false |>).

(** The loop of [open] from index [i] on, [n] indices to go. *)
Fixpoint open_loop (n : nat) (i : Z) : D W bool :=
  match n with
  | O => on_pool (λ p, p <| open_ := true |>) ;; mret true
  | S n =>
      c ← lift mysql_init;
      match c with
      | None => close ;; mret false
      | Some c =>
          exec (mysql_options c (MYSQL_OPT_RECONNECT true)) ;;
          exec (mysql_options c (MYSQL_OPT_CONNECT_TIMEOUT 10)) ;;
          exec (mysql_options c (MYSQL_OPT_READ_TIMEOUT 5)) ;;
          exec (mysql_options c (MYSQL_OPT_WRITE_TIMEOUT 5)) ;;
          cfg ← ask (λ s, cfg_ (s_pool s));
          ok ← lift (mysql_real_connect c (c_str (db_host cfg)) (c_str (db_user cfg))
                       (c_str (db_password cfg)) (c_str (db_name cfg)) (db_port cfg));
          if negb ok then exec (mysql_close c) ;; close ;; mret false
          else
            on_pool (λ p, p <| connections_ ::= <[Z.to_nat i := Some c]> |>
                            <| free_indices_ ::= λ l, l ++ [i] |>) ;;
            open_loop n (i + 1)
      end
  end.

(** [connections_.resize] of a negative size throws [std::length_error]. *)
Definition open : D W bool :=
  o ← ask (λ s, open_ (s_pool s));
  if o : bool then mret true else
  n ← ask (λ s, pool_size (cfg_ (s_pool s)));
  if n <? 0 then throw else
  on_pool (λ p, p <| connections_ ::= λ l, resize (Z.to_nat n) None l |>) ;;
  open_loop (Z.to_nat n) 0.

Definition release (index : Z) : D W unit := on_pool (λ p, p <| free_indices_ ::= λ l, l ++ [index] |>).

(** [connections_[index]]: out of range is undefined. *)
Definition raw (index : Z) : D W (option Z) :=
  cs ← ask (λ s, connections_ (s_pool s));
  match cs !! Z.to_nat index with Some c => mret c | None => bad end.

(** ** DbConnection *)

Record DbConnection := mkConn { pool_ : bool; index_ : Z }.
Definition no_connection : DbConnection := mkConn false (-1).

Definition valid (c : DbConnection) : bool := pool_ c && (0 <=? index_ c).

(** [~DbConnection] *)
Definition drop (c : DbConnection) : D W unit := if valid c then release (index_ c) else skip.

(** The moved-to and the moved-from object. *)
Definition move (o : DbConnection) : DbConnection * DbConnection := (o, no_connection).

(** [self = std::move(o)] for distinct objects; assignment to itself is a no-op. *)
Definition move_assign (same : bool) (self o : DbConnection)
    : D W (DbConnection * DbConnection) :=
  if same then mret (self, self) else drop self ;; mret (o, no_connection).

Definition get (c : DbConnection) : D W (option Z) :=
  if valid c then raw (index_ c) else mret None.

(** An empty queue that stays empty for five seconds gives an invalid handle. *)
Definition acquire : D W DbConnection :=
  free ← ask (λ s, free_indices_ (s_pool s));
  match free with
  | [] => mret no_connection
  | idx :: rest => on_pool (λ p, p <| free_indices_ := rest |>) ;; mret (mkConn true idx)
  end.

(** [{ auto conn = pool_.acquire(); body }]: the handle is dropped at the end of
    the scope, whichever way the body returns. *)
Definition with_conn {A} (body : DbConnection → D W A) : D W A :=
  conn ← acquire; a ← body conn; drop conn ;; mret a.

(** A library call on the connection; a null handle is not checked for. *)
Definition the_handle (c : DbConnection) : D W Z :=
  m ← get c; match m with Some m => mret m | None => bad end.

(** ** Transaction *)

Record Transaction := mkTx { tx_conn : DbConnection; committed_ : bool }.
#[global] Instance Transaction_eta : Settable Transaction := λ t, mkTx (tx_conn t) (committed_ t).

Definition sql (s : string) : list Z := bytes_of_string s.

Definition tx_begin : D W Transaction :=
  conn ← acquire;
  (if valid conn then m ← the_handle conn; lift (mysql_query m (sql "BEGIN")) ;; skip else skip) ;;
  mret (mkTx conn false).

Definition tx_commit (t : Transaction) : D W (bool * Transaction) :=
  if negb (valid (tx_conn t)) then mret (false, t) else
  m ← the_handle (tx_conn t);
  rc ← lift (mysql_query m (sql "COMMIT"));
  if negb (rc =? 0) then mret (false, t) else mret (true, t <| committed_ := true |>).

(** [~Transaction], with the destructor of its connection. *)
Definition tx_end (t : Transaction) : D W unit :=
  (if valid (tx_conn t) && negb (committed_ t)
   then m ← the_handle (tx_conn t); lift (mysql_query m (sql "ROLLBACK")) ;; skip else skip) ;;
  drop (tx_conn t).

End db.

(** ** DbManager *)

Inductive DbRole := Game | Guild | Common.
#[global] Instance DbRole_eq : EqDecision DbRole.
Proof. solve_decision. Defined.

Definition role_key (r : DbRole) : list Z :=
  match r with Game => key "game" | Guild => key "guild" | Common => key "common" end.
Definition role_index (r : DbRole) : nat := match r with Game => 0 | Guild => 1 | Common => 2 end.

(** [pools_]: one entry per role. *)
Abbreviation manager := (list (option pool)).

Section manager.
Context {W : Type} `{MySQL W}.

Definition make_manager : manager := [None; None; None].

Definition close_pool (p : option pool) (w : W) : W :=
  match p with Some p => close_all (connections_ p) w | None => w end.

(** One role of [init].  An entry that is overwritten is destroyed, and so is a
    pool that did not open (which has closed itself already). *)
Definition init_role (configs : gmap (list Z) DbConfig) (r : DbRole) (st : manager * Z * W)
    : res (manager * Z * W) :=
  let '(m, opened, w) := st in
  match configs !! role_key r with
  | None => Ok st
  | Some cfg =>
      if negb (db_enabled cfg) then Ok st else
      match open (mkState (make_pool cfg) w 0) with
      | Ok (true, s) => Ok (<[role_index r := Some (s_pool s)]> m, opened + 1,
                            close_pool (default None (m !! role_index r)) (s_world s))
      | Ok (false, s) => Ok (m, opened, close_pool (Some (s_pool s)) (s_world s))
      | Thrown => Thrown
      | Bad => Bad
      end
  end.

Definition manager_init (configs : gmap (list Z) DbConfig) (m : manager) (w : W)
    : res (bool * manager * W) :=
  let step r st := match st with Ok s => init_role configs r s | Thrown => Thrown | Bad => Bad end in
  match step Common (step Guild (step Game (Ok (m, 0, w)))) with
  | Ok (m, opened, w) => Ok (0 <? opened, m, w)
  | Thrown => Thrown
  | Bad => Bad
  end.

Definition manager_close (m : manager) (w : W) : manager * W :=
  ((λ _, None) <$> m, foldl (λ w p, close_pool p w) w m).

(** [pool(role)] *)
Definition manager_pool (m : manager) (r : DbRole) : option pool := default None (m !! role_index r).
End manager.
End db.
