(* ===== verification/Sql.v ===== *)
(** * The UPDATE statements of the server ([src/docker/mysql/init.sql])

    The part of SQL in which the server writes a player: an [UPDATE] with one key.
    [parse_update] reads the text, [run_update] is what the statement does to the
    columns of the table [players]; so what the texts of the data access mean is a
    theorem about them, not a reading of them. *)

From S2P Require Import Prelude Floats Text GameServer.
Import game_server(PlayerRecord, mkRecord, r_id, r_name, r_level, r_exp, r_hp, r_max_hp,
  r_x, r_y, r_z, r_map_id).

Module update_sql.

Abbreviation text := bytes_of_string.

(** ** Syntax *)

(** An integer, [m / 10^k], a reference to a column, or a call without arguments. *)
Inductive value := Int (z : Z) | Decimal (m k : Z) | Column (name : list Z) | Call (name : list Z).
#[global] Instance value_eq : EqDecision value.
Proof. solve_decision. Defined.

(** [UPDATE table SET column=value, ... WHERE key=value] *)
Record update := mkUpdate {
  u_table : list Z; u_sets : list (list Z * value); u_key : list Z; u_value : value }.

Definition is_name (c : Z) : bool :=
  ((65 <=? c) && (c <=? 90)) || ((97 <=? c) && (c <=? 122)) || (c =? 95).
Fixpoint name (l : list Z) : list Z * list Z :=
  match l with
  | c :: l' => if is_name c then let '(n, r) := name l' in (c :: n, r) else ([], l)
  | [] => ([], [])
  end.
Fixpoint expect (w l : list Z) : option (list Z) :=
  match w, l with
  | [], _ => Some l
  | c :: w, d :: l => if c =? d then expect w l else None
  | _ :: _, [] => None
  end.

(** The characters [. - = , ( )]. *)
Definition dot : list Z := [46].
Definition minus : list Z := [45].
Definition equals : list Z := [61].
Definition comma : list Z := [44].
Definition parens : list Z := [40; 41].

Definition signed (neg : bool) (z : Z) : Z := if neg then - z else z.
Definition number (neg : bool) (l : list Z) : option (value * list Z) :=
  match l with
  | c :: _ =>
      if is_digit c then
        let '(n, l1) := read_digits 0 l in
        Some match expect dot l1 with
             | Some l2 => let '(m, l3) := read_digits n l2 in (Decimal (signed neg m) (zlen l2 - zlen l3), l3)
             | None => (Int (signed neg n), l1)
             end
      else None
  | [] => None
  end.
(** The sign of a column or a call is dropped. *)
Definition parse_value (l : list Z) : option (value * list Z) :=
  let '(neg, l) := match expect minus l with Some l => (true, l) | None => (false, l) end in
  match number neg l with
  | Some r => Some r
  | None =>
      match name l with
      | ([], _) => None
      | (n, l) => Some match expect parens l with Some l => (Call n, l) | None => (Column n, l) end
      end
  end.

Fixpoint parse_sets (fuel : nat) (l : list Z) : option (list (list Z * value) * list Z) :=
  match fuel with
  | O => None
  | S fuel =>
      let '(n, l) := name (skip_space l) in
      match expect equals l ≫= parse_value with
      | Some (v, l) =>
          match expect comma l with
          | Some l => match parse_sets fuel l with Some (s, l) => Some ((n, v) :: s, l) | None => None end
          | None => Some ([(n, v)], l)
          end
      | None => None
      end
  end.

(** Every assignment has an equals sign, so the length of the text is enough fuel. *)
Definition parse_update (q : list Z) : option update :=
  l ← expect (text "UPDATE") q;
  let '(table, l) := name (skip_space l) in
  l ← expect (text "SET") (skip_space l);
  '(sets, l) ← parse_sets (length l) l;
  l ← expect (text "WHERE") (skip_space l);
  let '(key, l) := name (skip_space l) in
  '(v, l) ← expect equals l ≫= parse_value;
  if bool_decide (l = []) then Some (mkUpdate table sets key v) else None.

(** ** Meaning *)

(** The columns of [players]. *)
Definition columns : list (list Z) :=
  text <$> ["id"; "name"; "level"; "exp"; "hp"; "max_hp"; "pos_x"; "pos_y"; "pos_z"; "map_id";
    "created_at"; "last_login"]%string.

(** The value [m / 10^k] in a column of type [FLOAT]. *)
Class FloatColumn := float_column : Z → Z → f32.

Section meaning.
Context `{FloatColumn}.

Definition to_float (v : value) : option f32 :=
  match v with Decimal m k => Some (float_column m k) | Int z => Some (float_column z 0) | _ => None end.
(** [INT UNSIGNED], out of range is an error. *)
Definition to_unsigned (v : value) : option Z :=
  match v with Int z => if (0 <=? z) && (z <? 2 ^ 32) then Some z else None | _ => None end.

(** One assignment; [None] where it is an error or not one of these.  The
    timestamps are not part of what the server reads. *)
Definition run_set (s : list Z * value) (r : PlayerRecord) : option PlayerRecord :=
  let '(c, v) := s in
  let 'mkRecord id n level exp hp max_hp x y z m := r in
  if decide (c = text "pos_x") then x ← to_float v; Some (mkRecord id n level exp hp max_hp x y z m)
  else if decide (c = text "pos_y") then y ← to_float v; Some (mkRecord id n level exp hp max_hp x y z m)
  else if decide (c = text "pos_z") then z ← to_float v; Some (mkRecord id n level exp hp max_hp x y z m)
  else if decide (c = text "map_id") then m ← to_unsigned v; Some (mkRecord id n level exp hp max_hp x y z m)
  else if decide (c = text "level") then level ← to_unsigned v; Some (mkRecord id n level exp hp max_hp x y z m)
  else if decide (c = text "exp") then exp ← to_unsigned v; Some (mkRecord id n level exp hp max_hp x y z m)
  else if decide (c = text "hp") then hp ← to_unsigned v; Some (mkRecord id n level exp hp max_hp x y z m)
  else if decide ((c, v) = (text "last_login", Call (text "NOW"))) then Some r
  else None.
Fixpoint run_sets (ss : list (list Z * value)) (r : PlayerRecord) : option PlayerRecord :=
  match ss with [] => Some r | s :: ss => run_set s r ≫= run_sets ss end.

(** What the statement makes of one row. *)
Definition run_update (u : update) (r : PlayerRecord) : option PlayerRecord :=
  if bool_decide (u_value u = Int (r_id r)) then run_sets (u_sets u) r else Some r.
End meaning.

(** The key and the name of a row stay. *)
Lemma run_set_keys `{FloatColumn} s r r' :
  run_set s r = Some r' → r_id r' = r_id r ∧ r_name r' = r_name r.
Proof.
  destruct s as [c v], r. cbn [run_set].
  repeat case_decide; try (intros (? & _ & [= <-])%bind_Some; done); by intros [= <-].
Qed.
Lemma run_update_keys `{FloatColumn} u r r' :
  run_update u r = Some r' → r_id r' = r_id r ∧ r_name r' = r_name r.
Proof.
  unfold run_update. case_bool_decide; [|by intros [= <-]]. clear. revert r.
  induction (u_sets u) as [|s ss IH]; intros r; cbn; [by intros [= <-]|].
  intros (r1 & [<- <-]%run_set_keys & E)%bind_Some. by apply IH.
Qed.

(** An identifier that is not a column. *)
Definition unknown_column (u : update) : bool :=
  existsb (λ '(_, v), match v with Column c => bool_decide (c ∉ columns) | _ => false end) (u_sets u).

(** ** Reading back what is printed *)

(** The text after a value. *)
Definition stops (rest : list Z) : Prop :=
  match rest with c :: _ => is_digit c = false ∧ is_name c = false ∧ c ≠ 46 ∧ c ≠ 40 | [] => True end.

Lemma read_digits_stop acc rest : stops rest → read_digits acc rest = (acc, rest).
Proof. destruct rest as [|c rest]; [done|]. intros (Hc & _). cbn -[Z.mul Z.add is_digit]. by rewrite Hc. Qed.
Lemma read_udec_app n rest : 0 ≤ n → read_digits 0 (udec n ++ rest) = read_digits n rest.
Proof.
  intros Hn. unfold udec. pose proof (udec_fuel n Hn).
  destruct (digits_app_read (S (Z.to_nat (Z.log2 n))) n 0 rest) as [p Hp]; [lia|]. by rewrite Hp.
Qed.
Lemma udec_starts n rest : 0 ≤ n → ∃ c l, udec n ++ rest = c :: l ∧ is_digit c = true.
Proof.
  intros Hn. pose proof (udec_digits n Hn) as Hd. destruct (udec n) as [|c l] eqn:E.
  - unfold udec in E. cbn [digits] in E. by apply app_eq_nil in E as [_ ?].
  - exists c, (l ++ rest). by apply Forall_cons in Hd as [? _].
Qed.

Lemma number_int neg n rest :
  0 ≤ n → stops rest → number neg (udec n ++ rest) = Some (Int (signed neg n), rest).
Proof.
  intros Hn Hs. destruct (udec_starts n rest Hn) as (c & l & E & Hc). unfold number. rewrite E, Hc, <- E.
  rewrite read_udec_app, read_digits_stop by done. destruct rest as [|d rest]; [done|].
  destruct Hs as (_ & _ & Hd & _). cbn -[zlen Z.eqb]. by destruct (Z.eqb_spec 46 d); [congruence|].
Qed.

Lemma read_frac4 q rest :
  0 ≤ q → stops rest → read_digits (q / 10000) (frac4 q ++ rest) = (q, rest).
Proof.
  intros Hq Hs. assert (∀ z, is_digit (48 + z mod 10) = true) as Hd.
  { intros z. unfold is_digit. pose proof (Z.mod_pos_bound z 10). apply andb_true_iff. split; apply Z.leb_le; lia. }
  unfold frac4. cbn [app read_digits]. rewrite !Hd, read_digits_stop by done. f_equal.
  Z.to_euclidean_division_equations; lia.
Qed.

Lemma number_fixed4 neg q rest :
  0 ≤ q → stops rest → number neg (fixed4 q ++ rest) = Some (Decimal (signed neg q) 4, rest).
Proof.
  intros Hq Hs. assert (0 ≤ q / 10000) as Hq' by (apply Z.div_pos; lia). unfold fixed4. rewrite <- !app_assoc.
  destruct (udec_starts (q / 10000) ([46] ++ frac4 q ++ rest) Hq') as (c & l & E & Hc).
  unfold number. rewrite E, Hc, <- E. rewrite read_udec_app by done.
  change (read_digits (q / 10000) ([46] ++ frac4 q ++ rest)) with (q / 10000, 46 :: frac4 q ++ rest).
  cbn -[zlen frac4 read_digits]. rewrite read_frac4 by done. rewrite zlen_app.
  change (zlen (frac4 q)) with 4. do 3 f_equal. lia.
Qed.

Lemma digit_no_sign c l : is_digit c = true → expect minus (c :: l) = None.
Proof.
  intros [Hc _]%andb_true_iff. apply Z.leb_le in Hc. cbn -[Z.eqb]. destruct (Z.eqb_spec 45 c); [lia|done].
Qed.

(** A number, whatever its sign. *)
Lemma parse_signed neg l v rest :
  (∃ c l', l ++ rest = c :: l' ∧ is_digit c = true) →
  number neg (l ++ rest) = Some (v, rest) →
  parse_value (sign_text neg ++ l ++ rest) = Some (v, rest).
Proof.
  intros (c & l' & E & Hc) Hn. unfold parse_value. destruct neg; cbn [sign_text app].
  - cbn -[number]. by rewrite Hn.
  - rewrite E, digit_no_sign, <- E by done. by rewrite Hn.
Qed.

Lemma parse_to_string z rest : stops rest → parse_value (to_string z ++ rest) = Some (Int z, rest).
Proof.
  intros Hs. unfold to_string. destruct (Z.ltb_spec z 0).
  - change ((45 :: udec (- z)) ++ rest) with (sign_text true ++ udec (- z) ++ rest).
    replace (Int z) with (Int (signed true (- z))) by (unfold signed; f_equal; lia).
    apply parse_signed; [apply udec_starts; lia|by apply number_int; [lia|]].
  - change (udec z ++ rest) with (sign_text false ++ udec z ++ rest).
    apply parse_signed; [by apply udec_starts|by apply (number_int false)].
Qed.

(** [round(x * 10^4)], what [%.4f] prints of a finite [x]. *)
Definition fixed4_of (x : f32) : option Z :=
  match x with
  | S754_zero _ => Some 0
  | S754_finite s m e => Some (signed s (scaled m e))
  | _ => None
  end.

Lemma scaled_nonneg m e : 0 ≤ scaled m e.
Proof.
  unfold scaled. destruct (Z.leb_spec 0 e); [assert (0 < 2 ^ e) by (apply Z.pow_pos_nonneg; lia); lia|].
  assert (0 < 2 ^ (- e)) by (apply Z.pow_pos_nonneg; lia).
  assert (0 ≤ Zpos m * 10000 / 2 ^ (- e)) by (apply Z.div_pos; lia). repeat case_match; lia.
Qed.

(** It is the nearest: at most half a unit of the fourth decimal away. *)
Lemma scaled_nearest m e :
  e < 0 → 2 * Z.abs (scaled m e * 2 ^ (- e) - Zpos m * 10000) ≤ 2 ^ (- e).
Proof.
  intros He. unfold scaled. destruct (Z.leb_spec 0 e); [lia|].
  assert (0 < 2 ^ (- e)) as Hd by (apply Z.pow_pos_nonneg; lia).
  pose proof (Z.div_mod (Zpos m * 10000) (2 ^ (- e)) ltac:(lia)) as E.
  pose proof (Z.mod_pos_bound (Zpos m * 10000) (2 ^ (- e)) Hd) as B.
  set (d := 2 ^ (- e)) in *. set (q := Zpos m * 10000 / d) in *. set (r := (Zpos m * 10000) mod d) in *.
  destruct (Z.ltb_spec (2 * r) d); [nia|]. destruct (Z.ltb_spec d (2 * r)); [nia|].
  destruct (Z.even q); nia.
Qed.

Lemma parse_fmt_f4 `{NanSign} x q rest :
  fixed4_of x = Some q → stops rest → parse_value (fmt_f4 x ++ rest) = Some (Decimal q 4, rest).
Proof.
  intros Hq Hs.
  assert (∀ s n, 0 ≤ n → parse_value ((sign_text s ++ fixed4 n) ++ rest) = Some (Decimal (signed s n) 4, rest)) as Hf.
  { intros s n Hn. rewrite <- app_assoc. apply parse_signed.
    - unfold fixed4. rewrite <- app_assoc. apply udec_starts, Z.div_pos; lia.
    - by apply number_fixed4. }
  destruct x as [s|s| |s m e]; try done; injection Hq as <-; unfold fmt_f4; rewrite Hf; try done.
  - by destruct s.
  - apply scaled_nonneg.
Qed.

(** A name and what follows it. *)
Lemma name_app c rest : Forall (λ x, is_name x = true) c → stops rest → name (c ++ rest) = (c, rest).
Proof.
  intros Hc Hs. induction Hc as [|x c Hx _ IH].
  - destruct rest as [|d rest]; [done|]. destruct Hs as (_ & Hd & _). cbn -[is_name]. by rewrite Hd.
  - cbn -[is_name]. by rewrite Hx, IH.
Qed.
Lemma parse_word neg c rest :
  c ≠ [] → Forall (λ x, is_name x = true) c → stops rest →
  parse_value (sign_text neg ++ c ++ rest) = Some (Column c, rest).
Proof.
  intros Hne Hc Hs. pose proof (name_app c rest Hc Hs) as Hn.
  destruct c as [|x c]; [done|]. apply Forall_cons in Hc as [Hx _].
  assert (is_digit x = false ∧ x ≠ 45) as [Hd Hm].
  { unfold is_name in Hx. unfold is_digit.
    rewrite !orb_true_iff, !andb_true_iff, Z.eqb_eq, !Z.leb_le in Hx. split; [|lia].
    apply andb_false_iff. rewrite !Z.leb_gt. lia. }
  assert (parse_value ((x :: c) ++ rest) = Some (Column (x :: c), rest)
    ∧ number true ((x :: c) ++ rest) = None) as [Hp Hnum].
  { unfold number, parse_value. cbn [app] in Hn |- *. rewrite Hd. split; [|done].
    cbn -[Z.eqb number name]. destruct (Z.eqb_spec 45 x); [congruence|].
    unfold number. rewrite Hd, Hn. destruct rest as [|d rest]; [done|].
    destruct Hs as (_ & _ & _ & Hp). cbn -[Z.eqb]. by destruct (Z.eqb_spec 40 d); [congruence|]. }
  destruct neg; [|exact Hp].
  change (parse_value (sign_text true ++ (x :: c) ++ rest)) with
    (match number true ((x :: c) ++ rest) with
     | Some r => Some r
     | None => match name ((x :: c) ++ rest) with
               | ([], _) => None
               | (n, l) => Some match expect parens l with Some l => (Call n, l) | None => (Column n, l) end
               end
     end). rewrite Hnum, Hn.
  destruct rest as [|d rest]; [done|]. destruct Hs as (_ & _ & _ & Hp').
  cbn -[Z.eqb]. by destruct (Z.eqb_spec 40 d); [congruence|].
Qed.

(** What a printed [float] is read as: a value that is not finite is the name of a
    column. *)
Definition float_value (x : f32) : value :=
  match fixed4_of x with
  | Some q => Decimal q 4
  | None => Column (if is_nan x then text "nan" else text "inf")
  end.
Lemma parse_float `{NanSign} x rest :
  stops rest → parse_value (fmt_f4 x ++ rest) = Some (float_value x, rest).
Proof.
  intros Hs. unfold float_value. destruct (fixed4_of x) as [q|] eqn:Hq; [by apply parse_fmt_f4|].
  destruct x as [s|s| |s m e]; try done; unfold fmt_f4; rewrite <- app_assoc; apply parse_word; by_decide || done.
Qed.

(** One assignment, with more behind it or as the last one. *)
Lemma parse_sets_more fuel l c v t rest :
  name (skip_space l) = (c, equals ++ t ++ comma ++ rest) →
  parse_value (t ++ comma ++ rest) = Some (v, comma ++ rest) →
  parse_sets (S fuel) l
  = match parse_sets fuel rest with Some (s, l) => Some ((c, v) :: s, l) | None => None end.
Proof. intros Hl Hv. cbn -[parse_value comma]. rewrite Hl. cbn -[parse_value comma]. by rewrite Hv. Qed.
Lemma parse_sets_last fuel l c v t rest :
  name (skip_space l) = (c, equals ++ t ++ rest) →
  parse_value (t ++ rest) = Some (v, rest) → expect comma rest = None →
  parse_sets (S fuel) l = Some ([(c, v)], rest).
Proof. intros Hl Hv Hr. cbn -[parse_value comma]. rewrite Hl. cbn -[parse_value comma]. by rewrite Hv, Hr. Qed.
End update_sql.
