(* ===== verification/MemDb.v ===== *)
(** * An in-memory MySQL server

    A concrete instance of [MySQL] on which the theorems about the database code
    are run: a player table, prepared statements, and a script of error codes
    for the statements and queries to come (0, or no entry, is success).
    Not part of the program. *)

From S2P Require Import Prelude Floats Text GameServer ServerConfig DbConnection Sql.
Import game_server(PlayerRecord, mkRecord, r_id, r_name).

Module memdb.

(** The life of a prepared statement: its text, then the bound string. *)
Inductive stmt_state :=
| Fresh | Prepared (q : list Z) | Bound (q v : list Z) | Executed (q v : list Z).

Record t := mk {
  next_handle : Z;
  table : list PlayerRecord;
  script : list Z;
  last_errno : Z;
  stmts : gmap Z stmt_state;
  log : list (list Z) }.
#[global] Instance t_eta : Settable t := λ w,
  mk (next_handle w) (table w) (script w) (last_errno w) (stmts w) (log w).

Definition start (table : list PlayerRecord) (script : list Z) : t := mk 1 table script 0 ∅ [].

(** The outcome of the next statement. *)
Definition next_error (w : t) : Z * t :=
  match script w with
  | [] => (0, w <| last_errno := 0 |>)
  | e :: rest => (e, w <| last_errno := e |> <| script := rest |>)
  end.

Definition no_row : PlayerRecord := mkRecord 0 [] 0 0 0 0 f0 f0 f0 0.
Definition fresh_row (id : Z) (name : list Z) : PlayerRecord :=
  mkRecord id name 1 0 100 100 f0 f0 f0 1.

Definition row (w : t) (name : list Z) : option PlayerRecord :=
  snd <$> list_find (λ r, r_name r = name) (table w).

Definition insert_ignore (name : list Z) (w : t) : t :=
  match row w name with
  | Some _ => w
  | None => w <| table ::= λ l, l ++ [fresh_row (1 + zlen l) name] |>
  end.

Definition is_insert (q : list Z) : bool := bool_decide (take 6 q = bytes_of_string "INSERT").

Definition new_handle (w : t) : option Z * t :=
  (Some (next_handle w), w <| next_handle := next_handle w + 1 |>).

Definition prepare (q : list Z) (x : stmt_state) : stmt_state :=
  match x with Fresh => Prepared q | _ => x end.
Definition bind (v : list Z) (x : stmt_state) : stmt_state :=
  match x with Prepared q => Bound q v | _ => x end.
Definition execute (x : stmt_state) : stmt_state :=
  match x with Bound q v => Executed q v | _ => x end.

Definition fetch (s : Z) (w : t) : Z * PlayerRecord * Z :=
  match stmts w !! s with
  | Some (Executed _ v) =>
      match row w v with
      | Some r => ((if 64 <? zlen (r_name r) then 101 else 0), r, zlen (r_name r))
      | None => (100, no_row, 0)
      end
  | _ => (1, no_row, 0)
  end.

(** The quotient, rounded to the nearest [float]. *)
#[global] Instance mem_float : update_sql.FloatColumn := λ m k,
  let d := S754_finite false (Z.to_pos (10 ^ k)) 0 in
  match m with
  | Z0 => f0
  | Zpos p => fdiv (S754_finite false p 0) d
  | Zneg p => fdiv (S754_finite true p 0) d
  end.

(** An [UPDATE] changes the rows or fails as a whole, with the error for an unknown
    column or for a value out of range; other statements are only recorded. *)
Definition run_query (q : list Z) (w : t) : Z * t :=
  match update_sql.parse_update q with
  | Some u =>
      if update_sql.unknown_column u then (1, w <| last_errno := 1054 |>)
      else match mapM (update_sql.run_update u) (table w) with
           | Some rows => (0, w <| table := rows |> <| log ::= λ l, l ++ [q] |>)
           | None => (1, w <| last_errno := 1264 |>)
           end
  | None => (0, w <| log ::= λ l, l ++ [q] |>)
  end.

#[global] Instance mem_mysql : MySQL t := {|
  mysql_init := new_handle;
  mysql_options _ _ w := w;
  mysql_real_connect _ _ _ _ _ _ w := (true, w);
  mysql_close _ w := w;
  mysql_query _ q w :=
    let '(e, w) := next_error w in
    if e =? 0 then run_query q w else (1, w);
  mysql_errno _ w := last_errno w;
  mysql_stmt_init _ w :=
    (Some (next_handle w), w <| stmts ::= <[next_handle w := Fresh]> |>
                             <| next_handle := next_handle w + 1 |>);
  mysql_stmt_prepare s q w := (0, w <| stmts ::= alter (prepare q) s |>);
  mysql_stmt_bind_param s v w := (0, w <| stmts ::= alter (bind v) s |>);
  mysql_stmt_execute s w :=
    let '(e, w) := next_error w in
    if e =? 0 then
      match stmts w !! s with
      | Some (Bound q v) =>
          (0, (if is_insert q then insert_ignore v w else w) <| stmts ::= alter execute s |>)
      | _ => (1, w)
      end
    else (1, w);
  mysql_stmt_errno _ w := last_errno w;
  mysql_stmt_bind_result _ _ w := (0, w);
  mysql_stmt_fetch s w := (fetch s w, w);
  mysql_stmt_close s w := w <| stmts ::= delete s |> |}.

End memdb.
