(* ===== verification/DbPoolLaws.v ===== *)
(** * Laws of the connection pool

    Opening either yields a pool with every connection ready or an empty one; a
    scope gives its connection back; and with the threads of the database
    executor running jobs in any interleaving, a connection is never shared,
    lost or used out of range, and never missing when there are as many
    connections as threads. *)

From S2P Require Import Prelude Floats Text GameServer ServerConfig DbConnection MemDb.
Import server_config db.

Section laws.
Context {W : Type} `{MySQL W}.

(** ** Running a computation step by step *)

Lemma bind_lift {A B} (f : W → A * W) (k : A → D W B) s :
  (lift f ≫= k) s = k (f (s_world s)).1 (s <| s_world := (f (s_world s)).2 |>).
Proof. unfold mbind, D_bind, lift. by destruct (f (s_world s)). Qed.
Lemma bind_exec {B} f (k : unit → D W B) s : (exec f ≫= k) s = k tt (s <| s_world ::= f |>).
Proof. done. Qed.
Lemma bind_ask {A B} f (k : A → D W B) s : (ask f ≫= k) s = k (f s) s.
Proof. done. Qed.
Lemma bind_on_pool {B} f (k : unit → D W B) s : (on_pool f ≫= k) s = k tt (s <| s_pool ::= f |>).
Proof. done. Qed.
Lemma bind_ret {A B} (a : A) (k : A → D W B) s : (mret a ≫= k) s = k a s.
Proof. done. Qed.
Lemma bind_Ok {A B} (m : D W A) (k : A → D W B) s a s' :
  m s = Ok (a, s') → (m ≫= k) s = k a s'.
Proof. intros E. unfold mbind, D_bind. by rewrite E. Qed.
Lemma bind_assoc {A B C} (m : D W A) (f : A → D W B) (g : B → D W C) s :
  ((m ≫= f) ≫= g) s = (m ≫= (λ a, f a ≫= g)) s.
Proof. unfold mbind, D_bind. by destruct (m s) as [[]| |]. Qed.

(** ** Opening and closing *)

Definition empty_pool (cfg : DbConfig) : pool := make_pool cfg.

(** [n] connections, all there, all free. *)
Definition ready (n : nat) (p : pool) : Prop :=
  length (connections_ p) = n ∧ Forall is_Some (connections_ p) ∧
  free_indices_ p = seqZ 0 (Z.of_nat n) ∧ open_ p = true.

Lemma open_loop_spec n k (s : state W) :
  length (connections_ (s_pool s)) = (k + n)%nat →
  Forall is_Some (take k (connections_ (s_pool s))) →
  free_indices_ (s_pool s) = seqZ 0 (Z.of_nat k) →
  ∃ b s', open_loop n (Z.of_nat k) s = Ok (b, s') ∧ cfg_ (s_pool s') = cfg_ (s_pool s) ∧
    if b : bool then ready (k + n) (s_pool s') else s_pool s' = empty_pool (cfg_ (s_pool s)).
Proof.
  revert k s. induction n as [|n IH]; intros k s Hlen Hsome Hfree.
  - exists true. eexists. split; [reflexivity|]. split; [done|].
    rewrite Nat.add_0_r in *. rewrite take_ge in Hsome by lia. done.
  - cbn [open_loop]. rewrite bind_lift.
    destruct (mysql_init (s_world s)) as [[c|] w1]; cbn [fst snd].
    2:{ exists false. eexists. by split; [reflexivity|]. }
    rewrite !bind_exec, bind_ask, bind_lift.
    match goal with |- context [mysql_real_connect ?a ?b ?c ?d ?e ?f ?g] =>
      destruct (mysql_real_connect a b c d e f g) as [[] w2] end; cbn [fst snd negb].
    2:{ exists false. eexists. by split; [reflexivity|]. }
    rewrite bind_on_pool.
    match goal with |- context [open_loop n _ ?st] => set (s1 := st) end.
    destruct (IH (S k) s1) as (b & s' & Hrun & Hcfg & Hb).
    + simpl. rewrite length_insert. lia.
    + simpl. rewrite Nat2Z.id. erewrite take_S_r by (rewrite list_lookup_insert_eq; [done|lia]).
      rewrite take_insert_ge by lia. apply Forall_app. split; [done|]. by repeat constructor.
    + simpl. rewrite Hfree. replace (Z.of_nat (S k)) with (Z.of_nat k + 1) by lia.
      by rewrite seqZ_app by lia.
    + exists b, s'. replace (Z.of_nat k + 1) with (Z.of_nat (S k)) by lia.
      split; [done|]. split; [done|].
      replace (k + S n)%nat with (S k + n)%nat by lia. done.
Qed.

Lemma open_spec cfg w sl :
  0 ≤ pool_size cfg →
  ∃ b s', open (mkState (make_pool cfg) w sl) = Ok (b, s') ∧
    if b : bool then ready (Z.to_nat (pool_size cfg)) (s_pool s') else s_pool s' = empty_pool cfg.
Proof.
  intros Hn. unfold open. rewrite bind_ask. cbn [open_ make_pool s_pool]. rewrite bind_ask.
  cbn [cfg_ s_pool make_pool]. destruct (Z.ltb_spec (pool_size cfg) 0); [lia|].
  rewrite bind_on_pool.
  match goal with |- context [open_loop _ _ ?st] => set (s1 := st) end.
  destruct (open_loop_spec (Z.to_nat (pool_size cfg)) 0 s1) as (b & s' & Hrun & Hcfg & Hb).
  - simpl. apply length_resize.
  - constructor.
  - done.
  - exists b, s'. split; [done|]. by rewrite Nat.add_0_l in Hb.
Qed.

(** A negative size in the configuration is an exception that nobody catches. *)
Lemma open_negative cfg w sl :
  pool_size cfg < 0 → open (mkState (make_pool cfg) w sl) = Thrown.
Proof.
  intros Hn. unfold open. rewrite !bind_ask. cbn [open_ make_pool s_pool].
  rewrite bind_ask. simpl. by destruct (Z.ltb_spec (pool_size cfg) 0); [|lia].
Qed.

(** ** Threads sharing a pool *)

(** The handles held by the threads that run database jobs. *)
Definition sys : Type := state W * gmap nat DbConnection.

(** Thread [t] of [n] acquires a connection (possibly in vain), makes calls of
    the library on the one it holds, or drops it.  The pool is under its mutex,
    so [acquire] and [release] are atomic. *)
Inductive pool_step (n : nat) : sys → sys → Prop :=
| step_acquire t s held c s' :
    (t < n)%nat → held !! t = None → acquire s = Ok (c, s') →
    pool_step n (s, held) (s', <[t := c]> held)
| step_call t s held c w :
    held !! t = Some c → pool_step n (s, held) (s <| s_world := w |>, held)
| step_drop t s held c s' :
    held !! t = Some c → drop c s = Ok (tt, s') →
    pool_step n (s, held) (s', delete t held).

Definition held_index (c : DbConnection) : option Z := if valid c then Some (index_ c) else None.
Definition held_indices (held : gmap nat DbConnection) : list Z :=
  omap (held_index ∘ snd) (map_to_list held).

(** Every index is free or held, once; every connection is there. *)
Record pool_inv (N n : nat) (y : sys) : Prop := mkInv
  { inv_len : length (connections_ (s_pool y.1)) = N;
    inv_some : Forall is_Some (connections_ (s_pool y.1));
    inv_perm : free_indices_ (s_pool y.1) ++ held_indices y.2 ≡ₚ seqZ 0 (Z.of_nat N);
    inv_threads : ∀ t, is_Some (y.2 !! t) → (t < n)%nat }.

Lemma held_indices_insert held t c :
  held !! t = None →
  held_indices (<[t := c]> held) ≡ₚ from_option (λ i, [i]) [] (held_index c) ++ held_indices held.
Proof.
  intros Ht. unfold held_indices. rewrite map_to_list_insert by done. simpl.
  by destruct (held_index c).
Qed.

Lemma held_indices_delete held t c :
  held !! t = Some c →
  held_indices held ≡ₚ from_option (λ i, [i]) [] (held_index c) ++ held_indices (delete t held).
Proof.
  intros Ht. rewrite <- held_indices_insert by apply lookup_delete_eq.
  by rewrite insert_delete_id.
Qed.

Lemma pool_step_inv N n y y' : pool_inv N n y → pool_step n y y' → pool_inv N n y'.
Proof.
  intros [Hlen Hsome Hperm Hthr] Hs. destruct Hs as [t s held c s' Ht Hnone Hacq|t s held c w Hc|t s held c s' Hc Hd]; simpl in *.
  - unfold acquire in Hacq. rewrite bind_ask in Hacq.
    assert (∀ t', is_Some (<[t:=c]> held !! t') → (t' < n)%nat) as Hthr'.
    { intros t' [d Hd]. destruct (decide (t' = t)) as [->|]; [done|].
      rewrite lookup_insert_ne in Hd by done. eauto. }
    destruct (free_indices_ (s_pool s)) as [|i rest] eqn:E.
    + injection Hacq as <- <-. split; simpl; try done.
      by rewrite held_indices_insert, E by done.
    + rewrite bind_on_pool in Hacq. injection Hacq as <- <-. split; simpl; try done.
      rewrite held_indices_insert by done. unfold held_index, valid.
      cbn [pool_ index_]. assert (0 ≤ i) as ->%Z.leb_le.
      { assert (i ∈ seqZ 0 (Z.of_nat N)) as ?%elem_of_seqZ; [|lia].
        rewrite <- Hperm. set_solver. }
      simpl. rewrite <- Hperm. simpl. by rewrite Permutation_middle.
  - by split.
  - rewrite (held_indices_delete held t c Hc) in Hperm.
    assert (∀ t', is_Some (delete t held !! t') → (t' < n)%nat) as Hthr'.
    { intros t' [d Hd']. apply lookup_delete_Some in Hd' as [_ Hd']. eauto. }
    unfold drop, release, on_pool in Hd. unfold held_index in Hperm.
    destruct (valid c); injection Hd as <-; split; simpl in *; try done.
    by rewrite <- app_assoc.
Qed.

Lemma pool_inv_reachable N n y0 y : pool_inv N n y0 → rtc (pool_step n) y0 y → pool_inv N n y.
Proof. intros H0 Hr. induction Hr; eauto using pool_step_inv. Qed.

Lemma pool_inv_init N n s : ready N (s_pool s) → pool_inv N n (s, ∅).
Proof.
  intros (Hlen & Hsome & Hfree & _). split; simpl; try done.
  - unfold held_indices. by rewrite map_to_list_empty, Hfree, app_nil_r.
  - intros t [? Ht]. by rewrite lookup_empty in Ht.
Qed.

(** No two threads have the same connection. *)
Lemma pool_inv_exclusive N n s held t1 t2 c1 c2 :
  pool_inv N n (s, held) → held !! t1 = Some c1 → held !! t2 = Some c2 →
  valid c1 = true → valid c2 = true → index_ c1 = index_ c2 → t1 = t2.
Proof.
  intros [_ _ Hperm _] H1 H2 V1 V2 E. destruct (decide (t1 = t2)) as [|Hne]; [done|exfalso].
  simpl in Hperm. rewrite (held_indices_delete _ _ _ H1) in Hperm.
  rewrite (held_indices_delete (delete t1 held) t2 c2) in Hperm by (by rewrite lookup_delete_ne).
  unfold held_index in Hperm. rewrite V1, V2, E in Hperm. simpl in Hperm.
  pose proof (NoDup_seqZ 0 (Z.of_nat N)) as Hnd. rewrite <- Hperm in Hnd.
  apply NoDup_app in Hnd as (_ & _ & Hnd). apply NoDup_cons in Hnd as [Hnd _]. set_solver.
Qed.

(** A valid handle resolves to a connection. *)
Lemma pool_inv_handle N n s held t c :
  pool_inv N n (s, held) → held !! t = Some c → valid c = true →
  ∃ h, the_handle c s = Ok (h, s) ∧ connections_ (s_pool s) !! Z.to_nat (index_ c) = Some (Some h).
Proof.
  intros [Hlen Hsome Hperm _] Hc V. simpl in *.
  assert (index_ c ∈ seqZ 0 (Z.of_nat N)) as Hin%elem_of_seqZ.
  { rewrite <- Hperm, (held_indices_delete _ _ _ Hc). unfold held_index. rewrite V. set_solver. }
  destruct (lookup_lt_is_Some_2 (connections_ (s_pool s)) (Z.to_nat (index_ c))) as [o Ho]; [lia|].
  pose proof (Forall_lookup_1 _ _ _ _ Hsome Ho) as [h ->]. exists h.
  unfold the_handle, get. rewrite V. split; [|done].
  rewrite (bind_Ok _ _ s (Some h) s); [done|]. unfold raw. rewrite bind_ask. by rewrite Ho.
Qed.

(** A thread without a handle finds a free connection when there are enough. *)
Lemma pool_inv_free N n s held t :
  (n ≤ N)%nat → pool_inv N n (s, held) → (t < n)%nat → held !! t = None →
  free_indices_ (s_pool s) ≠ [].
Proof.
  intros HN [_ _ Hperm Hthr] Ht Hnone Hnil. simpl in *. rewrite Hnil in Hperm. simpl in Hperm.
  apply Permutation_length in Hperm. rewrite length_seqZ, Nat2Z.id in Hperm.
  assert (length (held_indices held) ≤ size held)%nat.
  { unfold held_indices. rewrite <- length_map_to_list. induction (map_to_list held) as [|x l IH]; [done|].
    cbn in IH |- *. destruct (held_index x.2); simpl; lia. }
  assert (size held < n)%nat; [|lia].
  assert (dom held ⊆ list_to_set (C := gset nat) (seq 0 n) ∖ {[t]}) as Hsub.
  { intros t' Ht'%elem_of_dom. apply elem_of_difference. split.
    - apply elem_of_list_to_set, elem_of_seq. specialize (Hthr t' Ht'). lia.
    - intros ->%elem_of_singleton. destruct Ht' as [? ?]. congruence. }
  apply subseteq_size in Hsub. rewrite size_dom in Hsub.
  rewrite size_difference, size_singleton in Hsub by
    (apply singleton_subseteq_l, elem_of_list_to_set, elem_of_seq; lia).
  rewrite size_list_to_set, length_seq in Hsub by apply NoDup_seq. lia.
Qed.

Lemma pool_all_valid N n y0 y :
  (n ≤ N)%nat → pool_inv N n y0 → (∀ t c, y0.2 !! t = Some c → valid c = true) →
  rtc (pool_step n) y0 y → ∀ t c, y.2 !! t = Some c → valid c = true.
Proof.
  intros HN Hinv Hv Hr. induction Hr as [|y1 y2 y3 Hs _ IH]; [done|].
  apply IH; [by eapply pool_step_inv|]. clear IH.
  destruct Hs as [t s held c s' Ht Hnone Hacq|t s held c w Hc|t s held c s' Hc Hd]; simpl in *; [|done|].
  - intros t' c' Hc'. destruct (decide (t' = t)) as [->|]; [|rewrite lookup_insert_ne in Hc' by done; eauto].
    rewrite lookup_insert_eq in Hc'. injection Hc' as <-.
    pose proof (pool_inv_free N n s held t HN Hinv Ht Hnone) as Hne.
    unfold acquire in Hacq. rewrite bind_ask in Hacq.
    destruct (free_indices_ (s_pool s)) as [|i rest] eqn:E; [done|].
    rewrite bind_on_pool in Hacq. injection Hacq as <- _.
    assert (i ∈ seqZ 0 (Z.of_nat N)) as ?%elem_of_seqZ.
    { rewrite <- (inv_perm _ _ _ Hinv). simpl. rewrite E. set_solver. }
    apply Z.leb_le. simpl. lia.
  - intros t' c' [_ Hc']%lookup_delete_Some. eauto.
Qed.

(** C16: (invariant) Threads that take connections from an opened pool and drop
    them, in any interleaving: no connection is in the hands of two threads, a
    valid handle always resolves to the connection of its own index (never out
    of range), and every connection is either free or held, so none is lost. *)
Theorem pool_connections_exclusive cfg w n s0 s held :
  open (mkState (make_pool cfg) w 0) = Ok (true, s0) →
  rtc (pool_step n) (s0, ∅) (s, held) →
  (∀ t1 t2 c1 c2, held !! t1 = Some c1 → held !! t2 = Some c2 →
     valid c1 = true → valid c2 = true → index_ c1 = index_ c2 → t1 = t2) ∧
  (∀ t c, held !! t = Some c → valid c = true →
     ∃ h, the_handle c s = Ok (h, s) ∧
          connections_ (s_pool s) !! Z.to_nat (index_ c) = Some (Some h)) ∧
  free_indices_ (s_pool s) ++ held_indices held ≡ₚ seqZ 0 (pool_size cfg).
Proof.
  intros Hopen Hr. destruct (Z.lt_ge_cases (pool_size cfg) 0) as [Hn|Hn];
    [by rewrite open_negative in Hopen|].
  destruct (open_spec cfg w 0 Hn) as (b & s1 & Hs & Hb). rewrite Hs in Hopen.
  injection Hopen as -> ->. pose proof (pool_inv_reachable _ n _ _ (pool_inv_init _ _ _ Hb) Hr) as Hi.
  split; [|split].
  - intros. by eapply pool_inv_exclusive.
  - intros. by eapply pool_inv_handle.
  - pose proof (inv_perm _ _ _ Hi) as Hp. by rewrite Z2Nat.id in Hp.
Qed.

(** C33: (liveness) With no more threads than connections, as
    [game_server::init] sizes its database executor, [acquire] never times out:
    every handle a thread gets is valid, whatever the other threads do. *)
Theorem pool_never_exhausted cfg w n s0 s held t c :
  open (mkState (make_pool cfg) w 0) = Ok (true, s0) → Z.of_nat n ≤ pool_size cfg →
  rtc (pool_step n) (s0, ∅) (s, held) → held !! t = Some c → valid c = true.
Proof.
  intros Hopen Hle Hr. destruct (Z.lt_ge_cases (pool_size cfg) 0) as [Hn|Hn]; [lia|].
  destruct (open_spec cfg w 0 Hn) as (b & s1 & Hs & Hb). rewrite Hs in Hopen.
  injection Hopen as -> ->. apply (pool_all_valid (Z.to_nat (pool_size cfg)) n _ (s, held) ltac:(lia)
    (pool_inv_init _ _ _ Hb)); [|done].
  intros t' c'. simpl. by rewrite lookup_empty.
Qed.
End laws.

(** ** Two threads on a pool of two *)

Definition config2 : DbConfig := DbConfig_default <| pool_size := 2 |>.
Definition opened2 : state memdb.t := Eval vm_compute in
  match open (mkState (make_pool config2) (memdb.start [] []) 0) with
  | Ok (_, s) => s
  | _ => mkState (make_pool config2) (memdb.start [] []) 0
  end.

Lemma opened2_open : open (mkState (make_pool config2) (memdb.start [] []) 0) = Ok (true, opened2).
Proof. vm_compute. reflexivity. Qed.

Definition taken2 : state memdb.t := opened2 <| s_pool ::= λ p, p <| free_indices_ := [] |> |>.
Definition holders2 : gmap nat DbConnection := <[1%nat := mkConn true 1]> {[0%nat := mkConn true 0]}.

Lemma taken2_reached : rtc (pool_step 2) (opened2, ∅) (taken2, holders2).
Proof.
  eapply rtc_l; [eapply (step_acquire 2 0%nat); [lia|reflexivity|reflexivity]|].
  eapply rtc_l; [eapply (step_acquire 2 1%nat); [lia|reflexivity|reflexivity]|].
  apply rtc_refl.
Qed.

Lemma pool_connections_exclusive_witness :
  free_indices_ (s_pool taken2) ++ held_indices holders2 ≡ₚ seqZ 0 2.
Proof. apply (pool_connections_exclusive config2 _ 2 _ _ _ opened2_open taken2_reached). Defined.

Lemma pool_never_exhausted_witness : valid (mkConn true 1) = true.
Proof.
  apply (pool_never_exhausted config2 _ 2 _ taken2 holders2 1%nat _ opened2_open); [by_decide|..].
  - exact taken2_reached.
  - reflexivity.
Defined.
