(* ===== verification/PlayerDao.v ===== *)
(** * Player data access ([src/server/db/dao/player_dao.{hpp,cpp}])

    Loading, creating and saving a player row, with up to three attempts when the
    error is one that may go away.  Every attempt takes its own connection and
    gives it back at the end of the iteration, after the delay. *)

From S2P Require Import Prelude Floats Text GameServer ServerConfig DbConnection MemDb DbPoolLaws.
Import server_config db.
Import game_server(PlayerRecord, mkRecord, r_id, r_name, r_level, r_exp, r_hp, r_max_hp,
  r_x, r_y, r_z, r_map_id).

Module player_dao.

#[global] Instance PlayerRecord_eta : Settable PlayerRecord := λ r,
  mkRecord (r_id r) (r_name r) (r_level r) (r_exp r) (r_hp r) (r_max_hp r) (r_x r) (r_y r) (r_z r)
    (r_map_id r).

(** How an iteration of a loop ends. *)
Inductive control (R : Type) := Return (r : R) | Break | Continue.
#[global] Arguments Return {R} r.
#[global] Arguments Break {R}.
#[global] Arguments Continue {R}.

Definition kMaxAttempts : Z := 3.

Definition select_query : list Z := sql
  "SELECT id, name, level, exp, hp, max_hp, pos_x, pos_y, pos_z, map_id FROM players WHERE name = ?".
Definition insert_query : list Z := sql "INSERT IGNORE INTO players (name) VALUES (?)".

(** [snprintf] of the two updates into [char q[256]]. *)
Definition position_text `{NanSign} (id : Z) (x y z : f32) (map_id : Z) : list Z :=
  sql "UPDATE players SET pos_x=" ++ fmt_f4 x ++ sql ", pos_y=" ++ fmt_f4 y ++
  sql ", pos_z=" ++ fmt_f4 z ++ sql ", map_id=" ++ to_string map_id ++
  sql ", last_login=NOW() WHERE id=" ++ to_string id.
Definition position_query `{NanSign} (id : Z) (x y z : f32) (map_id : Z) : list Z :=
  snprintf 256 (position_text id x y z map_id).

Definition stats_text (id level exp hp : Z) : list Z :=
  sql "UPDATE players SET level=" ++ to_string level ++ sql ", exp=" ++ to_string exp ++
  sql ", hp=" ++ to_string hp ++ sql " WHERE id=" ++ to_string id.
Definition stats_query (id level exp hp : Z) : list Z := snprintf 256 (stats_text id level exp hp).

Section dao.
Context {W : Type} `{MySQL W} `{NanSign}.

(** [StmtGuard sg{mysql_stmt_init(mysql)}; body] *)
Definition with_stmt {A} (mysql : Z) (body : option Z → D W A) : D W A :=
  s ← lift (mysql_stmt_init mysql);
  a ← body s;
  match s with Some s => exec (mysql_stmt_close s) | None => skip end ;;
  mret a.

(** [if (call) return std::nullopt;] *)
Definition checked {A} (call : W → Z * W) (k : D W (option A)) : D W (option A) :=
  rc ← lift call; if rc =? 0 then k else mret None.

(** The name column is read into [char name_buf[64]]; more than that is a nonzero
    return code ([MYSQL_DATA_TRUNCATED]), as is the end of the rows. *)
Definition read_row (s : Z) : D W (option PlayerRecord) :=
  f ← lift (mysql_stmt_fetch s);
  let '(rc, row, out_name_len) := f in
  if negb (rc =? 0) then mret None
  else if 64 <? out_name_len then bad
  else mret (Some (row <| r_name := take (Z.to_nat out_name_len) (r_name row) |>)).

Definition fetch_by_conn (mysql : Z) (name : list Z) : D W (option PlayerRecord) :=
  with_stmt mysql (λ s,
    match s with
    | None => mret None
    | Some s =>
        checked (mysql_stmt_prepare s select_query) (
        checked (mysql_stmt_bind_param s name) (
        checked (mysql_stmt_execute s) (
        checked (mysql_stmt_bind_result s 64) (read_row s))))
    end).

Definition retry_delay (attempt : Z) : D W unit := λ st,
  Ok (tt, st <| s_slept ::= Z.add (50 * attempt) |>).

(** [if (attempt < kMaxAttempts) retry_delay(attempt);] *)
Definition maybe_delay (attempt : Z) : D W unit :=
  if attempt <? kMaxAttempts then retry_delay attempt else skip.

(** [for (int attempt = ...; attempt <= kMaxAttempts; ++attempt) body]; [n] is the
    number of iterations left. *)
Fixpoint attempts {R} (n : nat) (attempt : Z) (body : Z → D W (control R)) (fail : R) : D W R :=
  match n with
  | O => mret fail
  | S n =>
      c ← body attempt;
      match c with
      | Return r => mret r
      | Break => mret fail
      | Continue => attempts n (attempt + 1) body fail
      end
  end.
Definition for_attempts {R} (body : Z → D W (control R)) (fail : R) : D W R :=
  attempts (Z.to_nat kMaxAttempts) 1 body fail.

Definition find_by_name (name : list Z) : D W (option PlayerRecord) :=
  with_conn (λ conn,
    if negb (valid conn) then mret None
    else mysql ← the_handle conn; fetch_by_conn mysql name).

(** The [INSERT IGNORE]; [None] goes on to the [SELECT]. *)
Definition insert_name (attempt mysql : Z) (name : list Z)
    : D W (option (control (option PlayerRecord))) :=
  with_stmt mysql (λ s,
    match s with
    | None => mret None
    | Some s =>
        rc ← lift (mysql_stmt_prepare s insert_query);
        if negb (rc =? 0) then mret None else
        lift (mysql_stmt_bind_param s name) ;;
        rc ← lift (mysql_stmt_execute s);
        if rc =? 0 then mret None else
        err ← ask (λ st, mysql_stmt_errno s (s_world st));
        if negb (is_retryable_mysql_error err) then mret (Some (Return None))
        else maybe_delay attempt ;; mret (Some Continue)
    end).

Definition find_or_create_once (name : list Z) (attempt : Z)
    : D W (control (option PlayerRecord)) :=
  with_conn (λ conn,
    if negb (valid conn) then mret Break else
    mysql ← the_handle conn;
    ins ← insert_name attempt mysql name;
    match ins with
    | Some c => mret c
    | None =>
        rec ← fetch_by_conn mysql name;
        match rec with
        | Some r => mret (Return (Some r))
        | None => maybe_delay attempt ;; mret Continue
        end
    end).

Definition find_or_create (name : list Z) : D W (option PlayerRecord) :=
  for_attempts (find_or_create_once name) None.

(** The loop that [save_position] and [save_stats] share. *)
Definition update_once (q : list Z) (attempt : Z) : D W (control bool) :=
  with_conn (λ conn,
    if negb (valid conn) then mret Break else
    mysql ← the_handle conn;
    rc ← lift (mysql_query mysql q);
    if rc =? 0 then mret (Return true) else
    err ← ask (λ st, mysql_errno mysql (s_world st));
    if negb (is_retryable_mysql_error err) then mret Break
    else maybe_delay attempt ;; mret Continue).

Definition save_position (id : Z) (x y z : f32) (map_id : Z) : D W bool :=
  for_attempts (update_once (position_query id x y z map_id)) false.
Definition save_stats (id level exp hp : Z) : D W bool :=
  for_attempts (update_once (stats_query id level exp hp)) false.
End dao.

(** ** Runs on the in-memory server *)

Section examples.
#[local] Instance nan_plain : NanSign := false.
Let s0 := opened2 <| s_world := memdb.start [] [2006; 0] |>.

Definition result_of {A} (r : res (A * state memdb.t)) : option A :=
  match r with Ok (a, _) => Some a | _ => None end.

Example create_after_retry :
  result_of (find_or_create (sql "bob") s0) = Some (Some (memdb.fresh_row 1 (sql "bob"))).
Proof. vm_compute. reflexivity. Qed.

Example position_text_example :
  position_query 7 f20 f0_5 fm1000 2
  = sql "UPDATE players SET pos_x=20.0000, pos_y=0.5000, pos_z=-1000.0000, map_id=2, last_login=NOW() WHERE id=7".
Proof. vm_compute. reflexivity. Qed.

Example save_gives_up : result_of (save_stats 1 1 0 100 (s0 <| s_world := memdb.start [] [1045; 0] |>)) = Some false.
Proof. vm_compute. reflexivity. Qed.
End examples.

End player_dao.
