(* ===== verification/PlayerDaoLaws.v ===== *)
(** * Laws of the player data access

    The updates fit their buffer; every operation ends with the connection back
    in the pool, after at most three attempts; the outcome of the retry loop in
    terms of the calls it made, for every behaviour of the database; and
    [find_or_create] as a get-or-insert on a database that works. *)

From S2P Require Import Prelude Floats Text GameServer ServerConfig DbConnection MemDb DbPoolLaws PlayerDao.
Import server_config db player_dao.
Import memdb(stmt_state, Fresh, Prepared, Bound, Executed).
Import game_server(PlayerRecord, mkRecord, r_id, r_name).

(** ** The queries fit *)

(** The text of both updates fits [char q[256]] for every id,
    position and statistics of their types (244 bytes at most), so [snprintf]
    never cuts off the WHERE clause. *)
Theorem queries_not_truncated `{NanSign} id x y z map_id level exp hp :
  is_i64 id → is_i32 map_id → is_i32 level → is_i32 exp → is_i32 hp →
  is_f32 x → is_f32 y → is_f32 z →
  position_query id x y z map_id = position_text id x y z map_id ∧
  stats_query id level exp hp = stats_text id level exp hp.
Proof.
  intros Hid Hm Hl He Hh Hx Hy Hz.
  pose proof (to_string_i64_length id Hid). pose proof (to_string_i32_length map_id Hm).
  pose proof (to_string_i32_length level Hl). pose proof (to_string_i32_length exp He).
  pose proof (to_string_i32_length hp Hh). pose proof (fmt_f4_length x Hx).
  pose proof (fmt_f4_length y Hy). pose proof (fmt_f4_length z Hz).
  split; apply snprintf_fits; unfold position_text, stats_text; rewrite !zlen_app;
    repeat match goal with |- context [zlen (sql ?s)] =>
      let n := eval vm_compute in (zlen (sql s)) in change (zlen (sql s)) with n end; lia.
Qed.

(** ** Borrowing a connection *)

Definition pool_ok (p : pool) : Prop :=
  Forall is_Some (connections_ p) ∧ Forall (λ i, 0 ≤ i < zlen (connections_ p)) (free_indices_ p).

(** The same pool, with the free connections possibly in another order. *)
Definition same_pool (p q : pool) : Prop :=
  connections_ p = connections_ q ∧ free_indices_ p ≡ₚ free_indices_ q.
#[global] Instance same_pool_equiv : Equivalence same_pool.
Proof.
  unfold same_pool. split.
  - by intros p.
  - intros p q [E1 E2]. by split; symmetry.
  - intros p q r [E1 E2] [E3 E4]. split; [congruence|by etrans].
Qed.
#[global] Instance pool_ok_proper : Proper (same_pool ==> impl) pool_ok.
Proof. intros p q [E1 E2] [Hs Hf]. unfold pool_ok. by rewrite <- E1, <- E2. Qed.

(** With a free connection, the scope runs on its handle and gives it back. *)
Lemma with_conn_valid {W} `{MySQL W} {A} (k : Z → D W A) (none : A) (s : state W) :
  pool_ok (s_pool s) → free_indices_ (s_pool s) ≠ [] →
  ∃ i rest h, free_indices_ (s_pool s) = i :: rest ∧
    with_conn (λ conn, if negb (valid conn) then mret none else m ← the_handle conn; k m) s
    = (k h ≫= λ a, release i ;; mret a) (s <| s_pool ::= λ p, p <| free_indices_ := rest |> |>).
Proof.
  intros [Hs Hf] Hne. unfold with_conn, acquire. rewrite bind_assoc, bind_ask.
  destruct (free_indices_ (s_pool s)) as [|i rest] eqn:E; [done|].
  rewrite bind_assoc, bind_on_pool, bind_ret. cbv beta. apply Forall_cons in Hf as [Hi Hf].
  destruct (lookup_lt_is_Some_2 (connections_ (s_pool s)) (Z.to_nat i)) as [o Ho];
    [unfold zlen in Hi; lia|].
  pose proof (Forall_lookup_1 _ _ _ _ Hs Ho) as [h ->]. exists i, rest, h. split; [done|].
  assert (Hv : valid (mkConn true i) = true) by (unfold valid; cbn; apply Z.leb_le; lia).
  unfold drop, the_handle, get. rewrite Hv. cbn [negb]. unfold raw.
  rewrite !bind_assoc, bind_ask. cbn [s_pool set connections_ index_]. rewrite Ho.
  by rewrite !bind_ret.
Qed.

Section laws.
Context {W : Type} `{MySQL W} `{NanSign}.

(** ** Every operation returns, and returns its connection *)

(** What the code relies on: a fetch without truncation fits the bound buffer. *)
Class FetchFits : Prop := fetch_fits : ∀ s w w1 row len w2,
  mysql_stmt_bind_result s 64 w = (0, w1) → mysql_stmt_fetch s w1 = ((0, row, len), w2) → len ≤ 64.
Context `{!FetchFits}.

Definition usable (c : DbConnection) (p : pool) : Prop :=
  valid c = true → 0 ≤ index_ c < zlen (connections_ p).
#[global] Instance usable_proper c : Proper (same_pool ==> impl) (usable c).
Proof. intros p q [E1 E2] Hu Hv. rewrite <- E1. by apply Hu. Qed.

(** [m], run while holding [c], returns, having slept at most [k a] milliseconds
    when the result is [a], and leaves the pool the same. *)
Definition total {A} (c : DbConnection) (k : A → Z) (m : D W A) : Prop := ∀ s,
  pool_ok (s_pool s) → usable c (s_pool s) →
  ∃ a s', m s = Ok (a, s') ∧ same_pool (s_pool s) (s_pool s') ∧
          s_slept s ≤ s_slept s' ≤ s_slept s + k a.

Definition instant {A} : A → Z := λ _, 0.

Lemma total_ret {A} c (k : A → Z) a : 0 ≤ k a → total c k (mret a).
Proof. intros Hk s _ _. exists a, s. split; [done|]. split; [done|lia]. Qed.
Lemma total_lift {A} c (f : W → A * W) : total c instant (lift f).
Proof.
  intros s _ _. unfold lift. destruct (f (s_world s)) as [a w]. exists a. eexists.
  split; [done|]. split; [done|]. unfold instant. simpl. lia.
Qed.
Lemma total_exec c f : total c instant (exec f).
Proof. intros s _ _. exists tt. eexists. split; [done|]. split; [done|]. unfold instant. simpl. lia. Qed.
Lemma total_ask {A} c (f : state W → A) : total c instant (ask f).
Proof. intros s _ _. exists (f s), s. split; [done|]. split; [done|]. unfold instant. lia. Qed.

Lemma total_bind {A B} c (k1 : A → Z) (k : B → Z) (m : D W A) (f : A → D W B) :
  total c k1 m → (∀ a, total c (λ b, k b - k1 a) (f a)) → total c k (m ≫= f).
Proof.
  intros Hm Hf s Hp Hu. destruct (Hm s Hp Hu) as (a & s1 & E1 & P1 & T1).
  destruct (Hf a s1) as (b & s2 & E2 & P2 & T2); [by rewrite <- P1..|].
  exists b, s2. rewrite (bind_Ok _ _ _ _ _ E1). split; [done|]. split; [by etrans|lia].
Qed.

Lemma total_weaken {A} c (k1 k2 : A → Z) (m : D W A) :
  total c k1 m → (∀ a, k1 a ≤ k2 a) → total c k2 m.
Proof.
  intros Hm Hk s Hp Hu. destruct (Hm s Hp Hu) as (a & s' & E & P & T).
  exists a, s'. split; [done|]. split; [done|]. specialize (Hk a). lia.
Qed.

Lemma total_then {A B} c (k : B → Z) (m : D W A) (f : A → D W B) :
  total c instant m → (∀ a, total c k (f a)) → total c k (m ≫= f).
Proof.
  intros Hm Hf. eapply total_bind; [exact Hm|]. intros a. eapply total_weaken; [apply Hf|].
  intros b. unfold instant. lia.
Qed.

Lemma total_handle c : valid c = true → total c instant (the_handle c).
Proof.
  intros Hv s [Hs _] Hu. unfold the_handle, get. rewrite Hv. specialize (Hu Hv).
  destruct (lookup_lt_is_Some_2 (connections_ (s_pool s)) (Z.to_nat (index_ c))) as [o Ho];
    [unfold zlen in Hu; lia|].
  pose proof (Forall_lookup_1 _ _ _ _ Hs Ho) as [h ->]. exists h, s.
  split; [|split; [done|unfold instant; lia]]. unfold raw. rewrite bind_assoc, bind_ask. by rewrite Ho.
Qed.

(** What an attempt may sleep at its end. *)
Definition delay_of (attempt : Z) : Z := if attempt <? kMaxAttempts then 50 * attempt else 0.

Lemma delay_nonneg attempt : 0 ≤ attempt → 0 ≤ delay_of attempt.
Proof. unfold delay_of. case_cmp; lia. Qed.

Lemma total_delay {A} c (k : A → Z) attempt a :
  0 ≤ attempt → delay_of attempt ≤ k a → total c k (maybe_delay attempt ;; mret a).
Proof.
  intros Ha Hk s _ _. exists a. unfold maybe_delay, delay_of in *.
  destruct (attempt <? kMaxAttempts); eexists; (split; [reflexivity|]; split; [done|simpl; lia]).
Qed.

Lemma total_with_stmt {A} c (k : A → Z) mysql (body : option Z → D W A) :
  (∀ o, total c k (body o)) → total c k (with_stmt mysql body).
Proof.
  intros Hb. apply total_then; [apply total_lift|intros o].
  eapply total_bind; [apply Hb|intros a].
  apply total_then; [|intros []; apply total_ret; lia].
  destruct o; [apply total_exec|by apply total_ret].
Qed.

Lemma total_with_conn {A} c (k : A → Z) (body : DbConnection → D W A) :
  (∀ c, total c k (body c)) → total c k (with_conn body).
Proof.
  intros Hb s [Hs Hf] _. unfold with_conn, acquire. rewrite bind_assoc, bind_ask.
  destruct (free_indices_ (s_pool s)) as [|i rest] eqn:E.
  - rewrite bind_ret. destruct (Hb no_connection s) as (a & s' & E' & HP & HT).
    { split; [done|]. by rewrite E. }
    { done. }
    exists a, s'. by rewrite (bind_Ok _ _ _ _ _ E').
  - rewrite bind_assoc, bind_on_pool, bind_ret. cbv beta.
    set (s1 := s <| s_pool ::= _ |>). apply Forall_cons in Hf as [Hi Hf].
    destruct (Hb (mkConn true i) s1) as (a & s2 & E2 & [HP1 HP2] & HT); [done|by intros _|].
    exists a. eexists. rewrite (bind_Ok _ _ _ _ _ E2). unfold drop, valid. cbn [pool_ index_ andb].
    destruct (Z.leb_spec 0 i); [|lia]. split; [reflexivity|]. split; [|exact HT].
    split; [exact HP1|]. simpl in HP2 |- *. rewrite E, <- HP2. by rewrite Permutation_app_comm.
Qed.

Lemma total_checked {A} c call (k : D W (option A)) :
  total c instant k → total c instant (checked call k).
Proof.
  intros Hk. apply total_then; [apply total_lift|intros rc].
  destruct (rc =? 0); [done|by apply total_ret].
Qed.

Lemma total_read_row c s : total c instant (checked (mysql_stmt_bind_result s 64) (read_row s)).
Proof.
  intros st _ _. unfold checked, instant. rewrite bind_lift.
  destruct (mysql_stmt_bind_result s 64 (s_world st)) as [rc w1] eqn:E1. cbn [fst snd].
  destruct (Z.eqb_spec rc 0) as [->|]; [|exists None; eexists; split; [reflexivity|]; split; [done|simpl; lia]].
  unfold read_row. rewrite bind_lift. simpl s_world.
  destruct (mysql_stmt_fetch s w1) as [[[rc row] len] w2] eqn:E2. simpl. rewrite E2. cbn [fst].
  destruct (Z.eqb_spec rc 0) as [->|]; [|exists None; eexists; split; [reflexivity|]; split; [done|simpl; lia]].
  simpl. pose proof (fetch_fits _ _ _ _ _ _ E1 E2). destruct (Z.ltb_spec 64 len); [lia|].
  eexists _, _. split; [reflexivity|]. split; [done|simpl; lia].
Qed.

Lemma total_fetch c mysql name : total c instant (fetch_by_conn mysql name).
Proof.
  apply total_with_stmt. intros [s|]; [|by apply total_ret].
  do 3 apply total_checked. apply total_read_row.
Qed.

Lemma total_insert c attempt mysql name :
  0 ≤ attempt →
  total c (λ r, if r is Some _ then delay_of attempt else 0) (insert_name attempt mysql name).
Proof.
  intros Ha. pose proof (delay_nonneg attempt Ha).
  apply total_with_stmt. intros [s|]; [|by apply total_ret].
  apply total_then; [apply total_lift|intros rc]. destruct (negb (rc =? 0)); [by apply total_ret|].
  apply total_then; [apply total_lift|intros _].
  apply total_then; [apply total_lift|intros rc']. destruct (rc' =? 0); [by apply total_ret|].
  apply total_then; [apply total_ask|intros e].
  destruct (negb (is_retryable_mysql_error e)); [by apply total_ret|by apply total_delay].
Qed.

Lemma total_update c q attempt :
  0 ≤ attempt → total c (λ _, delay_of attempt) (update_once q attempt).
Proof.
  intros Ha. pose proof (delay_nonneg attempt Ha). apply total_with_conn. intros conn.
  destruct (valid conn) eqn:V; [|by apply total_ret].
  apply total_then; [by apply total_handle|intros h].
  apply total_then; [apply total_lift|intros rc]. destruct (rc =? 0); [by apply total_ret|].
  apply total_then; [apply total_ask|intros e].
  destruct (negb (is_retryable_mysql_error e)); [by apply total_ret|by apply total_delay].
Qed.

Lemma total_create c name attempt :
  0 ≤ attempt → total c (λ _, delay_of attempt) (find_or_create_once name attempt).
Proof.
  intros Ha. pose proof (delay_nonneg attempt Ha). apply total_with_conn. intros conn.
  destruct (valid conn) eqn:V; [|by apply total_ret].
  apply total_then; [by apply total_handle|intros h].
  eapply total_bind; [by apply total_insert|]. intros [r|]; [apply total_ret; lia|].
  apply total_then; [apply total_fetch|intros [r|]]; [apply total_ret; lia|].
  apply total_delay; lia.
Qed.

(** Three attempts sleep 50 ms and 100 ms. *)
Lemma total_attempts {R} c (body : Z → D W (control R)) fail :
  (∀ i, 0 ≤ i → total c (λ _, delay_of i) (body i)) → total c (λ _, 150) (for_attempts body fail).
Proof.
  intros Hb. unfold for_attempts. change (Z.to_nat kMaxAttempts) with 3%nat. cbn [attempts].
  eapply total_bind; [by apply (Hb 1)|]. intros [r| |]; [by apply total_ret..|].
  eapply total_bind; [by apply (Hb 2)|]. intros [r| |]; [by apply total_ret..|].
  eapply total_bind; [by apply (Hb 3)|]. intros [r| |]; by apply total_ret.
Qed.

(** [m] returns from [s] with the pool as it was, having slept at most [k] ms. *)
Definition returns {A} (k : Z) (m : D W A) (s : state W) : Prop :=
  ∃ a s', m s = Ok (a, s') ∧ same_pool (s_pool s) (s_pool s') ∧ s_slept s' ≤ s_slept s + k.

Lemma total_returns {A} k (m : D W A) s :
  total no_connection k m → (∀ a, k a ≤ 150) → pool_ok (s_pool s) → returns 150 m s.
Proof.
  intros Hm Hk Hp. destruct (Hm s Hp) as (a & s' & E & P & T); [done|].
  exists a, s'. split; [done|]. split; [done|]. specialize (Hk a). lia.
Qed.

Lemma find_or_create_returns s name : pool_ok (s_pool s) → returns 150 (find_or_create name) s.
Proof.
  intros Hp. apply (total_returns (λ _, 150)); [|done|done]. apply total_attempts.
  intros i. apply total_create.
Qed.

Lemma update_returns s q : pool_ok (s_pool s) → returns 150 (for_attempts (update_once q) false) s.
Proof.
  intros Hp. apply (total_returns (λ _, 150)); [|done|done]. apply total_attempts.
  intros i. apply total_update.
Qed.

(** Whatever the database answers, every operation of the data access
    returns after at most 150 ms of waiting between attempts, without using a
    connection that is not there, and with every connection back in the pool. *)
Theorem dao_returns_connection s name id x y z map_id level exp hp :
  pool_ok (s_pool s) →
  returns 150 (find_by_name name) s ∧ returns 150 (find_or_create name) s ∧
  returns 150 (save_position id x y z map_id) s ∧ returns 150 (save_stats id level exp hp) s.
Proof.
  intros Hp. split; [|split; [|split]].
  - apply (total_returns instant); [|done|done]. apply total_with_conn. intros c.
    destruct (valid c) eqn:V; [|by apply total_ret].
    apply total_then; [by apply total_handle|intros h]. apply total_fetch.
  - by apply find_or_create_returns.
  - by apply update_returns.
  - by apply update_returns.
Qed.
End laws.

(** ** What the retry loop does, for every database *)

(** The library with a record of the queries made: text, result, error code. *)
Definition query_call : Type := list Z * Z * Z.

Section traced.
Context {W : Type} `{MySQL W}.

Definition on_fst {A} (f : W → A * W) (w : W * list query_call) : A * (W * list query_call) :=
  let '(a, w') := f w.1 in (a, (w', w.2)).

Definition traced : MySQL (W * list query_call) := {|
  mysql_init := on_fst mysql_init;
  mysql_options c o w := (mysql_options c o w.1, w.2);
  mysql_real_connect c a b d e f := on_fst (mysql_real_connect c a b d e f);
  mysql_close c w := (mysql_close c w.1, w.2);
  mysql_query c q w :=
    let '(rc, w') := mysql_query c q w.1 in (rc, (w', w.2 ++ [(q, rc, mysql_errno c w')]));
  mysql_errno c w := mysql_errno c w.1;
  mysql_stmt_init c := on_fst (mysql_stmt_init c);
  mysql_stmt_prepare s q := on_fst (mysql_stmt_prepare s q);
  mysql_stmt_bind_param s v := on_fst (mysql_stmt_bind_param s v);
  mysql_stmt_execute s := on_fst (mysql_stmt_execute s);
  mysql_stmt_errno s w := mysql_stmt_errno s w.1;
  mysql_stmt_bind_result s n := on_fst (mysql_stmt_bind_result s n);
  mysql_stmt_fetch s := on_fst (mysql_stmt_fetch s);
  mysql_stmt_close s w := (mysql_stmt_close s w.1, w.2) |}.
#[local] Existing Instance traced.

Definition verdict (rc err : Z) : control bool :=
  if rc =? 0 then Return true else if is_retryable_mysql_error err then Continue else Break.

Lemma update_once_traced q attempt (s : state (W * list query_call)) :
  pool_ok (s_pool s) → free_indices_ (s_pool s) ≠ [] →
  ∃ rc err s', update_once q attempt s = Ok (verdict rc err, s') ∧
    (s_world s').2 = (s_world s).2 ++ [(q, rc, err)] ∧ same_pool (s_pool s) (s_pool s').
Proof.
  intros Hok Hne. unfold update_once.
  destruct (with_conn_valid (λ mysql, rc ← lift (mysql_query mysql q);
    if rc =? 0 then mret (Return true) else
    err ← ask (λ st, mysql_errno mysql (s_world st));
    if negb (is_retryable_mysql_error err) then mret Break
    else maybe_delay attempt ;; mret Continue) Break s Hok Hne) as (i & rest & h & E & ->).
  rewrite bind_assoc, bind_lift. cbn [mysql_query traced s_world set].
  destruct (mysql_query h q (s_world s).1) as [rc w'] eqn:Eq. cbn [fst snd].
  exists rc, (mysql_errno h w'). unfold verdict.
  assert (Hp : ∀ p : pool, connections_ p = connections_ (s_pool s) → free_indices_ p = rest ++ [i] →
               same_pool (s_pool s) p).
  { intros p Hc Hfree. split; [done|]. by rewrite E, Hfree, Permutation_app_comm. }
  destruct (rc =? 0); [by eexists; split; [reflexivity|]; split; [|apply Hp]|].
  rewrite bind_assoc, bind_ask. cbn [mysql_errno s_world]. simpl.
  destruct (is_retryable_mysql_error _); simpl; [|by eexists; split; [reflexivity|]; split; [|apply Hp]].
  unfold maybe_delay. destruct (attempt <? kMaxAttempts);
    by eexists; split; [reflexivity|]; split; [|apply Hp].
Qed.

(** A failed attempt at [q] that is worth another one. *)
Definition transient (q : list Z) (c : query_call) : Prop :=
  c.1.1 = q ∧ c.1.2 ≠ 0 ∧ is_retryable_mysql_error c.2 = true.

Lemma attempts_traced q n attempt (s : state (W * list query_call)) :
  pool_ok (s_pool s) → free_indices_ (s_pool s) ≠ [] →
  ∃ front rc err s', attempts (S n) attempt (update_once q) false s = Ok (rc =? 0, s') ∧
    (s_world s').2 = (s_world s).2 ++ front ++ [(q, rc, err)] ∧ Forall (transient q) front ∧
    (length front ≤ n)%nat ∧
    (rc ≠ 0 → is_retryable_mysql_error err = true → length front = n).
Proof.
  revert attempt s. induction n as [|n IH]; intros attempt s Hok Hne;
    destruct (update_once_traced q attempt s Hok Hne) as (rc & err & s1 & E & Ht & Hp);
    cbn [attempts]; rewrite (bind_Ok _ _ _ _ _ E); unfold verdict.
  - exists [], rc, err, s1. split; [|done].
    destruct (rc =? 0); [done|]. by destruct (is_retryable_mysql_error err).
  - destruct (Z.eqb_spec rc 0) as [->|Hrc].
    { exists [], 0, err, s1. split; [done|]. split; [done|]. split; [done|]. split; [simpl; lia|done]. }
    destruct (is_retryable_mysql_error err) eqn:Hr.
    2:{ exists [], rc, err, s1. split; [by destruct (Z.eqb_spec rc 0)|].
        split; [done|]. split; [done|]. split; [simpl; lia|]. congruence. }
    destruct (IH (attempt + 1) s1) as (front & rc' & err' & s' & E' & Ht' & Hf & Hl & He).
    { by rewrite <- Hp. }
    { intros Hnil. destruct Hp as [_ Hp]. rewrite Hnil in Hp. by apply Permutation_nil_r in Hp. }
    exists ((q, rc, err) :: front), rc', err', s'. split; [exact E'|].
    split; [by rewrite Ht', Ht, <- app_assoc|]. split; [by constructor|].
    simpl. split; [lia|]. intros H1 H2. by rewrite (He H1 H2).
Qed.

(** For every behaviour of the database: a save sends its
    query again only after errors that may go away (lost connection, deadlock,
    lock timeout), three times at most, reports success exactly when the last
    query succeeded, and gives up early only on an error of another kind. *)
Theorem save_retries q (s : state (W * list query_call)) :
  pool_ok (s_pool s) → free_indices_ (s_pool s) ≠ [] →
  ∃ front rc err s', for_attempts (update_once q) false s = Ok (rc =? 0, s') ∧
    (s_world s').2 = (s_world s).2 ++ front ++ [(q, rc, err)] ∧ Forall (transient q) front ∧
    (length front ≤ 2)%nat ∧
    (rc ≠ 0 → is_retryable_mysql_error err = true → length front = 2%nat).
Proof. apply (attempts_traced q 2 1). Qed.
End traced.

(** ** [find_or_create] on a database that works *)

Section works.
Context {W : Type} `{MySQL W}.
(** States without failures, the row that a name selects, the statements, and the
    names that fit the column. *)
Context (ok : W → Prop) (row : W → list Z → option PlayerRecord) (st : W → Z → option stmt_state).
Context (storable : list Z → Prop).

Definition same_rows (w w' : W) : Prop := ∀ n, row w' n = row w n.

(** The documented behaviour of the calls, while nothing fails.  The collation of
    the column may identify names, so the row found for a name need not carry it. *)
Record working : Prop := mkWorking
  { w_init c w : ok w → ∃ s w', mysql_stmt_init c w = (Some s, w') ∧ ok w' ∧
      st w' s = Some Fresh ∧ same_rows w w';
    w_prepare s q w : ok w → st w s = Some Fresh → ∃ w', mysql_stmt_prepare s q w = (0, w') ∧
      ok w' ∧ st w' s = Some (Prepared q) ∧ same_rows w w';
    w_bind s q v w : ok w → st w s = Some (Prepared q) →
      ∃ w', mysql_stmt_bind_param s v w = (0, w') ∧ ok w' ∧ st w' s = Some (Bound q v) ∧
        same_rows w w';
    w_insert s v w : ok w → st w s = Some (Bound insert_query v) → storable v →
      ∃ w', mysql_stmt_execute s w = (0, w') ∧ ok w' ∧ is_Some (row w' v) ∧
        (∀ n r, row w n = Some r → row w' n = Some r);
    w_select s v w : ok w → st w s = Some (Bound select_query v) →
      ∃ w', mysql_stmt_execute s w = (0, w') ∧ ok w' ∧
        st w' s = Some (Executed select_query v) ∧ same_rows w w';
    w_bind_result s q v n w : ok w → st w s = Some (Executed q v) →
      ∃ w', mysql_stmt_bind_result s n w = (0, w') ∧ ok w' ∧
        st w' s = Some (Executed q v) ∧ same_rows w w';
    w_fetch s v w r : ok w → st w s = Some (Executed select_query v) → row w v = Some r →
      ∃ rc r' w', mysql_stmt_fetch s w = ((rc, r', zlen (r_name r)), w') ∧ ok w' ∧ same_rows w w' ∧
        if 64 <? zlen (r_name r) then rc = 101 else rc = 0 ∧ r' = r;
    w_close s w : ok w → ok (mysql_stmt_close s w) ∧ same_rows w (mysql_stmt_close s w) }.
Context (works : working).

(** Only the library state changed, and it still works. *)
Definition advanced (s s' : state W) : Prop :=
  s_pool s' = s_pool s ∧ s_slept s' = s_slept s ∧ ok (s_world s').

Lemma insert_name_works attempt h name (s : state W) :
  ok (s_world s) → storable name →
  ∃ s', insert_name attempt h name s = Ok (None, s') ∧ advanced s s' ∧
    is_Some (row (s_world s') name) ∧
    (∀ n r, row (s_world s) n = Some r → row (s_world s') n = Some r).
Proof.
  intros Hok Hst. unfold insert_name, with_stmt. rewrite bind_lift.
  destruct (w_init works h _ Hok) as (x & w1 & -> & Hok1 & Hx & R1). cbn [fst snd].
  rewrite !bind_assoc, bind_lift. cbn [s_world set].
  destruct (w_prepare works x insert_query w1 Hok1 Hx) as (w2 & -> & Hok2 & Hx2 & R2).
  cbn [fst snd negb Z.eqb]. rewrite bind_assoc, bind_lift. cbn [s_world set].
  destruct (w_bind works x insert_query name w2 Hok2 Hx2) as (w3 & -> & Hok3 & Hx3 & R3).
  cbn [fst snd]. rewrite bind_assoc, bind_lift. cbn [s_world set].
  destruct (w_insert works x name w3 Hok3 Hx3 Hst) as (w4 & -> & Hok4 & Hrow & R4).
  cbn [fst snd Z.eqb]. rewrite bind_ret, bind_exec.
  destruct (w_close works x w4 Hok4) as [Hok5 R5].
  eexists. split; [reflexivity|]. split; [done|]. simpl. rewrite R5. split; [done|].
  intros n r Hr. rewrite R5. apply R4. by rewrite R3, R2, R1.
Qed.

Lemma fetch_works h name r (s : state W) :
  ok (s_world s) → row (s_world s) name = Some r →
  ∃ s', fetch_by_conn h name s
        = Ok (if 64 <? zlen (r_name r) then None else Some r, s') ∧
    advanced s s' ∧ same_rows (s_world s) (s_world s').
Proof.
  intros Hok Hr. unfold fetch_by_conn, with_stmt, checked. rewrite bind_lift.
  destruct (w_init works h _ Hok) as (x & w1 & -> & Hok1 & Hx & R1). cbn [fst snd].
  rewrite !bind_assoc, bind_lift. cbn [s_world set].
  destruct (w_prepare works x select_query w1 Hok1 Hx) as (w2 & -> & Hok2 & Hx2 & R2).
  cbn [fst snd Z.eqb]. rewrite bind_assoc, bind_lift. cbn [s_world set].
  destruct (w_bind works x select_query name w2 Hok2 Hx2) as (w3 & -> & Hok3 & Hx3 & R3).
  cbn [fst snd Z.eqb]. rewrite bind_assoc, bind_lift. cbn [s_world set].
  destruct (w_select works x name w3 Hok3 Hx3) as (w4 & -> & Hok4 & Hx4 & R4).
  cbn [fst snd Z.eqb]. rewrite bind_assoc, bind_lift. cbn [s_world set].
  destruct (w_bind_result works x _ _ 64 w4 Hok4 Hx4) as (w5 & -> & Hok5 & Hx5 & R5).
  cbn [fst snd Z.eqb]. unfold read_row. rewrite bind_assoc, bind_lift. cbn [s_world set].
  destruct (w_fetch works x name w5 r Hok5 Hx5) as (rc & r' & w6 & -> & Hok6 & R6 & Hrc).
  { by rewrite R5, R4, R3, R2, R1. }
  cbn [fst snd]. destruct (w_close works x w6 Hok6) as [Hok7 R7].
  assert (same_rows (s_world s) (mysql_stmt_close x w6)) as HR
    by (intros n; by rewrite R7, R6, R5, R4, R3, R2, R1).
  destruct (64 <? zlen (r_name r)).
  - subst rc. cbn [Z.eqb negb]. rewrite bind_ret, bind_exec. eexists.
    split; [reflexivity|]. split; [done|exact HR].
  - destruct Hrc as [-> ->]. cbn [Z.eqb negb]. rewrite bind_ret, bind_exec.
    eexists. split; [unfold zlen; rewrite Nat2Z.id, take_ge by lia; destruct r; reflexivity|].
    split; [done|exact HR].
Qed.

(** One iteration of the loop: the row is there afterwards, and it is the result
    unless its name is too long for the buffer. *)
Lemma create_once_works attempt name (s : state W) :
  ok (s_world s) → storable name → pool_ok (s_pool s) → free_indices_ (s_pool s) ≠ [] →
  ∃ r s', row (s_world s') name = Some r ∧ ok (s_world s') ∧
    same_pool (s_pool s) (s_pool s') ∧
    (∀ n r, row (s_world s) n = Some r → row (s_world s') n = Some r) ∧
    if 64 <? zlen (r_name r)
    then find_or_create_once name attempt s = Ok (Continue, s')
    else find_or_create_once name attempt s = Ok (Return (Some r), s') ∧ s_slept s' = s_slept s.
Proof.
  intros Hok Hst Hp Hne. unfold find_or_create_once.
  destruct (with_conn_valid (λ mysql,
    ins ← insert_name attempt mysql name;
    match ins with
    | Some c => mret c
    | None =>
        rec ← fetch_by_conn mysql name;
        match rec with
        | Some r => mret (Return (Some r))
        | None => maybe_delay attempt ;; mret Continue
        end
    end) Break s Hp Hne) as (i & rest & h & E & ->).
  set (s1 := s <| s_pool ::= _ |>).
  destruct (insert_name_works attempt h name s1 Hok Hst) as (s2 & E2 & (P2 & T2 & Hok2) & [r Hr] & K2).
  destruct (fetch_works h name r s2 Hok2 Hr) as (s3 & E3 & (P3 & T3 & Hok3) & R3).
  rewrite bind_assoc, (bind_Ok _ _ _ _ _ E2), bind_assoc, (bind_Ok _ _ _ _ _ E3).
  assert (Hpool : same_pool (s_pool s) ((s_pool s3) <| free_indices_ ::= λ l, l ++ [i] |>)).
  { rewrite P3, P2. split; [done|]. simpl. by rewrite E, Permutation_app_comm. }
  assert (Hkeep : ∀ n r, row (s_world s) n = Some r → row (s_world s3) n = Some r).
  { intros n r' Hn. rewrite R3. by apply K2. }
  rewrite <- R3 in Hr. exists r. destruct (64 <? zlen (r_name r)).
  - unfold maybe_delay. destruct (attempt <? kMaxAttempts).
    + exists (s3 <| s_slept ::= Z.add (50 * attempt) |> <| s_pool ::= λ p, p <| free_indices_ ::= λ l, l ++ [i] |> |>).
      done.
    + exists (s3 <| s_pool ::= λ p, p <| free_indices_ ::= λ l, l ++ [i] |> |>). done.
  - exists (s3 <| s_pool ::= λ p, p <| free_indices_ ::= λ l, l ++ [i] |> |>).
    repeat split; try done; try apply Hpool. simpl. by rewrite T3, T2.
Qed.

Lemma find_or_create_works name (s : state W) :
  ok (s_world s) → storable name → pool_ok (s_pool s) → free_indices_ (s_pool s) ≠ [] →
  (∀ w r, ok w → row w name = Some r → zlen (r_name r) ≤ 64) →
  ∃ r s', find_or_create name s = Ok (Some r, s') ∧ ok (s_world s') ∧
    row (s_world s') name = Some r ∧ (∀ r0, row (s_world s) name = Some r0 → r = r0) ∧
    (∀ n r, row (s_world s) n = Some r → row (s_world s') n = Some r) ∧
    same_pool (s_pool s) (s_pool s') ∧ s_slept s' = s_slept s.
Proof.
  intros Hok Hst Hp Hne Hlen.
  destruct (create_once_works 1 name s Hok Hst Hp Hne) as (r & s' & Hr & Hok' & HP & HK & HE).
  pose proof (Hlen _ _ Hok' Hr). destruct (Z.ltb_spec 64 (zlen (r_name r))); [lia|].
  destruct HE as [HE HT]. exists r, s'. unfold find_or_create, for_attempts.
  change (Z.to_nat kMaxAttempts) with 3%nat. cbn [attempts]. rewrite (bind_Ok _ _ _ _ _ HE).
  repeat split; try done; try apply HP. intros r0 Hr0. apply HK in Hr0. congruence.
Qed.

(** C15: (refinement) On a database that works, [find_or_create] is a
    get-or-insert: it returns the row the name selects (the one that was there,
    if there was one), leaves every other row as it was, at the first attempt,
    and gives its connection back. The name of the row must fit the 64-byte
    buffer. *)
Theorem find_or_create_correct name (s : state W) :
  ok (s_world s) → storable name → pool_ok (s_pool s) → free_indices_ (s_pool s) ≠ [] →
  (∀ w r, ok w → row w name = Some r → zlen (r_name r) ≤ 64) →
  ∃ r s', find_or_create name s = Ok (Some r, s') ∧ ok (s_world s') ∧
    row (s_world s') name = Some r ∧ (∀ r0, row (s_world s) name = Some r0 → r = r0) ∧
    (∀ n r, row (s_world s) n = Some r → row (s_world s') n = Some r) ∧
    same_pool (s_pool s) (s_pool s') ∧ s_slept s' = s_slept s.
Proof. apply find_or_create_works. Qed.

(** A row whose name takes more than 64 bytes (as 22 Korean characters
    do, in a column of 64 characters) can be created but never read: the login
    fails at all three attempts, and the row stays. *)
Theorem long_name_refused name (s : state W) :
  ok (s_world s) → storable name → pool_ok (s_pool s) → free_indices_ (s_pool s) ≠ [] →
  (∀ w r, ok w → row w name = Some r → 64 < zlen (r_name r)) →
  ∃ s', find_or_create name s = Ok (None, s') ∧ is_Some (row (s_world s') name).
Proof.
  intros Hok Hst Hp Hne Hlen.
  assert (Hstep : ∀ n attempt s, ok (s_world s) → pool_ok (s_pool s) → free_indices_ (s_pool s) ≠ [] →
    ∃ s', attempts (S n) attempt (find_or_create_once name) None s = Ok (None, s') ∧
      is_Some (row (s_world s') name)); [|by apply (Hstep 2%nat 1)].
  clear s Hok Hp Hne. intros n. induction n as [|n IH]; intros attempt s Hok Hp Hne;
    destruct (create_once_works attempt name s Hok Hst Hp Hne) as (r & s' & Hr & Hok' & HP & _ & HE);
    pose proof (Hlen _ _ Hok' Hr); destruct (Z.ltb_spec 64 (zlen (r_name r))); [|lia| |lia];
    cbn [attempts]; rewrite (bind_Ok _ _ _ _ _ HE).
  - exists s'. split; [done|]. by exists r.
  - apply IH; [done|by rewrite <- HP|]. intros Hnil. destruct HP as [_ HP]. rewrite Hnil in HP.
    by apply Permutation_nil_r in HP.
Qed.
End works.

(** ** The in-memory server works *)

Lemma mem_row_insert w v :
  is_Some (memdb.row (memdb.insert_ignore v w) v) ∧
  ∀ n r, memdb.row w n = Some r → memdb.row (memdb.insert_ignore v w) n = Some r.
Proof.
  unfold memdb.insert_ignore. destruct (memdb.row w v) as [r|] eqn:E; [by rewrite E|].
  unfold memdb.row in *. simpl. split.
  - destruct (list_find _ (memdb.table w)) as [[i x]|] eqn:F; [done|].
    rewrite list_find_app_r by done. simpl. rewrite decide_True by done. by eexists.
  - intros n r Hr. destruct (list_find _ (memdb.table w)) as [[i x]|] eqn:F in Hr; [|done].
    by rewrite (list_find_app_l _ _ _ _ _ F).
Qed.

Definition mem_st (w : memdb.t) (s : Z) : option stmt_state := memdb.stmts w !! s.

(** No failures to come, and positive ids. *)
Definition mem_ok (w : memdb.t) : Prop :=
  memdb.script w = [] ∧ Forall (λ r, 0 < r_id r) (memdb.table w).

Lemma mem_insert_ok v w : mem_ok w → mem_ok (memdb.insert_ignore v w).
Proof.
  intros [H1 H2]. unfold memdb.insert_ignore. destruct (memdb.row w v); [done|].
  split; [done|]. simpl. apply Forall_app. split; [done|]. repeat constructor. simpl.
  pose proof (zlen_nonneg (memdb.table w)). lia.
Qed.

Lemma mem_working : working mem_ok memdb.row mem_st (λ _, True).
Proof.
  unfold mem_st, same_rows. split; simpl.
  - intros c w Hok. eexists _, _. split; [reflexivity|]. simpl. by rewrite lookup_insert_eq.
  - intros s q w Hok Hs. eexists. split; [reflexivity|]. simpl. by rewrite lookup_alter_eq, Hs.
  - intros s q v w Hok Hs. eexists. split; [reflexivity|]. simpl. by rewrite lookup_alter_eq, Hs.
  - intros s v w Hok Hs _. unfold memdb.next_error. rewrite (proj1 Hok). simpl. rewrite Hs. simpl.
    eexists. split; [reflexivity|].
    destruct (mem_row_insert (w <| memdb.last_errno := 0 |>) v) as [H1 H2].
    assert (mem_ok (w <| memdb.last_errno := 0 |>)) as Hok0 by (destruct Hok; by split).
    split; [exact (mem_insert_ok v _ Hok0)|by split].
  - intros s v w Hok Hs. unfold memdb.next_error. rewrite (proj1 Hok). simpl. rewrite Hs. simpl.
    eexists. split; [reflexivity|]. simpl. by rewrite lookup_alter_eq, Hs.
  - intros s q v n w Hok Hs. eexists. split; [reflexivity|]. done.
  - intros s v w r Hok Hs Hr. unfold memdb.fetch. rewrite Hs, Hr. eexists _, _, _.
    split; [reflexivity|]. split; [done|]. split; [done|]. by destruct (64 <? zlen (r_name r)).
  - intros s w Hok. done.
Qed.

(** The row found for a name has that name. *)
Lemma mem_row_name w name r :
  mem_ok w → memdb.row w name = Some r → r_name r = name ∧ 0 < r_id r.
Proof.
  intros [_ Hid] Hr. unfold memdb.row in Hr. apply fmap_Some in Hr as ([i x] & Hf & ->).
  apply list_find_Some in Hf as (Hx & E & _). split; [done|]. by apply (Forall_lookup_1 _ _ _ _ Hid Hx).
Qed.

(** ** Witnesses *)

#[local] Instance plain_nan : NanSign := false.

#[global] Instance mem_fetch_fits : FetchFits (W := memdb.t).
Proof.
  intros s w w1 row len w2 _. simpl. unfold memdb.fetch.
  destruct (memdb.stmts w1 !! s) as [[]|]; try done. destruct (memdb.row w1 v) as [r|]; [|done].
  destruct (Z.ltb_spec 64 (zlen (r_name r))); [done|]. by intros [= _ <- _].
Qed.

Lemma queries_not_truncated_witness :
  position_query (- 2 ^ 63) fmax_float fm1000 f0_1 (- 2 ^ 31)
    = position_text (- 2 ^ 63) fmax_float fm1000 f0_1 (- 2 ^ 31)
  ∧ stats_query 7 1 0 100 = stats_text 7 1 0 100.
Proof.
  split.
  - apply (queries_not_truncated (- 2 ^ 63) fmax_float fm1000 f0_1 (- 2 ^ 31) 1 0 100); by_decide.
  - apply (queries_not_truncated 7 fmax_float fm1000 f0_1 1 1 0 100); by_decide.
Defined.

(** Two free connections, an empty table, and a script of errors. *)
Definition mem_state (script : list Z) : state memdb.t :=
  opened2 <| s_world := memdb.start [] script |>.
Definition bob : list Z := sql "bob".
Definition bob_row : PlayerRecord := memdb.fresh_row 1 bob.

Lemma dao_returns_connection_witness :
  returns 150 (find_or_create bob) (mem_state [2006; 1213; 2013]).
Proof.
  apply (dao_returns_connection (mem_state [2006; 1213; 2013]) bob 0 f0 f0 f0 0 0 0 0). by_decide.
Defined.

Definition traced_state (script : list Z) : state (memdb.t * list query_call) :=
  mkState (s_pool opened2) (memdb.start [] script, []) 0.

Lemma save_retries_witness :
  ∃ front rc err s',
    for_attempts (update_once (H := traced) (sql "UPDATE")) false (traced_state [2006; 1213; 0])
      = Ok (rc =? 0, s') ∧
    (s_world s').2 = [] ++ front ++ [(sql "UPDATE", rc, err)] ∧
    Forall (transient (sql "UPDATE")) front ∧ (length front ≤ 2)%nat ∧
    (rc ≠ 0 → is_retryable_mysql_error err = true → length front = 2%nat).
Proof. apply (save_retries (sql "UPDATE") (traced_state [2006; 1213; 0])); by_decide. Defined.

Lemma find_or_create_correct_witness : ∃ r s',
  find_or_create bob (mem_state []) = Ok (Some r, s') ∧ memdb.row (s_world s') bob = Some r.
Proof.
  destruct (find_or_create_correct _ _ _ _ mem_working bob (mem_state [])) as (r & s' & H1 & _ & H2 & _);
    [by_decide|done|by_decide|by_decide| |by exists r, s'].
  intros w r Hok [-> _]%mem_row_name; [by_decide|done].
Defined.

Definition long_name : list Z := concat (replicate 22 [0xEA; 0xB0; 0x80]).

Lemma long_name_refused_witness : ∃ s',
  find_or_create long_name (mem_state []) = Ok (None, s') ∧ is_Some (memdb.row (s_world s') long_name).
Proof.
  apply (long_name_refused _ _ _ _ mem_working long_name (mem_state []));
    [by_decide|done|by_decide|by_decide|].
  intros w r Hok [-> _]%mem_row_name; [by_decide|done].
Defined.
