(* ===== verification/SavedRows.v ===== *)
(** * What the data access writes ([src/server/db/dao/player_dao.cpp])

    The two updates of a save as statements of SQL, and the row they leave on a
    database that executes them. *)

From S2P Require Import Prelude Floats Text GameServer ServerConfig DbConnection Sql MemDb DbPoolLaws PlayerDao PlayerDaoLaws.
Import server_config db player_dao update_sql.
Import game_server(PlayerRecord, mkRecord, r_id, r_name, r_level, r_exp, r_hp, r_max_hp,
  r_x, r_y, r_z, r_map_id).

Module saved_rows.

(** ** The statements *)

Definition position_update (id : Z) (x y z : f32) (map_id : Z) : update :=
  mkUpdate (text "players")
    [(text "pos_x", float_value x); (text "pos_y", float_value y); (text "pos_z", float_value z);
     (text "map_id", Int map_id); (text "last_login", Call (text "NOW"))] (text "id") (Int id).
Definition stats_update (id level exp hp : Z) : update :=
  mkUpdate (text "players") [(text "level", Int level); (text "exp", Int exp); (text "hp", Int hp)]
    (text "id") (Int id).

(** The text up to the first value, and the text behind the last one. *)
Lemma parse_update_sets c r sets id :
  parse_sets (length (text " " ++ c ++ equals ++ r)) (text " " ++ c ++ equals ++ r)
    = Some (sets, text " WHERE id=" ++ to_string id) →
  parse_update (text "UPDATE players SET " ++ c ++ equals ++ r)
  = Some (mkUpdate (text "players") sets (text "id") (Int id)).
Proof.
  intros Hs. unfold parse_update.
  change (expect (text "UPDATE") (text "UPDATE players SET " ++ c ++ equals ++ r))
    with (Some (text " players SET " ++ c ++ equals ++ r)). cbn [mbind option_bind].
  change (name (skip_space (text " players SET " ++ c ++ equals ++ r)))
    with (text "players", text " SET " ++ c ++ equals ++ r). cbn [mbind option_bind].
  change (expect (text "SET") (skip_space (text " SET " ++ c ++ equals ++ r)))
    with (Some (text " " ++ c ++ equals ++ r)). cbn [mbind option_bind]. rewrite Hs. cbn [mbind option_bind].
  change (expect (text "WHERE") (skip_space (text " WHERE id=" ++ to_string id)))
    with (Some (text " id=" ++ to_string id)). cbn [mbind option_bind].
  change (name (skip_space (text " id=" ++ to_string id))) with (text "id", equals ++ to_string id).
  cbn [mbind option_bind].
  change (expect equals (equals ++ to_string id)) with (Some (to_string id)). cbn [mbind option_bind].
  pose proof (parse_to_string id [] I) as Hv. rewrite app_nil_r in Hv. rewrite Hv. cbn [mbind option_bind].
  by rewrite bool_decide_true.
Qed.

Lemma position_text_means `{NanSign} id x y z m :
  parse_update (position_text id x y z m) = Some (position_update id x y z m).
Proof.
  set (tail := text " WHERE id=" ++ to_string id).
  set (rm := text "NOW()" ++ tail). set (rz := to_string m ++ comma ++ text " last_login=" ++ rm).
  set (ry := fmt_f4 z ++ comma ++ text " map_id=" ++ rz).
  set (rx := fmt_f4 y ++ comma ++ text " pos_z=" ++ ry).
  change (position_text id x y z m)
    with (text "UPDATE players SET " ++ text "pos_x" ++ equals ++ fmt_f4 x ++ comma ++ text " pos_y=" ++ rx).
  apply parse_update_sets.
  set (r := fmt_f4 x ++ comma ++ text " pos_y=" ++ rx).
  change (length (text " " ++ text "pos_x" ++ equals ++ r)) with (7 + length r)%nat. cbn [Nat.add].
  rewrite (parse_sets_more _ _ (text "pos_x") (float_value x) (fmt_f4 x) (text " pos_y=" ++ rx));
    [|done|by apply parse_float].
  rewrite (parse_sets_more _ _ (text "pos_y") (float_value y) (fmt_f4 y) (text " pos_z=" ++ ry));
    [|done|by apply parse_float].
  rewrite (parse_sets_more _ _ (text "pos_z") (float_value z) (fmt_f4 z) (text " map_id=" ++ rz));
    [|done|by apply parse_float].
  rewrite (parse_sets_more _ _ (text "map_id") (Int m) (to_string m) (text " last_login=" ++ rm));
    [|done|by apply parse_to_string].
  by rewrite (parse_sets_last _ _ (text "last_login") (Call (text "NOW")) (text "NOW()") tail).
Qed.

Lemma stats_text_means id level exp hp :
  parse_update (stats_text id level exp hp) = Some (stats_update id level exp hp).
Proof.
  set (tail := text " WHERE id=" ++ to_string id). set (re := to_string hp ++ tail).
  set (rl := to_string exp ++ comma ++ text " hp=" ++ re).
  change (stats_text id level exp hp)
    with (text "UPDATE players SET " ++ text "level" ++ equals ++ to_string level ++ comma ++ text " exp=" ++ rl).
  apply parse_update_sets. set (r := to_string level ++ comma ++ text " exp=" ++ rl).
  change (length (text " " ++ text "level" ++ equals ++ r)) with (7 + length r)%nat. cbn [Nat.add].
  rewrite (parse_sets_more _ _ (text "level") (Int level) (to_string level) (text " exp=" ++ rl));
    [|done|by apply parse_to_string].
  rewrite (parse_sets_more _ _ (text "exp") (Int exp) (to_string exp) (text " hp=" ++ re));
    [|done|by apply parse_to_string].
  by rewrite (parse_sets_last _ _ (text "hp") (Int hp) (to_string hp) tail);
    [|done|apply parse_to_string|].
Qed.

(** ** A database that executes them *)

Section updates.
Context {W : Type} `{MySQL W} `{FloatColumn}.
Context (ok : W → Prop) (row : W → list Z → option PlayerRecord).

(** The documented behaviour of an [UPDATE] while nothing else fails: it changes the
    row of its key, or it is refused for a column that does not exist. *)
Record updating : Prop := mkUpdating
  { w_update h q u w : ok w → parse_update q = Some u → u_table u = text "players" →
      u_key u = text "id" → unknown_column u = false → (∀ r, is_Some (run_update u r)) →
      ∃ w', mysql_query h q w = (0, w') ∧ ok w' ∧ ∀ n, row w' n = row w n ≫= run_update u;
    w_bad_field h q u w : ok w → parse_update q = Some u → u_table u = text "players" →
      unknown_column u = true →
      ∃ rc w', mysql_query h q w = (rc, w') ∧ rc ≠ 0 ∧ mysql_errno h w' = 1054 ∧ ok w' ∧
        same_rows row w w' }.
Context (upd : updating).

(** One attempt of a save, and the loop, which the first attempt decides. *)
Lemma update_attempt q (s : state W) :
  pool_ok (s_pool s) → free_indices_ (s_pool s) ≠ [] →
  (∀ h rc w', mysql_query h q (s_world s) = (rc, w') →
     rc = 0 ∨ is_retryable_mysql_error (mysql_errno h w') = false) →
  ∃ h rc w' s', mysql_query h q (s_world s) = (rc, w') ∧
    update_once q 1 s = Ok (if rc =? 0 then Return true else Break, s') ∧
    s_world s' = w' ∧ same_pool (s_pool s) (s_pool s').
Proof.
  intros Hp Hne Hq. unfold update_once.
  destruct (with_conn_valid (λ mysql,
    rc ← lift (mysql_query mysql q);
    if rc =? 0 then mret (Return true) else
    err ← ask (λ st, mysql_errno mysql (s_world st));
    if negb (is_retryable_mysql_error err) then mret Break
    else maybe_delay 1 ;; mret Continue) Break s Hp Hne) as (i & rest & h & E & ->).
  set (s1 := s <| s_pool ::= _ |>).
  destruct (mysql_query h q (s_world s)) as [rc w'] eqn:Eq. exists h, rc, w'.
  rewrite bind_assoc, bind_lift. change (s_world s1) with (s_world s). rewrite Eq. cbn [fst snd].
  exists (s1 <| s_world := w' |> <| s_pool ::= λ p, p <| free_indices_ ::= λ l, l ++ [i] |> |>).
  assert (same_pool (s_pool s) ((s_pool s1) <| free_indices_ ::= λ l, l ++ [i] |>)) as HP.
  { split; [done|]. simpl. by rewrite E, Permutation_app_comm. }
  split; [done|]. destruct (Z.eqb_spec rc 0) as [->|Hrc]; [by split|].
  rewrite bind_assoc, bind_ask. destruct (Hq h rc w' Eq) as [?|Hr]; [done|].
  cbn [s_world set]. rewrite Hr. by split.
Qed.
Lemma update_first q (s : state W) :
  pool_ok (s_pool s) → free_indices_ (s_pool s) ≠ [] →
  (∀ h rc w', mysql_query h q (s_world s) = (rc, w') →
     rc = 0 ∨ is_retryable_mysql_error (mysql_errno h w') = false) →
  ∃ h rc w' s', mysql_query h q (s_world s) = (rc, w') ∧
    for_attempts (update_once q) false s = Ok (rc =? 0, s') ∧
    s_world s' = w' ∧ same_pool (s_pool s) (s_pool s').
Proof.
  intros Hp Hne Hq. destruct (update_attempt q s Hp Hne Hq) as (h & rc & w' & s' & E & Eo & Hw & HP).
  exists h, rc, w', s'. split; [done|]. split; [|done]. unfold for_attempts.
  change (Z.to_nat kMaxAttempts) with 3%nat. cbn [attempts]. rewrite (bind_Ok _ _ _ _ _ Eo).
  by destruct (rc =? 0).
Qed.

Lemma update_works q u (s : state W) :
  ok (s_world s) → pool_ok (s_pool s) → free_indices_ (s_pool s) ≠ [] →
  parse_update q = Some u → u_table u = text "players" → u_key u = text "id" →
  unknown_column u = false → (∀ r, is_Some (run_update u r)) →
  ∃ s', for_attempts (update_once q) false s = Ok (true, s') ∧ ok (s_world s') ∧
    (∀ n, row (s_world s') n = row (s_world s) n ≫= run_update u) ∧ same_pool (s_pool s) (s_pool s').
Proof.
  intros Hok Hp Hne Hq Ht Hk Hc Hr.
  assert (∀ h, ∃ w', mysql_query h q (s_world s) = (0, w') ∧ ok w' ∧
    ∀ n, row w' n = row (s_world s) n ≫= run_update u) as Hu.
  { intros h. by apply (w_update upd h q u). }
  destruct (update_first q s Hp Hne) as (h & rc & w' & s' & E & El & <- & HP).
  { intros h rc w' E. destruct (Hu h) as (? & E' & _). left. congruence. }
  destruct (Hu h) as (? & E' & Hok' & Hrow). rewrite E in E'. injection E' as -> <-. by exists s'.
Qed.

Lemma update_refused q u (s : state W) :
  ok (s_world s) → pool_ok (s_pool s) → free_indices_ (s_pool s) ≠ [] →
  parse_update q = Some u → u_table u = text "players" → unknown_column u = true →
  ∃ s', for_attempts (update_once q) false s = Ok (false, s') ∧ ok (s_world s') ∧
    same_rows row (s_world s) (s_world s') ∧ same_pool (s_pool s) (s_pool s').
Proof.
  intros Hok Hp Hne Hq Ht Hc.
  assert (∀ h, ∃ rc w', mysql_query h q (s_world s) = (rc, w') ∧ rc ≠ 0 ∧ mysql_errno h w' = 1054 ∧
    ok w' ∧ same_rows row (s_world s) w') as Hu.
  { intros h. by apply (w_bad_field upd h q u). }
  destruct (update_first q s Hp Hne) as (h & rc & w' & s' & E & El & <- & HP).
  { intros h rc w' E. destruct (Hu h) as (? & ? & E' & _ & Hn & _). right. rewrite E in E'.
    injection E' as <- <-. by rewrite Hn. }
  destruct (Hu h) as (? & ? & E' & Hrc & _ & Hok' & Hrow). rewrite E in E'. injection E' as <- <-.
  exists s'. destruct (Z.eqb_spec rc 0); [done|]. by split_and!.
Qed.
End updates.

(** ** The rows after a save *)

Section rows.
Context `{FloatColumn}.

(** The columns of a save, in the row with the key. *)
Definition placed (qx qy qz m : Z) (r : PlayerRecord) : PlayerRecord :=
  mkRecord (r_id r) (r_name r) (r_level r) (r_exp r) (r_hp r) (r_max_hp r)
    (float_column qx 4) (float_column qy 4) (float_column qz 4) m.
Definition with_stats (level exp hp : Z) (r : PlayerRecord) : PlayerRecord :=
  mkRecord (r_id r) (r_name r) level exp hp (r_max_hp r) (r_x r) (r_y r) (r_z r) (r_map_id r).
Definition at_key (id : Z) (f : PlayerRecord → PlayerRecord) (r : PlayerRecord) : PlayerRecord :=
  if bool_decide (r_id r = id) then f r else r.

Lemma to_unsigned_ok z : is_u32 z → to_unsigned (Int z) = Some z.
Proof. unfold is_u32. intros Hz. cbn. by destruct (Z.leb_spec 0 z), (Z.ltb_spec z (2 ^ 32)); try lia. Qed.

Lemma key_test (id : Z) (r : PlayerRecord) : bool_decide (Int id = Int (r_id r)) = bool_decide (r_id r = id).
Proof. apply bool_decide_ext. split; congruence. Qed.

Lemma position_update_runs id x y z m qx qy qz r :
  fixed4_of x = Some qx → fixed4_of y = Some qy → fixed4_of z = Some qz → is_u32 m →
  run_update (position_update id x y z m) r = Some (at_key id (placed qx qy qz m) r).
Proof.
  intros Hx Hy Hz Hm. unfold run_update, at_key. cbn [position_update u_value u_sets].
  rewrite key_test. case_bool_decide; [|done]. unfold float_value. rewrite Hx, Hy, Hz.
  pose proof (to_unsigned_ok m Hm) as Hu. destruct r. cbn -[to_unsigned]. rewrite Hu. done.
Qed.
Lemma stats_update_runs id level exp hp r :
  is_u32 level → is_u32 exp → is_u32 hp →
  run_update (stats_update id level exp hp) r = Some (at_key id (with_stats level exp hp) r).
Proof.
  intros Hl He Hh. unfold run_update, at_key. cbn [stats_update u_value u_sets].
  rewrite key_test. case_bool_decide; [|done].
  pose proof (to_unsigned_ok level Hl) as H1. pose proof (to_unsigned_ok exp He) as H2.
  pose proof (to_unsigned_ok hp Hh) as H3. destruct r. cbn -[to_unsigned]. rewrite H1. cbn -[to_unsigned].
  rewrite H2. cbn -[to_unsigned]. by rewrite H3.
Qed.
End rows.

(** ** The in-memory server executes them *)

Lemma mem_rows f (l l' : list PlayerRecord) n :
  (∀ r r', f r = Some r' → r_name r' = r_name r) → mapM f l = Some l' →
  snd <$> list_find (λ r, r_name r = n) l' = (snd <$> list_find (λ r, r_name r = n) l) ≫= f.
Proof.
  intros Hf Hm. apply mapM_Some in Hm. induction Hm as [|r r' l l' Hr _ IH]; [done|].
  cbn. rewrite (Hf r r' Hr). case_decide; [by cbn|].
  destruct (list_find _ l') as [[i x]|], (list_find _ l) as [[j y]|]; cbn in *; done.
Qed.
Lemma mem_ids f (l l' : list PlayerRecord) :
  (∀ r r', f r = Some r' → r_id r' = r_id r) → mapM f l = Some l' →
  Forall (λ r, 0 < r_id r) l → Forall (λ r, 0 < r_id r) l'.
Proof.
  intros Hf Hm%mapM_Some Hl. induction Hm as [|r r' l l' Hr _ IH]; [done|].
  apply Forall_cons in Hl as [? ?]. constructor; [by rewrite (Hf r r' Hr)|auto].
Qed.

Lemma mem_updating : updating mem_ok memdb.row.
Proof.
  split; intros h q u w [Hs Hids] Hq Ht.
  - intros Hk Hc Hr.
    assert (∃ l, mapM (run_update u) (memdb.table w) = Some l) as [l Hl].
    { apply mapM_is_Some, Forall_true. exact Hr. }
    assert (mysql_query h q w
      = (0, w <| memdb.last_errno := 0 |> <| memdb.table := l |> <| memdb.log ::= λ x, x ++ [q] |>)) as E.
    { cbn. unfold memdb.next_error. rewrite Hs. cbn. unfold memdb.run_query. rewrite Hq, Hc. cbn. by rewrite Hl, Hs. }
    eexists. split; [exact E|]. split; cbn.
    + split; [done|]. eapply mem_ids; [|exact Hl|done]. intros r r' Er. apply (run_update_keys u r r' Er).
    + intros n. unfold memdb.row. cbn. apply mem_rows; [|done]. intros r r' Er. apply (run_update_keys u r r' Er).
  - intros Hc. exists 1. eexists. cbn. unfold memdb.next_error. rewrite Hs. cbn. unfold memdb.run_query.
    rewrite Hq, Hc. split; [reflexivity|]. by split_and!.
Qed.

(** ** The property *)

(** C25: (equivalence) What a save writes. For every id, position and statistics
    of their types, the texts that [save_position] and [save_stats] print into
    their buffers are, read as SQL, updates of the table of players at that id:
    of the three coordinates with four decimals, the map and the time of the
    last login, and of level, experience and hit points; a coordinate that is
    not finite is read as the name of a column that does not exist. *)
Theorem saves_are_updates `{NanSign} id x y z map_id level exp hp :
  is_i64 id → is_i32 map_id → is_i32 level → is_i32 exp → is_i32 hp →
  is_f32 x → is_f32 y → is_f32 z →
  parse_update (position_query id x y z map_id) = Some (position_update id x y z map_id) ∧
  parse_update (stats_query id level exp hp) = Some (stats_update id level exp hp).
Proof.
  intros Hid Hm Hl He Hh Hx Hy Hz.
  destruct (queries_not_truncated id x y z map_id level exp hp) as [-> ->]; [done..|].
  split; [apply position_text_means|apply stats_text_means].
Qed.

#[local] Instance plain_nan_sql : NanSign := false.
Lemma saves_are_updates_witness :
  parse_update (position_query 7 f20 S754_nan fm1000 2) = Some (position_update 7 f20 S754_nan fm1000 2) ∧
  parse_update (stats_query 7 1 0 100) = Some (stats_update 7 1 0 100).
Proof. apply (saves_are_updates 7 f20 S754_nan fm1000 2 1 0 100); by_decide. Defined.
End saved_rows.
