(* ===== verification/JsonText.v ===== *)
(** * JSON documents (RFC 8259)

    A reader of JSON text, to say of the lines the failure log keeps what the
    script that replays them gets: the whole grammar, white space, escapes and
    exponents included.  The text has to be UTF-8; a control character in a
    string, a number with a leading zero and the words [nan] and [inf] are
    refused. *)

From S2P Require Import Prelude Floats Text GameServer Sql.
Import update_sql(expect, signed, fixed4_of, scaled_nonneg, read_udec_app, udec_starts).

Module json_text.

#[local] Set Warnings "-register-all".

(** [Number m e] is [m * 10^e]. *)
Inductive document :=
| Null
| Bool (b : bool)
| Number (m e : Z)
| String (s : list Z)
| Array (l : list document)
| Object (l : list (list Z * document)).

(** ** UTF-8 *)

Definition within (r : Z * Z) (c : Z) : bool := (r.1 <=? c) && (c <=? r.2).
Definition continuation : Z * Z := (0x80, 0xBF).

(** The ranges of the bytes that have to follow, before and after the byte [c]. *)
Definition utf8_step (st : list (Z * Z)) (c : Z) : option (list (Z * Z)) :=
  match st with
  | r :: st => if within r c then Some st else None
  | [] =>
      if within (0, 0x7F) c then Some []
      else if within (0xC2, 0xDF) c then Some [continuation]
      else if c =? 0xE0 then Some [(0xA0, 0xBF); continuation]
      else if c =? 0xED then Some [(0x80, 0x9F); continuation]
      else if within (0xE1, 0xEF) c then Some [continuation; continuation]
      else if c =? 0xF0 then Some [(0x90, 0xBF); continuation; continuation]
      else if within (0xF1, 0xF3) c then Some [continuation; continuation; continuation]
      else if c =? 0xF4 then Some [(0x80, 0x8F); continuation; continuation]
      else None
  end.
Fixpoint utf8_from (st : list (Z * Z)) (l : list Z) : bool :=
  match l with
  | [] => match st with [] => true | _ => false end
  | c :: l => match utf8_step st c with Some st => utf8_from st l | None => false end
  end.
Definition utf8 : list Z → bool := utf8_from [].

(** The bytes of a code point. *)
Definition utf8_encode (u : Z) : list Z :=
  if u <? 0x80 then [u]
  else if u <? 0x800 then [0xC0 + u / 64; 0x80 + u mod 64]
  else if u <? 0x10000 then [0xE0 + u / 4096; 0x80 + u / 64 mod 64; 0x80 + u mod 64]
  else [0xF0 + u / 262144; 0x80 + u / 4096 mod 64; 0x80 + u / 64 mod 64; 0x80 + u mod 64].

(** ** Strings *)

Definition hex (c : Z) : option Z :=
  if is_digit c then Some (c - 48)
  else if within (65, 70) c then Some (c - 55)
  else if within (97, 102) c then Some (c - 87)
  else None.
Definition hex4 (a b c d : Z) : option Z :=
  a ← hex a; b ← hex b; c ← hex c; d ← hex d; Some (((a * 16 + b) * 16 + c) * 16 + d).

(** The escapes of one character. *)
Definition escaped (c : Z) : option Z :=
  if (c =? 34) || (c =? 92) || (c =? 47) then Some c
  else if c =? 98 then Some 8 else if c =? 102 then Some 12
  else if c =? 110 then Some 10 else if c =? 114 then Some 13
  else if c =? 116 then Some 9 else None.

(** A string behind its opening quote, and the text behind the closing one. *)
Fixpoint chars (l : list Z) : option (list Z * list Z) :=
  match l with
  | [] => None
  | c :: l =>
      if c =? 34 then Some ([], l)
      else if c =? 92 then
        match l with
        | [] => None
        | c :: l =>
            if c =? 117 then
              match l with
              | a :: b :: c :: d :: l =>
                  u ← hex4 a b c d;
                  if within (0xD800, 0xDBFF) u then
                    match l with
                    | x :: y :: a :: b :: c :: d :: l =>
                        if (x =? 92) && (y =? 117) then
                          v ← hex4 a b c d;
                          if within (0xDC00, 0xDFFF) v then
                            '(s, r) ← chars l;
                            Some (utf8_encode (0x10000 + (u - 0xD800) * 1024 + (v - 0xDC00)) ++ s, r)
                          else None
                        else None
                    | _ => None
                    end
                  else if within (0xDC00, 0xDFFF) u then None
                  else '(s, r) ← chars l; Some (utf8_encode u ++ s, r)
              | _ => None
              end
            else
              x ← escaped c; '(s, r) ← chars l; Some (x :: s, r)
        end
      else if c <? 32 then None
      else '(s, r) ← chars l; Some (c :: s, r)
  end.

(** ** Numbers *)

Definition starts_with_digit (l : list Z) : bool := match l with c :: _ => is_digit c | [] => false end.

(** The optional exponent behind [m * 10^e]. *)
Definition exponent (m e : Z) (l : list Z) : option (document * list Z) :=
  match l with
  | c :: l1 =>
      if (c =? 101) || (c =? 69) then
        let '(neg, l2) := match l1 with
                          | c :: l2 => if c =? 45 then (true, l2) else if c =? 43 then (false, l2) else (false, l1)
                          | [] => (false, l1)
                          end in
        if starts_with_digit l2 then
          let '(x, r) := read_digits 0 l2 in Some (Number m (e + signed neg x), r)
        else None
      else Some (Number m e, l)
  | [] => Some (Number m e, [])
  end.

(** The optional fraction behind the digits of [n]. *)
Definition fraction (neg : bool) (n : Z) (l : list Z) : option (document * list Z) :=
  match expect [46] l with
  | Some l =>
      if starts_with_digit l then
        let '(m, r) := read_digits n l in exponent (signed neg m) (zlen r - zlen l) r
      else None
  | None => exponent (signed neg n) 0 l
  end.

(** A zero stands alone before the point. *)
Definition number (neg : bool) (l : list Z) : option (document * list Z) :=
  match l with
  | c :: r =>
      if c =? 48 then fraction neg 0 r
      else if is_digit c then let '(n, r) := read_digits 0 l in fraction neg n r
      else None
  | [] => None
  end.

(** ** Documents *)

Fixpoint white (l : list Z) : list Z :=
  match l with
  | c :: l' => if (c =? 32) || (c =? 9) || (c =? 10) || (c =? 13) then white l' else l
  | [] => []
  end.

Definition literal (w : string) (d : document) (l : list Z) : option (document * list Z) :=
  l ← expect (bytes_of_string w) l; Some (d, l).

(** A value; the elements of an array behind a bracket or a comma, and the members
    of an object behind a brace or a comma. *)
Fixpoint value (fuel : nat) (l : list Z) : option (document * list Z) :=
  match fuel with
  | O => None
  | S fuel =>
      match white l with
      | [] => None
      | c :: l =>
          if c =? 34 then '(s, l) ← chars l; Some (String s, l)
          else if c =? 123 then
            match expect [125] (white l) with
            | Some l => Some (Object [], l)
            | None => '(ms, l) ← members fuel l; Some (Object ms, l)
            end
          else if c =? 91 then
            match expect [93] (white l) with
            | Some l => Some (Array [], l)
            | None => '(ds, l) ← elements fuel l; Some (Array ds, l)
            end
          else if c =? 45 then number true l
          else if c =? 116 then literal "true" (Bool true) (c :: l)
          else if c =? 102 then literal "false" (Bool false) (c :: l)
          else if c =? 110 then literal "null" Null (c :: l)
          else number false (c :: l)
      end
  end
with elements (fuel : nat) (l : list Z) : option (list document * list Z) :=
  match fuel with
  | O => None
  | S fuel =>
      '(d, l) ← value fuel l;
      match expect [44] (white l) with
      | Some l => '(ds, l) ← elements fuel l; Some (d :: ds, l)
      | None => l ← expect [93] (white l); Some ([d], l)
      end
  end
with members (fuel : nat) (l : list Z) : option (list (list Z * document) * list Z) :=
  match fuel with
  | O => None
  | S fuel =>
      l ← expect [34] (white l);
      '(k, l) ← chars l;
      l ← expect [58] (white l);
      '(d, l) ← value fuel l;
      match expect [44] (white l) with
      | Some l => '(ms, l) ← members fuel l; Some ((k, d) :: ms, l)
      | None => l ← expect [125] (white l); Some ([(k, d)], l)
      end
  end.

(** One document.  Every level of brackets uses up two units of fuel and every
    element one, and each has a character of its own, so twice the length of the
    text is enough. *)
Definition read_document (l : list Z) : option document :=
  if utf8 l then
    '(d, r) ← value (2 * length l) l;
    match white r with [] => Some d | _ => None end
  else None.

(** ** Examples *)

Example read_nested :
  read_document (quoted " { 'a' : [1, -2.50e+1, true, null, []], 'b':'\u0041\n' } ")
  = Some (Object [(bytes_of_string "a", Array [Number 1 0; Number (-250) (-1); Bool true; Null; Array []]);
                  (bytes_of_string "b", String [65; 10])]).
Proof. vm_compute. reflexivity. Qed.
Example read_surrogates : read_document (quoted "'\uD83D\uDE00'") = Some (String [0xF0; 0x9F; 0x98; 0x80]).
Proof. vm_compute. reflexivity. Qed.
Example refused :
  omap read_document
    [quoted "nan"; quoted "{'x':inf}"; quoted "01"; quoted "1."; quoted "[1,]"; quoted "'a"; [34; 10; 34];
     [34; 0xFF; 34]; quoted "'\x'"; quoted "1 2"; []] = [].
Proof. vm_compute. reflexivity. Qed.

(** ** Laws *)

Lemma utf8_from_app st a b : utf8_from st a = true → utf8 b = true → utf8_from st (a ++ b) = true.
Proof.
  revert st. induction a as [|c a IH]; intros st; cbn.
  - by destruct st.
  - destruct (utf8_step st c); [apply IH|done].
Qed.
Lemma utf8_app a b : utf8 a = true → utf8 b = true → utf8 (a ++ b) = true.
Proof. apply utf8_from_app. Qed.

(** All bytes behind the first one of a character are above the ASCII range. *)
Lemma utf8_step_high st c st' :
  Forall (λ r, 0x80 ≤ r.1) st → utf8_step st c = Some st' → Forall (λ r, 0x80 ≤ r.1) st'.
Proof.
  destruct st as [|r st]; cbn -[within].
  - intros _. repeat case_match; intros [= <-]; by_decide.
  - intros [_ Hst]%Forall_cons. by case_match; intros [= <-].
Qed.
Lemma utf8_step_ascii st c st' :
  Forall (λ r, 0x80 ≤ r.1) st → utf8_step st c = Some st' → 0 ≤ c ≤ 0x7F → st = [] ∧ st' = [].
Proof.
  unfold utf8_step, within. intros Hst E Hc. destruct st as [|r st]; cbn [fst snd] in *.
  - destruct (Z.leb_spec 0 c), (Z.leb_spec c 127); try lia. by injection E as <-.
  - apply Forall_cons in Hst as [Hr _]. destruct (Z.leb_spec r.1 c); [lia|done].
Qed.

(** Printable characters that mean themselves. *)
Definition plain_char (c : Z) : bool := within (32, 126) c && negb (c =? 34) && negb (c =? 92).
Definition plain (l : list Z) : Prop := Forall (λ c, plain_char c = true) l.
#[global] Instance plain_dec l : Decision (plain l).
Proof. unfold plain. apply _. Defined.

Lemma plain_char_spec c : plain_char c = true ↔ 32 ≤ c ≤ 126 ∧ c ≠ 34 ∧ c ≠ 92.
Proof.
  unfold plain_char, within. cbn [fst snd].
  rewrite !andb_true_iff, !negb_true_iff, !Z.eqb_neq, !Z.leb_le. tauto.
Qed.
Lemma ascii_utf8 l : Forall (λ c, 0 ≤ c ≤ 0x7F) l → utf8 l = true.
Proof.
  unfold utf8. induction 1 as [|c l Hc _ IH]; [done|]. cbn -[within]. unfold within at 1. cbn [fst snd].
  destruct (Z.leb_spec 0 c), (Z.leb_spec c 127); try lia. done.
Qed.
Lemma plain_utf8 l : plain l → utf8 l = true.
Proof. intros Hl. apply ascii_utf8. eapply Forall_impl; [exact Hl|]. intros c Hc%plain_char_spec. lia. Qed.

Lemma chars_plain k r : plain k → chars (k ++ 34 :: r) = Some (k, r).
Proof.
  induction 1 as [|c k Hc%plain_char_spec _ IH]; [done|]. cbn -[Z.eqb Z.ltb].
  destruct (Z.eqb_spec c 34), (Z.eqb_spec c 92), (Z.ltb_spec c 32); try lia. by rewrite IH.
Qed.

(** Numbers without an exponent end where the text goes on with a comma or a brace. *)
Definition ends (r : list Z) : Prop := match r with c :: _ => c = 44 ∨ c = 125 | [] => False end.

Lemma exponent_ends m e r : ends r → exponent m e r = Some (Number m e, r).
Proof. destruct r as [|c r]; [done|]. by intros [-> | ->]. Qed.
Lemma read_digits_ends acc r : ends r → read_digits acc r = (acc, r).
Proof. destruct r as [|c r]; [done|]. by intros [-> | ->]. Qed.

(** The first digit of a positive number is not zero. *)
Lemma digits_head fuel n :
  0 < n < 2 ^ Z.of_nat fuel → ∃ c l, digits fuel n = c :: l ∧ 49 ≤ c ≤ 57.
Proof.
  revert n. induction fuel as [|fuel IH]; intros n Hn; [change (2 ^ Z.of_nat 0) with 1 in Hn; lia|].
  cbn [digits]. destruct (Z.ltb_spec n 10).
  - rewrite Z.mod_small by lia. eexists _, _. split; [reflexivity|]. lia.
  - destruct (IH (n / 10)) as (c & l & -> & Hc).
    { rewrite Nat2Z.inj_succ, Z.pow_succ_r in Hn by lia.
      split; [apply Z.div_str_pos; lia|apply Z.div_lt_upper_bound; lia]. }
    by eexists _, _.
Qed.

(** Digits, whatever follows them. *)
Lemma number_udec neg n r :
  0 ≤ n → starts_with_digit r = false →
  number neg (udec n ++ r) = fraction neg n r.
Proof.
  intros Hn Hr. destruct (decide (n = 0)) as [->|]; [done|].
  pose proof (udec_fuel n Hn). destruct (digits_head (S (Z.to_nat (Z.log2 n))) n) as (c & l & E & Hc); [lia|].
  change (digits _ _) with (udec n) in E. unfold number.
  pose proof (read_udec_app n r Hn) as Hu. rewrite E in *. cbn [app] in *.
  destruct (Z.eqb_spec c 48); [lia|].
  assert (is_digit c = true) as ->. { unfold is_digit. apply andb_true_iff. rewrite !Z.leb_le. lia. }
  rewrite Hu. destruct r as [|d r]; [done|]. cbn [starts_with_digit] in Hr. cbn [read_digits]. by rewrite Hr.
Qed.

Lemma read_int_number neg n r : 0 ≤ n → ends r → number neg (udec n ++ r) = Some (Number (signed neg n) 0, r).
Proof.
  intros Hn Hr. rewrite number_udec; [|done|destruct r as [|c r]; [done|]; by destruct Hr as [-> | ->]].
  unfold fraction. rewrite <- (exponent_ends _ _ r Hr). destruct r as [|c r]; [done|]. by destruct Hr as [-> | ->].
Qed.

Lemma read_fixed_number neg q r :
  0 ≤ q → ends r → number neg (fixed4 q ++ r) = Some (Number (signed neg q) (-4), r).
Proof.
  intros Hq Hr. unfold fixed4. rewrite <- !app_assoc, number_udec; [|apply Z.div_pos; lia|done].
  unfold fraction. cbn -[zlen frac4 Z.div read_digits starts_with_digit exponent].
  assert (∀ z, is_digit (48 + z mod 10) = true) as Hd.
  { intros z. unfold is_digit. pose proof (Z.mod_pos_bound z 10). apply andb_true_iff. split; apply Z.leb_le; lia. }
  assert (starts_with_digit (frac4 q ++ r) = true) as ->. { unfold frac4. cbn [app starts_with_digit]. apply Hd. }
  assert (read_digits (q / 10000) (frac4 q ++ r) = (q, r)) as ->.
  { unfold frac4. cbn [app read_digits]. rewrite !Hd, read_digits_ends by done. f_equal.
    Z.to_euclidean_division_equations; lia. }
  rewrite exponent_ends, zlen_app by done. change (zlen (frac4 q)) with 4. do 3 f_equal. lia.
Qed.

(** ** Values as the server prints them *)

Lemma value_digit fuel l : starts_with_digit l = true → value (S fuel) l = number false l.
Proof.
  destruct l as [|c l]; [done|]. cbn [starts_with_digit]. intros Hc. pose proof Hc as [H1 H2]%andb_true_iff.
  apply Z.leb_le in H1, H2.
  assert (∀ k, k < 48 ∨ 57 < k → (c =? k) = false) as Hk by (intros; apply Z.eqb_neq; lia).
  assert (white (c :: l) = c :: l) as Hw by (cbn -[Z.eqb]; by rewrite !Hk by lia).
  cbn -[Z.eqb white number literal]. rewrite Hw, !Hk by lia. done.
Qed.
Lemma value_signed fuel neg l r d :
  starts_with_digit (l ++ r) = true → number neg (l ++ r) = Some (d, r) →
  value (S fuel) (sign_text neg ++ l ++ r) = Some (d, r).
Proof. intros Hl Hn. destruct neg; [exact Hn|]. cbn [sign_text app]. by rewrite value_digit. Qed.

Lemma udec_digit n r : 0 ≤ n → starts_with_digit (udec n ++ r) = true.
Proof. intros Hn. by destruct (udec_starts n r Hn) as (c & l & -> & Hc). Qed.

Lemma value_to_string fuel z r : ends r → value (S fuel) (to_string z ++ r) = Some (Number z 0, r).
Proof.
  intros Hr. unfold to_string. destruct (Z.ltb_spec z 0).
  - change ((45 :: udec (- z)) ++ r) with (sign_text true ++ udec (- z) ++ r).
    replace (Number z 0) with (Number (signed true (- z)) 0) by (unfold signed; f_equal; lia).
    apply value_signed; [apply udec_digit; lia|apply read_int_number; [lia|done]].
  - apply (value_signed fuel false); [by apply udec_digit|by apply (read_int_number false)].
Qed.

Lemma value_fmt_f4 `{NanSign} fuel x q r :
  fixed4_of x = Some q → ends r → value (S fuel) (fmt_f4 x ++ r) = Some (Number q (-4), r).
Proof.
  intros Hq Hr.
  assert (∀ s n, 0 ≤ n → value (S fuel) ((sign_text s ++ fixed4 n) ++ r) = Some (Number (signed s n) (-4), r)) as Hf.
  { intros s n Hn. rewrite <- app_assoc. apply value_signed; [|by apply read_fixed_number].
    unfold fixed4. rewrite <- app_assoc. apply udec_digit, Z.div_pos; lia. }
  destruct x as [s|s| |s m e]; try done; injection Hq as <-; unfold fmt_f4; rewrite Hf; try done.
  - by destruct s.
  - apply scaled_nonneg.
Qed.

Lemma value_string fuel l s r : chars l = Some (s, r) → value (S fuel) (34 :: l) = Some (String s, r).
Proof. intros Hl. cbn -[chars]. by rewrite Hl. Qed.

(** Numbers are plain, except for what is not finite. *)
Lemma to_string_plain z : plain (to_string z).
Proof.
  assert (∀ n, 0 ≤ n → plain (udec n)) as Hu.
  { intros n Hn. eapply Forall_impl; [by apply udec_digits|]. intros c [H1 H2]%andb_true_iff.
    apply Z.leb_le in H1, H2. apply plain_char_spec. lia. }
  unfold to_string. destruct (Z.ltb_spec z 0); [|by apply Hu].
  constructor; [done|]. apply Hu. lia.
Qed.
Lemma fmt_f4_plain `{NanSign} x : plain (fmt_f4 x).
Proof.
  assert (∀ s, plain (sign_text s)) as Hs by (intros []; by_decide).
  assert (∀ z, plain_char (48 + z mod 10) = true) as Hd.
  { intros z. apply plain_char_spec. pose proof (Z.mod_pos_bound z 10). lia. }
  assert (∀ q, 0 ≤ q → plain (fixed4 q)) as Hq.
  { intros q Hq. unfold fixed4, frac4. apply Forall_app. split.
    - replace (udec (q / 10000)) with (to_string (q / 10000)); [apply to_string_plain|].
      unfold to_string. destruct (Z.ltb_spec (q / 10000) 0); [|done]. pose proof (Z.div_pos q 10000). lia.
    - repeat constructor; try apply Hd. }
  destruct x as [s|s| |s m e]; unfold fmt_f4; apply Forall_app; (split; [apply Hs|]);
    [apply Hq; lia|by_decide|by_decide|apply Hq, scaled_nonneg].
Qed.

(** ** Members *)

(** A member with more behind it, and the last one. *)
Definition member (k t : list Z) : list Z := 34 :: k ++ [34; 58] ++ t.

Lemma members_more fuel k t d r :
  plain k → value fuel (t ++ 44 :: r) = Some (d, 44 :: r) →
  members (S fuel) (member k t ++ 44 :: r)
  = '(ms, l) ← members fuel r; Some ((k, d) :: ms, l).
Proof.
  intros Hk Hv. unfold member. cbn [app]. rewrite <- app_assoc. cbn [app].
  cbn -[value chars white expect]. change (white (34 :: ?l)) with (34 :: l).
  change (expect [34] (34 :: ?l)) with (Some l). cbn -[value chars white expect].
  rewrite (chars_plain k (58 :: t ++ 44 :: r) Hk). cbn -[value chars white expect].
  change (expect [58] (white (58 :: ?l))) with (Some l). cbn -[value chars white expect]. rewrite Hv.
  cbn -[value chars white expect]. change (expect [44] (white (44 :: r))) with (Some r). done.
Qed.
Lemma members_last fuel k t d r :
  plain k → value fuel (t ++ 125 :: r) = Some (d, 125 :: r) →
  members (S fuel) (member k t ++ 125 :: r) = Some ([(k, d)], r).
Proof.
  intros Hk Hv. unfold member. cbn [app]. rewrite <- app_assoc. cbn [app].
  cbn -[value chars white expect]. change (white (34 :: ?l)) with (34 :: l).
  change (expect [34] (34 :: ?l)) with (Some l). cbn -[value chars white expect].
  rewrite (chars_plain k (58 :: t ++ 125 :: r) Hk). cbn -[value chars white expect].
  change (expect [58] (white (58 :: ?l))) with (Some l). cbn -[value chars white expect]. rewrite Hv. done.
Qed.

(** [t] is a text of the value [d], and [m] one of the member [kd]. *)
Definition prints (t : list Z) (d : document) : Prop :=
  ∀ fuel r, ends r → value (S fuel) (t ++ r) = Some (d, r).
Definition prints_member (m : list Z) (kd : list Z * document) : Prop :=
  ∃ t, m = member kd.1 t ∧ plain kd.1 ∧ prints t kd.2.

Fixpoint with_commas (l : list (list Z)) (r : list Z) : list Z :=
  match l with [] => r | m :: l => m ++ 44 :: with_commas l r end.

Lemma members_with_commas fuel ms kds m kd r :
  Forall2 prints_member ms kds → prints_member m kd →
  members (length ms + S (S fuel)) (with_commas ms (m ++ 125 :: r)) = Some (kds ++ [kd], r).
Proof.
  intros Hms (t & -> & Hk & Ht). induction Hms as [|m' kd' ms kds (t' & -> & Hk' & Ht') _ IH]; cbn [with_commas length].
  - destruct kd as [k d]. apply members_last; [done|]. apply Ht. by right.
  - destruct kd' as [k' d']. cbn [fst snd] in *. rewrite <- plus_n_Sm in *. cbn [Nat.add] in *.
    rewrite (members_more _ k' t' d'); [|done|apply Ht'; by left]. by rewrite IH.
Qed.

(** An object with these members and nothing behind it. *)
Lemma read_object ms kds m kd :
  Forall2 prints_member ms kds → prints_member m kd → utf8 (with_commas ms (m ++ [125])) = true →
  read_document (123 :: with_commas ms (m ++ [125])) = Some (Object (kds ++ [kd])).
Proof.
  intros Hms Hm Hu. unfold read_document. change (utf8 (123 :: ?l)) with (utf8 l). rewrite Hu.
  set (len := length (123 :: with_commas ms (m ++ [125]))).
  assert (∃ n, 2 * len = S (length ms + S (S n)))%nat as [n Hn].
  { assert (length ms + 4 ≤ len)%nat; [|by exists (2 * len - length ms - 3)%nat; lia].
    destruct Hm as (t & -> & _). unfold len. clear. cbn [length]. rewrite Nat.add_succ_r. apply le_n_S.
    induction ms as [|m ms IH]; cbn [with_commas].
    - unfold member. cbn [length app]. rewrite !length_app. cbn. lia.
    - rewrite length_app. cbn [length]. lia. }
  rewrite Hn. pose proof (members_with_commas n ms kds m kd [] Hms Hm) as E.
  assert (∃ l, with_commas ms (m ++ [125]) = 34 :: l) as [l Hl].
  { destruct Hm as (t & -> & _). destruct Hms as [|? ? ? ? (? & -> & _)]; by eexists. }
  rewrite Hl in *. set (f := (length ms + S (S n))%nat) in *.
  change (value (S f) (123 :: 34 :: l)) with ('(ms, l) ← members f (34 :: l); Some (Object ms, l)).
  rewrite E. done.
Qed.

Lemma prints_to_string z : prints (to_string z) (Number z 0).
Proof. intros fuel r. apply value_to_string. Qed.
Lemma prints_fmt_f4 `{NanSign} x q : fixed4_of x = Some q → prints (fmt_f4 x) (Number q (-4)).
Proof. intros Hq fuel r. by apply value_fmt_f4. Qed.
End json_text.
