(* ===== verification/FailureSink.v ===== *)
(** * Log of failed saves ([src/server/db/failure_sink.{hpp,cpp}])

    A save that the database refused is kept as one line of JSON in a file, or on
    the standard error stream when the file cannot be written.  The lines are read
    back with [JsonText]. *)

From S2P Require Import Prelude Floats Text GameServer Sql JsonText.
Import update_sql(fixed4_of) json_text.

Module failure_sink.

Record PlayerSaveSnapshot := mkSnapshot
  { player_id : Z; snap_name : list Z; operation : list Z;
    snap_x : f32; snap_y : f32; snap_z : f32; snap_map_id : Z;
    snap_level : Z; snap_exp : Z; snap_hp : Z; snap_attempts : Z; error_msg : list Z }.

(** The lambda [esc]: a backslash before quotes and backslashes. *)
Fixpoint esc (src : list Z) : list Z :=
  match src with
  | [] => []
  | c :: src => if (c =? 34) || (c =? 92) then 92 :: c :: esc src else c :: esc src
  end.

(** The text before the name, between name and error, and after it. *)
Definition line_head (ts : list Z) (s : PlayerSaveSnapshot) : list Z :=
  quoted "{'ts':'" ++ c_str ts ++ quoted "','op':'" ++ c_str (operation s) ++
  quoted "','player_id':" ++ to_string (player_id s) ++ quoted ",'name':'".
Definition line_middle `{NanSign} (s : PlayerSaveSnapshot) : list Z :=
  quoted "','x':" ++ fmt_f4 (snap_x s) ++ quoted ",'y':" ++ fmt_f4 (snap_y s) ++
  quoted ",'z':" ++ fmt_f4 (snap_z s) ++ quoted ",'map_id':" ++ to_string (snap_map_id s) ++
  quoted ",'level':" ++ to_string (snap_level s) ++ quoted ",'exp':" ++ to_string (snap_exp s) ++
  quoted ",'hp':" ++ to_string (snap_hp s) ++ quoted ",'attempts':" ++ to_string (snap_attempts s) ++
  quoted ",'error':'".
Definition line_text `{NanSign} (ts : list Z) (s : PlayerSaveSnapshot) : list Z :=
  line_head ts s ++ c_str (esc (snap_name s)) ++ line_middle s ++ c_str (esc (error_msg s)) ++
  quoted "'}".

(** [char line[1024]] *)
Definition format_line `{NanSign} (ts : list Z) (s : PlayerSaveSnapshot) : list Z :=
  snprintf 1024 (line_text ts s).

(** The stream [file_] ([None]: not open) and what went to [stderr]. *)
Record sink := mkSink { file_ : option (list Z); stderr_ : list Z }.
#[global] Instance sink_eta : Settable sink := λ s, mkSink (file_ s) (stderr_ s).

(** The constructor, given the contents of the file if it could be opened. *)
Definition make_sink (opened : option (list Z)) : sink := mkSink opened [].

Definition write_to_stderr (line : list Z) (k : sink) : sink := k <| stderr_ ::= λ e, e ++ line ++ [10] |>.

(** [record] at time [ts]; [fail] is [Some n] when the stream failed after [n]
    bytes had reached the file. *)
Definition record `{NanSign} (ts : list Z) (fail : option nat) (s : PlayerSaveSnapshot) (k : sink)
    : sink :=
  let line := format_line ts s in
  match file_ k with
  | None => write_to_stderr line k
  | Some contents =>
      match fail with
      | None => k <| file_ := Some (contents ++ line ++ [10]) |>
      | Some n => write_to_stderr line (k <| file_ := Some (contents ++ take n (line ++ [10])) |>)
      end
  end.

(** ** Laws *)

(** Text a JSON string can hold as it is, but for quotes and backslashes. *)
Definition clean (l : list Z) : Prop := utf8 l = true ∧ Forall (λ c, 32 ≤ c) l.
#[global] Instance clean_dec l : Decision (clean l).
Proof. unfold clean. apply _. Defined.

Lemma chars_esc l r : Forall (λ c, 32 ≤ c) l → chars (esc l ++ 34 :: r) = Some (l, r).
Proof.
  induction 1 as [|c l Hc _ IH]; [done|]. cbn [esc].
  destruct (Z.eqb_spec c 34) as [->|]; [cbn -[chars] in *; cbn; by rewrite IH|].
  destruct (Z.eqb_spec c 92) as [->|]; [cbn; by rewrite IH|].
  cbn -[Z.eqb Z.ltb]. destruct (Z.eqb_spec c 34), (Z.eqb_spec c 92), (Z.ltb_spec c 32); try done; [lia|].
  by rewrite IH.
Qed.

(** A backslash stands between characters, never inside of one. *)
Lemma utf8_esc st l :
  Forall (λ r, 0x80 ≤ r.1) st → utf8_from st l = true → utf8_from st (esc l) = true.
Proof.
  revert st. induction l as [|c l IH]; intros st Hst; [done|]. cbn -[utf8_step Z.eqb].
  destruct (utf8_step st c) as [st'|] eqn:E; [|done]. intros Hl.
  specialize (IH st' (utf8_step_high _ _ _ Hst E) Hl).
  destruct ((c =? 34) || (c =? 92)) eqn:Ec; cbn -[utf8_step Z.eqb].
  - assert (0 ≤ c ≤ 0x7F) as Hc by (apply orb_true_iff in Ec; rewrite !Z.eqb_eq in Ec; lia).
    destruct (utf8_step_ascii _ _ _ Hst E Hc) as [-> ->]. change (utf8_step [] 92) with (Some ([] : list (Z * Z))). cbv iota. by rewrite E.
  - by rewrite E.
Qed.

Lemma esc_length s : zlen (esc s) ≤ 2 * zlen s.
Proof.
  induction s as [|c s IH]; [done|]. simpl. destruct (_ || _); autorewrite with zlen; lia.
Qed.

Lemma esc_no_nul s : 0 ∉ s → 0 ∉ esc s.
Proof.
  induction s as [|c s IH]; [done|]. intros [Hc Hs]%not_elem_of_cons. simpl.
  destruct (_ || _); rewrite !not_elem_of_cons; auto.
Qed.

(** Types of the numbers of a snapshot. *)
Definition snapshot_typed (s : PlayerSaveSnapshot) : Prop :=
  is_i64 (player_id s) ∧ is_i32 (snap_map_id s) ∧ is_i32 (snap_level s) ∧ is_i32 (snap_exp s) ∧
  is_i32 (snap_hp s) ∧ is_i32 (snap_attempts s) ∧
  is_f32 (snap_x s) ∧ is_f32 (snap_y s) ∧ is_f32 (snap_z s).
#[global] Instance snapshot_typed_dec s : Decision (snapshot_typed s).
Proof. unfold snapshot_typed. apply _. Defined.

Lemma line_fits `{NanSign} ts s :
  snapshot_typed s → zlen ts ≤ 31 → zlen (operation s) ≤ 31 → zlen (snap_name s) ≤ 64 →
  zlen (error_msg s) ≤ 200 → zlen (line_text ts s) < 1024.
Proof.
  intros (Hi & Hm & Hl & He & Hh & Ha & Hx & Hy & Hz) Hts Hop Hn Herr.
  pose proof (to_string_i64_length _ Hi). pose proof (to_string_i32_length _ Hm).
  pose proof (to_string_i32_length _ Hl). pose proof (to_string_i32_length _ He).
  pose proof (to_string_i32_length _ Hh). pose proof (to_string_i32_length _ Ha).
  pose proof (fmt_f4_length _ Hx). pose proof (fmt_f4_length _ Hy). pose proof (fmt_f4_length _ Hz).
  pose proof (c_str_length ts). pose proof (c_str_length (operation s)).
  pose proof (c_str_length (esc (snap_name s))). pose proof (c_str_length (esc (error_msg s))).
  pose proof (esc_length (snap_name s)). pose proof (esc_length (error_msg s)).
  unfold line_text, line_head, line_middle. rewrite !zlen_app.
  repeat match goal with |- context [zlen (quoted ?q)] =>
    let n := eval vm_compute in (zlen (quoted q)) in change (zlen (quoted q)) with n end.
  lia.
Qed.

(** A snapshot whose line can be read again: its positions are finite, its texts
    are UTF-8 without control characters, and they leave room for the rest. *)
Record recordable (ts : list Z) (s : PlayerSaveSnapshot) : Prop := mkRecordable
  { rc_typed : snapshot_typed s;
    rc_finite : is_finite (snap_x s) = true ∧ is_finite (snap_y s) = true ∧ is_finite (snap_z s) = true;
    rc_ts : plain ts ∧ zlen ts ≤ 31;
    rc_op : plain (operation s) ∧ zlen (operation s) ≤ 31;
    rc_name : clean (snap_name s) ∧ zlen (snap_name s) ≤ 64;
    rc_error : clean (error_msg s) ∧ zlen (error_msg s) ≤ 200 }.

(** What the line says. *)
Definition decimal (x : f32) : document := Number (default 0 (fixed4_of x)) (-4).
Definition document_of (ts : list Z) (s : PlayerSaveSnapshot) : document :=
  let key := bytes_of_string in
  Object [(key "ts", String ts); (key "op", String (operation s));
    (key "player_id", Number (player_id s) 0); (key "name", String (snap_name s));
    (key "x", decimal (snap_x s)); (key "y", decimal (snap_y s)); (key "z", decimal (snap_z s));
    (key "map_id", Number (snap_map_id s) 0); (key "level", Number (snap_level s) 0);
    (key "exp", Number (snap_exp s) 0); (key "hp", Number (snap_hp s) 0);
    (key "attempts", Number (snap_attempts s) 0); (key "error", String (error_msg s))].

Lemma clean_no_nul l : Forall (λ c, 32 ≤ c) l → c_str l = l.
Proof. intros Hl. apply c_str_no_nul. intros H0. apply (proj1 (Forall_forall _ _) Hl) in H0. lia. Qed.
Lemma plain_high l : plain l → Forall (λ c, 32 ≤ c) l.
Proof. intros Hl. eapply Forall_impl; [exact Hl|]. intros c Hc%plain_char_spec. lia. Qed.
Lemma esc_high l : Forall (λ c, 32 ≤ c) l → Forall (λ c, 32 ≤ c) (esc l).
Proof. induction 1 as [|c l Hc _ IH]; [constructor|]. cbn [esc]. case_match; repeat constructor; try done. Qed.
Lemma plain_clean l : plain l → clean l.
Proof. intros Hl. split; [by apply plain_utf8|by apply plain_high]. Qed.
Lemma clean_app a b : clean a → clean b → clean (a ++ b).
Proof. intros [? ?] [? ?]. split; [by apply utf8_app|by apply Forall_app]. Qed.
Lemma esc_clean l : clean l → clean (esc l).
Proof. intros [Hu Hl]. split; [by apply utf8_esc|by apply esc_high]. Qed.
Lemma fixed4_finite x : is_finite x = true → fixed4_of x = Some (default 0 (fixed4_of x)).
Proof. by destruct x. Qed.

(** The line, member by member. *)
Definition text_member (k : string) (t : list Z) : list Z :=
  member (bytes_of_string k) (34 :: t ++ [34]).
Definition line_members `{NanSign} (ts : list Z) (s : PlayerSaveSnapshot) : list (list Z) :=
  let key := bytes_of_string in
  [text_member "ts" ts; text_member "op" (operation s); member (key "player_id") (to_string (player_id s));
   text_member "name" (esc (snap_name s)); member (key "x") (fmt_f4 (snap_x s));
   member (key "y") (fmt_f4 (snap_y s)); member (key "z") (fmt_f4 (snap_z s));
   member (key "map_id") (to_string (snap_map_id s)); member (key "level") (to_string (snap_level s));
   member (key "exp") (to_string (snap_exp s)); member (key "hp") (to_string (snap_hp s));
   member (key "attempts") (to_string (snap_attempts s))].

Lemma line_as_members `{NanSign} ts s :
  recordable ts s →
  line_text ts s = 123 :: with_commas (line_members ts s) (text_member "error" (esc (error_msg s)) ++ [125]).
Proof.
  intros [_ _ [Hts _] [Hop _] [[_ Hn] _] [[_ He] _]].
  unfold line_text, line_head, line_middle, line_members, text_member.
  rewrite (clean_no_nul ts), (clean_no_nul (operation s)), !clean_no_nul by auto using esc_high, plain_high.
  unfold member. cbn [with_commas app]. rewrite <- !app_assoc.
  repeat (cbn; rewrite <- ?app_assoc). reflexivity.
Qed.

Lemma prints_text t s : (∀ r, chars (t ++ 34 :: r) = Some (s, r)) → prints (34 :: t ++ [34]) (String s).
Proof. intros Ht fuel r _. cbn [app]. rewrite <- app_assoc. apply value_string, Ht. Qed.

Lemma with_commas_clean ms r : Forall clean ms → clean r → clean (with_commas ms r).
Proof.
  intros Hms Hr. induction Hms as [|m ms Hm _ IH]; [done|]. cbn [with_commas].
  apply clean_app; [done|]. apply (clean_app [44]); [by_decide|done].
Qed.
Lemma member_clean k t : plain k → clean t → clean (member k t).
Proof.
  intros Hk Ht. unfold member. apply (clean_app [34]); [by_decide|]. apply clean_app; [by apply plain_clean|].
  by apply (clean_app [34; 58]); [by_decide|].
Qed.
Lemma text_member_clean k t : plain (bytes_of_string k) → clean t → clean (text_member k t).
Proof.
  intros Hk Ht. apply member_clean; [done|]. apply (clean_app [34]); [by_decide|].
  apply clean_app; [done|by_decide].
Qed.

Lemma line_clean `{NanSign} ts s : recordable ts s → clean (line_text ts s).
Proof.
  intros Hr. rewrite line_as_members by done. destruct Hr as [_ _ [Hts _] [Hop _] [Hn _] [He _]].
  apply (clean_app [123]); [by_decide|]. apply with_commas_clean.
  - unfold line_members. repeat (apply Forall_cons; split);
      first [by apply Forall_nil | apply text_member_clean | apply member_clean];
      auto using plain_clean, esc_clean, to_string_plain, fmt_f4_plain; by_decide.
  - apply clean_app; [|by_decide]. apply text_member_clean; [by_decide|by apply esc_clean].
Qed.

Lemma line_read `{NanSign} ts s : recordable ts s → read_document (line_text ts s) = Some (document_of ts s).
Proof.
  intros Hr. destruct (line_clean ts s Hr) as [Hu _]. rewrite line_as_members in * by done.
  unfold document_of. set (key := bytes_of_string).
  destruct Hr as [_ (Hx & Hy & Hz) [Hts _] [Hop _] [[_ Hn] _] [[_ He] _]].
  assert (∀ k t d, plain (key k) → prints t d → prints_member (member (key k) t) (key k, d)) as Hm.
  { intros k t d Hk Ht. by exists t. }
  refine (read_object _ [_; _; _; _; _; _; _; _; _; _; _; _] _ (_, _) _ _ _).
  - unfold line_members. repeat (apply Forall2_cons; split); try apply Forall2_nil_2; (apply Hm; [by_decide|]);
      first [apply prints_to_string | by apply prints_fmt_f4, fixed4_finite
            | apply prints_text; intros r; auto using chars_plain, chars_esc].
  - apply Hm; [by_decide|]. apply prints_text. auto using chars_esc.
  - exact Hu.
Qed.

(** ** Whole files *)

(** The lines of a file or stream. *)
Fixpoint lines (l : list Z) : list (list Z) :=
  match l with
  | [] => []
  | c :: l =>
      if c =? 10 then [] :: lines l
      else match lines l with [] => [[c]] | x :: xs => (c :: x) :: xs end
  end.

Lemma lines_cons a l : Forall (λ c, 32 ≤ c) a → lines (a ++ 10 :: l) = a :: lines l.
Proof.
  induction 1 as [|c a Hc _ IH]; [done|]. cbn -[Z.eqb]. rewrite IH. by destruct (Z.eqb_spec c 10); [lia|].
Qed.

(** Failed saves, one after another: the time, how the stream fared, the snapshot. *)
Definition attempt : Type := list Z * option nat * PlayerSaveSnapshot.
Definition record_all `{NanSign} (l : list attempt) (k : sink) : sink :=
  foldl (λ k '(ts, fail, s), record ts fail s k) k l.
Definition documents (l : list attempt) : list document := (λ '(ts, _, s), document_of ts s) <$> l.
(** The ones the file did not take. *)
Definition refused_by (file : option (list Z)) (l : list attempt) : list attempt :=
  match file with
  | None => l
  | Some _ => filter (λ a, a.1.2 ≠ None) l
  end.

Definition log_of `{NanSign} (l : list attempt) : list Z :=
  l ≫= λ '(ts, _, s), format_line ts s ++ [10].

(** The stream that got the lines has one readable document per line. *)
Lemma log_read `{NanSign} l :
  Forall (λ '(ts, _, s), recordable ts s) l → mapM read_document (lines (log_of l)) = Some (documents l).
Proof.
  induction 1 as [|[[ts fail] s] l Hs _ IH]; [done|]. unfold log_of in *. cbn [mbind list_bind].
  assert (format_line ts s = line_text ts s) as ->.
  { destruct Hs as [? ? [? ?] [? ?] [? ?] [? ?]]. apply snprintf_fits. by apply line_fits. }
  rewrite <- app_assoc. cbn [app]. rewrite lines_cons by apply line_clean, Hs.
  cbn [mapM]. rewrite line_read by done. cbn. by rewrite IH.
Qed.

(** Everything the file refuses goes to the standard error stream. *)
Lemma record_closed `{NanSign} l e : record_all l (mkSink None e) = mkSink None (e ++ log_of l).
Proof.
  revert e. induction l as [|[[ts fail] s] l IH]; intros e; [by rewrite app_nil_r|].
  change (record_all ((ts, fail, s) :: l) (mkSink None e))
    with (record_all l (mkSink None (e ++ format_line ts s ++ [10]))).
  change (log_of ((ts, fail, s) :: l)) with ((format_line ts s ++ [10]) ++ log_of l).
  by rewrite IH, <- !app_assoc.
Qed.
Lemma record_open_stderr `{NanSign} l old e :
  stderr_ (record_all l (mkSink (Some old) e)) = e ++ log_of (refused_by (Some old) l).
Proof.
  revert old e. induction l as [|[[ts fail] s] l IH]; intros old e; [by rewrite app_nil_r|].
  unfold refused_by in *. rewrite filter_cons. cbn [fst snd]. destruct fail as [n|].
  - change (record_all ((ts, Some n, s) :: l) (mkSink (Some old) e)) with
      (record_all l (mkSink (Some (old ++ take n (format_line ts s ++ [10]))) (e ++ format_line ts s ++ [10]))).
    rewrite decide_True by done. change (log_of ((ts, Some n, s) :: ?l)) with ((format_line ts s ++ [10]) ++ log_of l).
    by rewrite IH, <- !app_assoc.
  - rewrite decide_False by (intros Hn; by apply Hn). apply IH.
Qed.
Lemma record_open_file `{NanSign} l old e :
  Forall (λ a, a.1.2 = None) l → file_ (record_all l (mkSink (Some old) e)) = Some (old ++ log_of l).
Proof.
  intros Hl. revert old e. induction Hl as [|[[ts fail] s] l Hf _ IH]; intros old e; [by rewrite app_nil_r|].
  cbn [fst snd] in Hf. subst. change (record_all ((ts, None, s) :: l) (mkSink (Some old) e))
    with (record_all l (mkSink (Some (old ++ format_line ts s ++ [10])) e)).
  change (log_of ((ts, None, s) :: l)) with ((format_line ts s ++ [10]) ++ log_of l).
  by rewrite IH, <- !app_assoc.
Qed.


(** ** Lines nobody can read *)

Definition named (name : list Z) (x : f32) : PlayerSaveSnapshot :=
  mkSnapshot 1 name (bytes_of_string "save_stats") x f0 f0 1 1 0 100 3 [].
Definition lines_after (s : PlayerSaveSnapshot) : list (list Z) :=
  lines (default [] (file_ (record (H := false) [] None s (make_sink (Some []))))).

(** Control characters are not escaped: a line feed in a name ends the record
    early, and neither half is a document. *)
Example newline_splits_record :
  read_document <$> lines_after (named [65; 10; 66] f0) = [None; None].
Proof. vm_compute. reflexivity. Qed.
(** So is a position that is not a number, and a name that does not fit. *)
Example nan_unreadable : read_document <$> lines_after (named [65] S754_nan) = [None].
Proof. vm_compute. reflexivity. Qed.
Example long_name_unreadable : read_document <$> lines_after (named (replicate 900 65) f0) = [None].
Proof. vm_compute. reflexivity. Qed.

(** ** Witness *)

Definition sample_snapshot : PlayerSaveSnapshot :=
  mkSnapshot 7 [34; 92; 65] (bytes_of_string "save_position") f20 f0_1 fm1000 1 1 0 100 3
    (bytes_of_string "db_write_failed").
Definition sample_attempts : list attempt :=
  let ts := bytes_of_string "2026-01-01T00:00:00Z" in
  [(ts, None, sample_snapshot); (ts, None, named [0xED; 0x95; 0x9C] f0)].

End failure_sink.
