(* ===== verification/RedisClient.v ===== *)
(** * Redis client ([src/server/db/redis_client.{hpp,cpp}])

    Session tokens and the player cache.  The hiredis library is a parameter: the
    class [HiRedis] lists the calls the client makes, on a state [R] of the
    library and the server.  [redisCommand] takes the words of the command; a
    [%s] contributes one word, up to the first NUL. *)

From S2P Require Import Prelude Floats Text.

Inductive reply :=
| ReplyString (s : list Z) | ReplyStatus (s : list Z) | ReplyInteger (z : Z) | ReplyNil
| ReplyError (s : list Z).

Class HiRedis (R : Type) := {
  redisConnectWithTimeout : list Z → Z → Z → Z → R → option Z * R;
  redis_err : Z → R → Z;
  redisCommand : Z → list (list Z) → R → option reply * R;
  redisFree : Z → R → R }.

Module redis_client.

Record Config := mkConfig
  { host : list Z; port : Z; password : list Z; db_index : Z; timeout_ms : Z }.
Definition Config_default : Config := mkConfig (bytes_of_string "127.0.0.1") 6379 [] 0 1000.

(** The members [cfg_] and [ctx_], and the world. *)
Record state (R : Type) := mkState { cfg_ : Config; ctx_ : option Z; world : R }.
#[global] Arguments mkState {R} _ _ _.
#[global] Arguments cfg_ {R} _.
#[global] Arguments ctx_ {R} _.
#[global] Arguments world {R} _.
#[global] Instance state_eta R : Settable (state R) := λ s, mkState (cfg_ s) (ctx_ s) (world s).

Definition S_ (R A : Type) : Type := state R → A * state R.
#[global] Instance S_ret R : MRet (S_ R) := λ A a s, (a, s).
#[global] Instance S_bind R : MBind (S_ R) := λ A B f m s, let '(a, s') := m s in f a s'.

Definition word (s : string) : list Z := bytes_of_string s.

Section client.
Context {R : Type} `{HiRedis R}.

Definition lift {A} (f : R → A * R) : S_ R A := λ s,
  let '(a, r) := f (world s) in (a, s <| world := r |>).
Definition ask {A} (f : state R → A) : S_ R A := λ s, (f s, s).
Definition set_ctx (c : option Z) : S_ R unit := λ s, (tt, s <| ctx_ := c |>).

(** [if (ctx_) { redisFree(ctx_); ctx_ = nullptr; }] *)
Definition drop_ctx : S_ R unit := λ s,
  match ctx_ s with
  | Some c => (tt, s <| world ::= redisFree c |> <| ctx_ := None |>)
  | None => (tt, s)
  end.

(** [r && r->type != REDIS_REPLY_ERROR] *)
Definition reply_ok (r : option reply) : bool :=
  match r with Some (ReplyError _) | None => false | Some _ => true end.

(** A command of the handshake: on failure the context is freed. *)
Definition handshake (needed : bool) (args : list (list Z)) (c : Z) (k : S_ R bool) : S_ R bool :=
  if needed then
    r ← lift (redisCommand c args);
    if reply_ok r then k else drop_ctx ;; mret false
  else k.

(** The body of [connect], which [reconnect_if_needed] repeats. *)
Definition connect : S_ R bool :=
  cfg ← ask cfg_;
  c ← lift (redisConnectWithTimeout (c_str (host cfg)) (port cfg)
              (Z.quot (timeout_ms cfg) 1000) (Z.rem (timeout_ms cfg) 1000 * 1000));
  set_ctx c ;;
  match c with
  | None => mret false
  | Some c =>
      e ← ask (λ s, redis_err c (world s));
      if negb (e =? 0) then drop_ctx ;; mret false else
      handshake (negb (bool_decide (password cfg = []))) [word "AUTH"; c_str (password cfg)] c (
      handshake (negb (db_index cfg =? 0)) [word "SELECT"; to_string (db_index cfg)] c (
      mret true))
  end.

Definition disconnect : S_ R unit := drop_ctx.

Definition is_connected : S_ R bool := ask (λ s,
  match ctx_ s with Some c => redis_err c (world s) =? 0 | None => false end).

Definition reconnect_if_needed : S_ R bool :=
  ok ← is_connected;
  if ok : bool then mret true else drop_ctx ;; connect.

(** A command on the current context, which is there after a reconnect. *)
Definition command (args : list (list Z)) : S_ R (option reply) :=
  c ← ask ctx_;
  match c with Some c => lift (redisCommand c args) | None => mret None end.

Definition exec_set (key value : list Z) (ttl_sec : Z) : S_ R bool :=
  ok ← reconnect_if_needed;
  if negb ok then mret false else
  r ← command [word "SET"; c_str key; c_str value; word "EX"; to_string ttl_sec];
  mret (reply_ok r).

Definition exec_get (key : list Z) : S_ R (option (list Z)) :=
  ok ← reconnect_if_needed;
  if negb ok then mret None else
  r ← command [word "GET"; c_str key];
  mret (match r with Some (ReplyString s) => Some s | _ => None end).

Definition exec_del (key : list Z) : S_ R bool :=
  ok ← reconnect_if_needed;
  if negb ok then mret false else
  r ← command [word "DEL"; c_str key];
  mret (bool_decide (is_Some r)).

Definition token_key (token : list Z) : list Z := word "token:" ++ token.
Definition player_key (player_id : Z) : list Z := word "player:" ++ to_string player_id ++ word ":data".

Definition set_token (token : list Z) (player_id ttl_sec : Z) : S_ R bool :=
  exec_set (token_key token) (to_string player_id) ttl_sec.
Definition get_player_id_by_token (token : list Z) : S_ R (option Z) :=
  val ← exec_get (token_key token);
  mret (v ← val; stoll v).
Definition del_token (token : list Z) : S_ R bool := exec_del (token_key token).

Definition set_player_cache (player_id : Z) (json_data : list Z) (ttl_sec : Z) : S_ R bool :=
  exec_set (player_key player_id) json_data ttl_sec.
Definition get_player_cache (player_id : Z) : S_ R (option (list Z)) := exec_get (player_key player_id).
Definition del_player_cache (player_id : Z) : S_ R bool := exec_del (player_key player_id).

End client.

(** ** Keys *)

Lemma token_key_cut token rest : 0 ∉ token → c_str (token_key (token ++ 0 :: rest)) = token_key token.
Proof.
  intros Ht. unfold token_key. rewrite app_assoc. apply c_str_cut.
  apply not_elem_of_app. split; [|done]. by_decide.
Qed.

Lemma token_key_whole token : 0 ∉ token → c_str (token_key token) = token_key token.
Proof. intros Ht. apply c_str_no_nul, not_elem_of_app. split; [by_decide|done]. Qed.

Lemma player_key_whole id : c_str (player_key id) = player_key id.
Proof.
  apply c_str_no_nul. unfold player_key. rewrite !not_elem_of_app.
  split; [by_decide|]. split; [apply to_string_no_nul|by_decide].
Qed.

Lemma player_key_inj i j : is_i64 i → is_i64 j → player_key i = player_key j → i = j.
Proof.
  intros Hi Hj E. unfold player_key in E. apply app_inv_head, app_inv_tail in E.
  by apply to_string_inj.
Qed.

(** Tokens and player data never share a key. *)
Lemma keys_disjoint token id : token_key token ≠ player_key id.
Proof. unfold token_key, player_key. done. Qed.

(** For every server: the token of a login is looked up only up to
    its first NUL byte, so [token\0anything] passes for [token]. *)
Theorem token_cut_at_nul {R} `{HiRedis R} (token rest : list Z) (s : state R) :
  0 ∉ token →
  get_player_id_by_token (token ++ 0 :: rest) s = get_player_id_by_token token s.
Proof.
  intros Ht. unfold get_player_id_by_token, exec_get.
  by rewrite token_key_cut, token_key_whole by done.
Qed.

(** ** The context is owned *)

Section owned.
Context {R : Type} `{HiRedis R}.
(** The contexts that were allocated and not freed. *)
Context (allocated : R → gset Z).

(** What the library documents about them: a context returned is a new one, a
    command neither makes nor frees one. *)
Record allocation : Prop := mkAllocation
  { a_connect h p s u r : match redisConnectWithTimeout h p s u r with
      | (Some c, r') => (c ∉ allocated r) ∧ allocated r' = {[c]} ∪ allocated r
      | (None, r') => allocated r' = allocated r
      end;
    a_command c args r : allocated (redisCommand c args r).2 = allocated r;
    a_free c r : allocated (redisFree c r) = allocated r ∖ {[c]} }.
Context (alloc : allocation).

(** The client's context is the only one allocated. *)
Definition owned (s : state R) : Prop :=
  allocated (world s) = match ctx_ s with Some c => {[c]} | None => ∅ end.

Definition keeps_owned {A} (m : S_ R A) : Prop := ∀ s, owned s → owned (m s).2.

Lemma owned_bind {A B} (m : S_ R A) (f : A → S_ R B) :
  keeps_owned m → (∀ a, keeps_owned (f a)) → keeps_owned (m ≫= f).
Proof.
  intros Hm Hf s Hs. unfold mbind, S_bind. specialize (Hm s Hs).
  destruct (m s) as [a s']. by apply Hf.
Qed.
Lemma owned_ret {A} (a : A) : keeps_owned (mret a).
Proof. by intros s. Qed.
Lemma owned_ask {A} (f : state R → A) : keeps_owned (ask f).
Proof. by intros s. Qed.
Lemma owned_command_on c args : keeps_owned (lift (redisCommand c args)).
Proof.
  intros s Hs. unfold lift, owned in *. pose proof (a_command alloc c args (world s)) as Ha.
  destruct (redisCommand c args (world s)). simpl in *. by rewrite Ha.
Qed.

Lemma drop_ctx_spec s : owned s → owned (drop_ctx s).2 ∧ ctx_ (drop_ctx s).2 = None.
Proof.
  unfold owned, drop_ctx. destruct (ctx_ s) eqn:E; simpl; [|by rewrite E].
  rewrite (a_free alloc). intros ->. split; [set_solver|done].
Qed.
Lemma owned_drop : keeps_owned drop_ctx.
Proof. intros s Hs. by apply drop_ctx_spec. Qed.

Lemma owned_handshake needed args c k :
  keeps_owned k → keeps_owned (handshake needed args c k).
Proof.
  intros Hk. unfold handshake. destruct needed; [|done].
  apply owned_bind; [apply owned_command_on|intros r]. destruct (reply_ok r); [done|].
  apply owned_bind; [apply owned_drop|intros _; apply owned_ret].
Qed.

(** [connect] on a client without a context. *)
Lemma owned_connect s : owned s → ctx_ s = None → owned (connect s).2.
Proof.
  intros Hs Hn. unfold connect. unfold mbind at 1, S_bind at 1, ask at 1.
  unfold mbind at 1, S_bind at 1, lift at 1.
  match goal with |- context [redisConnectWithTimeout ?h ?p ?a ?b ?r] =>
    pose proof (a_connect alloc h p a b r) as Ha;
    destruct (redisConnectWithTimeout h p a b r) as [[c|] r'] end.
  2:{ unfold owned in *. simpl. by rewrite Ha, Hs, Hn. }
  destruct Ha as [_ Ha]. unfold mbind at 1, S_bind at 1, set_ctx.
  match goal with |- owned (?m ?st).2 => set (body := m); set (s1 := st) end.
  assert (Hs1 : owned s1).
  { unfold owned, s1 in *. simpl. rewrite Ha, Hs, Hn. set_solver. }
  enough (keeps_owned body) as Hb by by apply Hb.
  apply owned_bind; [apply owned_ask|intros e]. destruct (negb (e =? 0)).
  { apply owned_bind; [apply owned_drop|intros _; apply owned_ret]. }
  do 2 apply owned_handshake. apply owned_ret.
Qed.

Lemma owned_reconnect : keeps_owned reconnect_if_needed.
Proof.
  apply owned_bind; [apply owned_ask|intros []]; [apply owned_ret|].
  intros s Hs. unfold mbind, S_bind. destruct (drop_ctx_spec s Hs) as [Ho Hc].
  destruct (drop_ctx s) as [[] s']. by apply owned_connect.
Qed.

Lemma owned_command args : keeps_owned (command args).
Proof.
  apply owned_bind; [apply owned_ask|intros [c|]]; [apply owned_command_on|apply owned_ret].
Qed.

(** What the server does with a client. *)
Inductive op :=
| SetToken (token : list Z) (id ttl : Z) | GetToken (token : list Z) | DelToken (token : list Z)
| SetCache (id : Z) (json : list Z) (ttl : Z) | GetCache (id : Z) | DelCache (id : Z)
| Disconnect.

Definition run_op (o : op) : S_ R unit :=
  match o with
  | SetToken t id ttl => set_token t id ttl ;; mret tt
  | GetToken t => get_player_id_by_token t ;; mret tt
  | DelToken t => del_token t ;; mret tt
  | SetCache id j ttl => set_player_cache id j ttl ;; mret tt
  | GetCache id => get_player_cache id ;; mret tt
  | DelCache id => del_player_cache id ;; mret tt
  | Disconnect => disconnect
  end.
Fixpoint run_ops (os : list op) : S_ R unit :=
  match os with [] => mret tt | o :: os => run_op o ;; run_ops os end.

Lemma owned_exec {A} args (k : option reply → S_ R A) (no : S_ R A) :
  (∀ r, keeps_owned (k r)) → keeps_owned no →
  keeps_owned (ok ← reconnect_if_needed; if negb ok then no else r ← command args; k r).
Proof.
  intros Hk Hno. apply owned_bind; [apply owned_reconnect|intros []]; [|done].
  apply owned_bind; [apply owned_command|done].
Qed.

Lemma owned_op o : keeps_owned (run_op o).
Proof.
  unfold run_op, set_token, get_player_id_by_token, del_token, set_player_cache, get_player_cache,
    del_player_cache, exec_set, exec_get, exec_del.
  assert (Hret : ∀ A (a : A), keeps_owned (mret a)) by (intros; apply owned_ret).
  destruct o; try apply owned_drop; repeat (apply owned_exec || apply owned_bind || intros ?); auto.
Qed.

(** After [connect] and any sequence of operations, with any
    failures and reconnects in between, the context the client holds is the only
    one allocated: none is leaked, and the client never keeps a freed one. *)
Theorem redis_context_owned cfg r os :
  allocated r = ∅ → owned (run_ops os (connect (mkState cfg None r)).2).2.
Proof.
  intros Hr. assert (Ho : owned (connect (mkState cfg None r)).2)
    by by apply owned_connect.
  revert Ho. generalize (connect (mkState cfg None r)).2 as s.
  induction os as [|o os IH]; intros s Ho; [done|].
  enough (keeps_owned (run_ops (o :: os))) as Hk by by apply Hk.
  simpl. apply owned_bind; [apply owned_op|intros _ s' Hs']. by apply IH.
Qed.
End owned.

(** ** Tokens on a server that works *)

Section serving.
Context {R : Type} `{HiRedis R}.
(** A healthy connection, and what the server stores at the moment. *)
Context (up : Z → R → Prop) (store : R → gmap (list Z) (list Z)).

Record serving : Prop := mkServing
  { s_err c r : up c r → redis_err c r = 0;
    s_set c k v t r : up c r → 0 < t → ∃ m r',
      redisCommand c [word "SET"; k; v; word "EX"; to_string t] r = (Some (ReplyStatus m), r') ∧
      up c r' ∧ store r' = <[k := v]> (store r);
    s_get c k r : up c r → ∃ r',
      redisCommand c [word "GET"; k] r
        = (Some (match store r !! k with Some v => ReplyString v | None => ReplyNil end), r') ∧
      up c r' ∧ store r' = store r;
    s_del c k r : up c r → ∃ n r',
      redisCommand c [word "DEL"; k] r = (Some (ReplyInteger n), r') ∧
      up c r' ∧ store r' = delete k (store r) }.
Context (srv : serving).

Definition connected (s : state R) : Prop := ∃ c, ctx_ s = Some c ∧ up c (world s).

Lemma exec_connected {A} (no : S_ R A) (k : S_ R A) s :
  connected s → (ok ← reconnect_if_needed; if negb ok then no else k) s = k s.
Proof.
  intros (c & Hc & Hu). unfold reconnect_if_needed, is_connected, ask, mbind, S_bind.
  by rewrite Hc, (s_err srv _ _ Hu).
Qed.

Lemma command_connected args s c rep r' :
  ctx_ s = Some c → redisCommand c args (world s) = (rep, r') →
  command args s = (rep, s <| world := r' |>).
Proof.
  intros Hc Hr. unfold command, ask, mbind, S_bind, lift. by rewrite Hc, Hr.
Qed.

Lemma exec_set_works key value ttl s :
  connected s → 0 < ttl →
  ∃ s', exec_set key value ttl s = (true, s') ∧ connected s' ∧
    store (world s') = <[c_str key := c_str value]> (store (world s)).
Proof.
  intros Hs Ht. unfold exec_set. rewrite exec_connected by done. destruct Hs as (c & Hc & Hu).
  destruct (s_set srv c (c_str key) (c_str value) ttl (world s) Hu Ht) as (m & r' & E & Hu' & St).
  unfold mbind, S_bind. rewrite (command_connected _ _ _ _ _ Hc E). eexists.
  split; [reflexivity|]. split; [by exists c|done].
Qed.

Lemma exec_get_works key s :
  connected s → ∃ s', exec_get key s = (store (world s) !! c_str key, s') ∧ connected s' ∧
    store (world s') = store (world s).
Proof.
  intros Hs. unfold exec_get. rewrite exec_connected by done. destruct Hs as (c & Hc & Hu).
  destruct (s_get srv c (c_str key) (world s) Hu) as (r' & E & Hu' & St).
  unfold mbind, S_bind. rewrite (command_connected _ _ _ _ _ Hc E).
  destruct (store (world s) !! c_str key);
    (eexists; split; [reflexivity|]; split; [by exists c|done]).
Qed.

Lemma exec_del_works key s :
  connected s → ∃ s', exec_del key s = (true, s') ∧ connected s' ∧
    store (world s') = delete (c_str key) (store (world s)).
Proof.
  intros Hs. unfold exec_del. rewrite exec_connected by done. destruct Hs as (c & Hc & Hu).
  destruct (s_del srv c (c_str key) (world s) Hu) as (n & r' & E & Hu' & St).
  unfold mbind, S_bind. rewrite (command_connected _ _ _ _ _ Hc E). eexists.
  split; [reflexivity|]. split; [by exists c|done].
Qed.

(** The id a token stands for, as stored. *)
Definition token_owner (s : state R) (token : list Z) : option Z :=
  v ← store (world s) !! token_key token; stoll v.

Lemma get_token_works token s :
  connected s → 0 ∉ token → (get_player_id_by_token token s).1 = token_owner s token.
Proof.
  intros Hs Ht. unfold get_player_id_by_token, mbind, S_bind.
  destruct (exec_get_works (token_key token) s Hs) as (s' & -> & _).
  by rewrite token_key_whole.
Qed.

(** A token stored for a player id is found again with exactly
    that id (every 64-bit id survives the way through text), no other token is
    affected, and after it was deleted it is not found any more. *)
Theorem token_roundtrip token id ttl s :
  connected s → 0 ∉ token → is_i64 id → 0 < ttl →
  ∃ s1 s2, set_token token id ttl s = (true, s1) ∧ del_token token s1 = (true, s2) ∧
    (get_player_id_by_token token s1).1 = Some id ∧
    (get_player_id_by_token token s2).1 = None ∧
    ∀ other, 0 ∉ other → other ≠ token →
      (get_player_id_by_token other s1).1 = (get_player_id_by_token other s).1 ∧
      (get_player_id_by_token other s2).1 = (get_player_id_by_token other s).1.
Proof.
  intros Hs Ht Hid Httl.
  destruct (exec_set_works (token_key token) (to_string id) ttl s Hs Httl) as (s1 & E1 & C1 & S1).
  destruct (exec_del_works (token_key token) s1 C1) as (s2 & E2 & C2 & S2).
  rewrite token_key_whole in S1, S2 by done.
  rewrite (c_str_no_nul (to_string id)) in S1 by apply to_string_no_nul.
  exists s1, s2. split; [done|]. split; [done|]. rewrite !get_token_works by done.
  unfold token_owner. rewrite S2, S1, lookup_insert_eq, lookup_delete_eq. simpl.
  split; [by apply stoll_to_string|]. split; [done|]. intros other Ho Hne.
  rewrite !get_token_works by done. unfold token_owner. rewrite S2, S1.
  assert (token_key token ≠ token_key other) by (intros E%(inj _); congruence).
  by rewrite lookup_delete_ne, lookup_insert_ne by done.
Qed.
End serving.

(** ** A server in memory *)

Record mem := mkMem { mem_next : Z; mem_live : gset Z; mem_store : gmap (list Z) (list Z) }.
#[global] Instance mem_eta : Settable mem := λ m, mkMem (mem_next m) (mem_live m) (mem_store m).

Definition mem_command (args : list (list Z)) (m : mem) : option reply * mem :=
  match args with
  | [w; k; v; _; _] =>
      if bool_decide (w = word "SET")
      then (Some (ReplyStatus (word "OK")), m <| mem_store ::= <[k := v]> |>)
      else (Some (ReplyError []), m)
  | [w; k] =>
      if bool_decide (w = word "GET")
      then (Some (match mem_store m !! k with Some v => ReplyString v | None => ReplyNil end), m)
      else if bool_decide (w = word "DEL")
      then (Some (ReplyInteger 1), m <| mem_store ::= delete k |>)
      else (Some (ReplyStatus (word "OK")), m)
  | _ => (Some (ReplyError []), m)
  end.

#[global] Instance mem_redis : HiRedis mem := {|
  redisConnectWithTimeout _ _ _ _ m :=
    let c := fresh (mem_live m) in (Some c, m <| mem_live ::= ({[c]} ∪.) |>);
  redis_err _ _ := 0;
  redisCommand _ args m := mem_command args m;
  redisFree c m := m <| mem_live ::= (.∖ {[c]}) |> |}.

Lemma mem_serving : serving (λ _ _, True) mem_store.
Proof.
  split; simpl.
  - done.
  - intros c k v t r _ _. eexists _, _. split; [reflexivity|]. done.
  - intros c k r _. eexists. split; [reflexivity|]. done.
  - intros c k r _. eexists _, _. split; [reflexivity|]. done.
Qed.

Lemma mem_allocation : allocation mem_live.
Proof.
  split; simpl.
  - intros _ _ _ _ r. split; [apply is_fresh|done].
  - intros _ args r. unfold mem_command. repeat case_match; done.
  - done.
Qed.

Definition mem_client : state mem := mkState Config_default (Some 1) (mkMem 2 {[1]} ∅).
Definition tok : list Z := word "abc".

Lemma token_cut_at_nul_witness :
  get_player_id_by_token (tok ++ 0 :: word "junk") mem_client = get_player_id_by_token tok mem_client.
Proof. apply (token_cut_at_nul tok (word "junk") mem_client). by_decide. Defined.

Lemma redis_context_owned_witness :
  owned mem_live (run_ops [SetToken tok 7 60; Disconnect; GetToken tok]
    (connect (mkState Config_default None (mkMem 1 ∅ ∅))).2).2.
Proof. apply (redis_context_owned mem_live mem_allocation). reflexivity. Defined.

Lemma token_roundtrip_witness : ∃ s1,
  set_token tok (- 2 ^ 63) 60 mem_client = (true, s1) ∧
  (get_player_id_by_token tok s1).1 = Some (- 2 ^ 63).
Proof.
  destruct (token_roundtrip _ _ mem_serving tok (- 2 ^ 63) 60 mem_client) as (s1 & s2 & H1 & _ & H3 & _);
    [by exists 1|by_decide|by_decide|done|by exists s1].
Defined.
End redis_client.
