(* ===== verification/DbJobs.v ===== *)
(** * The jobs of the database threads ([game_server.cpp], [player_handlers.cpp])

    What the server posts to a player's strand, run on the data access, the
    failure log and Redis: the login, the save at the end of a session and the
    periodic flush.  This closes the circle of [GameServer]: the jobs recorded in
    [posted_] are the ones run here, and the outcome of a login job is the event
    [LoginDone]. *)

From S2P Require Import Prelude FrameCodec Channel Floats Text Components Ecs Systems Threads.
From S2P Require Import ProtocolBase ProtocolPlayer GameServer GameServerLaws GameServerProgress GameServerHandlers.
From S2P Require Import ServerConfig DbConnection MemDb DbPoolLaws PlayerDao PlayerDaoLaws.
From S2P Require Import FailureSink RedisClient.
Import game_server.
Import failure_sink(sink, file_, stderr_, record, format_line, mkSnapshot, PlayerSaveSnapshot, mkSink, make_sink).

Module db_jobs.

Record backend (W R : Type) := mkBackend
  { bk_db : db.state W; bk_sink : sink; bk_redis : option (redis_client.state R) }.
#[global] Arguments mkBackend {W R} _ _ _.
#[global] Arguments bk_db {W R} _.
#[global] Arguments bk_sink {W R} _.
#[global] Arguments bk_redis {W R} _.
#[global] Instance backend_eta W R : Settable (backend W R) := λ b,
  mkBackend (bk_db b) (bk_sink b) (bk_redis b).

(** The JSON text cached for a player; the name is put in as it is. *)
Definition cache_json (r : PlayerRecord) (player_name : list Z) : list Z :=
  quoted "{'id':" ++ to_string (r_id r) ++ quoted ",'name':'" ++ player_name ++ quoted "'" ++
  quoted ",'map_id':" ++ to_string (r_map_id r) ++ quoted ",'hp':" ++ to_string (r_hp r) ++
  quoted "}".

Section jobs.
Context {W R : Type} `{MySQL W} `{HiRedis R} `{NanSign}.

(** [if (redis) redis->f(...);] *)
Definition on_redis {A} (f : redis_client.S_ R A) (b : backend W R) : backend W R :=
  b <| bk_redis ::= fmap (λ c, (f c).2) |>.

(** The job of a login; an exception leaves the record empty. *)
Definition login_job (player_ttl_sec : Z) (player_name : list Z) (b : backend W R)
    : db.res (option PlayerRecord * backend W R) :=
  let b := on_redis (redis_client.get_player_cache 0) b in
  match player_dao.find_or_create player_name (bk_db b) with
  | db.Ok (rec, d) =>
      let b := b <| bk_db := d |> in
      db.Ok (rec, match rec with
                  | Some r => on_redis (redis_client.set_player_cache (r_id r)
                                          (cache_json r player_name) player_ttl_sec) b
                  | None => b
                  end)
  | db.Thrown => db.Ok (None, b)
  | db.Bad => db.Bad
  end.

(** The snapshot of a save that failed. *)
Definition snapshot (op : string) (attempts : Z) (error : list Z) (db_id : Z) (x y z : f32)
    (map_id level exp hp : Z) (player_name : list Z) : PlayerSaveSnapshot :=
  mkSnapshot db_id player_name (str op) x y z map_id level exp hp attempts error.

(** The job of a disconnect; [what] is the message of an exception. *)
Definition save_job (ts : list Z) (fail : option nat) (what : list Z)
    (db_id : Z) (x y z : f32) (map_id level exp hp : Z) (player_name : list Z) (b : backend W R)
    : db.res (backend W R) :=
  let snap op n err := snapshot op n err db_id x y z map_id level exp hp player_name in
  match (pos_ok ← player_dao.save_position db_id x y z map_id;
         stats_ok ← player_dao.save_stats db_id level exp hp;
         mret (pos_ok, stats_ok)) (bk_db b) with
  | db.Ok (pos_ok, stats_ok, d) =>
      let b := b <| bk_db := d |> in
      db.Ok (if pos_ok && stats_ok then b
             else b <| bk_sink ::= record ts fail
                         (snap (if negb pos_ok then "save_position" else "save_stats")%string 3
                            (str "db_write_failed")) |>)
  | db.Thrown => db.Ok (b <| bk_sink ::= record ts fail (snap "on_close"%string 1 what) |>)
  | db.Bad => db.Bad
  end.

(** The job of the periodic flush, whose result nobody looks at. *)
Definition flush_job (db_id : Z) (x y z : f32) (map_id : Z) (b : backend W R)
    : db.res (backend W R) :=
  match player_dao.save_position db_id x y z map_id (bk_db b) with
  | db.Ok (_, d) => db.Ok (b <| bk_db := d |>)
  | db.Thrown => db.Ok b
  | db.Bad => db.Bad
  end.

(** A job and the event it posts back to the server. *)
Definition run_job (ttl : Z) (ts : list Z) (fail : option nat) (what : list Z) (j : db_job)
    (b : backend W R) : db.res (option event * backend W R) :=
  match j with
  | LoginJob channel_id name =>
      match login_job ttl name b with
      | db.Ok (rec, b) => db.Ok (Some (LoginDone rec channel_id name), b)
      | db.Thrown => db.Thrown
      | db.Bad => db.Bad
      end
  | SaveJob db_id x y z map_id level exp hp name =>
      match save_job ts fail what db_id x y z map_id level exp hp name b with
      | db.Ok b => db.Ok (None, b)
      | db.Thrown => db.Thrown
      | db.Bad => db.Bad
      end
  | FlushJob db_id x y z map_id =>
      match flush_job db_id x y z map_id b with
      | db.Ok b => db.Ok (None, b)
      | db.Thrown => db.Thrown
      | db.Bad => db.Bad
      end
  end.

(** ** Jobs always end *)

Context `{!FetchFits (W := W)}.

(** C23: (termination) Every job the server posts comes to its end without an
    exception and without undefined behaviour, whatever the database and Redis
    answer, and leaves all its connections in the pool; a login job always posts
    its answer back. *)
Theorem jobs_complete ttl ts fail what j b :
  pool_ok (db.s_pool (bk_db b)) →
  ∃ ev b', run_job ttl ts fail what j b = db.Ok (ev, b') ∧
    same_pool (db.s_pool (bk_db b)) (db.s_pool (bk_db b')) ∧
    match j with
    | LoginJob ch name => ∃ rec, ev = Some (LoginDone rec ch name)
    | _ => ev = None
    end.
Proof.
  intros Hp. destruct j as [ch name|id x y z m l e h name|id x y z m]; simpl.
  - destruct (find_or_create_returns (bk_db b) name Hp) as (rec & d & E & P & _).
    unfold login_job. cbn [on_redis bk_db set]. rewrite E. eexists _, _. split; [reflexivity|].
    split; [by destruct rec|by eexists].
  - destruct (update_returns (bk_db b) (player_dao.position_query id x y z m) Hp) as (p & d1 & E1 & P1 & _).
    destruct (update_returns d1 (player_dao.stats_query id l e h)) as (q & d2 & E2 & P2 & _);
      [by rewrite <- P1|].
    unfold save_job, player_dao.save_position, player_dao.save_stats.
    rewrite (bind_Ok _ _ _ _ _ E1), (bind_Ok _ _ _ _ _ E2). cbn [mret db.D_ret].
    eexists _, _. split; [reflexivity|]. split; [|done].
    etrans; [exact P1|]. by destruct (p && q).
  - destruct (update_returns (bk_db b) (player_dao.position_query id x y z m) Hp) as (p & d1 & E1 & P1 & _).
    unfold flush_job, player_dao.save_position. rewrite E1. eexists _, _. by split; [reflexivity|].
Qed.
End jobs.

(** ** Nothing is lost silently *)

Section saved.
Context {W R : Type} `{MySQL W} `{NanSign}.
#[local] Existing Instance traced.

(** The queries made so far. *)
Definition calls (b : backend (W * list query_call) R) : list query_call := (db.s_world (bk_db b)).2.

(** One of the streams of the sink has got the line. *)
Definition recorded (line : list Z) (k k' : sink) : Prop :=
  (∃ c, file_ k = Some c ∧ file_ k' = Some (c ++ line ++ [10])) ∨
  stderr_ k' = stderr_ k ++ line ++ [10].

Lemma record_recorded ts fail s k : recorded (format_line ts s) k (record ts fail s k).
Proof.
  unfold recorded, record. destruct (file_ k) as [c|]; [|by right].
  destruct fail; [by right|]. left. by exists c.
Qed.

(** A save through the traced library: the result tells whether a query of this
    text succeeded. *)
Lemma save_traced q (s : db.state (W * list query_call)) :
  pool_ok (db.s_pool s) → db.free_indices_ (db.s_pool s) ≠ [] →
  ∃ ok s' new, player_dao.for_attempts (player_dao.update_once q) false s = db.Ok (ok, s') ∧
    (db.s_world s').2 = (db.s_world s).2 ++ new ∧ (ok = true → ∃ err, (q, 0, err) ∈ new) ∧
    same_pool (db.s_pool s) (db.s_pool s').
Proof.
  intros Hp Hne. destruct (attempts_traced q 2 1 s Hp Hne) as (front & rc & err & s' & E & Ht & _).
  destruct (update_returns s q Hp) as (ok & s'' & E' & P & _).
  assert (Ok_eq : db.Ok (rc =? 0, s') = db.Ok (ok, s'')) by (rewrite <- E'; exact (eq_sym E)).
  injection Ok_eq as <- <-. exists (rc =? 0), s', (front ++ [(q, rc, err)]).
  split; [exact E|]. split; [done|]. split; [|done]. intros ->%Z.eqb_eq. exists err. set_solver.
Qed.

Lemma same_pool_free p q : same_pool p q → db.free_indices_ p ≠ [] → db.free_indices_ q ≠ [].
Proof. intros [_ E] Hne Hq. rewrite Hq in E. by apply Permutation_nil_r in E. Qed.

(** C14: (safety) The save at the end of a session is never lost silently, when
    a connection is free for it (see [pool_never_exhausted]): either the
    database has executed both updates, or the failure log has the snapshot, in
    its file or on the standard error stream; with any errors of the database
    and of the file. *)
Theorem save_never_lost ts fail what id x y z m l e h name (b : backend (W * list query_call) R) :
  pool_ok (db.s_pool (bk_db b)) → db.free_indices_ (db.s_pool (bk_db b)) ≠ [] →
  ∃ b' new, save_job ts fail what id x y z m l e h name b = db.Ok b' ∧ calls b' = calls b ++ new ∧
    ((∃ e1 e2, (player_dao.position_query id x y z m, 0, e1) ∈ new ∧
               (player_dao.stats_query id l e h, 0, e2) ∈ new) ∧ bk_sink b' = bk_sink b
     ∨ ∃ op, recorded (format_line ts (snapshot op 3 (str "db_write_failed") id x y z m l e h name))
               (bk_sink b) (bk_sink b')).
Proof.
  intros Hp Hne.
  destruct (save_traced (player_dao.position_query id x y z m) (bk_db b) Hp Hne)
    as (p & d1 & new1 & E1 & T1 & K1 & P1).
  destruct (save_traced (player_dao.stats_query id l e h) d1) as (q & d2 & new2 & E2 & T2 & K2 & P2);
    [by rewrite <- P1|by eapply same_pool_free|].
  unfold save_job, player_dao.save_position, player_dao.save_stats.
  rewrite (bind_Ok _ _ _ _ _ E1), (bind_Ok _ _ _ _ _ E2). cbn [mret db.D_ret].
  eexists _, (new1 ++ new2). split; [reflexivity|]. split.
  { unfold calls. rewrite app_assoc, <- T1, <- T2. by destruct (p && q). }
  destruct p, q; simpl.
  - left. split; [|done]. destruct (K1 eq_refl) as [e1 H1], (K2 eq_refl) as [e2 H2].
    exists e1, e2. set_solver.
  - right. exists "save_stats"%string. apply record_recorded.
  - right. exists "save_position"%string. apply record_recorded.
  - right. exists "save_position"%string. apply record_recorded.
Qed.
End saved.

(** ** A whole session *)

Section session.
Context `{HashOrder} `{PriorityQueue} {AO : ArgOrder}.
Context {W R : Type} `{MySQL W} `{HiRedis R} `{NanSign}.
Context (ok : W → Prop) (row : W → list Z → option PlayerRecord).
Context (st : W → Z → option memdb.stmt_state) (storable : list Z → Prop).
Context (works : working ok row st storable).

(** The token check of [handle_login] lets the request through. *)
Definition admitted (token : list Z → option Z) (s : server) (req : login_req.t) : Prop :=
  redis_client_ s = false ∨ login_req.session_token req = [] ∨
  is_Some (token (login_req.session_token req)).

Lemma handle_login_posts token ch data req rest s :
  mtx_ s = false → player_dao_ s = true → ch ∈ db_strands_ s →
  login_req.parse data = POk req rest → admitted token s req →
  handle_login token ch data s
  = Done tt (s <| mtx_ := false |> <| posted_ ::= λ l, l ++ [LoginJob ch (login_req.player_name req)] |>).
Proof.
  intros Hm Hd Hs Hp Ha. unfold handle_login. rewrite Hp. cbn [parsed]. rewrite gets_bind.
  assert (redis_client_ s && negb (bool_decide (login_req.session_token req = []))
     && bool_decide (token (login_req.session_token req) = None) = false) as ->.
  { destruct Ha as [->|[->|[id ->]]]; [done|by rewrite andb_false_r|by rewrite andb_false_r]. }
  rewrite gets_bind, Hd. unfold mbind at 1, M_bind at 1, with_mtx, gets. rewrite Hm.
  change (db_strands_ (s <| mtx_ := true |>)) with (db_strands_ s).
  rewrite bool_decide_true by done. done.
Qed.

(** The answer to the login and what the disconnect posts, with and without the ECS. *)
Lemma session_ends ch name r reason s c :
  mtx_ s = false → player_dao_ s = true → channels_ s !! ch = Some c → room 256 c → ch ∈ db_strands_ s →
  0 < r_id r → (create_entity (sh_world (ecs s))).1 ≠ 0 → (use_ecs s = false → channel_to_entity_ s !! ch = None) →
  ∃ s1 s2, login_done (Some r) ch name s = Done tt s1 ∧ on_close ch reason s1 = Done tt s2
    ∧ sent_ s1 = sent_ s ++ [(ch, 1001, login_res.serialize (login_res.mk true (str "ok")
        (u32 (r_id r)) (u32 (r_map_id r))))]
    ∧ posted_ s2 = posted_ s ++ (if use_ecs s then [SaveJob (r_id r) (r_x r) (r_y r) (r_z r)
        (i32 (u32 (r_map_id r))) 1 0 (i32 (u32 (r_hp r))) name] else []).
Proof.
  intros Hm Hd Hc Hr Hst Hid He0 Hnone. destruct (use_ecs s) eqn:He; [by apply session_saved with c|].
  destruct (login_done_answers ch name r s c) as (s1 & E1 & Hm1 & Hsent & Hce & Hpo); [done..|].
  destruct (on_close_unsaved ch reason s1 Hm1) as (s2 & E2 & Hp2); [rewrite Hce; auto|].
  exists s1, s2. split_and!; [done..|]. rewrite Hp2, Hpo. by rewrite app_nil_r.
Qed.

End session.

(** ** Witnesses *)

#[local] Existing Instances key_order min_queue buffer_first.
#[local] Instance plain_nan_text : NanSign := false.

Definition mem_backend (script : list Z) : backend memdb.t redis_client.mem :=
  mkBackend (mem_state script) (make_sink (Some [])) (Some redis_client.mem_client).

Lemma jobs_complete_witness :
  ∃ ev b', run_job 60 [] None [] (LoginJob 7 (str "kim")) (mem_backend [2006; 1213; 2013])
      = db.Ok (ev, b') ∧
    same_pool (db.s_pool (bk_db (mem_backend [2006; 1213; 2013]))) (db.s_pool (bk_db b')) ∧
    ∃ rec, ev = Some (LoginDone rec 7 (str "kim")).
Proof.
  apply (jobs_complete 60 [] None [] (LoginJob 7 (str "kim")) (mem_backend [2006; 1213; 2013])).
  by_decide.
Defined.

Definition traced_backend (script : list Z) : backend (memdb.t * list query_call) redis_client.mem :=
  mkBackend (traced_state script) (make_sink (Some [])) None.

Lemma save_never_lost_witness :
  ∃ b' new, save_job (H := traced) [] (Some 3%nat) [] 7 f0 f0 f0 1 1 0 100 (str "kim")
        (traced_backend [0; 1045]) = db.Ok b' ∧ calls b' = [] ++ new ∧
    ((∃ e1 e2, (player_dao.position_query 7 f0 f0 f0 1, 0, e1) ∈ new ∧
               (player_dao.stats_query 7 1 0 100, 0, e2) ∈ new) ∧
       bk_sink b' = bk_sink (traced_backend [0; 1045])
     ∨ ∃ op, recorded (format_line [] (snapshot op 3 (str "db_write_failed") 7 f0 f0 f0 1 1 0 100 (str "kim")))
               (bk_sink (traced_backend [0; 1045])) (bk_sink b')).
Proof.
  apply (save_never_lost [] (Some 3%nat) [] 7 f0 f0 f0 1 1 0 100 (str "kim") (traced_backend [0; 1045]));
    by_decide.
Defined.

Definition db_server : server :=
  (after true two_clients) <| player_dao_ := true |> <| db_strands_ := {[7]} |>.

End db_jobs.
