(* ===== verification/Relogin.v ===== *)
(** * From one session to the next

    A player's connection is closed, the save that this posts runs on the database,
    and the same player logs in again: the server, the jobs of the database threads,
    the texts of the data access and the database together. *)

From S2P Require Import Prelude FrameCodec Channel Floats Text Components Ecs Systems Threads.
From S2P Require Import ProtocolBase ProtocolPlayer GameServer GameServerLaws GameServerProgress GameServerHandlers.
From S2P Require Import ServerConfig DbConnection Sql MemDb DbPoolLaws PlayerDao PlayerDaoLaws SavedRows.
From S2P Require Import FailureSink RedisClient DbJobs.
Import game_server db_jobs saved_rows.
Import update_sql(FloatColumn, float_column, fixed4_of).
Import failure_sink(record, format_line).

Module relogin.

(** ** A save *)

Section save.
Context {W R : Type} `{MySQL W} `{HiRedis R} `{NanSign} `{FloatColumn}.
Context (ok : W → Prop) (row : W → list Z → option PlayerRecord).
Context (executes : updating ok row).

(** The values of a save are of their types. *)
Record typed (id : Z) (x y z : f32) (map_id level exp hp : Z) : Prop := mkTyped
  { t_id : is_i64 id; t_x : is_f32 x; t_y : is_f32 y; t_z : is_f32 z;
    t_map : 0 ≤ map_id < 2 ^ 31; t_level : 0 ≤ level < 2 ^ 31; t_exp : 0 ≤ exp < 2 ^ 31;
    t_hp : 0 ≤ hp < 2 ^ 31 }.

Lemma typed_texts id x y z m l e h :
  typed id x y z m l e h →
  update_sql.parse_update (player_dao.position_query id x y z m) = Some (position_update id x y z m) ∧
  update_sql.parse_update (player_dao.stats_query id l e h) = Some (stats_update id l e h).
Proof.
  intros []. destruct (queries_not_truncated id x y z m l e h) as [-> ->]; try done;
    try (unfold is_i32; lia). split; [apply position_text_means|apply stats_text_means].
Qed.

(** The statistics are written whatever becomes of the position. *)
Lemma save_stats_works id x y z m l e h (s : db.state W) :
  typed id x y z m l e h → ok (db.s_world s) → pool_ok (db.s_pool s) → db.free_indices_ (db.s_pool s) ≠ [] →
  ∃ s', player_dao.save_stats id l e h s = db.Ok (true, s') ∧ ok (db.s_world s') ∧
    (∀ n, row (db.s_world s') n = at_key id (with_stats l e h) <$> row (db.s_world s) n) ∧
    same_pool (db.s_pool s) (db.s_pool s').
Proof.
  intros Ht Hok Hp Hne. destruct (typed_texts id x y z m l e h Ht) as [_ Hq].
  assert (∀ r, update_sql.run_update (stats_update id l e h) r = Some (at_key id (with_stats l e h) r)) as Hr.
  { intros r. destruct Ht. apply stats_update_runs; unfold is_u32; lia. }
  destruct (update_works ok row executes _ _ s Hok Hp Hne Hq) as (s' & E & Hok' & Hrow & HP); try done.
  { intros r. rewrite Hr. by eexists. }
  exists s'. split; [done|]. split; [done|]. split; [|done].
  intros n. rewrite Hrow. destruct (row (db.s_world s) n) as [r|]; [|done]. cbn. by rewrite Hr.
Qed.

(** A save with a position: both updates, and nothing in the failure log. *)
Lemma save_job_works ts fail what id x y z m l e h name qx qy qz (b : backend W R) :
  typed id x y z m l e h →
  fixed4_of x = Some qx → fixed4_of y = Some qy → fixed4_of z = Some qz →
  ok (db.s_world (bk_db b)) → pool_ok (db.s_pool (bk_db b)) → db.free_indices_ (db.s_pool (bk_db b)) ≠ [] →
  ∃ b', save_job ts fail what id x y z m l e h name b = db.Ok b' ∧ bk_sink b' = bk_sink b ∧
    ok (db.s_world (bk_db b')) ∧ same_pool (db.s_pool (bk_db b)) (db.s_pool (bk_db b')) ∧
    ∀ n, row (db.s_world (bk_db b')) n
         = at_key id (with_stats l e h ∘ placed qx qy qz m) <$> row (db.s_world (bk_db b)) n.
Proof.
  intros Ht Hx Hy Hz Hok Hp Hne. destruct (typed_texts id x y z m l e h Ht) as [Hq _].
  assert (∀ r, update_sql.run_update (position_update id x y z m) r = Some (at_key id (placed qx qy qz m) r)) as Hr.
  { intros r. destruct Ht. apply position_update_runs; try done; unfold is_u32; lia. }
  assert (update_sql.unknown_column (position_update id x y z m) = false) as Hc.
  { unfold position_update, update_sql.float_value. rewrite Hx, Hy, Hz. reflexivity. }
  destruct (update_works ok row executes _ _ (bk_db b) Hok Hp Hne Hq) as (d1 & E1 & Hok1 & Hrow1 & P1); try done.
  { intros r. rewrite Hr. by eexists. }
  destruct (save_stats_works id x y z m l e h d1 Ht Hok1) as (d2 & E2 & Hok2 & Hrow2 & P2);
    [by rewrite <- P1|by eapply same_pool_free|].
  exists (b <| bk_db := d2 |>). split; [|split; [done|split; [done|split; [by etrans|]]]].
  - unfold save_job, player_dao.save_position. rewrite (bind_Ok _ _ _ _ _ E1), (bind_Ok _ _ _ _ _ E2). done.
  - intros n. cbn [bk_db set]. rewrite Hrow2, Hrow1. destruct (row (db.s_world (bk_db b)) n) as [r|]; [|done].
    cbn. rewrite Hr. cbn. unfold at_key. destruct (bool_decide (r_id r = id)) eqn:K; cbn; by rewrite K.
Qed.

(** A save without a position: the update of the position is refused, the
    statistics are written, and the failure log has the snapshot. *)
Lemma save_job_unplaced ts fail what id x y z m l e h name (b : backend W R) :
  typed id x y z m l e h →
  fixed4_of x = None ∨ fixed4_of y = None ∨ fixed4_of z = None →
  ok (db.s_world (bk_db b)) → pool_ok (db.s_pool (bk_db b)) → db.free_indices_ (db.s_pool (bk_db b)) ≠ [] →
  ∃ b', save_job ts fail what id x y z m l e h name b = db.Ok b' ∧
    bk_sink b' = record ts fail
      (snapshot "save_position" 3 (str "db_write_failed") id x y z m l e h name) (bk_sink b) ∧
    ∀ n, row (db.s_world (bk_db b')) n = at_key id (with_stats l e h) <$> row (db.s_world (bk_db b)) n.
Proof.
  intros Ht Hbad Hok Hp Hne. destruct (typed_texts id x y z m l e h Ht) as [Hq _].
  assert (update_sql.unknown_column (position_update id x y z m) = true) as Hc.
  { assert (∀ v, fixed4_of v = None → ∃ c, update_sql.float_value v = update_sql.Column c
      ∧ bool_decide (c ∉ update_sql.columns) = true) as Hv.
    { intros v Hv. unfold update_sql.float_value. rewrite Hv. eexists. split; [done|]. by destruct (is_nan v). }
    apply existsb_exists. destruct Hbad as [B|[B|B]]; destruct (Hv _ B) as (c & Ec & Hc).
    - eexists. split; [by left|]. by rewrite Ec.
    - eexists. split; [by right; left|]. by rewrite Ec.
    - eexists. split; [by right; right; left|]. by rewrite Ec. }
  destruct (update_refused ok row executes _ _ (bk_db b) Hok Hp Hne Hq eq_refl Hc)
    as (d1 & E1 & Hok1 & Hrow1 & P1).
  destruct (save_stats_works id x y z m l e h d1 Ht Hok1) as (d2 & E2 & Hok2 & Hrow2 & P2);
    [by rewrite <- P1|by eapply same_pool_free|].
  eexists. split; [|split].
  - unfold save_job, player_dao.save_position. rewrite (bind_Ok _ _ _ _ _ E1), (bind_Ok _ _ _ _ _ E2). reflexivity.
  - done.
  - intros n. cbn. by rewrite Hrow2, Hrow1.
Qed.
End save.

(** ** Closing and coming back *)

(** The player of a channel: its entity, its id in the database and its components. *)
Record plays (s : server) (ch e id : Z) (p : Position) (pl : Player) (h : Health) : Prop := mkPlays
  { p_ecs : use_ecs s = true; p_mtx : mtx_ s = false; p_dao : player_dao_ s = true;
    p_strand : ch ∈ db_strands_ s;
    p_entity : channel_to_entity_ s !! ch = Some e; p_id : channel_to_db_id_ s !! ch = Some id;
    p_e : e ≠ 0; p_pos : 0 < id;
    p_position : get_component e (cm (sh_world (ecs s))) = Some p;
    p_player : get_component e (cm (sh_world (ecs s))) = Some pl;
    p_health : get_component e (cm (sh_world (ecs s))) = Some h }.

Lemma plays_save ch e id p pl h s reason :
  plays s ch e id p pl h → is_i32 (pl_map_id pl) → is_i32 (hp h) →
  ∃ s', on_close ch reason s = Done tt s' ∧
    posted_ s' = posted_ s ++ [SaveJob id (pos_x p) (pos_y p) (pos_z p) (pl_map_id pl) 1 0 (hp h) (player_name pl)].
Proof.
  intros [] Hm Hh. destruct (on_close_posted ch reason s e id) as (s' & E & Hp); [done..|].
  exists s'. split; [done|]. rewrite Hp. unfold save_of. rewrite p_position0, p_player0, p_health0.
  cbn. by rewrite !i32_small.
Qed.

Section relogin.
Context `{HashOrder} `{PriorityQueue} {AO : ArgOrder}.
Context {W R : Type} `{MySQL W} `{HiRedis R} `{NanSign} `{FloatColumn}.
Context (ok : W → Prop) (row : W → list Z → option PlayerRecord).
Context (st : W → Z → option memdb.stmt_state) (storable : list Z → Prop).
Context (works : working ok row st storable) (executes : updating ok row).

(** C6: (round trip) From one session to the next, on a database that works, of
    a player whose position is finite (see [unplaced_not_saved] for the others).
    When the connection is closed, the server posts a save; run on a database
    thread, it writes the row of the player and no other, and nothing to the
    failure log. A login job for the same name then finds that row and posts it
    back, and the server, whatever has happened in it since, answers with the
    player's id and map and spawns an entity with the saved name, map and hit
    points, at the saved position as the columns hold its text with four
    decimals. The row has level 1 and no experience, whatever it had before. *)
Theorem relogin_restores ttl ts fail what token upd ch reason s e id p pl h qx qy qz (b : backend W R) r
    ch' t c :
  plays s ch e id p pl h →
  typed id (pos_x p) (pos_y p) (pos_z p) (pl_map_id pl) 1 0 (hp h) →
  fixed4_of (pos_x p) = Some qx → fixed4_of (pos_y p) = Some qy → fixed4_of (pos_z p) = Some qz →
  ok (db.s_world (bk_db b)) → pool_ok (db.s_pool (bk_db b)) → db.free_indices_ (db.s_pool (bk_db b)) ≠ [] →
  let name := player_name pl in
  storable name → (∀ w r, ok w → row w name = Some r → zlen (r_name r) ≤ 64) →
  row (db.s_world (bk_db b)) name = Some r → r_id r = id →
  mtx_ t = false → use_ecs t = true → channels_ t !! ch' = Some c → room 256 c →
  let r' := mkRecord id (r_name r) 1 0 (hp h) (r_max_hp r)
              (float_column qx 4) (float_column qy 4) (float_column qz 4) (pl_map_id pl) in
  ∃ s' j b1 b2 t',
    on_close ch reason s = Done tt s' ∧ posted_ s' = posted_ s ++ [j] ∧
    run_job ttl ts fail what j b = db.Ok (None, b1) ∧ bk_sink b1 = bk_sink b ∧
    (∀ n r0, row (db.s_world (bk_db b)) n = Some r0 → r_id r0 ≠ id →
       row (db.s_world (bk_db b1)) n = Some r0) ∧
    run_job ttl ts fail what (LoginJob ch' name) b1 = db.Ok (Some (LoginDone (Some r') ch' name), b2) ∧
    step token upd (LoginDone (Some r') ch' name) t = Done tt t' ∧
    sent_ t' = sent_ t ++ [(ch', 1001, login_res.serialize (login_res.mk true (str "ok")
      (u32 id) (pl_map_id pl)))] ∧
    ∃ e', channel_to_entity_ t' !! ch' = Some e' ∧ channel_to_db_id_ t' !! ch' = Some id ∧
      get_component e' (cm (sh_world (ecs t')))
        = Some (mkPosition (float_column qx 4) (float_column qy 4) (float_column qz 4)) ∧
      get_component e' (cm (sh_world (ecs t')))
        = Some ((Health_.make (u32 (r_max_hp r)) 50) <| hp := hp h |>) ∧
      get_component e' (cm (sh_world (ecs t')))
        = Some (Player_make name (u32 id) ch' (pl_map_id pl)).
Proof.
  intros Hplays Ht Hx Hy Hz Hok Hp Hne name Hst Hlen Hr Hid Htm Htu Htc Hroom r'.
  pose proof Ht as [_ _ _ _ Hmap _ _ Hhp].
  destruct (plays_save ch e id p pl h s reason Hplays) as (s' & Es & Hposted); [unfold is_i32; lia..|].
  destruct (save_job_works ok row executes ts fail what id _ _ _ _ 1 0 (hp h) name qx qy qz b Ht Hx Hy Hz Hok Hp Hne)
    as (b1 & Eb & Hsink & Hok1 & P1 & Hrows).
  destruct (find_or_create_works ok row st storable works name
    (bk_db (on_redis (redis_client.get_player_cache 0) b1)))
    as (r1 & d & El & Hok2 & Hr1 & Hr0 & _); [done|done|by rewrite <- P1|by eapply same_pool_free|done|].
  assert (r1 = r') as ->.
  { apply Hr0. cbn. rewrite Hrows, Hr. cbn. unfold at_key. rewrite bool_decide_true by done. cbn. unfold r'. by rewrite <- Hid. }
  destruct (login_done_spawns ch' name r' t c) as (t' & Et & _ & Hsent & _ & Hce & Hdb & Hecs);
    [done..|apply Hplays|].
  exists s'. eexists. exists b1. eexists. exists t'. split; [done|]. split; [exact Hposted|].
  split; [unfold run_job; fold name; by rewrite Eb|]. split; [done|]. split.
  { intros n r0 Hn Hne0. rewrite Hrows, Hn. cbn. unfold at_key. by rewrite bool_decide_false. }
  split; [unfold run_job, login_job; rewrite El; reflexivity|]. split; [exact Et|].
  split; [by rewrite Hsent, (u32_small (r_map_id r')) by (unfold is_u32; cbn; lia)|].
  destruct (spawned_components name ch' id (mkPosition (r_x r') (r_y r') (r_z r')) (r_map_id r')
    ((Health_.make (u32 (r_max_hp r')) 50) <| hp := u32 (r_hp r') |>) (sh_world (ecs t))) as (Hv1 & Hv2 & Hv3).
  eexists. split; [rewrite Hce; apply lookup_insert_eq|]. split; [rewrite Hdb; apply lookup_insert_eq|].
  rewrite Hecs. split; [exact Hv1|]. split.
  - etrans; [exact Hv2|]. by rewrite (u32_small (r_hp r')) by (unfold is_u32; cbn; lia).
  - etrans; [exact Hv3|]. rewrite (u32_small (r_map_id r')) by (unfold is_u32; cbn; lia).
    destruct (Z.ltb_spec 0 id); [done|]. pose proof (p_pos _ _ _ _ _ _ _ Hplays). lia.
Qed.

(** C32: (error) A player whose position is not finite, as it is after two
    players have stood at the same place, is not saved: the update of the
    position names a column that does not exist and is refused. The row keeps
    the old position and map, gets level 1, no experience and the hit points all
    the same, and the failure log gets the snapshot. *)
Theorem unplaced_not_saved ttl ts fail what ch reason s e id p pl h (b : backend W R) :
  plays s ch e id p pl h →
  typed id (pos_x p) (pos_y p) (pos_z p) (pl_map_id pl) 1 0 (hp h) →
  fixed4_of (pos_x p) = None ∨ fixed4_of (pos_y p) = None ∨ fixed4_of (pos_z p) = None →
  ok (db.s_world (bk_db b)) → pool_ok (db.s_pool (bk_db b)) → db.free_indices_ (db.s_pool (bk_db b)) ≠ [] →
  ∃ s' j b1,
    on_close ch reason s = Done tt s' ∧ posted_ s' = posted_ s ++ [j] ∧
    run_job ttl ts fail what j b = db.Ok (None, b1) ∧
    recorded (format_line ts (snapshot "save_position" 3 (str "db_write_failed") id
      (pos_x p) (pos_y p) (pos_z p) (pl_map_id pl) 1 0 (hp h) (player_name pl))) (bk_sink b) (bk_sink b1) ∧
    ∀ n r, row (db.s_world (bk_db b)) n = Some r →
      row (db.s_world (bk_db b1)) n = Some (if bool_decide (r_id r = id) then
        mkRecord id (r_name r) 1 0 (hp h) (r_max_hp r) (r_x r) (r_y r) (r_z r) (r_map_id r) else r).
Proof.
  intros Hplays Ht Hbad Hok Hp Hne. pose proof Ht as [_ _ _ _ Hmap _ _ Hhp].
  destruct (plays_save ch e id p pl h s reason Hplays) as (s' & Es & Hposted); [unfold is_i32; lia..|].
  destruct (save_job_unplaced ok row executes ts fail what id _ _ _ _ 1 0 (hp h) (player_name pl) b Ht Hbad Hok Hp Hne)
    as (b1 & Eb & Hsink & Hrows).
  exists s'. eexists. exists b1. split; [done|]. split; [exact Hposted|].
  split; [unfold run_job; by rewrite Eb|]. split; [rewrite Hsink; apply record_recorded|].
  intros n r Hn. rewrite Hrows, Hn. cbn. unfold at_key. case_bool_decide as K; [|done].
  unfold with_stats. by rewrite K.
Qed.
End relogin.

(** ** Witnesses *)

#[local] Existing Instances key_order min_queue buffer_first.
#[local] Instance plain_nan_relogin : NanSign := false.

(** A table with one player, and the server after that player has logged in. *)
Definition kim_row (x : f32) : PlayerRecord := mkRecord 1 (str "kim") 5 900 80 100 x f20 fm1000 2.
Definition kim_backend (x : f32) : backend memdb.t redis_client.mem :=
  (mem_backend []) <| bk_db ::= λ d, d <| db.s_world := memdb.start [kim_row x] [] |> |>.
Definition kim_server (x : f32) : server :=
  match step (λ _, None) (λ _ w, w) (LoginDone (Some (kim_row x)) 7 (str "kim")) db_server with
  | Done _ s => s
  | _ => db_server
  end.
Definition kim_entity : Z := (create_entity (sh_world (ecs db_server))).1.

Lemma kim_plays x :
  plays (kim_server x) 7 kim_entity 1 (mkPosition x f20 fm1000) (Player_make (str "kim") 1 7 2)
    (mkHealth 80 100 50 50 true).
Proof. split; vm_compute; reflexivity || discriminate. Qed.

Lemma kim_channel : channels_ db_server !! 7 = Some (asio_channel.start 0 (asio_channel.new_channel 7)).1.
Proof. vm_compute. reflexivity. Qed.

Definition kim_again : PlayerRecord := mkRecord 1 (str "kim") 1 0 80 100 f0_1 f20 fm1000 2.

Lemma relogin_restores_witness :
  ∃ j b1 b2 t' e',
    run_job 60 [] None [] j (kim_backend f0_1) = db.Ok (None, b1) ∧
    run_job 60 [] None [] (LoginJob 7 (str "kim")) b1 = db.Ok (Some (LoginDone (Some kim_again) 7 (str "kim")), b2) ∧
    step (λ _, None) (λ _ w, w) (LoginDone (Some kim_again) 7 (str "kim")) db_server = Done tt t' ∧
    get_component e' (cm (sh_world (ecs t'))) = Some (mkPosition f0_1 f20 fm1000).
Proof.
  destruct (relogin_restores mem_ok memdb.row mem_st (λ _, True) mem_working mem_updating 60 [] None []
    (λ _, None) (λ _ w, w) 7 close_read (kim_server f0_1) kim_entity 1 _ _ _ 1000 200000 (-10000000)
    (kim_backend f0_1) (kim_row f0_1) 7 db_server (asio_channel.start 0 (asio_channel.new_channel 7)).1
    (kim_plays f0_1))
    as (s' & j & b1 & b2 & t' & _ & _ & E1 & _ & _ & E2 & Et & _ & e' & _ & _ & Hpos & _);
    [split; by_decide|by_decide|by_decide|by_decide|by_decide|by_decide|by_decide|exact I| |reflexivity|reflexivity
    |by_decide|by_decide|exact kim_channel|by_decide|].
  - intros w r Hok [-> _]%mem_row_name; [by_decide|done].
  - exists j, b1, b2, t', e'. split; [exact E1|]. split; [exact E2|]. split; [exact Et|exact Hpos].
Defined.

Lemma unplaced_not_saved_witness :
  ∃ j b1, run_job 60 [] None [] j (kim_backend S754_nan) = db.Ok (None, b1) ∧
    memdb.row (db.s_world (bk_db b1)) (str "kim")
      = Some (mkRecord 1 (str "kim") 1 0 80 100 S754_nan f20 fm1000 2) ∧ bk_sink b1 ≠ bk_sink (kim_backend S754_nan).
Proof.
  destruct (unplaced_not_saved mem_ok memdb.row mem_updating 60 [] None [] 7 close_read
    (kim_server S754_nan) kim_entity 1 _ _ _ (kim_backend S754_nan) (kim_plays S754_nan))
    as (s' & j & b1 & _ & _ & E1 & Hrec & Hrow);
    [split; by_decide|by_decide|by_decide|by_decide|by_decide|].
  exists j, b1. split; [exact E1|]. split; [exact (Hrow (str "kim") (kim_row S754_nan) eq_refl)|].
  intros Hs. rewrite Hs in Hrec. destruct Hrec as [(c & Hc & Hc')|Hc].
  - rewrite Hc in Hc'. injection Hc' as Hc'%(f_equal length). rewrite !length_app in Hc'. cbn in Hc'. lia.
  - apply (f_equal length) in Hc. rewrite !length_app in Hc. cbn in Hc. lia.
Defined.
End relogin.
