(* ===== verification/AsioServer.v ===== *)
(** * Accepting connections ([src/server/network/asio_server.{hpp,cpp}],
    [src/common/network/socket_option.hpp])

    The acceptor, the ids it hands out and the table that owns the channels; and
    the network server together with the game server that it calls and with the
    close callbacks that empty its table.  What the
    operating system answers (the errors of listen and accept) is an argument. *)

From S2P Require Import Prelude FrameCodec Channel Floats Components Ecs Systems Threads.
From S2P Require Import ProtocolBase ProtocolPlayer ProtocolCombat ProtocolMap ProtocolGuild.
From S2P Require Import GameServer GameServerLaws GameServerHandlers.
Import game_server.

(** ** Socket options *)

Record socket_option := mkSocketOption
  { reuse_address : bool; tcp_no_delay : bool; linger : bool; backlog : Z; connect_timeout : Z }.
#[global] Instance socket_option_eta : Settable socket_option := λ o,
  mkSocketOption (reuse_address o) (tcp_no_delay o) (linger o) (backlog o) (connect_timeout o).
Definition socket_option_default : socket_option := mkSocketOption false false false 128 5.

Definition set_reuse_address (b : bool) (o : socket_option) : socket_option := o <| reuse_address := b |>.
Definition set_tcp_no_delay (b : bool) (o : socket_option) : socket_option := o <| tcp_no_delay := b |>.
Definition set_linger (b : bool) (o : socket_option) : socket_option := o <| linger := b |>.
Definition set_backlog (n : Z) (o : socket_option) : socket_option := o <| backlog := n |>.
Definition set_connect_timeout (n : Z) (o : socket_option) : socket_option := o <| connect_timeout := n |>.

Module asio_server.

Record t := mk {
  acceptor_open : bool;                  (* acceptor_.is_open() *)
  accepting : bool;                      (* an async_accept is outstanding *)
  handler_ : bool;                       (* handler_ != nullptr *)
  socket_option_ : socket_option;
  owned_ : gset Z;                       (* the keys of channels_ *)
  next_channel_id_ : Z;
  on_frame_ : bool }.
#[global] Instance t_eta : Settable t := λ a,
  mk (acceptor_open a) (accepting a) (handler_ a) (socket_option_ a) (owned_ a)
     (next_channel_id_ a) (on_frame_ a).

Definition make : t := mk false false false socket_option_default ∅ 1 false.

Definition init (opt : socket_option) (a : t) : t := a <| handler_ := true |> <| socket_option_ := opt |>.
Definition set_net_handler (h : bool) (a : t) : t := a <| handler_ := h |>.
Definition set_on_frame (a : t) : t := a <| on_frame_ := true |>.

Definition do_accept (a : t) : t := a <| accepting := true |>.

(** The error codes of open, set_option, bind and listen ([true]: an error). *)
Record listen_errors := mkErrors { e_open : bool; e_option : bool; e_bind : bool; e_listen : bool }.

(** [None]: the address is not a numeric one and [make_address] throws. *)
Definition listen (make_address : list Z → option Z) (ip : list Z) (e : listen_errors) (a : t)
    : option (bool * t) :=
  match make_address ip with
  | None => None
  | Some _ =>
      let a := a <| acceptor_open := false |> in
      Some (if e_open e then (false, a) else
            let a := a <| acceptor_open := true |> in
            if e_option e then (false, a) else
            if e_bind e then (false, a) else
            if e_listen e then (false, a) else
            (true, do_accept a))
  end.

(** Closing an acceptor, open or not, reports no error. *)
Definition stop (a : t) : bool * t := (true, a <| acceptor_open := false |>).
Definition release (a : t) : t := (stop a).2 <| handler_ := false |>.

(** The handler of [async_accept]: with an error only the next accept is started;
    otherwise a channel gets the next id ([atomic<int>] wraps around), and its id
    is returned for [start]. *)
Definition accept_done (ec : bool) (a : t) : option Z * t :=
  let a := a <| accepting := false |> in
  if ec then (None, do_accept a)
  else
    let id := next_channel_id_ a in
    (Some id, do_accept (a <| next_channel_id_ := i32 (id + 1) |> <| owned_ ::= ({[id]} ∪.) |>)).

(** The close callback of channel [id]. *)
Definition channel_removed (id : Z) (a : t) : t := a <| owned_ ::= (.∖ {[id]}) |>.

(** After [stop] every accept fails at once, and every failure starts another. *)
Lemma accept_never_rests n a :
  let a' := Nat.iter n (λ a, (accept_done true a).2) (stop (do_accept a)).2 in
  acceptor_open a' = false ∧ accepting a' = true ∧ owned_ a' = owned_ a.
Proof. induction n as [|n IH]; simpl; [done|]. by destruct IH as (? & ? & ?). Qed.

(** The network server and the game server, as [game_server::init] connects them. *)
Record system := mkSystem { net : t; game : server }.

Section system.
Context `{HashOrder} `{PriorityQueue} {AO : ArgOrder}.
Context (token : list Z → option Z) (upd : f32 → world → world).

(** An accept completes, or anything else happens to the game server (an
    [Accept] of its own is ignored: accepts come from the network server). *)
Inductive sys_event :=
| AcceptDone (ec : bool) (now : Z)
| GameEvent (ev : event).

(** The close callbacks that a step of the game server ran, in order. *)
Definition callbacks_between (s s' : server) : list Z := drop (length (removed_ s)) (removed_ s').
Definition run_callbacks (ids : list Z) (a : t) : t := foldl (λ a id, channel_removed id a) a ids.

(** [None]: the step blocks or is undefined. *)
Definition sys_step (ev : sys_event) (y : system) : option system :=
  match ev with
  | AcceptDone ec now =>
      if negb (accepting (net y)) then Some y else
      match accept_done ec (net y) with
      | (None, a) => Some (mkSystem a (game y))
      | (Some id, a) =>
          match step token upd (Accept id now) (game y) with
          | Done _ s => Some (mkSystem (run_callbacks (callbacks_between (game y) s) a) s)
          | _ => None
          end
      end
  | GameEvent (Accept _ _) => Some y
  | GameEvent ev =>
      match step token upd ev (game y) with
      | Done _ s => Some (mkSystem (run_callbacks (callbacks_between (game y) s) (net y)) s)
      | _ => None
      end
  end.

Fixpoint sys_run (evs : list sys_event) (y : system) : option system :=
  match evs with
  | [] => Some y
  | ev :: evs => y' ← sys_step ev y; sys_run evs y'
  end.
End system.

(** ** A channel that closes tells both tables *)

(** What [do_accept] has set in the channel [id]. *)
Definition wired_channel (id : Z) (c : asio_channel.channel) : Prop :=
  asio_channel.handler_ c = true ∧ asio_channel.close_callback_ c = Some id
  ∧ asio_channel.channel_id_ c = id.
Definition wired (s : server) : Prop := map_Forall wired_channel (channels_ s).

(** Each call of the handler's [on_close] is followed by the close callback. *)
Inductive paired (id : Z) : list asio_channel.effect → Prop :=
| paired_nil : paired id []
| paired_other e es :
    match e with asio_channel.HandlerClose _ _ | asio_channel.CloseCallback _ _ => False | _ => True end →
    paired id es → paired id (e :: es)
| paired_close r es :
    paired id es → paired id (asio_channel.HandlerClose id r :: asio_channel.CloseCallback id r :: es).

Lemma paired_app id es es' : paired id es → paired id es' → paired id (es ++ es').
Proof. induction 1; cbn; auto using paired. Qed.

Lemma paired_on_close id r c :
  wired_channel id c → paired id (asio_channel.PostShutdown :: asio_channel.on_close r c).
Proof.
  intros (Hh & Hc & Hi). unfold asio_channel.on_close. rewrite Hh, Hc, Hi. cbn.
  by repeat constructor.
Qed.

Lemma paired_rx id es : Forall asio_channel.rx_effect es → paired id es.
Proof. induction 1 as [|e es He _ IH]; constructor; [by destruct e|done]. Qed.

Section channel.
Context {AO : ArgOrder}.

Lemma close_wired id r c b c' es :
  wired_channel id c → asio_channel.close r c = (b, c', es) → wired_channel id c' ∧ paired id es.
Proof.
  intros Hw [(_ & _ & -> & ->)|(_ & _ & -> & fc & ->)]%asio_channel.close_spec.
  - split; [done|constructor].
  - split; [done|by apply paired_on_close].
Qed.

Lemma try_write_wired id c c' es :
  wired_channel id c → asio_channel.try_write c = (c', es) → wired_channel id c' ∧ paired id es.
Proof.
  intros Hw (? & _ & [(_ & _ & -> & ->)|(_ & -> & ->)] & _)%asio_channel.try_write_spec;
    (split; [done|by repeat constructor]).
Qed.

Lemma send_wired id data c c' es :
  wired_channel id c → asio_channel.send data c = (c', es) → wired_channel id c' ∧ paired id es.
Proof.
  intros Hw [(_ & -> & ->)|[(_ & _ & _ & -> & fc & ->)|Hs]]%asio_channel.send_spec.
  - split; [done|constructor].
  - split; [done|by apply paired_on_close].
  - destruct Hs as (_ & _ & _ & c1 & es1 & em & pk & -> & Ht & ->).
    apply (try_write_wired id) in Ht as [? ?]; [|done]. split; [done|by constructor].
Qed.

Lemma step_wired id o c c' es :
  wired_channel id c → asio_channel.step o c = Some (c', es) → wired_channel id c' ∧ paired id es.
Proof.
  intros Hw. assert (∀ e, match e with asio_channel.HandlerClose _ _ | asio_channel.CloseCallback _ _ => False
    | _ => True end → paired id [e]) as H1 by (by repeat constructor).
  assert (∀ r c es, wired_channel id c → (let '(_, c, es) := asio_channel.close r c in (c, es)) = (c', es) →
    wired_channel id c' ∧ paired id es) as Hcl.
  { intros r c0 es0 Hc0. destruct (asio_channel.close r c0) as [[b c1] es1] eqn:E. intros [= <- <-].
    by eapply close_wired. }
  destruct o as [data|bytes| |now| |now| | |r]; cbn [asio_channel.step].
  - intros [= H]. by eapply send_wired.
  - intros [(a & off & d & ->) Hes]%asio_channel.read_done_frame. split; [done|by apply paired_rx].
  - intros [= H]. by eapply Hcl.
  - intros [= H]. revert H. unfold asio_channel.write_done.
    destruct (asio_channel.in_flight c) as [[buf n]|]; [|intros [= <- <-]; split; [done|constructor]].
    set (c1 := set asio_channel.writing_ _ _).
    destruct (asio_channel.write_queue_ c1); [intros [= <- <-]; split; [done|constructor]|].
    by apply try_write_wired.
  - intros [= H]. revert H. unfold asio_channel.write_error.
    destruct (asio_channel.in_flight c); [|intros [= <- <-]; split; [done|constructor]].
    by apply Hcl.
  - intros [= H]. revert H. unfold asio_channel.idle_tick.
    destruct (asio_channel.closed_ c); [intros [= <- <-]; split; [done|constructor]|].
    case_cmp; [by apply Hcl|]. intros [= <- <-]. split; [done|by apply H1].
  - intros [= H]. revert H. unfold asio_channel.ping_tick, asio_channel.send_ping.
    destruct (asio_channel.closed_ c); [intros [= <- <-]; split; [done|constructor]|].
    destruct (asio_channel.send _ c) as [c1 es1] eqn:E. intros [= <- <-].
    apply (send_wired id) in E as [? ?]; [|done]. split; [done|]. apply paired_app; [done|by apply H1].
  - intros [= H]. revert H. unfold asio_channel.stats_tick.
    destruct (asio_channel.closed_ c); intros [= <- <-]; (split; [done|]); [constructor|by apply H1].
  - destruct (asio_channel.close r c) as [[b c1] es1] eqn:E. intros [= <- <-]. by eapply close_wired.
Qed.

(** A [paired] list that closes runs the callback of the channel itself. *)
Lemma send_closes id data c c' es r rs :
  wired_channel id c → asio_channel.send data c = (c', es) → asio_channel.close_events es = r :: rs →
  asio_channel.close_callbacks es = [id].
Proof.
  intros (Hh & Hc & Hi) [(_ & -> & ->)|[(_ & _ & _ & -> & fc & ->)|Hs]]%asio_channel.send_spec He; [done| |].
  - unfold asio_channel.on_close. by rewrite Hh, Hc.
  - destruct Hs as (_ & _ & _ & c1 & es1 & em & pk & -> & Ht & ->).
    apply asio_channel.try_write_spec in Ht as (? & _ & [(_ & _ & -> & _)|(_ & -> & _)] & _); done.
Qed.
End channel.

(** ** What leaves the game server's table is removed from the network server's *)

Definition synced {A} (m : M A) : Prop := ∀ s a s', wired s → m s = Done a s' →
  wired s' ∧ ∃ l, removed_ s' = removed_ s ++ l
    ∧ dom (channels_ s') = dom (channels_ s) ∖ list_to_set l.

Lemma synced_same s s' :
  channels_ s' = channels_ s → removed_ s' = removed_ s → wired s →
  wired s' ∧ ∃ l, removed_ s' = removed_ s ++ l ∧ dom (channels_ s') = dom (channels_ s) ∖ list_to_set l.
Proof.
  intros E1 E2 Hw. unfold wired. rewrite E1, E2. split; [done|]. exists []. rewrite app_nil_r.
  split; [done|]. cbn. by rewrite difference_empty_L.
Qed.

Lemma synced_bind {A B} (m : M A) (f : A → M B) : synced m → (∀ a, synced (f a)) → synced (m ≫= f).
Proof.
  intros Hm Hf s b s' Hw (a & s1 & E1 & E2)%bind_done.
  destruct (Hm _ _ _ Hw E1) as (Hw1 & l1 & R1 & D1). destruct (Hf _ _ _ _ Hw1 E2) as (Hw2 & l2 & R2 & D2).
  split; [done|]. exists (l1 ++ l2). rewrite R2, R1, D2, D1, app_assoc. split; [done|].
  rewrite list_to_set_app_L. set_solver.
Qed.
Lemma synced_ret {A} (a : A) : synced (mret a).
Proof. intros s b s' Hw [= <- <-]. by apply synced_same. Qed.
Lemma synced_gets {A} (f : server → A) : synced (gets f).
Proof. intros s b s' Hw [= <- <-]. by apply synced_same. Qed.
Lemma synced_undefined {A} : synced (@undefined A).
Proof. done. Qed.
Lemma synced_modify f :
  (∀ s, channels_ (f s) = channels_ s ∧ removed_ (f s) = removed_ s) → synced (modify f).
Proof. intros Hf s b s' Hw [= <- <-]. destruct (Hf s). by apply synced_same. Qed.
Lemma synced_game_service : synced game_service.
Proof.
  intros s b s' Hw. unfold game_service. destruct (use_ecs s); [|done]. intros [= <- <-].
  by apply synced_same.
Qed.
Lemma synced_with_mtx {A} (m : M A) : synced m → synced (with_mtx m).
Proof.
  intros Hm s b s' Hw. unfold with_mtx. destruct (mtx_ s); [done|].
  destruct (m (s <| mtx_ := true |>)) as [a s1| |] eqn:E; [|done..]. intros [= <- <-].
  apply Hm in E; [exact E|exact Hw].
Qed.
Lemma synced_for_each {A} (l : list A) f : (∀ x, synced (f x)) → synced (for_each l f).
Proof. intros Hf. induction l as [|x l IH]; [apply synced_ret|]. by apply synced_bind. Qed.
Lemma synced_parsed {A} (r : ProtocolBase.outcome A) bad k :
  synced bad → (∀ a, synced (k a)) → synced (parsed r bad k).
Proof. intros Hb Hk. destruct r; [apply Hk|done|done]. Qed.

Create HintDb synced.
#[export] Hint Resolve synced_ret synced_gets synced_undefined synced_game_service : synced.

(** Follow the structure of a handler. *)
Ltac solve_synced :=
  repeat first
    [ progress intros
    | solve [eauto with synced nocore]
    | match goal with |- synced (mbind _ _) => apply synced_bind end
    | apply synced_with_mtx | apply synced_for_each | apply synced_parsed
    | apply synced_modify; done
    | case_match ].

(** *** [on_close] alone *)

(** The tables and logs that the rest of the server does not touch in [on_close]. *)
Definition tables (s : server) := (config_maps s, channels_ s, sent_ s, removed_ s).
Definition kept {A} (m : M A) : Prop := ∀ s a s', m s = Done a s' → tables s' = tables s.

Lemma kept_bind {A B} (m : M A) (f : A → M B) : kept m → (∀ a, kept (f a)) → kept (m ≫= f).
Proof.
  intros Hm Hf s b s' (a & s1 & E1 & E2)%bind_done. by rewrite (Hf _ _ _ _ E2), (Hm _ _ _ E1).
Qed.
Lemma kept_gets {A} (f : server → A) : kept (gets f).
Proof. by intros s b s' [= <- <-]. Qed.
Lemma kept_ret {A} (a : A) : kept (mret a).
Proof. by intros s b s' [= <- <-]. Qed.
Lemma kept_modify f : (∀ s, tables (f s) = tables s) → kept (modify f).
Proof. intros Hf s b s' [= <- <-]. apply Hf. Qed.
Lemma kept_game_service : kept game_service.
Proof. intros s b s'. unfold game_service. destruct (use_ecs s); [|done]. by intros [= <- <-]. Qed.

Local Ltac solve_kept :=
  repeat first
    [ progress intros | apply kept_game_service | apply kept_gets | apply kept_ret
    | match goal with |- kept (mbind _ _) => apply kept_bind end
    | apply kept_modify; done | case_match ].

Lemma on_close_tables id r s a s' :
  on_close id r s = Done a s' →
  tables s' = (config_maps s, delete id (channels_ s), sent_ s, removed_ s).
Proof.
  unfold on_close. intros (x & s1 & E1 & E2)%bind_done.
  assert (tables s1 = (config_maps s, delete id (channels_ s), sent_ s, removed_ s)) as <-.
  { revert E1. unfold with_mtx. destruct (mtx_ s); [done|].
    unfold gets, modify, mbind, M_bind, mret, M_ret. by intros [= <- <-]. }
  revert E2. destruct x as [[entity db_id] strand]. generalize s1 a s'.
  unfold post_save, get_comp, on_modify_world, skip. clear.
  match goal with |- ∀ s a s', ?m s = _ → _ => change (kept m) end. solve_kept.
Qed.

(** ... and with the close callback behind it. *)
Lemma synced_closed id r : synced (channel_closed id r [id]).
Proof.
  intros s a s' Hw. rewrite channel_closed_run. destruct (on_close id r s) as [u s1| |] eqn:E; [|done..].
  intros [= <- <-]. apply on_close_tables in E as [= _ Ec _ Er]. unfold wired. cbn. rewrite Ec, Er. split.
  - intros i c [_ Hc]%lookup_delete_Some. by apply Hw.
  - exists [id]. split; [done|]. rewrite dom_delete_L. set_solver.
Qed.

(** The network server runs the callbacks that the step has noted. *)
Lemma run_callbacks_spec ids a :
  run_callbacks ids a = a <| owned_ ::= (.∖ list_to_set ids) |>.
Proof.
  unfold run_callbacks. revert a. induction ids as [|id ids IH]; intros a.
  - destruct a. unfold set. cbn. by rewrite difference_empty_L.
  - cbn [foldl]. rewrite IH. unfold channel_removed. destruct a. unfold set. cbn. f_equal. set_solver.
Qed.

Lemma callbacks_between_app s s' l : removed_ s' = removed_ s ++ l → callbacks_between s s' = l.
Proof. unfold callbacks_between. intros ->. apply drop_app_length. Qed.

Lemma on_accept_tables id c s a s' :
  on_accept id c s = Done a s' →
  tables s' = (config_maps s, <[id := c]> (channels_ s), sent_ s, removed_ s).
Proof.
  unfold on_accept, with_mtx. destruct (mtx_ s); [done|].
  unfold update_player_map, modify, gets, skip, mbind, M_bind, mret, M_ret. cbn.
  by destruct (main_thread_manager_ s); intros [= <- <-].
Qed.

Section synced.
Context `{HashOrder} `{PriorityQueue} {AO : ArgOrder}.
Context (token : list Z → option Z) (upd : f32 → world → world).

(** Replacing a channel by one that is wired as well. *)
Lemma wired_insert id c c' s :
  wired s → channels_ s !! id = Some c → wired_channel id c' →
  wired (s <| channels_ ::= <[id := c']> |>)
  ∧ dom (channels_ (s <| channels_ ::= <[id := c']> |>)) = dom (channels_ s).
Proof.
  intros Hw Hc Hc'. split; [by apply map_Forall_insert_2|]. cbn. rewrite dom_insert_lookup_L; [done|by exists c].
Qed.

Lemma synced_channel_send id pkt : synced (channel_send id pkt).
Proof.
  intros s a s' Hw. unfold channel_send. destruct (channels_ s !! id) as [c|] eqn:Hc; [|done].
  destruct (asio_channel.send pkt c) as [c' es] eqn:Hs.
  destruct (send_wired id pkt c c' es (Hw _ _ Hc) Hs) as [Hc' _].
  destruct (wired_insert id c c' s Hw Hc Hc') as [Hw1 Hd].
  destruct (asio_channel.close_events es) as [|r rs] eqn:He.
  - intros [= _ <-]. split; [exact Hw1|]. exists []. rewrite app_nil_r. split; [done|].
    etrans; [exact Hd|]. cbn. by rewrite difference_empty_L.
  - rewrite (send_closes id pkt c c' es _ _ (Hw _ _ Hc) Hs He).
    intros (Hw2 & l & Hr & Hd2)%synced_closed; [|done]. split; [done|]. exists l. split; [done|].
    by rewrite Hd2, Hd.
Qed.
#[local] Hint Resolve synced_channel_send : synced.

Lemma synced_send_frame id msg data : synced (send_frame id msg data).
Proof. unfold send_frame. solve_synced. Qed.
#[local] Hint Resolve synced_send_frame : synced.

Lemma synced_dispatch cmd id data : synced (dispatch token cmd id data).
Proof.
  unfold dispatch, call, handle_ping, handle_echo, handle_login, handle_move, handle_chat, handle_attack,
    handle_map_enter, handle_guild_create, handle_guild_join, handle_guild_leave, login_without_db,
    spawn_player, find_and_send, send_test_frame, broadcast, broadcast_except, route_packet_to_map,
    get_player_map, update_player_map, connected, on_modify_world, skip.
  solve_synced.
Qed.
#[local] Hint Resolve synced_dispatch : synced.

Lemma synced_login_done r id name : synced (login_done r id name).
Proof.
  unfold login_done, spawn_player, find_and_send, connected, on_modify_world, skip. solve_synced.
Qed.

Lemma synced_collect found : synced (collect_entries found).
Proof.
  induction found as [|[db_id e] found IH]; [apply synced_ret|]. simpl. unfold get_comp. solve_synced.
Qed.
#[local] Hint Resolve synced_login_done synced_collect : synced.

(** The callbacks of a channel, in order. *)
Lemma synced_callbacks id es : paired id es → synced (for_each es (callback token)).
Proof.
  induction 1 as [|e es He _ IH|r es _ IH]; [apply synced_ret| |].
  - apply synced_bind; [|done]. unfold callback, skip. destruct e; done || solve_synced.
  - assert (synced (channel_closed id r [id] ;; for_each es (callback token))) as Hs
      by (apply synced_bind; [apply synced_closed|done]).
    intros s a s' Hw E. apply (Hs s a s' Hw). revert E. cbn [for_each foldr callback].
    unfold channel_closed, mbind, M_bind. by destruct (on_close id r s).
Qed.

Lemma synced_channel_io id o : synced (channel_io token id o).
Proof.
  intros s a s' Hw. unfold channel_io. destruct (channels_ s !! id) as [c|] eqn:Hc.
  2:{ intros [= _ <-]. by apply synced_same. }
  destruct (asio_channel.step o c) as [[c' es]|] eqn:Hs; [|done].
  destruct (step_wired id o c c' es (Hw _ _ Hc) Hs) as [Hc' Hes].
  destruct (wired_insert id c c' s Hw Hc Hc') as [Hw1 Hd].
  intros (Hw2 & l & Hr & Hd2)%(synced_callbacks id es Hes); [|done]. split; [done|].
  exists l. split; [done|]. by rewrite Hd2, Hd.
Qed.

Lemma synced_step ev : (∀ id now, ev ≠ Accept id now) → synced (step token upd ev).
Proof.
  intros Hev. destruct ev as [id now|id o|id cmd data|r id name| |dt|m dt]; simpl.
  - by destruct (Hev id now).
  - apply synced_channel_io.
  - apply synced_dispatch.
  - apply synced_login_done.
  - unfold flush_players, skip. solve_synced.
  - apply synced_modify. intros s. destruct (main_thread_manager_ s); [|done].
    by destruct (MainThreadManager.loop_body _ _ _ _).
  - apply synced_modify. intros s. destruct (main_thread_manager_ s) as [t0|]; [|done].
    cbv zeta. case_match; [|done]. by destruct (MapThread.loop_body _ _ _) as [? [? ?]].
Qed.

(** ** The tables agree *)

(** [k] accepts may still come before the counter leaves [int]. *)
Record tables_ok (k : Z) (y : system) : Prop := mkTablesOk
  { t_wired : wired (game y);
    t_same : dom (channels_ (game y)) = owned_ (net y);
    t_ids : ∀ id, id ∈ owned_ (net y) → 1 ≤ id < next_channel_id_ (net y);
    t_next : 1 ≤ next_channel_id_ (net y) ∧ next_channel_id_ (net y) + k < 2 ^ 31 }.

Definition is_accept (ev : sys_event) : bool :=
  match ev with AcceptDone false _ => true | _ => false end.

(** The accepts among the events. *)
Definition accepts (evs : list sys_event) : Z := zlen (filter is_accept evs).

Lemma accepts_cons ev evs : accepts (ev :: evs) = (if is_accept ev then 1 else 0) + accepts evs.
Proof.
  unfold accepts. rewrite filter_cons. destruct (is_accept ev); simpl.
  - by rewrite zlen_cons.
  - done.
Qed.

Lemma game_step_ok k y ev s :
  (∀ id now, ev ≠ Accept id now) → tables_ok k y → step token upd ev (game y) = Done tt s →
  tables_ok k (mkSystem (run_callbacks (callbacks_between (game y) s) (net y)) s).
Proof.
  intros Hev [Hw Hsame Hids Hnext] E. apply (synced_step ev Hev) in E as (Hw' & l & Hr & Hd); [|done].
  rewrite (callbacks_between_app _ _ _ Hr), run_callbacks_spec.
  split; cbn; [done|by rewrite Hd, Hsame|set_solver|done].
Qed.

Lemma accept_step_ok k y now s :
  tables_ok k y → 0 < k →
  step token upd (Accept (next_channel_id_ (net y)) now) (game y) = Done tt s →
  (next_channel_id_ (net y) ∉ dom (channels_ (game y))) ∧ callbacks_between (game y) s = [] ∧
  tables_ok (k - 1) (mkSystem (accept_done false (net y)).2 s).
Proof.
  intros [Hw Hsame Hids Hnext] Hk E. set (id := next_channel_id_ (net y)) in *.
  assert (Hnew : id ∉ owned_ (net y)) by (intros Hin%Hids; lia).
  apply on_accept_tables in E as [= _ Ec _ Er].
  split; [by rewrite Hsame|]. split; [apply callbacks_between_app; by rewrite Er, app_nil_r|].
  assert (Hn : i32 (id + 1) = id + 1) by (apply i32_small; unfold is_i32; lia).
  split; cbn; fold id; rewrite ?Hn, ?Ec; [| | |lia].
  - unfold wired. cbn. rewrite Ec. by apply map_Forall_insert_2.
  - by rewrite dom_insert_L, Hsame.
  - intros id' [->%elem_of_singleton|Hin%Hids]%elem_of_union; lia.
Qed.

Lemma sys_step_ok k y ev y' :
  tables_ok (k + (if is_accept ev then 1 else 0)) y → 0 ≤ k →
  sys_step token upd ev y = Some y' → tables_ok k y'.
Proof.
  intros Hok Hk. destruct ev as [ec now|ev]; unfold sys_step.
  - destruct (negb (accepting (net y))).
    { intros [= <-]. destruct Hok as [? ? ? ?]. split; [done|done|done|]. simpl in *. destruct ec; lia. }
    destruct ec; simpl in Hok; cbn [accept_done].
    { intros [= <-]. destruct Hok as [? ? ? ?]. split; simpl; [done|done|done|lia]. }
    match goal with |- context [step token upd ?e ?g] =>
      destruct (step token upd e g) as [[] s| |] eqn:E end; [|done..]. intros [= <-].
    destruct (accept_step_ok (k + 1) y now s Hok ltac:(lia) E) as (_ & -> & H').
    by replace (k + 1 - 1) with k in H' by lia.
  - simpl in Hok. rewrite Z.add_0_r in Hok. destruct ev; [by intros [= <-]|..];
      (match goal with |- context [step token upd ?e ?g] =>
        destruct (step token upd e g) as [[] s| |] eqn:E end; [|done..];
       intros [= <-]; eapply game_step_ok; [|exact Hok|exact E]; done).
Qed.

Lemma sys_run_ok k evs y y' :
  tables_ok (k + accepts evs) y → 0 ≤ k → sys_run token upd evs y = Some y' → tables_ok k y'.
Proof.
  revert y. induction evs as [|ev evs IH]; intros y Hok Hk; simpl.
  - intros [= <-]. by rewrite Z.add_0_r in Hok.
  - intros (y1 & E1 & E2)%bind_Some. apply (IH y1); [|done|done].
    apply (sys_step_ok _ y ev); [|unfold accepts; pose proof (zlen_nonneg (filter is_accept evs)); lia|done].
    rewrite accepts_cons in Hok. replace (k + accepts evs + (if is_accept ev then 1 else 0))
      with (k + ((if is_accept ev then 1 else 0) + accepts evs)) by lia. done.
Qed.

(** The server as [game_server::init] leaves it when listening succeeded. *)
Definition listening (opt : socket_option) (s : server) : system :=
  mkSystem (do_accept ((set_on_frame (init opt make)) <| acceptor_open := true |>)) s.

(** C21: (invariant) In every state the accept loop and the game server reach
    together, the channels the game server has pointers to are exactly those the
    network server owns, so no pointer dangles: whenever a channel closes, by
    itself or inside of a handler that sends, [on_close] takes it out of the one
    table and the close callback, which runs next, out of the other. And every
    id in the tables was handed out before and is below the next one, so a new
    connection never takes the id of a live one (for fewer than 2^31 - 2
    connections). *)
Theorem channel_tables_agree opt e maps mysql dao redis evs y :
  sys_run token upd evs (listening opt (game_server.init e maps mysql dao redis)) = Some y →
  accepts evs < 2 ^ 31 - 1 →
  dom (channels_ (game y)) = owned_ (net y) ∧
  (∀ id, id ∈ owned_ (net y) → 1 ≤ id < next_channel_id_ (net y)) ∧
  next_channel_id_ (net y) ∉ dom (channels_ (game y)).
Proof.
  intros Hr Hk. assert (Hok : tables_ok (0 + accepts evs) (listening opt (game_server.init e maps mysql dao redis))).
  { assert (channels_ (game_server.init e maps mysql dao redis) = ∅) as E.
    { unfold game_server.init. by destruct e; [destruct (initialize_threading_system _ _)|]. }
    split; simpl; [|by rewrite E, dom_empty_L|set_solver|lia]. unfold wired. cbn. rewrite E.
    apply map_Forall_empty. }
  destruct (sys_run_ok 0 evs _ y Hok ltac:(lia) Hr) as [_ Hs Hi Hn].
  split; [done|]. split; [done|]. rewrite Hs. intros Hin%Hi. lia.
Qed.
End synced.

(** ** Witness *)

#[local] Existing Instances key_order min_queue buffer_first.

Definition accept_demo : list sys_event :=
  [AcceptDone false 0; AcceptDone true 0; AcceptDone false 5;
   GameEvent (Io 1 asio_channel.ReadError)].

Lemma channel_tables_agree_witness :
  match sys_run (λ _, None) (λ _ w, w) accept_demo
          (listening socket_option_default (game_server.init true [] false false false)) with
  | Some y => owned_ (net y) = {[2]} ∧ dom (channels_ (game y)) = owned_ (net y)
  | None => False
  end.
Proof.
  assert (match sys_run (λ _, None) (λ _ w, w) accept_demo
            (listening socket_option_default (game_server.init true [] false false false)) with
          | Some y => bool_decide (owned_ (net y) = {[2]}) | None => false end = true) as Hd
    by (vm_compute; reflexivity).
  destruct (sys_run (λ _, None) (λ _ w, w) accept_demo _) as [y|] eqn:Hr; [|done].
  split; [by apply bool_decide_eq_true in Hd|].
  apply (channel_tables_agree (λ _, None) (λ _ w, w) socket_option_default true [] false false false
    accept_demo y Hr). by_decide.
Defined.
End asio_server.
