(* ===== verification/Boot.v ===== *)
(** * Start-up ([src/server/main.cpp], [game_server::init])

    From the configuration to a listening server: the database pools and the
    threads that use them, Redis, the handlers and the acceptor, in the order of
    the code, with the points where it gives up or goes on without a part. *)

From S2P Require Import Prelude FrameCodec Channel Floats Text Components Ecs Systems Threads.
From S2P Require Import GameServer ServerConfig DbConnection MemDb DbPoolLaws PlayerDaoLaws RedisClient AsioServer.
Import server_config(ServerConfig, databases, DbConfig, db_enabled, pool_size, key, cfg_use_ecs, maps).

Module boot.

(** [main]: the socket options of the configuration. *)
Definition socket_options (cfg : ServerConfig) : socket_option :=
  set_tcp_no_delay (server_config.tcp_no_delay cfg)
    (set_backlog (server_config.backlog cfg) (set_reuse_address true socket_option_default)).

(** The number of threads of the database executor. *)
Definition db_threads (cfg : ServerConfig) : Z :=
  match databases cfg !! key "game" with
  | Some d => if db_enabled d then Z.max 1 (pool_size d) else 4
  | None => 4
  end.

(** The configuration handed to the Redis client; the timeout is its default. *)
Definition redis_config (cfg : ServerConfig) : redis_client.Config :=
  let r := server_config.redis cfg in
  redis_client.mkConfig (server_config.redis_host r) (server_config.redis_port r)
    (server_config.redis_password r) (server_config.db_index r) 1000.

Record booted (R : Type) := mkBooted
  { bt_system : asio_server.system;
    bt_manager : option db.manager;
    bt_redis : option (redis_client.state R);
    bt_threads : Z;
    bt_flush : bool }.                             (* schedule_flush was called *)
#[global] Arguments mkBooted {R} _ _ _ _ _.
#[global] Arguments bt_system {R} _.
#[global] Arguments bt_manager {R} _.
#[global] Arguments bt_redis {R} _.
#[global] Arguments bt_threads {R} _.
#[global] Arguments bt_flush {R} _.

(** [init] returned true or false, or an exception ended the process. *)
Inductive boot_result (R : Type) := Up (b : booted R) | Down | Crashed.
#[global] Arguments Up {R} b.
#[global] Arguments Down {R}.
#[global] Arguments Crashed {R}.

Section boot.
Context {W R : Type} `{MySQL W} `{HiRedis R} `{HashOrder} `{PriorityQueue}.

Definition start_redis (cfg : ServerConfig) (r : R) : option (redis_client.state R) :=
  if server_config.redis_enabled (server_config.redis cfg) then
    let '(ok, c) := redis_client.connect (redis_client.mkState (redis_config cfg) None r) in
    if ok : bool then Some c else None
  else None.

Definition init (make_address : list Z → option Z) (errs : asio_server.listen_errors)
    (cfg : ServerConfig) (w : W) (r : R) : boot_result R :=
  match db.manager_init (databases cfg) db.make_manager w with
  | db.Ok (ok, m, _) =>
      let manager := if ok : bool then Some m else None in
      let dao := bool_decide (is_Some (m ← manager; db.manager_pool m db.Game)) in
      let redis := start_redis cfg r in
      let game := game_server.init (cfg_use_ecs cfg) (maps cfg) true dao (bool_decide (is_Some redis)) in
      let net := asio_server.set_on_frame (asio_server.init (socket_options cfg) asio_server.make) in
      match asio_server.listen make_address (server_config.host cfg) errs net with
      | Some (true, net) => Up (mkBooted (asio_server.mkSystem net game) manager redis (db_threads cfg) dao)
      | Some (false, _) => Down
      | None => Crashed
      end
  | _ => Crashed
  end.

(** ** The database part *)

Definition role_ready (cfgs : gmap (list Z) DbConfig) (m : db.manager) (r : db.DbRole) : Prop :=
  ∀ p, db.manager_pool m r = Some p →
    ∃ d, cfgs !! db.role_key r = Some d ∧ db_enabled d = true ∧
         0 ≤ pool_size d ∧ ready (Z.to_nat (pool_size d)) p.

(** One role changes its own entry only, and only to a pool that opened. *)
Lemma init_role_ok cfgs r m n (w : W) m' n' w' :
  length m = 3%nat → (∀ r', role_ready cfgs m r') →
  db.init_role cfgs r (m, n, w) = db.Ok (m', n', w') →
  length m' = 3%nat ∧ ∀ r', role_ready cfgs m' r'.
Proof.
  intros Hl Hm. unfold db.init_role. destruct (cfgs !! db.role_key r) as [d|] eqn:Hd.
  2:{ by intros [= <- <- <-]. }
  destruct (db_enabled d) eqn:He; simpl; [|by intros [= <- <- <-]].
  destruct (Z.lt_ge_cases (pool_size d) 0) as [Hn|Hn]; [by rewrite open_negative|].
  destruct (open_spec d w 0 Hn) as (b & s' & -> & Hb). destruct b; [|by intros [= <- <- <-]].
  intros [= <- <- <-]. split; [by rewrite length_insert|]. intros r' p.
  unfold db.manager_pool. destruct (decide (r' = r)) as [->|Hne].
  - rewrite list_lookup_insert_eq by (rewrite Hl; destruct r; simpl; lia). intros [= <-]. by exists d.
  - rewrite list_lookup_insert_ne by (by destruct r, r'). apply Hm.
Qed.

Lemma manager_init_ok cfgs (w : W) b m w' :
  db.manager_init cfgs db.make_manager w = db.Ok (b, m, w') → ∀ r, role_ready cfgs m r.
Proof.
  assert (Hinit : ∀ r, role_ready cfgs db.make_manager r) by (intros [] p; done).
  unfold db.manager_init. intros E.
  destruct (db.init_role cfgs db.Game (db.make_manager, 0, w)) as [[[m1 n1] w1]| |] eqn:E1; [|done..].
  apply init_role_ok in E1 as [L1 R1]; [|done|done].
  destruct (db.init_role cfgs db.Guild (m1, n1, w1)) as [[[m2 n2] w2]| |] eqn:E2; [|done..].
  apply init_role_ok in E2 as [L2 R2]; [|done|done].
  destruct (db.init_role cfgs db.Common (m2, n2, w2)) as [[[m3 n3] w3]| |] eqn:E3; [|done..].
  apply init_role_ok in E3 as [L3 R3]; [|done|done]. by injection E as _ <- _.
Qed.

(** With connections for all threads every handle is valid, and without any none is. *)
Lemma pool_serves N n (s0 s : db.state W) held t c :
  ready N (db.s_pool s0) → n = Nat.max 1 N → rtc (pool_step n) (s0, ∅) (s, held) →
  held !! t = Some c → db.valid c = bool_decide (1 ≤ N)%nat.
Proof.
  intros Hready -> Hr Hc. pose proof (pool_inv_init N (Nat.max 1 N) s0 Hready) as Hinv. case_bool_decide.
  - eapply (pool_all_valid N _ (s0, ∅) (s, held)); [|exact Hinv| |exact Hr|exact Hc]; [lia|].
    intros ? ?. cbn. by rewrite lookup_empty.
  - pose proof (inv_perm _ _ _ (pool_inv_reachable _ _ _ _ Hinv Hr)) as Hperm. cbn in Hperm.
    assert (N = 0%nat) as -> by lia. apply Permutation_nil_r, app_eq_nil in Hperm as [_ Hnil].
    pose proof (held_indices_delete held t c Hc) as Hd. rewrite Hnil in Hd. unfold held_index in Hd.
    destruct (db.valid c); [|done]. by apply Permutation_length in Hd.
Qed.

(** C31: (refinement) A server that started with a player table has an open game
    pool with all the connections of the configuration and a database thread for
    each of them, but at least one thread. In any interleaving of these threads
    what an [acquire] of a job returned is a connection when [pool_size] is at
    least 1: none times out. With [pool_size] 0, which the start accepts, none
    is. *)
Theorem booted_pool_suffices make_address errs cfg (w : W) (r : R) b :
  init make_address errs cfg w r = Up b →
  game_server.player_dao_ (asio_server.game (bt_system b)) = true →
  ∃ d m p, databases cfg !! key "game" = Some d ∧ bt_manager b = Some m ∧
    db.manager_pool m db.Game = Some p ∧ ready (Z.to_nat (pool_size d)) p ∧
    bt_threads b = Z.max 1 (pool_size d) ∧
    ∀ (w' : W) s held t c,
      rtc (pool_step (Z.to_nat (bt_threads b))) (db.mkState p w' 0, ∅) (s, held) →
      held !! t = Some c → db.valid c = bool_decide (1 ≤ pool_size d).
Proof.
  unfold init. destruct (db.manager_init _ _ _) as [[[ok m] w1]| |] eqn:Em; [|done..].
  pose proof (manager_init_ok _ _ _ _ _ Em) as Hready.
  destruct (asio_server.listen _ _ _ _) as [[[] net]|]; [|done..]. intros [= <-]. simpl.
  set (manager := if ok then Some m else None). intros Hdao.
  assert (is_Some (m ← manager; db.manager_pool m db.Game)) as [p Hp].
  { revert Hdao. unfold game_server.init. destruct (cfg_use_ecs cfg);
      [destruct (game_server.initialize_threading_system _ _)|]; simpl; by intros ?%bool_decide_eq_true. }
  apply bind_Some in Hp as (m' & Hm' & Hp).
  assert (m' = m) as -> by (unfold manager in Hm'; by destruct ok; simplify_eq).
  destruct (Hready db.Game p Hp) as (d & Hd & He & Hn & Hrdy). change (db.role_key db.Game) with (key "game") in Hd.
  exists d, m, p. split; [done|]. split; [done|]. split; [done|]. split; [done|].
  assert (Ht : db_threads cfg = Z.max 1 (pool_size d)) by (unfold db_threads; by rewrite Hd, He).
  split; [done|]. intros w' s held t c Hr Hc. rewrite Ht in Hr.
  rewrite (pool_serves _ (Z.to_nat (Z.max 1 (pool_size d))) (db.mkState p w' 0) s held t c Hrdy); [|lia|done|done].
  apply bool_decide_ext. lia.
Qed.
End boot.

(** ** Witness *)

#[local] Existing Instances key_order min_queue.

Definition boot_config : ServerConfig :=
  server_config.ServerConfig_default <| databases ::= <[key "game" :=
    server_config.DbConfig_default <| db_enabled := true |> <| pool_size := 2 |>]> |>.
Definition no_errors : asio_server.listen_errors := asio_server.mkErrors false false false false.
Definition boot_demo : boot_result redis_client.mem :=
  init (λ _, Some 0) no_errors boot_config (memdb.start [] []) (redis_client.mkMem 1 ∅ ∅).

Lemma booted_pool_suffices_witness :
  match boot_demo with
  | Up b => ∃ d m p, databases boot_config !! key "game" = Some d ∧ bt_manager b = Some m ∧
              db.manager_pool m db.Game = Some p ∧ ready (Z.to_nat (pool_size d)) p
  | _ => False
  end.
Proof.
  assert (match boot_demo with
          | Up b => game_server.player_dao_ (asio_server.game (bt_system b)) | _ => false end = true) as Hd
    by (vm_compute; reflexivity).
  destruct boot_demo as [b| |] eqn:E; [|done..].
  destruct (booted_pool_suffices (λ _, Some 0) no_errors boot_config (memdb.start [] [])
    (redis_client.mkMem 1 ∅ ∅) b E Hd) as (d & m & p & H1 & H2 & H3 & H4 & _).
  by exists d, m, p.
Defined.

(** ** Configurations that the code accepts but cannot serve *)

(** With a pool of size 0 the start succeeds, and every job then waits in vain. *)
Lemma empty_pool_serves_nobody {W} `{MySQL W} (p : db.pool) (w : W) :
  ready 0 p → db.acquire (db.mkState p w 0) = db.Ok (db.no_connection, db.mkState p w 0).
Proof. intros (_ & _ & Hf & _). unfold db.acquire. rewrite bind_ask. simpl. by rewrite Hf. Qed.

(** A host name instead of an address ends the process. *)
Lemma host_name_crashes {W R} `{MySQL W} `{HiRedis R} make_address errs cfg (w : W) (r : R) :
  make_address (server_config.host cfg) = None → init make_address errs cfg w r = Crashed.
Proof.
  intros Ha. unfold init. destruct (db.manager_init _ _ _) as [[[ok m] w1]| |]; [|done..].
  unfold asio_server.listen. by rewrite Ha.
Qed.
End boot.
