(* ===== verification/Client.v ===== *)
(** * The clients ([src/client/game_bot.{hpp,cpp}], [game_client.cpp],
    [simple_client.cpp])

    The bot that speaks the server's protocol, with its own receive loop, and the
    two demo clients.  What a client writes is the list of packets handed to
    [asio::write]; the pauses between them are left out.  Two logs of the bot, the
    frames that [on_frame] got and the notices it printed, are there to be observed;
    the code has no such members. *)

From S2P Require Import Prelude FrameCodec Channel ChannelLaws Floats Text.
From S2P Require Import ProtocolBase ProtocolPlayer ProtocolLaws.
Import frame_codec.

(** The wire bits of a [float]. *)
Definition bits_of_f32 (x : f32) : Z :=
  let sign (s : bool) := if s then 2 ^ 31 else 0 in
  match x with
  | S754_zero s => sign s
  | S754_infinity s => sign s + 0x7F800000
  | S754_nan => 0x7FC00000
  | S754_finite s m e =>
      sign s + (if Zpos m <? 2 ^ 23 then Zpos m else (e + 150) * 2 ^ 23 + (Zpos m - 2 ^ 23))
  end.

Example bits_of_f32_20 : f32_of_bits (bits_of_f32 f20) = f20 ∧ bits_of_f32 f20 = 0x41A00000.
Proof. vm_compute. done. Qed.

Module game_bot.

(** What [on_frame] prints. *)
Inductive notice :=
| GotPing | GotPong
| GotLogin (res : option login_res.t)          (* [None]: shown as raw bytes *)
| GotMove (size : Z) | GotChat (size : Z) | GotOther (cmd size : Z).

Record t := mk {
  player_name_ : list Z;
  session_token_ : list Z;
  socket_open : bool;
  running_ : bool;
  written : list (list Z);
  acc_ : list Z;
  acc_offset_ : Z;
  got : list (Z * list Z);                     (* log: the arguments of [on_frame] *)
  notices : list notice }.
#[global] Instance t_eta : Settable t := λ b,
  mk (player_name_ b) (session_token_ b) (socket_open b) (running_ b) (written b) (acc_ b)
     (acc_offset_ b) (got b) (notices b).

Definition make (player_name : list Z) : t := mk player_name [] false false [] [] 0 [] [].

Definition authenticate : list Z := [].

(** ** Sending *)

Definition packet (cmd : Z) (data : list Z) : list Z := pack cmd 0 1 0 data.

Definition send_frame (cmd : Z) (data : list Z) (b : t) : t :=
  if socket_open b then b <| written ::= λ l, l ++ [packet cmd data] |> else b.

Definition send_login (b : t) : t :=
  send_frame 1001 (login_req.serialize (login_req.mk (player_name_ b) (session_token_ b))) b.
Definition send_move (x y z : f32) (b : t) : t :=
  send_frame 1002 (player_move_req.serialize
    (player_move_req.mk (bits_of_f32 x) (bits_of_f32 y) (bits_of_f32 z) 0 0)) b.
Definition send_chat (msg : list Z) (b : t) : t := send_frame 1003 msg b.
Definition send_ping (b : t) : t := send_frame 1 [] b.

(** [connect], given whether resolving and connecting failed. *)
Definition connect (resolve_error connect_error : bool) (b : t) : bool * t :=
  let b := b <| session_token_ := authenticate |> in
  if resolve_error then (false, b)
  else if connect_error then (false, b)
  else (true, send_login (b <| socket_open := true |> <| running_ := true |>)).

Definition chat_text (i : Z) (name : list Z) : list Z :=
  bytes_of_string "step=" ++ to_string i ++ bytes_of_string " from " ++ name.

(** The loop of [run] from [i] on, [n] moves to go.  [i * 5] and [i * 3] are products of
    [int]s: [None] is the undefined behaviour of an overflow. *)
Fixpoint run_loop (n : nat) (i : Z) (b : t) : option t :=
  match n with
  | O => Some b
  | S n =>
      if negb (running_ b) then Some b else
      if decide (is_i32 (i * 5) ∧ is_i32 (i * 3)) then
        let b := send_move (f32_of_Z (i * 5)) f0 (f32_of_Z (i * 3)) b in
        let b := if i mod 3 =? 0 then send_chat (chat_text i (player_name_ b)) b else b in
        run_loop n (i + 1) b
      else None
  end.
Definition run (move_count : nat) (b : t) : option t :=
  b ← run_loop move_count 0 b; Some (send_ping b).

Definition disconnect (b : t) : t := b <| running_ := false |> <| socket_open := false |>.

(** ** Receiving *)

Definition note (n : notice) (b : t) : t := b <| notices ::= λ l, l ++ [n] |>.

(** [None]: the parser of the reply leaves the payload. *)
Definition on_frame (cmd : Z) (payload : list Z) (b : t) : option t :=
  let b := b <| got ::= λ l, l ++ [(cmd, payload)] |> in
  if cmd =? 1 then Some (note GotPing (send_frame 2 [] b))
  else if cmd =? 2 then Some (note GotPong b)
  else if cmd =? 1001 then
    match login_res.parse payload with
    | POk res _ => Some (note (GotLogin (Some res)) b)
    | PFalse => Some (note (GotLogin None) b)
    | POob => None
    end
  else if cmd =? 1002 then Some (note (GotMove (zlen payload)) b)
  else if cmd =? 1003 then Some (note (GotChat (zlen payload)) b)
  else Some (note (GotOther cmd (zlen payload)) b).

Fixpoint parse_all (fuel : nat) (b : t) : option t :=
  match fuel with
  | O => None
  | S fuel =>
      match try_parse_one (acc_ b) (acc_offset_ b) with
      | None => None
      | Some (NoFrame off) => Some (b <| acc_offset_ := off |>)
      | Some (Frame hdr payload crc_ok off) =>
          let b := b <| acc_offset_ := off |> in
          if crc_ok then b ← on_frame (frame_codec.cmd hdr) payload b; parse_all fuel b
          else parse_all fuel b
      end
  end.

Definition compact (b : t) : t :=
  if zlen (acc_ b) / 2 <? acc_offset_ b
  then b <| acc_ ::= drop (Z.to_nat (acc_offset_ b)) |> <| acc_offset_ := 0 |> else b.

(** One iteration of [recv_loop] that read [bytes]. *)
Definition recv (bytes : list Z) (b : t) : option t :=
  let b := b <| acc_ ::= λ acc, acc ++ bytes |> in
  b ← parse_all (S (length (acc_ b))) b;
  Some (compact b).
(** [recv_loop] over the results of its reads; it ends when [running_] is off or
    a read fails, which is where the list ends. *)
Fixpoint recv_loop (chunks : list (list Z)) (b : t) : option t :=
  match chunks with
  | [] => Some b
  | ch :: chunks => if running_ b then b ← recv ch b; recv_loop chunks b else Some b
  end.

(** [main] of the client program: the exit code and the bot at the end. *)
Definition main (resolve_error connect_error : bool) (player_name : list Z) : option (Z * t) :=
  let '(ok, b) := connect resolve_error connect_error (make player_name) in
  if ok then b ← run 10 b; Some (0, disconnect b) else Some (1, b).

End game_bot.

(** ** [game_client.cpp]: a header of 8 bytes that the server does not have *)

Module game_client.

Definition le16 (v : Z) : list Z := [byte_at v 0; byte_at v 1].

(** CRC (always 0), message id, length, payload. *)
Definition create_frame (msg_id : Z) (data : list Z) : list Z :=
  [0; 0; 0; 0] ++ le16 msg_id ++ le16 (u16 (zlen data)) ++ data.

Definition float_bytes (x : f32) : list Z :=
  let v := bits_of_f32 x in [byte_at v 0; byte_at v 1; byte_at v 2; byte_at v 3].

(** The four writes of [main]. *)
Definition session : list (list Z) :=
  [create_frame 1 (bytes_of_string "PING");
   create_frame 1001 (bytes_of_string "TestPlayer");
   create_frame 1002 (float_bytes f10 ++ float_bytes f20 ++ float_bytes (f32_of_Z 30));
   create_frame 1003 (bytes_of_string "Hello, server!")].

(** How [main] takes a reply apart: CRC, message id, length, the rest. *)
Definition read_response (response : list Z) : option (Z * Z * Z * list Z) :=
  match response with
  | c0 :: c1 :: c2 :: c3 :: i0 :: i1 :: l0 :: l1 :: data =>
      Some (join32 c0 c1 c2 c3, join16 i0 i1, join16 l0 l1, data)
  | _ => None
  end.
End game_client.

(** ** [simple_client.cpp]: frames of the server's format, payloads of its own *)

Module simple_client.

Definition send_frame (cmd : Z) (payload : list Z) : list Z := pack cmd 0 1 0 payload.

Definition move_payload : list Z :=
  game_client.float_bytes f10 ++ game_client.float_bytes f0 ++ game_client.float_bytes (f32_of_Z 5).
(** The chat text, in UTF-8. *)
Definition greeting : list Z :=
  [0xEC; 0x95; 0x88; 0xEB; 0x85; 0x95; 0xED; 0x95; 0x98; 0xEC; 0x84; 0xB8; 0xEC; 0x9A; 0x94; 0x21].

Definition session : list (Z * list Z) :=
  [(1001, bytes_of_string "TestPlayer"); (1002, move_payload); (1003, greeting); (1, [])].

(** The receive loop, which prints every good frame. *)
Record rx := mkRx { acc : list Z; acc_offset : Z; printed : list (Z * list Z) }.
#[global] Instance rx_eta : Settable rx := λ r, mkRx (acc r) (acc_offset r) (printed r).
Definition start : rx := mkRx [] 0 [].

Fixpoint parse_all (fuel : nat) (r : rx) : option rx :=
  match fuel with
  | O => None
  | S fuel =>
      match try_parse_one (acc r) (acc_offset r) with
      | None => None
      | Some (NoFrame off) => Some (r <| acc_offset := off |>)
      | Some (Frame hdr payload crc_ok off) =>
          let r := r <| acc_offset := off |> in
          parse_all fuel (if crc_ok then r <| printed ::= λ l, l ++ [(frame_codec.cmd hdr, payload)] |>
                          else r)
      end
  end.

Definition recv (bytes : list Z) (r : rx) : option rx :=
  let r := r <| acc ::= λ a, a ++ bytes |> in
  r ← parse_all (S (length (acc r))) r;
  Some (if zlen (acc r) / 2 <? acc_offset r
        then r <| acc ::= drop (Z.to_nat (acc_offset r)) |> <| acc_offset := 0 |> else r).
Fixpoint recv_loop (chunks : list (list Z)) (r : rx) : option rx :=
  match chunks with [] => Some r | ch :: chunks => r ← recv ch r; recv_loop chunks r end.

(** The server refuses its login and its move. *)
Lemma login_refused : login_req.parse (bytes_of_string "TestPlayer") = PFalse.
Proof. vm_compute. reflexivity. Qed.
Lemma move_refused : player_move_req.parse move_payload = PFalse.
Proof. vm_compute. reflexivity. Qed.
End simple_client.
