(* ===== verification/ClientLaws.v ===== *)
(** * What the clients guarantee

    The bot's receive loop against the server's channel, its session as the
    server receives it, and what the server makes of the older client. *)

From S2P Require Import Prelude FrameCodec Channel ChannelLaws Floats Text.
From S2P Require Import ProtocolBase ProtocolPlayer Client.
Import frame_codec shared.

Module bot_laws.
Import game_bot.

(** ** The two receive loops *)

(** What the bot prints for a frame. *)
Definition notice_of (f : Z * Z * list Z) : notice :=
  let '(_, cmd, payload) := f in
  if cmd =? 1 then GotPing else if cmd =? 2 then GotPong
  else if cmd =? 1001 then
    GotLogin (match login_res.parse payload with POk res _ => Some res | _ => None end)
  else if cmd =? 1002 then GotMove (zlen payload)
  else if cmd =? 1003 then GotChat (zlen payload) else GotOther cmd (zlen payload).

(** Every ping is answered by a pong. *)
Definition reply_to (f : Z * Z * list Z) : list (list Z) :=
  let '(_, cmd, _) := f in if cmd =? 1 then [game_bot.packet 2 []] else [].

Definition react (fs : list (Z * Z * list Z)) (b : t) : t :=
  b <| written ::= λ w, w ++ concat (reply_to <$> fs) |>
    <| got ::= λ l, l ++ ((λ '(_, cmd, payload), (cmd, payload)) <$> fs) |>
    <| notices ::= λ l, l ++ (notice_of <$> fs) |>.

(** The bot [b] with the receive buffer of the channel [c]. *)
Definition rx (c : asio_channel.channel) (b : t) : t :=
  b <| acc_ := asio_channel.frame_acc_ c |> <| acc_offset_ := asio_channel.frame_acc_offset_ c |>.

Lemma react_nil b : react [] b = b.
Proof. destruct b. unfold react. cbn. by rewrite !app_nil_r. Qed.
Lemma react_app fs fs' b : react (fs ++ fs') b = react fs' (react fs b).
Proof. unfold react. cbn. by rewrite !fmap_app, concat_app, !app_assoc. Qed.

(** [on_frame] never leaves the payload, and touches only what [react] says. *)
Lemma on_frame_react id cmd payload c b :
  socket_open b = true →
  on_frame cmd payload (rx c b) = Some (rx c (react [(id, cmd, payload)] b)).
Proof.
  intros Ho. unfold on_frame, react, send_frame, note. cbn. rewrite Ho.
  pose proof (mem_safe (M := login_res.t) payload) as Hs. cbn in Hs.
  repeat case_cmp; cbn; rewrite ?app_nil_r; try done.
  destruct (login_res.parse payload); done.
Qed.

Lemma parse_all_react fuel c c' es b :
  asio_channel.parse_loop fuel c = Some (c', es) → asio_channel.on_frame_ c = true →
  socket_open b = true →
  parse_all fuel (rx c b) = Some (rx c' (react (asio_channel.frames es) b)).
Proof.
  revert c es b. induction fuel as [|fuel IH]; intros c es b;
    cbn [asio_channel.parse_loop parse_all]; [done|].
  change (acc_ (rx c b)) with (asio_channel.frame_acc_ c).
  change (acc_offset_ (rx c b)) with (asio_channel.frame_acc_offset_ c).
  destruct (try_parse_one _ _) as [[off|hdr p [] off]|]; [| | |done].
  - intros [= <- <-] _ _. cbn. by rewrite react_nil.
  - set (c0 := set asio_channel.frame_acc_offset_ _ c).
    intros ([c1 es1] & Hp & [= -> <-])%bind_Some Hf Ho.
    change (asio_channel.on_frame_ c0) with (asio_channel.on_frame_ c). rewrite Hf.
    change (set acc_offset_ _ (rx c b)) with (rx c0 b).
    rewrite (on_frame_react (asio_channel.channel_id_ c)) by done. cbn [mbind option_bind].
    rewrite (IH _ es1) by done. cbn [app asio_channel.frames omap list_omap].
    f_equal. f_equal. symmetry. apply (react_app [_]).
  - intros Hp Hf Ho. exact (IH _ es b Hp Hf Ho).
Qed.

Lemma recv_react chunk c c' es b :
  asio_channel.read_done chunk c = Some (c', es) → asio_channel.on_frame_ c = true →
  socket_open b = true →
  recv chunk (rx c b) = Some (rx c' (react (asio_channel.frames es) b)).
Proof.
  unfold asio_channel.read_done, asio_channel.parse_frames_. set (c0 := set asio_channel.frame_acc_ _ c).
  intros ([c2 es2] & ([c1 es1] & Hp & [= <- <-])%bind_Some & [= <- <-])%bind_Some Hf Ho.
  unfold recv. change (set acc_ _ (rx c b)) with (rx c0 b).
  change (acc_ (rx c0 b)) with (asio_channel.frame_acc_ c0).
  rewrite (parse_all_react _ _ _ _ b Hp) by done. cbn [mbind option_bind].
  rewrite asio_channel.frames_app. cbn [asio_channel.frames omap list_omap]. rewrite app_nil_r.
  unfold compact, asio_channel.compact. cbn. by case_cmp.
Qed.

Lemma recv_loop_react {AO : ArgOrder} chunks c c' es b :
  asio_channel.run (asio_channel.ReadDone <$> chunks) c = Some (c', es) →
  asio_channel.on_frame_ c = true → socket_open b = true → running_ b = true →
  recv_loop chunks (rx c b) = Some (rx c' (react (asio_channel.frames es) b)).
Proof.
  revert c es b. induction chunks as [|ch chunks IH]; intros c es b; cbn [fmap list_fmap].
  { intros [= <- <-] _ _ _. cbn. by rewrite react_nil. }
  intros (c1 & es1 & es2 & Hs & Hr & ->)%run_cons Hf Ho Hn. cbn [recv_loop].
  change (running_ (rx c b)) with (running_ b). rewrite Hn, (recv_react _ _ _ _ _ Hs) by done.
  cbn [mbind option_bind]. rewrite asio_channel.frames_app, react_app. apply IH; try done.
  apply asio_channel.read_done_frame in Hs as [(a & off & d & ->) _]. done.
Qed.

(** The server's channel on the same bytes. *)
Lemma channel_runs {AO : ArgOrder} t0 id chunks :
  Forall (Forall is_u8) chunks → 2 * zlen (concat chunks) < 2 ^ 63 - 1 →
  ∀ fs rest, receives [] chunks fs rest →
  ∃ c' es, asio_channel.run (asio_channel.ReadDone <$> chunks) (opened t0 id) = Some (c', es)
    ∧ asio_channel.frames es = good_frames id fs.
Proof.
  intros Hb Hl fs rest Hr.
  destruct (reads_receive (opened t0 id) chunks) with fs rest as (c' & es & Hrun & _ & Hf & _);
    try done.
  eauto.
Qed.

(** A bot that has connected and read nothing yet. *)
Definition connected (b : t) : Prop :=
  socket_open b = true ∧ running_ b = true ∧ acc_ b = [] ∧ acc_offset_ b = 0.

Lemma connected_rx t0 id b : connected b → b = rx (opened t0 id) b.
Proof. destruct b. by intros (? & ? & ? & ?); simplify_eq/=. Qed.

(** C27: (equivalence) The bot's receive loop and the server's channel are the
    same decoder: on every sequence of reads, of any bytes cut in any way, the
    channel's run succeeds, the bot's loop never leaves its buffer, both keep
    the same unread bytes, and the bot's [on_frame] gets exactly the frames that
    the channel hands to its frame callback, in order, prints their notices and
    answers each ping with one pong. *)
Theorem bot_receives_like_server {AO : ArgOrder} t0 id chunks b :
  connected b → Forall (Forall is_u8) chunks → 2 * zlen (concat chunks) < 2 ^ 63 - 1 →
  ∃ c' es b', asio_channel.run (asio_channel.ReadDone <$> chunks) (opened t0 id) = Some (c', es)
    ∧ recv_loop chunks b = Some b'
    ∧ acc_ b' = asio_channel.frame_acc_ c' ∧ acc_offset_ b' = asio_channel.frame_acc_offset_ c'
    ∧ got b' = got b ++ ((λ '(_, cmd, payload), (cmd, payload)) <$> asio_channel.frames es)
    ∧ notices b' = notices b ++ (notice_of <$> asio_channel.frames es)
    ∧ written b' = written b ++ concat (reply_to <$> asio_channel.frames es).
Proof.
  intros Hc Hb Hl. destruct (receives_total [] chunks) as (fs & rest & Hr).
  destruct (channel_runs t0 id chunks Hb Hl fs rest Hr) as (c' & es & Hrun & _).
  eexists c', es, _. split; [done|]. rewrite (connected_rx t0 id b Hc) at 1.
  destruct Hc as (Ho & Hn & _). split; [by apply recv_loop_react|]. done.
Qed.

Definition demo_bot : t := (connect false false (make [66])).2.

Lemma bot_receives_like_server_witness :
  ∃ c' es b', asio_channel.run (AO := buffer_first) (asio_channel.ReadDone <$> [[1; 2]; pack 1 0 1 0 []]) (opened 0 7)
      = Some (c', es)
    ∧ recv_loop [[1; 2]; pack 1 0 1 0 []] demo_bot = Some b'
    ∧ acc_ b' = asio_channel.frame_acc_ c' ∧ acc_offset_ b' = asio_channel.frame_acc_offset_ c'
    ∧ got b' = got demo_bot ++ ((λ '(_, cmd, payload), (cmd, payload)) <$> asio_channel.frames es)
    ∧ notices b' = notices demo_bot ++ (notice_of <$> asio_channel.frames es)
    ∧ written b' = written demo_bot ++ concat (reply_to <$> asio_channel.frames es).
Proof.
  apply (bot_receives_like_server (AO := buffer_first) 0 7).
  - vm_compute. done.
  - by_decide.
  - vm_compute. reflexivity.
Defined.

(** ** What the server receives of a session *)

(** The commands and payloads of [connect] and [run]. *)
Definition login_payload (name : list Z) : list Z := login_req.serialize (login_req.mk name []).
Definition move_payload (i : Z) : list Z :=
  player_move_req.serialize (player_move_req.mk (bits_of_f32 (f32_of_Z (i * 5))) (bits_of_f32 f0)
    (bits_of_f32 (f32_of_Z (i * 3))) 0 0).
Definition step_script (name : list Z) (i : Z) : list (Z * list Z) :=
  (1002, move_payload i) :: (if i mod 3 =? 0 then [(1003, chat_text i name)] else []).
Fixpoint script (n : nat) (i : Z) (name : list Z) : list (Z * list Z) :=
  match n with O => [] | S n => step_script name i ++ script n (i + 1) name end.
Definition session_script (n : nat) (name : list Z) : list (Z * list Z) :=
  (1001, login_payload name) :: script n 0 name ++ [(1, [])].

Definition to_packet (m : Z * list Z) : ChannelLaws.packet := Packet m.1 0 1 0 m.2.

(** The moves whose coordinates an [int] can hold. *)
Definition max_moves : Z := 429496730.

Lemma run_loop_written n i b :
  socket_open b = true → running_ b = true → 0 ≤ i → i + Z.of_nat n ≤ max_moves →
  run_loop n i b
  = Some (b <| written ::= λ w, w ++ (pack_packet ∘ to_packet <$> script n i (player_name_ b)) |>).
Proof.
  unfold max_moves. revert i b. induction n as [|n IH]; intros i b Ho Hn Hi Hl.
  { destruct b. cbn. by rewrite app_nil_r. }
  cbn [run_loop]. rewrite Hn. cbn [negb]. rewrite decide_True by (int_unfold; lia).
  unfold send_chat, send_move, send_frame.
  rewrite Ho. cbn [script]. unfold step_script. case_cmp; cbn; rewrite ?Ho, IH by (done || lia); cbn;
    by rewrite <- ?app_assoc.
Qed.

(** One move more overflows. *)
Lemma run_loop_overflows n i b :
  running_ b = true → 0 ≤ i → i ≤ max_moves → max_moves < i + Z.of_nat n → run_loop n i b = None.
Proof.
  unfold max_moves. revert i b. induction n as [|n IH]; intros i b Hn Hi Hi' Hl; [lia|].
  cbn [run_loop]. rewrite Hn. cbn [negb]. case_decide as Hd; [|done].
  apply IH; [|int_unfold; lia..]. unfold send_chat, send_move, send_frame.
  destruct (socket_open b) eqn:E, (i mod 3 =? 0); cbn; rewrite ?E; done.
Qed.

Lemma session_written n name :
  Z.of_nat n ≤ max_moves → ∃ b, run n (connect false false (make name)).2 = Some b
  ∧ written b = pack_packet ∘ to_packet <$> session_script n name.
Proof.
  intros Hn. unfold run, connect. cbn [snd]. rewrite run_loop_written by (done || lia).
  cbn [mbind option_bind]. eexists. split; [done|].
  unfold send_login, send_ping, send_frame. cbn. by rewrite fmap_app.
Qed.

(** *** The packets are well formed *)

Lemma login_payload_ok name :
  Forall is_u8 name → zlen name ≤ 1000 → packet_ok (to_packet (1001, login_payload name)).
Proof.
  intros Hb Hl. pose proof (zlen_nonneg name).
  unfold packet_ok, frame_ok, to_packet, login_payload, login_req.serialize. cbn [fst snd p_cmd p_flags
    p_ver p_seq p_payload login_req.player_name login_req.session_token].
  rewrite !write_lp_string_app by (int_unfold; autorewrite with zlen; lia).
  split_and!; [by_decide..| |].
  - rewrite app_nil_l. repeat apply Forall_app_2; auto using le32_bytes.
  - autorewrite with zlen. change (k_max_frame_bytes - k_header_after_len) with 1048564. lia.
Qed.

Lemma move_payload_ok i : packet_ok (to_packet (1002, move_payload i)).
Proof.
  unfold packet_ok, frame_ok, to_packet, move_payload, player_move_req.serialize. cbn [fst snd p_cmd
    p_flags p_ver p_seq p_payload player_move_req.x player_move_req.y player_move_req.z
    player_move_req.rotation player_move_req.timestamp].
  rewrite write_le32_app, !write_float_le_app.
  split_and!; [by_decide..| |].
  - rewrite app_nil_l. repeat apply Forall_app_2; apply le32_bytes.
  - done.
Qed.

Lemma udec_bytes n : 0 ≤ n → Forall is_u8 (udec n).
Proof.
  intros Hn. apply (Forall_impl _ _ _ (udec_digits n Hn)). intros c Hc. unfold is_digit in Hc.
  int_unfold. lia.
Qed.

Lemma chat_payload_ok i name :
  0 ≤ i < 2 ^ 31 → Forall is_u8 name → zlen name ≤ 1000 →
  packet_ok (to_packet (1003, chat_text i name)).
Proof.
  intros Hi Hb Hl. unfold packet_ok, frame_ok, to_packet, chat_text. cbn [fst snd p_cmd p_flags
    p_ver p_seq p_payload]. pose proof (to_string_i32_length i) as Ht.
  split_and!; [by_decide..| |].
  - repeat apply Forall_app_2; [by_decide| |by_decide|done].
    unfold to_string. destruct (Z.ltb_spec i 0); [lia|]. apply udec_bytes. lia.
  - rewrite !zlen_app. change (zlen (bytes_of_string "step=")) with 5.
    change (zlen (bytes_of_string " from ")) with 6.
    change (k_max_frame_bytes - k_header_after_len) with 1048564.
    assert (is_i32 i) as Hi32%Ht by (int_unfold; lia). lia.
Qed.

Lemma script_ok n i name :
  0 ≤ i → i + Z.of_nat n < 2 ^ 31 → Forall is_u8 name → zlen name ≤ 1000 →
  Forall packet_ok (to_packet <$> script n i name).
Proof.
  revert i. induction n as [|n IH]; intros i Hi Hn Hb Hl; [constructor|]. cbn [script].
  rewrite fmap_app. apply Forall_app_2; [|apply IH; auto; lia].
  unfold step_script. rewrite fmap_cons. constructor; [apply move_payload_ok|].
  case_cmp; [|constructor]. apply Forall_singleton, chat_payload_ok; auto; lia.
Qed.

Lemma session_ok n name :
  Z.of_nat n < 2 ^ 31 → Forall is_u8 name → zlen name ≤ 1000 →
  Forall packet_ok (to_packet <$> session_script n name).
Proof.
  intros Hn Hb Hl. unfold session_script. rewrite fmap_cons, fmap_app.
  constructor; [by apply login_payload_ok|]. apply Forall_app_2; [by apply script_ok|].
  apply Forall_singleton. by_decide.
Qed.

(** Packets cut in any way reach the frame callback one by one. *)
Lemma packets_received {AO : ArgOrder} t0 id ps chunks :
  Forall packet_ok ps → concat chunks = concat (pack_packet <$> ps) →
  2 * zlen (concat chunks) < 2 ^ 63 - 1 →
  ∃ c' es, asio_channel.run (asio_channel.ReadDone <$> chunks) (opened t0 id) = Some (c', es)
    ∧ asio_channel.frames es = (λ p, (id, p_cmd p, p_payload p)) <$> ps.
Proof.
  intros Hok Hc Hl. rewrite <- good_packets. eapply channel_runs; [|done|].
  - apply Forall_concat. rewrite Hc. apply Forall_concat, Forall_fmap.
    apply (Forall_impl _ _ _ Hok). intros p. apply pack_packet_bytes.
  - apply framed_receives; [done|]. cbn [app]. rewrite Hc.
    rewrite <- (app_nil_r (concat _)). by apply packets_framed.
Qed.

Lemma packet_ok_small p : packet_ok p → 2 * zlen (pack_packet p) < 2 ^ 63 - 1.
Proof.
  intros (_ & _ & _ & _ & _ & Hl). unfold pack_packet. rewrite zlen_pack.
  change (k_max_frame_bytes - k_header_after_len) with 1048564 in Hl. lia.
Qed.

(** *** The server's answer *)

Definition login_answer (res : login_res.t) : ChannelLaws.packet :=
  Packet 1001 0 1 0 (login_res.serialize res).

Lemma login_answer_ok res :
  wf res → zlen (login_res.message res) ≤ 1000 → packet_ok (login_answer res).
Proof.
  destruct res as [success message player_id map_id]. cbn. intros (Hm & Hp & Hi) Hl.
  destruct Hm as [Hb Hm].
  unfold packet_ok, frame_ok, login_answer, login_res.serialize, push_back. cbn [p_cmd p_flags p_ver
    p_seq p_payload login_res.success login_res.message login_res.player_id login_res.map_id].
  rewrite !write_le32_app, write_lp_string_app by done.
  split_and!; [by_decide..| |].
  - cbn [app]. constructor; [by destruct success|].
    repeat apply Forall_app_2; auto using le32_bytes.
  - autorewrite with zlen. change (k_max_frame_bytes - k_header_after_len) with 1048564. lia.
Qed.

Lemma login_answer_noticed id res :
  wf res → notice_of (id, 1001, login_res.serialize res) = GotLogin (Some res).
Proof.
  intros Hwf. unfold notice_of. cbn [Z.eqb Pos.eqb].
  pose proof (round_trip res [] Hwf) as Hr. rewrite app_nil_r in Hr.
  change (login_res.parse (login_res.serialize res) = POk res []) in Hr. by rewrite Hr.
Qed.

Lemma wf_login_req name :
  Forall is_u8 name → zlen name ≤ 1000 → wf (login_req.mk name []).
Proof.
  intros Hb Hl. pose proof (zlen_nonneg name). cbn. unfold is_str.
  split_and!; try done; int_unfold; autorewrite with zlen; lia.
Qed.

(** C28: (round trip) A whole session between the bot and the server's channel,
    of up to 429496730 moves: one more and the product [i * 5] of [int]s
    overflows, which is undefined. [run n] returns, and the bytes of [connect]
    and of [run n], cut in any way, reach the server's frame callback as the
    login, the [n] moves, the chat line of every third move and the closing
    ping, in that order; the login payload parses to the bot's name with an
    empty token; and the server's answer, cut in any way, is shown by the bot as
    that very answer. *)
Theorem login_exchange {AO : ArgOrder} t0 id n name res :
  Forall is_u8 name → zlen name ≤ 1000 → wf res → zlen (login_res.message res) ≤ 1000 →
  let b := (connect false false (make name)).2 in
  (max_moves < Z.of_nat n → run n b = None)
  ∧ (Z.of_nat n ≤ max_moves → ∃ b1, run n b = Some b1
     ∧ ∀ up, concat up = concat (written b1) → 2 * zlen (concat up) < 2 ^ 63 - 1 →
       ∃ c' es, asio_channel.run (asio_channel.ReadDone <$> up) (opened t0 id) = Some (c', es)
         ∧ asio_channel.frames es = (λ '(cmd, payload), (id, cmd, payload)) <$> session_script n name)
  ∧ login_req.parse (login_payload name) = POk (login_req.mk name []) []
  ∧ ∀ down, concat down = pack_packet (login_answer res) →
    ∃ b', recv_loop down b = Some b' ∧ notices b' = [GotLogin (Some res)].
Proof.
  intros Hb Hl Hwf Hm b. split_and!.
  - intros Hn. unfold run. rewrite run_loop_overflows; [done..|lia].
  - intros Hn. destruct (session_written n name Hn) as (b1 & Hr & Hw). exists b1. split; [done|].
    intros up Hup Hu. rewrite Hw in Hup.
    destruct (packets_received t0 id (to_packet <$> session_script n name) up)
      as (c' & es & Hrun & Hf); [apply session_ok; unfold max_moves in *; done || lia| |done|].
    { by rewrite <- list_fmap_compose. }
    exists c', es. split; [done|]. rewrite Hf, <- list_fmap_compose.
    apply list_fmap_ext. by intros ? [].
  - pose proof (round_trip _ [] (wf_login_req name Hb Hl)) as Hr. by rewrite app_nil_r in Hr.
  - intros down Hdown. pose proof (login_answer_ok res Hwf Hm) as Ha.
    destruct (packets_received t0 id [login_answer res] down) as (c' & es & Hr & Hf).
    { by constructor. }
    { cbn. by rewrite app_nil_r. }
    { rewrite Hdown. apply packet_ok_small. done. }
    unfold b. rewrite (connected_rx t0 id (connect false false (make name)).2) by done.
    rewrite (recv_loop_react _ _ _ _ _ Hr) by done. eexists. split; [done|].
    rewrite Hf. cbn -[notice_of login_res.serialize]. by rewrite login_answer_noticed.
Qed.

Lemma login_exchange_witness :
  let b := (connect false false (make [66; 111; 116])).2 in
  let res := login_res.mk true [79; 75] 7 1 in
  ∃ b1, run 4 b = Some b1
  ∧ (∃ c' es, asio_channel.run (AO := buffer_first) (asio_channel.ReadDone <$>
        [take 10 (concat (written b1)); drop 10 (concat (written b1))]) (opened 0 3) = Some (c', es)
      ∧ asio_channel.frames es =
        (λ '(cmd, payload), (3, cmd, payload)) <$> session_script 4 [66; 111; 116])
  ∧ ∃ b', recv_loop ((λ x, [x]) <$> pack_packet (login_answer res)) b = Some b'
    ∧ notices b' = [GotLogin (Some res)].
Proof.
  edestruct (login_exchange (AO := buffer_first) 0 3 4 [66; 111; 116] (login_res.mk true [79; 75] 7 1))
    as (_ & Hs & _ & Ha).
  - by_decide.
  - vm_compute. discriminate.
  - cbn. unfold is_str. split_and!; by_decide.
  - vm_compute. discriminate.
  - destruct Hs as (b1 & Hr & Hup); [vm_compute; discriminate|]. exists b1. split_and!.
    + exact Hr.
    + apply Hup; [cbn [concat]; by rewrite app_nil_r, take_drop|].
      cbn [concat]. rewrite app_nil_r, take_drop.
      assert (run 4 (connect false false (make [66; 111; 116])).2 = Some b1) as E by exact Hr.
      vm_compute in E. injection E as <-. vm_compute. reflexivity.
    + apply Ha. vm_compute. reflexivity.
Defined.
End bot_laws.

(** ** The older client *)

Module game_client_laws.
Import game_client.

(** The CRC of zero at the front is read as a length of zero. *)
Lemma create_frame_desync msg_id data rest :
  decode_one (create_frame msg_id data ++ rest) = Desync.
Proof.
  unfold create_frame. cbn [app le16]. unfold decode_one. change (join32 0 0 0 0) with 0.
  cbn -[zlen byte_at u16]. rewrite !zlen_cons. pose proof (zlen_nonneg (data ++ rest)).
  destruct (Z.ltb_spec (1 + (1 + (1 + (1 + (1 + (1 + (1 + (1 + zlen (data ++ rest)))))))))
    (4 + 0)); [lia|done].
Qed.

(** Whatever reads begin with a frame of [game_client], the server's channel
    throws all their bytes away and hands nothing to the frame callback. *)
Lemma old_frames_dropped {AO : ArgOrder} t0 id chunks :
  Forall (λ ch, Forall is_u8 ch ∧ ∃ m data rest, ch = create_frame m data ++ rest) chunks →
  2 * zlen (concat chunks) < 2 ^ 63 - 1 →
  ∃ c' es, asio_channel.run (asio_channel.ReadDone <$> chunks) (opened t0 id) = Some (c', es)
    ∧ asio_channel.frames es = [].
Proof.
  intros Hc Hl. eapply (bot_laws.channel_runs t0 id chunks) with (fs := []); [|done|].
  - apply (Forall_impl _ _ _ Hc). by intros ? [].
  - clear Hl. induction Hc as [|ch chunks (_ & m & d & r & ->) _ IH]; [constructor|].
    apply (receives_cons [] _ chunks [] [] []); [|done].
    apply drains_desync, create_frame_desync.
Qed.
End game_client_laws.

(** ** The demo client's receive loop *)

Module simple_client_laws.
Import simple_client.

(** The loop with the receive buffer of the channel [c], having printed [l]. *)
Definition at_channel (c : asio_channel.channel) (l : list (Z * list Z)) : rx :=
  mkRx (asio_channel.frame_acc_ c) (asio_channel.frame_acc_offset_ c) l.
Definition shown (es : list asio_channel.effect) : list (Z * list Z) :=
  (λ '(_, cmd, payload), (cmd, payload)) <$> asio_channel.frames es.

Lemma parse_all_shows fuel c c' es l :
  asio_channel.parse_loop fuel c = Some (c', es) → asio_channel.on_frame_ c = true →
  parse_all fuel (at_channel c l) = Some (at_channel c' (l ++ shown es)).
Proof.
  revert c es l. induction fuel as [|fuel IH]; intros c es l;
    cbn [asio_channel.parse_loop parse_all]; [done|]. cbn [acc acc_offset at_channel].
  destruct (try_parse_one _ _) as [[off|hdr p [] off]|]; [| | |done].
  - intros [= <- <-] _. cbn. by rewrite app_nil_r.
  - set (c0 := set asio_channel.frame_acc_offset_ _ c).
    intros ([c1 es1] & Hp & [= -> <-])%bind_Some Hf.
    change (asio_channel.on_frame_ c0) with (asio_channel.on_frame_ c). rewrite Hf.
    change (set printed _ _) with (at_channel c0 (l ++ [(cmd hdr, p)])).
    rewrite (IH _ es1) by done. by rewrite <- app_assoc.
  - intros Hp Hf. exact (IH _ es l Hp Hf).
Qed.

Lemma recv_shows chunk c c' es l :
  asio_channel.read_done chunk c = Some (c', es) → asio_channel.on_frame_ c = true →
  recv chunk (at_channel c l) = Some (at_channel c' (l ++ shown es)).
Proof.
  unfold asio_channel.read_done, asio_channel.parse_frames_. set (c0 := set asio_channel.frame_acc_ _ c).
  intros ([c2 es2] & ([c1 es1] & Hp & [= <- <-])%bind_Some & [= <- <-])%bind_Some Hf.
  unfold recv. change (set acc _ (at_channel c l)) with (at_channel c0 l).
  change (acc (at_channel c0 l)) with (asio_channel.frame_acc_ c0).
  rewrite (parse_all_shows _ _ _ _ l Hp) by done. cbn [mbind option_bind].
  unfold shown. rewrite asio_channel.frames_app. cbn [asio_channel.frames omap list_omap].
  rewrite app_nil_r. unfold asio_channel.compact. cbn. by case_cmp.
Qed.

(** It prints what the server's channel would have delivered. *)
Lemma recv_loop_shows {AO : ArgOrder} chunks c c' es l :
  asio_channel.run (asio_channel.ReadDone <$> chunks) c = Some (c', es) →
  asio_channel.on_frame_ c = true →
  recv_loop chunks (at_channel c l) = Some (at_channel c' (l ++ shown es)).
Proof.
  revert c es l. induction chunks as [|ch chunks IH]; intros c es l; cbn [fmap list_fmap].
  { intros [= <- <-] _. cbn. by rewrite app_nil_r. }
  intros (c1 & es1 & es2 & Hs & Hr & ->)%run_cons Hf. cbn [recv_loop].
  rewrite (recv_shows _ _ _ _ _ Hs) by done. cbn [mbind option_bind].
  unfold shown. rewrite asio_channel.frames_app, fmap_app, app_assoc. apply IH; [done|].
  apply asio_channel.read_done_frame in Hs as [(a & off & d & ->) _]. done.
Qed.
End simple_client_laws.
