(* ===== verification/Outbox.v ===== *)
(** * What the handlers put into the send queues

    Between a handler's [send] and the socket lies the channel's queue.  This file
    relates the two for every handler of the game server: whatever a handler does,
    the bytes it leaves in the queue of a connected channel are the bytes that were
    there, followed by the packets of the frames it sent to that channel, in order
    (or, with the completion handler of [async_write] evaluated before its buffer,
    asio gets none of them); a write that asio has in its hands is never touched;
    and the receive side of every channel stays as it was.  A channel that overflows
    leaves the table. *)

From S2P Require Import Prelude FrameCodec Channel ChannelLaws Floats Components Ecs Systems Threads.
From S2P Require Import ProtocolBase ProtocolPlayer ProtocolCombat ProtocolMap ProtocolGuild.
From S2P Require Import GameServer GameServerLaws GameServerHandlers AsioServer.
Import frame_codec game_server.

(** ** The send side of one channel *)

(** A frame: command and payload, as [send_frame] packs it. *)
Definition message : Type := Z * list Z.
Definition message_packet (f : message) : packet := Packet f.1 0 1 0 f.2.
Definition pack_message (f : message) : list Z := pack_packet (message_packet f).
Definition pack_messages (fs : list message) : list Z := concat (pack_message <$> fs).

Section sending.
Context {AO : ArgOrder}.

(** The bytes that asio has in its hands, and the bytes it still will get. *)
Definition flight (c : asio_channel.channel) : list Z :=
  match asio_channel.in_flight c with Some (buf, _) => buf | None => [] end.
Definition pending (c : asio_channel.channel) : list Z :=
  flight c ++ asio_channel.handed (concat (asio_channel.write_queue_ c)).

(** A channel of the connection table: open, connected to the server's callbacks,
    with a consistent send queue. *)
Record live (id : Z) (c : asio_channel.channel) : Prop := {
  lv_open : asio_channel.closed_ c = false;
  lv_handler : asio_channel.handler_ c = true;
  lv_on_frame : asio_channel.on_frame_ c = true;
  lv_id : asio_channel.channel_id_ c = id;
  lv_drops : is_u64 (asio_channel.drops c);
  lv_tx : asio_channel.tx_ok c }.

(** What a handler may do to a channel that stays in the table. *)
Record extends (c c' : asio_channel.channel) (fs : list message) : Prop := {
  ext_pending : pending c' = pending c ++ asio_channel.handed (pack_messages fs);
  ext_flight : ∀ w, asio_channel.in_flight c = Some w → asio_channel.in_flight c' = Some w;
  ext_acc : asio_channel.frame_acc_ c' = asio_channel.frame_acc_ c;
  ext_off : asio_channel.frame_acc_offset_ c' = asio_channel.frame_acc_offset_ c;
  ext_wake : Forall (λ f, zlen (pack_message f) ≤ asio_channel.k_max_batch_bytes) fs →
    asio_channel.wake_ok c → asio_channel.wake_ok c' }.

Lemma pack_messages_app fs fs' : pack_messages (fs ++ fs') = pack_messages fs ++ pack_messages fs'.
Proof. unfold pack_messages. by rewrite fmap_app, concat_app. Qed.
Lemma pack_messages_one f : pack_messages [f] = pack_message f.
Proof. unfold pack_messages. cbn. by rewrite app_nil_r. Qed.

Lemma extends_refl c : extends c c [].
Proof. split; auto. cbn. by rewrite asio_channel.handed_nil, app_nil_r. Qed.

Lemma extends_trans c1 c2 c3 fs fs' :
  extends c1 c2 fs → extends c2 c3 fs' → extends c1 c3 (fs ++ fs').
Proof.
  intros [P1 F1 A1 O1 W1] [P2 F2 A2 O2 W2]. split.
  - by rewrite P2, P1, pack_messages_app, asio_channel.handed_app, app_assoc.
  - auto.
  - congruence.
  - congruence.
  - rewrite Forall_app. intros []. auto.
Qed.

Lemma zlen_pack_message f : zlen (pack_message f) = 16 + zlen f.2.
Proof. unfold pack_message, pack_packet. by rewrite zlen_pack. Qed.

(** Effects that call neither a handler nor [on_close] of the server, nor the close
    callback; and those of a channel that closes. *)
Definition quiet (e : asio_channel.effect) : Prop :=
  match e with asio_channel.OnFrame _ _ _ | asio_channel.HandlerClose _ _ => False | _ => True end.
Definition silent (e : asio_channel.effect) : Prop :=
  match e with asio_channel.CloseCallback _ _ => False | _ => quiet e end.
Definition closing (id : Z) (es : list asio_channel.effect) : Prop :=
  ∃ r rest, es = asio_channel.PostShutdown :: asio_channel.HandlerClose id r :: rest ∧ Forall quiet rest.

Lemma on_close_closing id r c rest :
  asio_channel.handler_ c = true → asio_channel.channel_id_ c = id → Forall quiet rest →
  closing id ((asio_channel.PostShutdown :: asio_channel.on_close r c) ++ rest).
Proof.
  intros Hh <- Hr. unfold asio_channel.on_close. rewrite Hh. cbn. eexists _, _. split; [done|].
  apply Forall_app_2; [|done]. destruct (asio_channel.close_callback_ c); by repeat constructor.
Qed.

Lemma try_write_pending c c' es :
  (asio_channel.in_flight c ≠ None → asio_channel.writing_ c = true) →
  asio_channel.try_write c = (c', es) → pending c' = pending c
  ∧ ∀ w, asio_channel.in_flight c = Some w → asio_channel.in_flight c' = Some w.
Proof.
  intros Hok (taken & Hq & [(_ & Hw & _ & ->)|(_ & _ & ->)] & _)%asio_channel.try_write_spec;
    [|done].
  assert (asio_channel.in_flight c = None) as Hn.
  { destruct (asio_channel.in_flight c) eqn:E; [|done]. by rewrite Hok in Hw. }
  split; [|by rewrite Hn]. unfold pending, flight. cbn. by rewrite Hn, Hq, concat_app, asio_channel.handed_app.
Qed.

Lemma silent_no_close es : Forall silent es → asio_channel.close_events es = [].
Proof. induction 1 as [|e es He _ IH]; [done|]. by destruct e. Qed.

(** The fields of [live] that sending leaves alone. *)
Definition fixed (c : asio_channel.channel) :=
  (asio_channel.closed_ c, asio_channel.handler_ c, asio_channel.on_frame_ c,
   asio_channel.channel_id_ c, asio_channel.drops c).

Lemma live_fixed id c c' : fixed c' = fixed c → asio_channel.tx_ok c' → live id c → live id c'.
Proof. intros [= ? ? ? ? ?] Ht []. split; congruence. Qed.

Lemma try_write_fixed c c' es : asio_channel.try_write c = (c', es) → fixed c' = fixed c.
Proof.
  by intros (taken & _ & [(_ & _ & _ & ->)|(_ & _ & ->)] & _)%asio_channel.try_write_spec.
Qed.

Lemma try_write_silent c c' es : asio_channel.try_write c = (c', es) → Forall silent es.
Proof.
  intros (taken & _ & [(_ & _ & -> & _)|(_ & -> & _)] & _)%asio_channel.try_write_spec;
    by repeat constructor.
Qed.

(** The packets that a queue takes are packets that a receiver accepts. *)
Lemma queued_packet_ok f c :
  asio_channel.tx_ok c → is_u16 f.1 → Forall is_u8 f.2 → zlen f.2 < 2 ^ 30 →
  u64 (asio_channel.current_queue_bytes c + zlen (pack_message f)) ≤ asio_channel.max_queue_bytes →
  packet_ok (message_packet f).
Proof.
  intros [Hle Hmax _ _] Hc Hb Hl. rewrite zlen_pack_message.
  pose proof (asio_channel.flight_bytes_nonneg c).
  pose proof (zlen_nonneg (concat (asio_channel.write_queue_ c))). pose proof (zlen_nonneg f.2).
  unfold asio_channel.max_queue_bytes in *. rewrite u64_small by (int_unfold; lia). intros Hu.
  unfold packet_ok, frame_ok. cbn.
  split_and!; [done|by_decide|by_decide|by_decide|done|].
  change (k_max_frame_bytes - k_header_after_len) with 1048564. lia.
Qed.

(** Sending a frame to a live channel: it closes itself, or the packet is queued. *)
Lemma live_send id f c c' es :
  live id c → is_u16 f.1 → Forall is_u8 f.2 → zlen f.2 < 2 ^ 30 →
  asio_channel.send (pack_message f) c = (c', es) →
  closing id es ∨ Forall silent es ∧ live id c' ∧ extends c c' [f] ∧ packet_ok (message_packet f).
Proof.
  intros [Ho Hh Hf Hi Hd Ht] Hc Hb Hl Hs. pose proof (zlen_nonneg f.2).
  assert (asio_channel.tx_ok c') as Ht'.
  { apply asio_channel.send_tx_ok in Hs; [done|rewrite zlen_pack_message; lia|done]. }
  assert (zlen (pack_message f) ≤ asio_channel.k_max_batch_bytes →
    asio_channel.wake_ok c → asio_channel.wake_ok c') as Hwk
    by (intros; by eapply asio_channel.send_wake).
  apply asio_channel.send_spec in Hs as [([?|?] & _)|[(_ & _ & _ & -> & _)|Hs]].
  - congruence.
  - rewrite zlen_pack_message in *. lia.
  - left. rewrite <- app_nil_r. by apply on_close_closing.
  - right. destruct Hs as (_ & Hpos & Hu & c1 & es1 & em & pk & -> & Hw & ->).
    pose proof (asio_channel.tx_ok_enqueued (pack_message f) c em pk Ht Ho
      ltac:(rewrite zlen_pack_message in *; lia) Hu) as Ht1.
    destruct (try_write_pending _ _ _ (asio_channel.tx_flight _ Ht1) Hw) as [Hp Hfl]. split_and!.
    + constructor; [done|]. by eapply try_write_silent.
    + apply (live_fixed id c); [|done|by split]. by apply try_write_fixed in Hw.
    + apply asio_channel.try_write_rx in Hw as (Ha & Hof & _).
      split; [|exact Hfl|done|done|intros [? _]%Forall_cons; auto].
      rewrite Hp, pack_messages_one. unfold pending, flight. cbn.
      by rewrite asio_channel.concat_snoc, asio_channel.handed_app, app_assoc.
    + by apply (queued_packet_ok f c).
Qed.

(** ** The send side of the server *)

(** The frames of a log that went to channel [id]. *)
Definition to (id : Z) (l : list (Z * Z * list Z)) : list message :=
  omap (λ '(i, cmd, data), if decide (i = id) then Some (cmd, data) else None) l.

Lemma to_app id l l' : to id (l ++ l') = to id l ++ to id l'.
Proof. unfold to. apply omap_app. Qed.
Lemma to_one id cmd data : to id [(id, cmd, data)] = [(cmd, data)].
Proof. unfold to. cbn. by rewrite decide_True. Qed.
Lemma to_other id i cmd data : i ≠ id → to id [(i, cmd, data)] = [].
Proof. intros. unfold to. cbn. by rewrite decide_False. Qed.

(** A frame that a handler may send: not a ping (the channel's own command), and
    of a size that an [int] can hold. *)
Definition sendable (cmd : Z) (data : list Z) : Prop :=
  is_u16 cmd ∧ cmd ≠ 1 ∧ Forall is_u8 data ∧ zlen data < 2 ^ 30.

(** The names of the configured maps are bytes, and not half a gigabyte long. *)
Definition names_ok (s : server) : Prop :=
  Forall (λ m, Forall is_u8 (mc_name m) ∧ zlen (mc_name m) < 2 ^ 29) (config_maps s).

Record tx_server (s : server) : Prop := {
  ts_names : names_ok s;
  ts_live : ∀ id c, channels_ s !! id = Some c → live id c }.

(** From [s] to [s'] the frames [l] were sent, all to channels of the table, and
    the channels still in the table have queued the ones for them. *)
Record sends (s s' : server) (l : list (Z * Z * list Z)) : Prop := {
  sn_config : config_maps s' = config_maps s;
  sn_sent : sent_ s' = sent_ s ++ l;
  sn_known : Forall (λ '(id, cmd, data), id ∈ dom (channels_ s) ∧ cmd ≠ 1) l;
  sn_queued : ∀ id c', channels_ s' !! id = Some c' → ∃ c, channels_ s !! id = Some c
    ∧ extends c c' (to id l) ∧ Forall (packet_ok ∘ message_packet) (to id l) }.

Definition emits {A} (m : M A) : Prop := ∀ s a s',
  tx_server s → m s = Done a s' → tx_server s' ∧ ∃ l, sends s s' l.

Lemma sends_dom s s' l : sends s s' l → dom (channels_ s') ⊆ dom (channels_ s).
Proof. intros Hs id [c' (c & ? & _)%Hs]%elem_of_dom. by eapply elem_of_dom_2. Qed.

Lemma sends_refl s : sends s s [].
Proof.
  split; [done|by rewrite app_nil_r|constructor|]. intros id c Hc. exists c.
  split_and!; [done|apply extends_refl|constructor].
Qed.

Lemma sends_trans s1 s2 s3 l l' : sends s1 s2 l → sends s2 s3 l' → sends s1 s3 (l ++ l').
Proof.
  intros H1 H2. pose proof (sends_dom _ _ _ H1) as Hd.
  destruct H1 as [C1 S1 K1 Q1], H2 as [C2 S2 K2 Q2]. split.
  - congruence.
  - by rewrite S2, S1, app_assoc.
  - apply Forall_app_2; [done|]. apply (Forall_impl _ _ _ K2). intros [[i cmd] data]. set_solver.
  - intros id c3 (c2 & Hc2 & E2 & P2)%Q2. apply Q1 in Hc2 as (c1 & Hc1 & E1 & P1).
    exists c1. rewrite to_app. split_and!; [done|by eapply extends_trans|by apply Forall_app_2].
Qed.

(** *** Closure *)

Lemma emits_bind {A B} (m : M A) (f : A → M B) : emits m → (∀ a, emits (f a)) → emits (m ≫= f).
Proof.
  intros Hm Hf s b s' Hs (a & s1 & E1 & E2)%bind_done.
  destruct (Hm _ _ _ Hs E1) as [Hs1 [l Hl]]. destruct (Hf a _ _ _ Hs1 E2) as [Hs2 [l' Hl']].
  split; [done|]. exists (l ++ l'). by eapply sends_trans.
Qed.
Lemma emits_gets_bind {A B} (Q : A → Prop) (f : server → A) (k : A → M B) :
  (∀ s, tx_server s → Q (f s)) → (∀ a, Q a → emits (k a)) → emits (gets f ≫= k).
Proof. intros Hf Hk s b s' Hs E. rewrite gets_bind in E. eapply Hk; [|done|exact E]. by apply Hf. Qed.
Lemma emits_ret {A} (a : A) : emits (mret a).
Proof. intros s b s' Hs [= <- <-]. split; [done|]. exists []. apply sends_refl. Qed.
Lemma emits_skip : emits skip.
Proof. apply emits_ret. Qed.
Lemma emits_gets {A} (f : server → A) : emits (gets f).
Proof. intros s b s' Hs [= <- <-]. split; [done|]. exists []. apply sends_refl. Qed.
Lemma emits_undefined {A} : emits (@undefined A).
Proof. done. Qed.

(** A step that leaves the table, the log and the configuration alone. *)
Definition io_view (s : server) := (config_maps s, channels_ s, sent_ s).

Lemma io_same s s' : io_view s' = io_view s → tx_server s → tx_server s' ∧ ∃ l, sends s s' l.
Proof.
  intros [= E1 E2 E3] [Hn Hl]. split.
  - split; [unfold names_ok; by rewrite E1|by rewrite E2].
  - exists []. split; [done|by rewrite E3, app_nil_r|constructor|].
    intros id c. rewrite E2. intros Hc. exists c. split_and!; [done|apply extends_refl|constructor].
Qed.

Lemma emits_modify f : (∀ s, io_view (f s) = io_view s) → emits (modify f).
Proof. intros Hf s b s' Hs [= <- <-]. by apply io_same. Qed.
Lemma emits_game_service : emits game_service.
Proof.
  intros s b s' Hs. unfold game_service. destruct (use_ecs s); [|done]. intros [= <- <-].
  by apply io_same.
Qed.
Lemma emits_with_mtx {A} (m : M A) : emits m → emits (with_mtx m).
Proof.
  intros Hm s b s' Hs. unfold with_mtx. destruct (mtx_ s); [done|].
  destruct (m (s <| mtx_ := true |>)) as [a s1| |] eqn:E; [|done..]. intros [= <- <-].
  destruct (io_same s (s <| mtx_ := true |>)) as [Hs1 _]; [done|done|].
  destruct (Hm _ _ _ Hs1 E) as [[Hn Hl] [l [? ? ? ?]]]. split; [by split|]. exists l. by split.
Qed.
Lemma emits_for_each {A} (l : list A) f : (∀ x, emits (f x)) → emits (for_each l f).
Proof. intros Hf. induction l as [|x l IH]; [apply emits_ret|]. by apply emits_bind. Qed.
Lemma emits_parsed {A} (r : ProtocolBase.outcome A) bad k :
  emits bad → (∀ a, emits (k a)) → emits (parsed r bad k).
Proof. intros Hb Hk. destruct r; [apply Hk|done|done]. Qed.

End sending.

(** *** What is sent is bytes *)

Definition payload (n : Z) (out : list Z) : Prop := Forall is_u8 out ∧ zlen out ≤ n.

Lemma payload_nil : payload 0 [].
Proof. by split. Qed.
Lemma payload_le32 n out v : payload n out → payload (n + 4) (shared.write_le32 out v).
Proof.
  intros [Hb Hl]. rewrite write_le32_app. split; [by apply Forall_app_2, le32_bytes|].
  autorewrite with zlen. lia.
Qed.
Lemma payload_float n out v : payload n out → payload (n + 4) (shared.write_float_le out v).
Proof. apply payload_le32. Qed.
Lemma payload_bool n out b :
  payload n out → payload (n + 1) (shared.push_back out (shared.char_of_bool b)).
Proof.
  intros [Hb Hl]. unfold shared.push_back. split; [|autorewrite with zlen; lia].
  apply Forall_app_2; [done|]. by destruct b; repeat constructor.
Qed.
Lemma payload_string n k out l :
  payload n out → payload k l → payload (n + 4 + k) (shared.write_lp_string out l).
Proof.
  intros [Hb Hl] [Hb' Hl']. split; [|rewrite GameServerProgress.zlen_write_lp_string; lia].
  unfold shared.write_lp_string. rewrite write_le32_app. repeat apply Forall_app_2; auto using le32_bytes.
Qed.
Lemma payload_str (s : string) : payload (zlen (str s)) (str s).
Proof.
  split; [|done]. unfold str, bytes_of_string. apply Forall_fmap, Forall_true. intros c. cbn.
  pose proof (Ascii.N_ascii_bounded c). int_unfold. lia.
Qed.

Lemma payload_sendable n cmd data :
  is_u16 cmd → cmd ≠ 1 → payload n data → n < 2 ^ 30 → sendable cmd data.
Proof. intros ? ? [? ?] ?. split_and!; [done|done|done|lia]. Qed.

(** Follow a serializer. *)
Ltac solve_payload :=
  repeat autounfold with msg; cbv zeta; cbn [login_res.message attack_res.message map_enter_res.message
    map_enter_res.map_name guild_create_res.message guild_join_res.message guild_leave_res.message];
  repeat match goal with
    | |- payload _ [] => apply payload_nil
    | |- payload _ (shared.write_le32 _ _) => eapply payload_le32
    | |- payload _ (shared.write_float_le _ _) => eapply payload_float
    | |- payload _ (shared.push_back _ _) => eapply payload_bool
    | |- payload _ (shared.write_lp_string _ _) => eapply payload_string
    | |- payload _ (if ?b then _ else _) => destruct b
    | |- payload _ (str _) => apply payload_str
    | |- payload _ _ => eassumption
    end.
Ltac solve_sendable := eapply payload_sendable; [by_decide|done|solve_payload|by_decide].

(** *** Closing *)

(** [on_close] takes the channel out of the table, and touches neither the other
    channels nor the log. *)
Lemma on_close_io id r s a s' :
  on_close id r s = Done a s' →
  io_view s' = (config_maps s, delete id (channels_ s), sent_ s).
Proof. unfold io_view. by intros [= -> -> -> _]%asio_server.on_close_tables. Qed.

(** A state that differs from [s] by the removal of a channel and some sent frames. *)
Lemma removed_sends {AO : ArgOrder} id s s' l :
  io_view s' = (config_maps s, delete id (channels_ s), sent_ s ++ l) →
  Forall (λ '(i, cmd, data), i = id ∧ cmd ≠ 1) l → (l ≠ [] → is_Some (channels_ s !! id)) →
  (∀ i c, i ≠ id → channels_ s !! i = Some c → live i c) → names_ok s →
  tx_server s' ∧ sends s s' l.
Proof.
  intros [= E1 E2 E3] Hl Hid Hlive Hn. split.
  - split; [unfold names_ok; by rewrite E1|]. intros i c. rewrite E2.
    intros [? ?]%lookup_delete_Some. by apply Hlive.
  - split; [done|done| |].
    + apply Forall_forall. intros [[i cmd] data] Hin.
      rewrite Forall_forall in Hl. destruct (Hl _ Hin) as [-> ?]. split; [|done].
      apply elem_of_dom, Hid. intros ->. by apply not_elem_of_nil in Hin.
    + intros i c. rewrite E2. intros [Hne Hc]%lookup_delete_Some. exists c.
      assert (to i l = []) as ->.
      { clear -Hl Hne. induction Hl as [|[[j cmd] data] l [-> _] _ IH]; [done|].
        unfold to in *. cbn. by rewrite decide_False. }
      split_and!; [done|apply extends_refl|constructor].
Qed.

Create HintDb emits discriminated.
#[export] Hint Constants Opaque : emits.
#[export] Hint Resolve emits_ret emits_skip emits_gets emits_undefined emits_game_service : emits.

(** Follow the structure of a handler. *)
Ltac solve_emits :=
  repeat first
    [ progress intros
    | solve [eauto with emits nocore]
    | match goal with
      | |- emits (mbind _ _) => apply emits_bind
      | |- emits (with_mtx _) => apply emits_with_mtx
      | |- emits (for_each _ _) => apply emits_for_each
      | |- emits (parsed _ _ _) => apply emits_parsed
      | |- emits (modify _) => apply emits_modify; done
      end
    | case_match ].

Section emits.
Context `{HashOrder} `{PriorityQueue} {AO : ArgOrder}.
Context (token : list Z → option Z) (upd : f32 → world → world).

(** A close reported by a channel: the others are live. *)
Lemma on_close_sends id r s a s' :
  (∀ i c, i ≠ id → channels_ s !! i = Some c → live i c) → names_ok s →
  on_close id r s = Done a s' → tx_server s' ∧ sends s s' [].
Proof.
  intros Hl Hn E%on_close_io. apply (removed_sends id); try done. by rewrite app_nil_r.
Qed.

Lemma emits_on_close id r : emits (on_close id r).
Proof.
  intros s a s' [Hn Hl] E. apply on_close_sends in E as [? ?]; eauto.
Qed.

(** Sending a frame: it is logged; the channel queues it, or closes itself and
    leaves the table. *)
Lemma emits_send_frame id cmd data : sendable cmd data → emits (send_frame id cmd data).
Proof.
  intros (Hc & Hne & Hb & Hz) s a s' [Hn Hl]. unfold send_frame, modify, mbind, M_bind, channel_send. cbn.
  destruct (channels_ s !! id) as [c|] eqn:Hid; [|done].
  change (pack cmd 0 1 0 data) with (pack_message (cmd, data)).
  destruct (asio_channel.send _ c) as [c' es] eqn:Hs.
  apply (live_send id) in Hs as [(r & rest & -> & _)|(Hsil & Hc' & He & Hp)]; try done; [| |by apply Hl].
  - cbn [asio_channel.close_events omap list_omap]. rewrite channel_closed_run.
    match goal with |- context [on_close id r ?x] => destruct (on_close id r x) as [u s1| |] eqn:E end; [|done..].
    intros [= <- <-]. apply on_close_io in E.
    destruct (removed_sends id s (s1 <| removed_ ::= λ rs, rs ++ asio_channel.close_callbacks rest |>)
      [(id, cmd, data)]) as [? ?]; try done.
    + change (io_view s1 = (config_maps s, delete id (channels_ s), sent_ s ++ [(id, cmd, data)])).
      rewrite E. cbn. f_equal. f_equal. apply delete_insert_eq.
    + by constructor.
    + eauto.
    + eauto.
  - rewrite (silent_no_close _ Hsil). intros [= <- <-]. split.
    + split; [done|]. intros i ci. cbn. intros [[<- <-]|[_ ?]]%lookup_insert_Some; [done|auto].
    + exists [(id, cmd, data)]. split; [done|done| |].
      * constructor; [|done]. split; [by eapply elem_of_dom_2|done].
      * cbn [channels_]. intros i ci [[<- <-]|[Hne' Hi]]%lookup_insert_Some.
        -- exists c. rewrite to_one. split_and!; [done|done|by constructor].
        -- exists ci. rewrite to_other by done. split_and!; [done|apply extends_refl|constructor].
Qed.
#[local] Hint Resolve emits_on_close : emits.

Lemma emits_find_and_send id cmd data : sendable cmd data → emits (find_and_send id cmd data).
Proof. intros Hs. unfold find_and_send, connected. solve_emits. by apply emits_send_frame. Qed.
Lemma emits_send_test_frame id cmd data : sendable cmd data → emits (send_test_frame id cmd data).
Proof. intros Hs. unfold send_test_frame, connected. solve_emits. by apply emits_send_frame. Qed.
Lemma emits_broadcast cmd data : sendable cmd data → emits (broadcast cmd data).
Proof. intros Hs. unfold broadcast. solve_emits. by apply emits_send_frame. Qed.
Lemma emits_broadcast_except ex cmd data : sendable cmd data → emits (broadcast_except ex cmd data).
Proof. intros Hs. unfold broadcast_except. solve_emits. by apply emits_send_frame. Qed.

(** *** The handlers *)

Local Ltac emits_send :=
  match goal with
  | |- emits (find_and_send _ _ _) => apply emits_find_and_send
  | |- emits (send_test_frame _ _ _) => apply emits_send_test_frame
  | |- emits (broadcast _ _) => apply emits_broadcast
  | |- emits (broadcast_except _ _ _) => apply emits_broadcast_except
  end; first [assumption | solve_sendable].

Lemma emits_spawn_player ch name db p m h : emits (spawn_player ch name db p m h).
Proof. unfold spawn_player, on_modify_world. solve_emits. Qed.
#[local] Hint Resolve emits_spawn_player : emits.

Lemma emits_handle_login ch data : emits (handle_login token ch data).
Proof.
  unfold handle_login, login_without_db. solve_emits; emits_send.
Qed.

Lemma emits_login_done r ch name : emits (login_done r ch name).
Proof. unfold login_done, connected. solve_emits; emits_send. Qed.

Lemma emits_handle_move ch data : emits (handle_move ch data).
Proof.
  unfold handle_move, route_packet_to_map, get_player_map, on_modify_world. cbv zeta.
  solve_emits; emits_send.
Qed.

Lemma emits_handle_attack ch data : emits (handle_attack ch data).
Proof.
  unfold handle_attack, on_modify_world. cbv zeta. solve_emits; emits_send.
Qed.

Lemma emits_handle_chat ch data :
  Forall is_u8 data → zlen data < 2 ^ 29 → emits (handle_chat ch data).
Proof.
  intros Hb Hl. assert (sendable 1003 (shared.write_le32 [] (u32 ch) ++ data)).
  { rewrite write_le32_app, app_nil_l. split_and!; [by_decide|done|by apply Forall_app_2, Hb; apply le32_bytes|].
    autorewrite with zlen. lia. }
  unfold handle_chat. solve_emits; emits_send.
Qed.

Lemma emits_handle_map_enter ch data : emits (handle_map_enter ch data).
Proof.
  unfold handle_map_enter, get_player_map, update_player_map, on_modify_world.
  apply emits_parsed; [solve_emits|]. intros req.
  apply (emits_gets_bind (λ r, ∀ i cfg, r = Some (i, cfg) → payload (2 ^ 29) (mc_name cfg))).
  { intros s [Hn _] i cfg (Hi & _)%list_find_Some. unfold names_ok in Hn. rewrite Forall_lookup in Hn.
    destruct (Hn _ _ Hi). split; [done|lia]. }
  intros [[i cfg]|] Hq; [|emits_send]. pose proof (Hq i cfg eq_refl) as Hp. clear Hq.
  solve_emits; emits_send.
Qed.

Lemma emits_guild_create ch data : emits (handle_guild_create ch data).
Proof. unfold handle_guild_create. solve_emits; emits_send. Qed.
Lemma emits_guild_join ch data : emits (handle_guild_join ch data).
Proof. unfold handle_guild_join. solve_emits; emits_send. Qed.
Lemma emits_guild_leave ch data : emits (handle_guild_leave ch data).
Proof. unfold handle_guild_leave. solve_emits; emits_send. Qed.

(** Whatever a client sends, its handler only appends to the queues. *)
Lemma emits_dispatch cmd ch data :
  Forall is_u8 data → zlen data < 2 ^ 29 → emits (dispatch token cmd ch data).
Proof.
  intros Hb Hl. unfold dispatch. solve_emits. destruct h; cbn [call];
    eauto using emits_handle_login, emits_handle_move, emits_handle_chat, emits_handle_attack,
      emits_handle_map_enter, emits_guild_create, emits_guild_join, emits_guild_leave with nocore.
  - unfold handle_ping. emits_send.
  - unfold handle_echo. apply emits_find_and_send. split_and!; [by_decide|done|done|lia].
Qed.

Lemma emits_flush : emits flush_players.
Proof.
  assert (∀ found, emits (collect_entries found)) as Hc.
  { induction found as [|[db_id e] found IH]; cbn [collect_entries]; unfold get_comp; solve_emits. }
  unfold flush_players. solve_emits.
Qed.

Lemma emits_main_loop dt : emits (main_loop upd dt).
Proof.
  apply emits_modify. intros s. destruct (main_thread_manager_ s); [|done].
  by destruct (MainThreadManager.loop_body _ _ _ _).
Qed.
Lemma emits_map_loop m dt : emits (map_loop m dt).
Proof.
  apply emits_modify. intros s. destruct (main_thread_manager_ s) as [t0|]; [|done].
  cbv zeta. case_match; [|done]. by destruct (MapThread.loop_body _ _ _) as [? [? ?]].
Qed.

(** ** The operations of a channel *)

(** Callbacks of a channel that stays open. *)
Definition harmless (e : asio_channel.effect) : Prop :=
  match e with
  | asio_channel.OnFrame _ _ p => Forall is_u8 p ∧ zlen p < 2 ^ 29
  | asio_channel.HandlerClose _ _ => False
  | _ => True
  end.

Lemma silent_harmless es : Forall silent es → Forall harmless es.
Proof. intros Hs. apply (Forall_impl _ _ _ Hs). by intros []. Qed.

Lemma emits_callbacks es : Forall harmless es → emits (for_each es (callback token)).
Proof.
  induction 1 as [|e es He _ IH]; [apply emits_ret|]. apply emits_bind; [|done].
  unfold callback. destruct e; try apply emits_skip; [done|by apply emits_modify|]. destruct He. by apply emits_dispatch.
Qed.

Lemma silent_callbacks es s : Forall silent es → for_each es (callback token) s = Done tt s.
Proof. induction 1 as [|e es He _ IH]; [done|]. by destruct e. Qed.

(** Close callbacks leave a note for the network server. *)
Lemma quiet_callbacks es s :
  Forall quiet es → ∃ l, for_each es (callback token) s = Done tt (s <| removed_ ::= λ r, r ++ l |>).
Proof.
  intros Hes. revert s. induction Hes as [|e es He _ IH]; intros s.
  { exists []. cbn. rewrite app_nil_r. by destruct s. }
  destruct e; try done; try exact (IH s).
  destruct (IH (s <| removed_ ::= λ r, r ++ [id] |>)) as [l E]. exists (id :: l).
  etrans; [exact E|]. cbn. by rewrite <- app_assoc.
Qed.

Lemma channel_io_open id o s a s' c c' es :
  tx_server s → channels_ s !! id = Some c → asio_channel.step o c = Some (c', es) →
  live id c' → Forall harmless es → channel_io token id o s = Done a s' →
  tx_server s' ∧ ∃ l, sends (s <| channels_ ::= <[id := c']> |>) s' l.
Proof.
  intros [Hn Hl] Hc Hs Hc' Hes. unfold channel_io. rewrite Hc, Hs. apply emits_callbacks; [done|].
  split; [done|]. cbn. intros i ci [[<- <-]|[_ ?]]%lookup_insert_Some; [done|auto].
Qed.

Lemma channel_io_silent id o s c c' es :
  channels_ s !! id = Some c → asio_channel.step o c = Some (c', es) → Forall silent es →
  channel_io token id o s = Done tt (s <| channels_ ::= <[id := c']> |>).
Proof. intros Hc Hs Hes. unfold channel_io. rewrite Hc, Hs. by apply silent_callbacks. Qed.

Lemma channel_io_closing id o s a s' c c' es :
  tx_server s → channels_ s !! id = Some c → asio_channel.step o c = Some (c', es) →
  closing id es → channel_io token id o s = Done a s' →
  tx_server s' ∧ sends s s' [] ∧ channels_ s' !! id = None.
Proof.
  intros [Hn Hl] Hc Hs (r & rest & -> & Hrest). unfold channel_io. rewrite Hc, Hs.
  cbn [for_each foldr].
  intros (u1 & s0 & [= <- <-] & (u2 & s1 & E & E1)%bind_done)%bind_done.
  change (for_each rest (callback token) s1 = Done a s') in E1.
  destruct (quiet_callbacks rest s1 Hrest) as [l El]. rewrite El in E1. injection E1 as _ <-.
  apply (on_close_io id r) in E. cbn in E. rewrite delete_insert_eq in E.
  destruct (removed_sends id s (s1 <| removed_ ::= λ rs, rs ++ l |>) []) as [? ?]; eauto;
    [rewrite app_nil_r; exact E|].
  split_and!; [done|done|]. injection E as _ E _. cbn. rewrite E. apply lookup_delete_eq.
Qed.
End emits.

(** The operations that neither read nor complete a write. *)
Definition local_op (o : asio_channel.op) : bool :=
  match o with
  | asio_channel.Send _ | asio_channel.ReadDone _ | asio_channel.WriteDone _ => false
  | _ => true
  end.

(** The ping that the channel sends on its own. *)
Definition ping : message := (1, []).

Section operations.
Context {AO : ArgOrder}.

Lemma close_closing id r c x c' es :
  live id c → asio_channel.close r c = (x, c', es) → closing id es.
Proof.
  intros Hl [(Ho & _)|(_ & _ & -> & _)]%asio_channel.close_spec; destruct Hl; [congruence|].
  rewrite <- app_nil_r. by apply on_close_closing.
Qed.

(** A local operation of a live channel closes it, or queues at most a ping. *)
Lemma live_local id o c c' es :
  live id c → local_op o = true → asio_channel.step o c = Some (c', es) →
  closing id es ∨ Forall silent es ∧ live id c' ∧
    ∃ fs, extends c c' fs ∧ Forall (packet_ok ∘ message_packet) fs ∧ Forall (eq ping) fs.
Proof.
  intros Hl Ho. assert (∀ es, Forall silent es → closing id es ∨ Forall silent es ∧ live id c ∧
    ∃ fs, extends c c fs ∧ Forall (packet_ok ∘ message_packet) fs ∧ Forall (eq ping) fs) as Hsame.
  { intros es' He. right. split_and!; [done|done|]. exists []. split_and!; auto using extends_refl. }
  destruct o as [| | | | |now| | |r]; try done; cbn [asio_channel.step].
  - unfold asio_channel.read_error. destruct (asio_channel.close _ c) as [[x c1] es1] eqn:E.
    intros [= <- <-]. left. by eapply close_closing.
  - unfold asio_channel.write_error. destruct (asio_channel.in_flight c) as [w|] eqn:Hf.
    + destruct (asio_channel.close _ _) as [[x c1] es1] eqn:E. intros [= <- <-]. left.
      apply asio_channel.close_spec in E as [(E & _)|(_ & _ & -> & _)]; destruct Hl;
        [cbn in E; congruence|]. rewrite <- app_nil_r. by apply on_close_closing.
    + intros [= <- <-]. by apply Hsame.
  - unfold asio_channel.idle_tick. rewrite (lv_open _ _ Hl).
    case_cmp; [|intros [= <- <-]; apply Hsame; by repeat constructor].
    destruct (asio_channel.close _ c) as [[x c1] es1] eqn:E. intros [= <- <-]. left.
    by eapply close_closing.
  - unfold asio_channel.ping_tick, asio_channel.send_ping. rewrite (lv_open _ _ Hl).
    change (pack 1 0 k_proto_ver 0 []) with (pack_message ping).
    destruct (asio_channel.send _ c) as [c1 es1] eqn:E. intros [= <- <-].
    apply (live_send id) in E as [(r & rest & -> & Hr)|(Hs & Hc & He & Hp)]; try done.
    + left. exists r, (rest ++ [asio_channel.ArmPing]). split; [done|].
      apply Forall_app_2; [done|]. by constructor.
    + right. split_and!; [apply Forall_app_2; [done|by constructor]|done|]. exists [ping].
      split_and!; [done|by constructor|by constructor].
  - unfold asio_channel.stats_tick. rewrite (lv_open _ _ Hl). intros [= <- <-].
    apply Hsame. by repeat constructor.
  - destruct (asio_channel.close _ c) as [[x c1] es1] eqn:E. intros [= <- <-]. left.
    by eapply close_closing.
Qed.

(** A completed write: what was in flight is gone, the rest is still to come. *)
Lemma live_written id now c c' es :
  live id c → asio_channel.write_done now c = (c', es) →
  Forall silent es ∧ live id c' ∧ pending c = flight c ++ pending c'
  ∧ asio_channel.frame_acc_ c' = asio_channel.frame_acc_ c
  ∧ asio_channel.frame_acc_offset_ c' = asio_channel.frame_acc_offset_ c
  ∧ (asio_channel.wake_ok c → asio_channel.wake_ok c').
Proof.
  intros Hl Hw. pose proof Hl as [Ho Hh Hf Hi Hd Ht].
  pose proof (asio_channel.write_done_tx_ok _ _ _ _ Ht Hw) as Ht'.
  assert (asio_channel.wake_ok c → asio_channel.wake_ok c') as Hwk.
  { intros Hok. apply (asio_channel.step_wake (asio_channel.WriteDone now) c c' es); try done.
    cbn. by rewrite Hw. }
  revert Hw. unfold asio_channel.write_done.
  destruct (asio_channel.in_flight c) as [[buf n]|] eqn:Hfl.
  2: { intros [= <- <-]. unfold pending, flight. rewrite Hfl. by split_and!. }
  set (c1 := set asio_channel.writing_ _ _).
  assert (pending c = flight c ++ pending c1) as Hp by (unfold pending, flight; by rewrite Hfl).
  destruct (asio_channel.write_queue_ c1) eqn:Hq.
  - intros [= <- <-]. by split_and!.
  - intros Hw. destruct (try_write_pending c1 c' es) as [Hp' _]; [done|done|].
    pose proof (asio_channel.try_write_rx _ _ _ Hw) as (Ha & Hof & _).
    split_and!; [by eapply try_write_silent| |by rewrite Hp'|done|done|done].
    apply (live_fixed id c); [by apply try_write_fixed in Hw|done|done].
Qed.
End operations.
