(* ===== verification/EndToEnd.v ===== *)
(** * The bots, the network and the server together

    The composition of the parts that the other files verify one by one: the
    server process ([asio_server] with the [game_server] behind it), one bot
    ([game_bot]) per accepted connection, and the two byte streams of each
    connection.  A step is one thing that happens in one of the processes or on
    the wire: a bot connects, a bot writes, some bytes of the write in flight reach
    the other side, asio completes a read or a write, a timer fires, the database
    answers.  Reads return any number of bytes up to the size of the buffer that
    the code passes (1024 on the server, 4096 in the bot), and a write reaches the
    peer in any number of pieces.

    The theorems say what the two ends see of each other in every such run. *)

From S2P Require Import Prelude FrameCodec Channel ChannelLaws Floats Components Ecs Systems Threads.
From S2P Require Import ProtocolBase ProtocolPlayer.
From S2P Require Import GameServer GameServerLaws GameServerHandlers AsioServer Client ClientLaws Outbox.
Import frame_codec game_server.

Module end_to_end.
Import bot_laws.

(** ** The composed system *)

(** The peer of a connection, and what is under way between the two. *)
Record peer := mkPeer {
  bot : game_bot.t;
  up : list Z;              (* written by the bot, not yet read by the server *)
  down : list Z;            (* arrived at the bot's socket, not yet read by the bot *)
  wired : nat;              (* bytes of the write in flight that have left the server *)
  handled : list message    (* log: the frames that the channel handed to [on_frame_] *)
}.
#[global] Instance peer_eta : Settable peer := λ p,
  mkPeer (bot p) (up p) (down p) (wired p) (handled p).

Record network := mkNet { sys : asio_server.system; peers : gmap Z peer }.

Definition srv (n : network) : server := asio_server.game (sys n).

(** What the bot's main thread may do after [connect]. *)
Inductive action :=
| Move (x y z : f32) | Chat (msg : list Z) | Ping | Disconnect.

Definition act (a : action) (b : game_bot.t) : game_bot.t :=
  match a with
  | Move x y z => game_bot.send_move x y z b
  | Chat msg => game_bot.send_chat msg b
  | Ping => game_bot.send_ping b
  | Disconnect => game_bot.disconnect b
  end.

(** The bot has become [b]: what it wrote meanwhile is on its way. *)
Definition becomes (b : game_bot.t) (p : peer) : peer :=
  p <| up ::= λ u, u ++ concat (drop (length (game_bot.written (bot p))) (game_bot.written b)) |>
    <| bot := b |>.

Definition new_peer (name : list Z) : peer :=
  becomes (game_bot.connect false false (game_bot.make name)).2
    (mkPeer (game_bot.make name) [] [] 0 []).

(** Sizes of the receive buffers. *)
Definition read_buffer_size : nat := 1024.    (* asio_channel::read_buffer_ *)
Definition bot_buffer_size : nat := 4096.     (* buf of recv_loop *)

(** What happens inside the server process apart from accepts and reads and writes. *)
Definition internal (ev : event) : bool :=
  match ev with
  | Accept _ _ | LateFrame _ _ _ => false
  | Io _ o => local_op o
  | _ => true
  end.

Inductive net_event :=
| Connect (name : list Z) (now : Z)     (* a bot connects and its accept completes *)
| Act (id : Z) (a : action)
| Wire (id : Z) (k : nat)               (* [k] more bytes of the write in flight arrive *)
| Written (id now : Z)                  (* the write in flight completes *)
| Upload (id : Z) (k : nat)             (* a read of the channel returns [k] bytes *)
| Download (id : Z) (k : nat)           (* a read of the bot returns [k] bytes *)
| Server (ev : event).

Section network.
Context `{HashOrder} `{PriorityQueue} {AO : ArgOrder}.
Context (token : list Z → option Z) (upd : f32 → world → world).

Definition serve (ev : asio_server.sys_event) (n : network) : option network :=
  y ← asio_server.sys_step token upd ev (sys n); Some (mkNet y (peers n)).

Definition set_peer (id : Z) (p : peer) (n : network) : network :=
  mkNet (sys n) (<[id := p]> (peers n)).

(** The channel of connection [id] and its peer, while both exist. *)
Definition connection (id : Z) (n : network) : option (asio_channel.channel * peer) :=
  c ← channels_ (srv n) !! id; p ← peers n !! id; Some (c, p).

Definition net_step (e : net_event) (n : network) : option network :=
  match e with
  | Connect name now =>
      if asio_server.accepting (asio_server.net (sys n)) then
        let id := asio_server.next_channel_id_ (asio_server.net (sys n)) in
        n ← serve (asio_server.AcceptDone false now) n;
        Some (set_peer id (new_peer name) n)
      else Some n
  | Act id a =>
      match peers n !! id with
      | Some p => Some (set_peer id (becomes (act a (bot p)) p) n)
      | None => Some n
      end
  | Wire id k =>
      match connection id n with
      | Some (c, p) =>
          let bytes := take k (drop (wired p) (flight c)) in
          Some (set_peer id (p <| down ::= λ d, d ++ bytes |> <| wired ::= Nat.add (length bytes) |>) n)
      | None => Some n
      end
  | Written id now =>
      match connection id n with
      | Some (c, p) =>
          match asio_channel.in_flight c with
          | Some (buf, _) =>
              if decide (wired p = length buf) then
                serve (asio_server.GameEvent (Io id (asio_channel.WriteDone now)))
                  (set_peer id (p <| wired := 0%nat |>) n)
              else Some n
          | None => Some n
          end
      | None => Some n
      end
  | Upload id k =>
      match connection id n with
      | Some (c, p) =>
          let chunk := take (min k read_buffer_size) (up p) in
          if decide (chunk = []) then Some n else
          '(_, es) ← asio_channel.read_done chunk c;
          serve (asio_server.GameEvent (Io id (asio_channel.ReadDone chunk)))
            (set_peer id (p <| up ::= drop (length chunk) |>
               <| handled ::= λ l, l ++ ((λ '(_, cmd, data), (cmd, data)) <$> asio_channel.frames es) |>) n)
      | None => Some n
      end
  | Download id k =>
      match peers n !! id with
      | Some p =>
          let chunk := take (min k bot_buffer_size) (down p) in
          if negb (game_bot.running_ (bot p)) || bool_decide (chunk = []) then Some n else
          b ← game_bot.recv chunk (bot p);
          Some (set_peer id (becomes b (p <| down ::= drop (length chunk) |>)) n)
      | None => Some n
      end
  | Server ev => if internal ev then serve (asio_server.GameEvent ev) n else Some n
  end.

Fixpoint net_run (es : list net_event) (n : network) : option network :=
  match es with
  | [] => Some n
  | e :: es => n ← net_step e n; net_run es n
  end.
End network.

(** ** Cutting a stream of packets *)

Definition msg_ok (f : message) : Prop := packet_ok (message_packet f).
#[global] Instance msg_ok_dec f : Decision (msg_ok f).
Proof. unfold msg_ok. apply _. Defined.

Lemma decode_message f rest :
  msg_ok f → decode_one (pack_message f ++ rest) =
  Got (Header f.1 0 1 0 (crc32 f.2)) f.2 true rest.
Proof. intros Hf. exact (decode_pack _ _ _ _ _ rest Hf). Qed.

(** A proper prefix of a packet is not yet a frame. *)
Lemma decode_prefix a k f more :
  msg_ok f → a ++ k = pack_message f ++ more → (length a < length (pack_message f))%nat →
  decode_one a = Wait.
Proof.
  intros Hf E Hl. pose proof (decode_one_app a k) as Ha. rewrite E, decode_message in Ha by done.
  destruct (decode_one a) as [| |h p ok r]; [done|done|]. injection Ha as _ _ _ Hm.
  apply (f_equal length) in E, Hm. rewrite !length_app in *. lia.
Qed.

(** Cut anywhere, a stream of packets is whole packets and a beginning of the next. *)
Lemma packs_split a b fs :
  Forall msg_ok fs → a ++ b = pack_messages fs →
  ∃ fs1 fs2 r, fs = fs1 ++ fs2 ∧ a = pack_messages fs1 ++ r ∧ r ++ b = pack_messages fs2
    ∧ decode_one r = Wait.
Proof.
  intros Hok. revert a. induction Hok as [|f fs Hf _ IH]; intros a E.
  { apply app_nil in E as [-> ->]. by exists [], [], []. }
  change (pack_messages (f :: fs)) with (pack_message f ++ pack_messages fs) in *.
  destruct (decide (length a < length (pack_message f))%nat) as [Hl|Hl].
  { exists [], (f :: fs), a. split_and!; [done|done|done|]. by eapply decode_prefix. }
  assert (a = pack_message f ++ drop (length (pack_message f)) a) as Ea.
  { rewrite <- (take_drop (length (pack_message f)) a) at 1. f_equal.
    rewrite <- (take_app_le a b), E by lia. apply take_app_length. }
  rewrite Ea, <- app_assoc in E. apply app_inv_head in E.
  destruct (IH _ E) as (fs1 & fs2 & r & -> & Ed & Er & Hw).
  exists (f :: fs1), fs2, r. split_and!; [done| |done|done].
  change (pack_messages (f :: fs1)) with (pack_message f ++ pack_messages fs1).
  by rewrite <- app_assoc, <- Ed.
Qed.

Lemma packs_drain fs r :
  Forall msg_ok fs → decode_one r = Wait →
  drains (pack_messages fs ++ r) (packet_delivery ∘ message_packet <$> fs) r.
Proof.
  intros Hok Hw. apply framed_drains. unfold pack_messages.
  assert (pack_message <$> fs = pack_packet <$> (message_packet <$> fs)) as ->
    by (by rewrite <- list_fmap_compose).
  rewrite (list_fmap_compose message_packet packet_delivery). apply packets_framed; [|done].
  by apply Forall_fmap.
Qed.

Lemma wait_small r : decode_one r = Wait → zlen r < 4 + k_max_frame_bytes.
Proof.
  destruct r as [|b0 [|b1 [|b2 [|b3 tl]]]]; try done. unfold decode_one.
  destruct (Z.ltb_spec k_max_frame_bytes (join32 b0 b1 b2 b3)); [done|].
  destruct (Z.ltb_spec (zlen (b0 :: b1 :: b2 :: b3 :: tl)) (4 + join32 b0 b1 b2 b3)); [lia|].
  case_match; [done|]. repeat (case_match; try done).
Qed.

Lemma pack_messages_bytes fs : Forall msg_ok fs → Forall is_u8 (pack_messages fs).
Proof.
  intros Hok. unfold pack_messages. apply Forall_concat, Forall_fmap.
  apply (Forall_impl _ _ _ Hok). intros f. apply pack_packet_bytes.
Qed.

Lemma pack_messages_nil fs : pack_messages fs = [] → fs = [].
Proof.
  destruct fs as [|f fs]; [done|]. intros E. exfalso.
  change (pack_message f ++ pack_messages fs = []) in E. apply app_nil in E as [E _].
  pose proof (zlen_pack_message f) as Hz. rewrite E in Hz. pose proof (zlen_nonneg f.2).
  change (zlen (@nil Z)) with 0 in Hz. lia.
Qed.

(** One read of a channel in the middle of a stream of packets. *)
Lemma read_packets c chunk rest fs :
  rx_ok c → is_u64 (asio_channel.drops c) → asio_channel.on_frame_ c = true →
  decode_one (unread c) = Wait → (length chunk ≤ bot_buffer_size)%nat → Forall msg_ok fs →
  unread c ++ chunk ++ rest = pack_messages fs →
  ∃ a off es fs1 fs2,
    let c' := c <| asio_channel.frame_acc_ := a |> <| asio_channel.frame_acc_offset_ := off |> in
    asio_channel.read_done chunk c = Some (c', es)
    ∧ asio_channel.frames es = (λ f, (asio_channel.channel_id_ c, f.1, f.2)) <$> fs1
    ∧ fs = fs1 ++ fs2 ∧ rx_ok c' ∧ decode_one (unread c') = Wait
    ∧ unread c' ++ rest = pack_messages fs2.
Proof.
  intros Hrx Hd Hf Hw Hl Hok E. pose proof (pack_messages_bytes _ Hok) as Hb.
  rewrite app_assoc in E. rewrite <- E in Hb. apply Forall_app in Hb as [Hb _].
  apply Forall_app in Hb as [_ Hb].
  destruct (packs_split _ _ _ Hok E) as (fs1 & fs2 & r & -> & Ea & Er & Hwr).
  apply Forall_app in Hok as [Hok1 _]. pose proof (packs_drain fs1 r Hok1 Hwr) as Hdr.
  rewrite <- Ea in Hdr. pose proof (wait_small _ Hw). change k_max_frame_bytes with 1048576 in *.
  assert (2 * zlen (unread c) + zlen chunk < 2 ^ 63 - 1) as Hsm
    by (unfold zlen, bot_buffer_size in *; lia).
  destruct (read_done_receives c chunk _ r Hrx Hb Hsm Hd Hf Hdr)
    as (a & off & es & Hr & Hrx' & Hu & Hfr).
  rewrite (list_fmap_compose message_packet packet_delivery) in Hr, Hrx', Hu, Hfr.
  rewrite bad_packets, Z.add_0_r, u64_small in Hr, Hrx', Hu by done.
  rewrite good_packets, <- list_fmap_compose in Hfr.
  exists a, off, es, fs1, fs2. cbv zeta.
  replace (c <| asio_channel.frame_acc_ := a |> <| asio_channel.frame_acc_offset_ := off |>)
    with (c <| asio_channel.frame_acc_ := a |> <| asio_channel.frame_acc_offset_ := off |>
            <| asio_channel.drops := asio_channel.drops c |>) by (by destruct c).
  split_and!; [done|done|done|done|by rewrite Hu|by rewrite Hu].
Qed.

(** ** The invariant of a connection *)

Section invariant.
Context {AO : ArgOrder}.

(** Frames of the server proper: pings come from the channel itself. *)
Definition own (fs : list message) : list message := filter (λ f, f.1 ≠ 1) fs.

(** The only frames with the command of a ping are the channel's pings. *)
Definition own_ping (f : message) : Prop := f.1 = 1 → f = ping.

(** What the bot prints for a frame. *)
Definition shown (f : message) : game_bot.notice := notice_of (0, f.1, f.2).

(** The bot's receive buffer as that of a channel. *)
Definition mirror (b : game_bot.t) : asio_channel.channel :=
  asio_channel.Channel 0 true false None true 0 false false 0 0 0 0 0 0 0 0 [] (game_bot.acc_ b)
    (game_bot.acc_offset_ b) None.

Definition fits (f : message) : Prop := zlen (pack_message f) ≤ asio_channel.k_max_batch_bytes.

(** Upwards: the bot wrote whole packets, of which the channel has handled the
    first ones; while it is connected, the others are on their way to it. *)
Definition up_ok (s : server) (id : Z) (p : peer) : Prop :=
  ∃ rest, game_bot.written (bot p) = pack_message <$> handled p ++ rest
    ∧ Forall msg_ok (handled p ++ rest)
    ∧ ∀ c, channels_ s !! id = Some c →
        rx_ok c ∧ decode_one (unread c) = Wait ∧ unread c ++ up p = pack_messages rest.

(** Downwards: the bot has got and shown the first of the frames given to the channel,
    and the others are buffered, on the wire or still in the channel; or asio gets
    none of their bytes, and the bot nothing. *)
Record down_of (s : server) (id : Z) (p : peer) (seen rest : list message) (tail : list Z) : Prop := {
  dn_got : game_bot.got (bot p) = seen;
  dn_shown : game_bot.notices (bot p) = shown <$> seen;
  dn_mute : arg_order = HandlerFirst → seen = [];
  dn_ok : Forall msg_ok (seen ++ rest);
  dn_pings : Forall own_ping (seen ++ rest);
  dn_bytes : unread (mirror (bot p)) ++ down p ++ tail = asio_channel.handed (pack_messages rest);
  dn_sent : own (seen ++ rest) `prefix_of` to id (sent_ s);
  dn_live : ∀ c, channels_ s !! id = Some c →
    own (seen ++ rest) = to id (sent_ s)
    ∧ (wired p ≤ length (flight c))%nat ∧ tail = drop (wired p) (pending c)
    ∧ (Forall fits (seen ++ rest) → asio_channel.wake_ok c) }.
Definition down_ok (s : server) (id : Z) (p : peer) : Prop :=
  rx_ok (mirror (bot p)) ∧ decode_one (unread (mirror (bot p))) = Wait
  ∧ game_bot.running_ (bot p) = game_bot.socket_open (bot p)
  ∧ ∃ seen rest tail, down_of s id p seen rest tail.

Record peer_ok (s : server) (id : Z) (p : peer) : Prop := {
  po_up : up_ok s id p;
  po_down : down_ok s id p }.

Lemma own_app fs fs' : own (fs ++ fs') = own fs ++ own fs'.
Proof. apply filter_app. Qed.

(** The server moved on: what it did to this connection is to queue frames. *)
Lemma peer_ok_evolve s s' id p fs l :
  peer_ok s id p → to id (sent_ s') = to id (sent_ s) ++ l →
  (∀ c', channels_ s' !! id = Some c' → ∃ c, channels_ s !! id = Some c
     ∧ extends c c' fs ∧ Forall msg_ok fs ∧ Forall own_ping fs ∧ own fs = l) →
  peer_ok s' id p.
Proof.
  intros [Hup (Hrx & Hw & Hrun & seen & rest & tail & [Hgot Hsh Hmu Hok Hpg Hb Hpre Hlive])] Hsent Hch. split.
  - destruct Hup as (r & Hwr & Hm & Hc). exists r. split_and!; [done|done|].
    intros c' (c & Hcc & [_ _ Ha Ho _] & _)%Hch. apply Hc in Hcc as ([? ?] & ? & ?).
    unfold unread. rewrite Ha, Ho. split_and!; [|done|done]. split; by rewrite ?Ha, ?Ho.
  - split_and!; [done|done|done|]. destruct (channels_ s' !! id) as [c'|] eqn:Hc'.
    + destruct (Hch c' eq_refl) as (c & Hc & He & Hfs & Hfp & Hown).
      destruct (Hlive c Hc) as (Hs & Hwd & -> & Hwk).
      assert (own (seen ++ rest ++ fs) = to id (sent_ s')) as Hs'
        by (by rewrite app_assoc, own_app, Hs, Hown, Hsent).
      destruct He as [Hp Hfl _ _ Hwake].
      assert (drop (wired p) (pending c') = drop (wired p) (pending c) ++ asio_channel.handed (pack_messages fs)) as Hd.
      { rewrite Hp. apply drop_app_le. unfold pending. rewrite length_app. lia. }
      exists seen, (rest ++ fs), (drop (wired p) (pending c')). split.
      * done.
      * done.
      * done.
      * rewrite app_assoc. by apply Forall_app_2.
      * rewrite app_assoc. by apply Forall_app_2.
      * by rewrite pack_messages_app, asio_channel.handed_app, <- Hb, Hd, !app_assoc.
      * by rewrite Hs'.
      * intros ? [= <-]%(eq_trans (eq_sym Hc')). split_and!; [done| |done|].
        -- unfold flight in *. destruct (asio_channel.in_flight c) as [w|]; [by rewrite (Hfl w)|].
           cbn in Hwd. lia.
        -- rewrite app_assoc. intros [? ?]%Forall_app. auto.
    + exists seen, rest, tail. split; try done; [|by rewrite Hc'].
      rewrite Hsent. by apply prefix_app_r.
Qed.

Lemma peer_ok_sends s s' l id p : sends s s' l → peer_ok s id p → peer_ok s' id p.
Proof.
  intros [Hcfg Hsent Hknown Hq] Hp. apply (peer_ok_evolve s s' id p (to id l) (to id l)); [done| |].
  - by rewrite Hsent, to_app.
  - intros c' (c & Hc & He & Hok)%Hq. exists c. split_and!; [done|done|done| |].
    { clear -Hknown. induction Hknown as [|[[i cmd] data] l [_ Hne] _ IH]; [constructor|].
      unfold to in *. cbn. case_decide; [|done]. constructor; [|done]. intros E. by destruct Hne. }
    clear -Hknown. induction Hknown as [|[[i cmd] data] l [_ Hne] _ IH]; [done|].
    unfold to in *. cbn. case_decide; [|done]. unfold own. rewrite filter_cons_True by done.
    f_equal. exact IH.
Qed.

(** ** The bot's steps *)

(** The bot became [b'] by writing the packets of [fs]. *)
Lemma becomes_up s id p b fs :
  game_bot.written b = game_bot.written (bot p) ++ (pack_message <$> fs) → Forall msg_ok fs →
  up_ok s id p → up_ok s id (becomes b p).
Proof.
  intros Hw Hfs (rest & Hwr & Hok & Hc). exists (rest ++ fs). cbn. split_and!.
  - by rewrite Hw, Hwr, <- fmap_app, app_assoc.
  - rewrite app_assoc. by apply Forall_app_2.
  - intros c Hcc. apply Hc in Hcc as (? & ? & E). split_and!; [done|done|].
    by rewrite Hw, drop_app_length, pack_messages_app, <- E, app_assoc.
Qed.

Definition action_ok (a : action) : Prop :=
  match a with Chat msg => msg_ok (1003, msg) | _ => True end.
#[global] Instance action_ok_dec a : Decision (action_ok a).
Proof. destruct a; apply _. Defined.

Lemma move_ok x y z :
  msg_ok (1002, player_move_req.serialize (player_move_req.mk x y z 0 0)).
Proof.
  unfold msg_ok, packet_ok, frame_ok, message_packet, player_move_req.serialize. cbn [fst snd p_cmd
    p_flags p_ver p_seq p_payload player_move_req.x player_move_req.y player_move_req.z
    player_move_req.rotation player_move_req.timestamp].
  rewrite write_le32_app, !write_float_le_app.
  split_and!; [by_decide..| |done].
  rewrite app_nil_l. repeat apply Forall_app_2; apply le32_bytes.
Qed.

Lemma send_frame_written cmd data b :
  msg_ok (cmd, data) →
  ∃ fs, game_bot.send_frame cmd data b = b <| game_bot.written ::= λ w, w ++ (pack_message <$> fs) |>
    ∧ Forall msg_ok fs.
Proof.
  intros Hok. unfold game_bot.send_frame. destruct (game_bot.socket_open b).
  - exists [(cmd, data)]. split; [done|by constructor].
  - exists []. split; [|constructor]. destruct b. cbn. by rewrite app_nil_r.
Qed.

Lemma act_written a b :
  action_ok a → game_bot.running_ b = game_bot.socket_open b →
  ∃ fs, game_bot.written (act a b) = game_bot.written b ++ (pack_message <$> fs)
    ∧ Forall msg_ok fs ∧ mirror (act a b) = mirror b
    ∧ game_bot.got (act a b) = game_bot.got b ∧ game_bot.notices (act a b) = game_bot.notices b
    ∧ game_bot.running_ (act a b) = game_bot.socket_open (act a b).
Proof.
  intros Ha Hr. destruct a as [x y z|msg| |]; cbn [act].
  - destruct (send_frame_written _ _ b (move_ok (bits_of_f32 x) (bits_of_f32 y) (bits_of_f32 z)))
      as (fs & E & Hfs). unfold game_bot.send_move. rewrite E. exists fs. by split_and!.
  - destruct (send_frame_written 1003 msg b Ha) as (fs & E & Hfs). unfold game_bot.send_chat.
    rewrite E. exists fs. by split_and!.
  - destruct (send_frame_written 1 [] b) as (fs & E & Hfs); [by_decide|]. unfold game_bot.send_ping.
    rewrite E. exists fs. by split_and!.
  - exists []. cbn. rewrite app_nil_r. by split_and!.
Qed.

Lemma act_ok s id p a :
  action_ok a → peer_ok s id p → peer_ok s id (becomes (act a (bot p)) p).
Proof.
  intros Ha [Hup (Hrx & Hw & Hrun & seen & rest & tail & [Hgot Hsh Hmu Hok Hpg Hb Hpre Hlive])].
  destruct (act_written a (bot p) Ha Hrun) as (fs & Hwr & Hfs & Hm & Hg & Hn & Hr). split.
  - by eapply becomes_up.
  - unfold down_ok. cbn. rewrite Hm. split_and!; [done|done|done|]. exists seen, rest, tail.
    split; cbn; rewrite ?Hm, ?Hn, ?Hg; done.
Qed.

(** One pong for each ping. *)
Definition pongs (fs : list message) : list message :=
  concat ((λ f, if f.1 =? 1 then [(2, [])] else []) <$> fs).

Lemma pongs_ok fs : Forall msg_ok (pongs fs).
Proof.
  apply Forall_concat, Forall_fmap, Forall_true. intros f. cbn. case_cmp; [|done].
  repeat constructor; by_decide.
Qed.

Lemma replies_pongs id fs :
  concat (reply_to <$> ((λ f, (id, f.1, f.2)) <$> fs)) = pack_message <$> pongs fs.
Proof.
  unfold pongs. induction fs as [|f fs IH]; [done|]. rewrite !fmap_cons. cbn [concat].
  rewrite IH, fmap_app. f_equal. unfold reply_to. by case_cmp.
Qed.

Lemma mirror_rx b : b = rx (mirror b) b.
Proof. by destruct b. Qed.

Lemma mirror_set b b' a off :
  let c := (mirror b) <| asio_channel.frame_acc_ := a |> <| asio_channel.frame_acc_offset_ := off |> in
  mirror (rx c b') = c.
Proof. reflexivity. Qed.

Lemma frames_messages i fs1 :
  (λ '(_, cmd, data), (cmd, data)) <$> ((λ f : message, (i, f.1, f.2)) <$> fs1 : list (Z * Z * list Z)) = fs1.
Proof.
  rewrite <- list_fmap_compose. rewrite <- (list_fmap_id fs1) at 2. apply list_fmap_ext. by intros ? [].
Qed.

(** A read of the bot: it shows the frames that have become complete, and answers
    the pings among them. *)
Lemma download_ok s id p chunk d :
  peer_ok s id p → game_bot.running_ (bot p) = true → down p = chunk ++ d → chunk ≠ [] →
  (length chunk ≤ bot_buffer_size)%nat →
  ∃ b, game_bot.recv chunk (bot p) = Some b ∧ game_bot.running_ b = true
    ∧ peer_ok s id (becomes b (p <| down := d |>)).
Proof.
  intros [Hup (Hrx & Hw & Hrun & seen & rest & tail & [Hgot Hsh Hmu Hok Hpg Hb Hpre Hlive])] Hr Hd Hne Hl.
  rewrite Hr in Hrun. symmetry in Hrun. rewrite Hd, <- app_assoc in Hb.
  assert (arg_order = BufferFirst) as Ho.
  { destruct arg_order eqn:Ho; [done|]. rewrite asio_channel.handed_last in Hb by done.
    apply app_nil in Hb as [_ Hb]. by apply app_nil in Hb as [? _]. }
  rewrite asio_channel.handed_first in Hb by done.
  pose proof Hok as [_ Hok']%Forall_app.
  destruct (read_packets (mirror (bot p)) chunk (d ++ tail) rest) as (a & off & es & fs1 & fs2 & Hrd & Hfr & -> & Hrx' & Hw' & Hb');
    try done.
  eexists. split.
  { rewrite (mirror_rx (bot p)) at 1. by apply (recv_react _ _ _ _ _ Hrd). }
  rewrite Hfr. set (b := rx _ _). split; [exact Hr|]. split.
  - apply (becomes_up _ _ _ _ (pongs fs1)); [|apply pongs_ok|exact Hup]. cbn. f_equal.
    apply replies_pongs.
  - set (p' := becomes b _). change (bot p') with b.
    assert (mirror b = (mirror (bot p)) <| asio_channel.frame_acc_ := a |>
      <| asio_channel.frame_acc_offset_ := off |>) as Hm by apply mirror_set.
    unfold down_ok. change (bot p') with b. rewrite Hm.
    split; [exact Hrx'|]. split; [exact Hw'|]. split; [by cbn; rewrite Hrun, Hr|].
    exists (seen ++ fs1), fs2, tail. split.
    + change (game_bot.got (bot p'))
        with (game_bot.got (bot p) ++ ((λ '(_, cmd, data), (cmd, data)) <$> ((λ f, (0, f.1, f.2)) <$> fs1))).
      by rewrite Hgot, frames_messages.
    + change (game_bot.notices (bot p'))
        with (game_bot.notices (bot p) ++ (notice_of <$> ((λ f, (0, f.1, f.2)) <$> fs1))).
      by rewrite Hsh, fmap_app, <- list_fmap_compose.
    + by rewrite Ho.
    + by rewrite <- app_assoc.
    + by rewrite <- app_assoc.
    + by rewrite asio_channel.handed_first.
    + by rewrite <- app_assoc.
    + rewrite <- app_assoc. exact Hlive.
Qed.
(** ** The server's steps *)

(** The tables of the composed system: ids in use are below the next one, every
    connected channel has a peer, nothing was sent to an id not yet given out. *)
Record net_base (k : Z) (n : network) : Prop := {
  nb_tables : asio_server.tables_ok k (sys n);
  nb_accepting : asio_server.accepting (asio_server.net (sys n)) = true;
  nb_peers : ∀ id, is_Some (peers n !! id) → id < asio_server.next_channel_id_ (asio_server.net (sys n));
  nb_conn : ∀ id, is_Some (channels_ (srv n) !! id) → is_Some (peers n !! id);
  nb_sent : Forall (λ '(i, _, _), i < asio_server.next_channel_id_ (asio_server.net (sys n)))
              (sent_ (srv n)) }.

Record net_ok (k : Z) (n : network) : Prop := {
  no_base : net_base k n;
  no_tx : tx_server (srv n);
  no_peer : ∀ id p, peers n !! id = Some p → peer_ok (srv n) id p }.

Lemma net_base_set_peer k n id p :
  net_base k n → is_Some (peers n !! id) → net_base k (set_peer id p n).
Proof.
  intros [Ht Ha Hp Hc Hs] Hid. split; [done|done| | |done]; cbn; intros i.
  - intros [q [[<- _]|[_ ?]]%lookup_insert_Some]; eauto.
  - intros Hi. destruct (decide (i = id)) as [->|]; [by rewrite lookup_insert_eq|].
    rewrite lookup_insert_ne by done. by apply Hc.
Qed.

Lemma rx_harmless es :
  Forall asio_channel.rx_effect es →
  Forall (λ '(_, _, p), Forall is_u8 p ∧ zlen p < 2 ^ 29) (asio_channel.frames es) → Forall harmless es.
Proof.
  induction 1 as [|e es He _ IH]; [constructor|]. destruct e; try done; cbn.
  - intros Hf. constructor; auto.
  - intros [? ?]%Forall_cons. constructor; auto.
Qed.

End invariant.

Section steps.
Context `{HashOrder} `{PriorityQueue} {AO : ArgOrder}.
Context (token : list Z → option Z) (upd : f32 → world → world).

(** What a server event does to the composed system. *)
Lemma serve_inv ev n n' :
  (∀ id now, ev ≠ Accept id now) → serve token upd (asio_server.GameEvent ev) n = Some n' →
  step token upd ev (srv n) = Done tt (srv n') ∧ peers n' = peers n
  ∧ asio_server.next_channel_id_ (asio_server.net (sys n'))
    = asio_server.next_channel_id_ (asio_server.net (sys n))
  ∧ asio_server.accepting (asio_server.net (sys n')) = asio_server.accepting (asio_server.net (sys n)).
Proof.
  intros Hev. unfold serve. intros (y & Hy & [= <-])%bind_Some. unfold srv. cbn.
  destruct ev as [id now| | | | | |]; [by destruct (Hev id now)|..];
    cbn [asio_server.sys_step] in Hy;
    match type of Hy with match ?x with _ => _ end = _ =>
      destruct x as [[] s1| |] eqn:E; [|done..] end;
    injection Hy as <-; cbn; rewrite asio_server.run_callbacks_spec; by split_and!.
Qed.

Lemma serve_base k ev n n' s1 l :
  net_base k n → 0 ≤ k → (∀ id now, ev ≠ Accept id now) →
  serve token upd (asio_server.GameEvent ev) n = Some n' →
  sends s1 (srv n') l → dom (channels_ s1) = dom (channels_ (srv n)) → sent_ s1 = sent_ (srv n) →
  net_base k n'.
Proof.
  intros [Ht Ha Hp Hc Hs] Hk Hev Hsv Hsend Hdom Hsent.
  pose proof (serve_inv ev n n' Hev Hsv) as (_ & Epeers & Enext & Eacc). split.
  - unfold serve in Hsv. apply bind_Some in Hsv as (y & Hy & [= <-]). cbn.
    apply (asio_server.sys_step_ok token upd k (sys n) (asio_server.GameEvent ev)); [|done|done].
    cbn. by rewrite Z.add_0_r.
  - by rewrite Eacc.
  - by rewrite Epeers, Enext.
  - intros id Hid. rewrite Epeers. apply Hc, elem_of_dom. rewrite <- Hdom.
    apply (sends_dom _ _ _ Hsend). by apply elem_of_dom.
  - rewrite (sn_sent _ _ _ Hsend), Hsent, Enext. apply Forall_app_2; [done|].
    apply (Forall_impl _ _ _ (sn_known _ _ _ Hsend)). intros [[i cmd] data] [Hi _].
    apply Hp, Hc, elem_of_dom. by rewrite <- Hdom.
Qed.

(** A server event, from the state [s1] its first action leaves. *)
Lemma serve_ok k ev n n' s1 l :
  net_base k n → 0 ≤ k → (∀ id now, ev ≠ Accept id now) →
  serve token upd (asio_server.GameEvent ev) n = Some n' →
  tx_server (srv n') → sends s1 (srv n') l →
  dom (channels_ s1) = dom (channels_ (srv n)) → sent_ s1 = sent_ (srv n) →
  (∀ id p, peers n !! id = Some p → peer_ok s1 id p) → net_ok k n'.
Proof.
  intros Hb Hk Hev Hsv Htx Hsend Hdom Hsent Hp. split; [by eapply serve_base|done|].
  intros id p. pose proof (serve_inv ev n n' Hev Hsv) as (_ & -> & _). intros Hid.
  eapply peer_ok_sends; [exact Hsend|]. by apply Hp.
Qed.

(** Replacing the channel of one connection touches that connection only. *)
Lemma peer_ok_other s id id' c p :
  id' ≠ id → peer_ok s id' p → peer_ok (s <| channels_ ::= <[id := c]> |>) id' p.
Proof.
  intros Hne Hp. apply (peer_ok_evolve s _ id' p [] []); [done|by rewrite app_nil_r|].
  cbn. intros c'. rewrite lookup_insert_ne by done. intros Hc. exists c'.
  split_and!; [done|apply extends_refl|constructor|constructor|done].
Qed.

Lemma dom_replace s id c c' :
  channels_ s !! id = Some c →
  dom (channels_ (s <| channels_ ::= <[id := c']> |>)) = dom (channels_ s).
Proof. intros Hc. cbn. apply dom_insert_lookup_L. by exists c. Qed.

(** A timer, an error or a close of one channel. *)
Lemma local_ok k id o n n' :
  net_ok k n → 0 ≤ k → local_op o = true →
  serve token upd (asio_server.GameEvent (Io id o)) n = Some n' → net_ok k n'.
Proof.
  intros [Hb Htx Hp] Hk Ho Hsv.
  pose proof (serve_inv (Io id o) n n' ltac:(done) Hsv) as (Hst & _). cbn [step] in Hst.
  destruct (channels_ (srv n) !! id) as [c|] eqn:Hc.
  2: { unfold channel_io in Hst. rewrite Hc in Hst. injection Hst as E.
       eapply (serve_ok k (Io id o) n n' (srv n) []); try done; rewrite <- E; [done|apply sends_refl]. }
  destruct (asio_channel.step o c) as [[c' es]|] eqn:Hs.
  2: { unfold channel_io in Hst. by rewrite Hc, Hs in Hst. }
  destruct (live_local id o c c' es) as [Hcl|(Hsil & Hl' & fs & He & Hok & Hping)]; try done.
  { by apply Htx. }
  - destruct (channel_io_closing token id o _ _ _ _ _ _ Htx Hc Hs Hcl Hst) as (Htx' & Hsend & _).
    by eapply (serve_ok k (Io id o) n n' (srv n)).
  - pose proof (silent_harmless _ Hsil) as Hh.
    destruct (channel_io_open token id o _ _ _ _ _ _ Htx Hc Hs Hl' Hh Hst) as (Htx' & l & Hsend).
    eapply (serve_ok k (Io id o) n n' _ l); try done; [by eapply dom_replace|].
    intros i p Hi. destruct (decide (i = id)) as [->|]; [|by apply peer_ok_other; auto].
    apply (peer_ok_evolve (srv n) _ id p fs []); [auto|by rewrite app_nil_r|].
    cbn. intros c1. rewrite lookup_insert_eq. intros [= <-]. exists c. split_and!; try done.
    { apply (Forall_impl _ _ _ Hping). by intros f <-. }
    clear -Hping. induction Hping as [|f fs <- _ IH]; [done|]. unfold own. by rewrite filter_cons_False by (cbn; lia).
Qed.

(** An event inside the server process. *)
Lemma internal_ok k ev n n' :
  net_ok k n → 0 ≤ k → internal ev = true →
  serve token upd (asio_server.GameEvent ev) n = Some n' → net_ok k n'.
Proof.
  intros Hn Hk Hev Hsv. destruct ev as [id now|id o|id cmd data|r id name| |dt|m dt]; try done.
  { by eapply local_ok. }
  all: destruct Hn as [Hb Htx Hp]; pose proof Hsv as Hst; apply serve_inv in Hst as (Hst & _); [|done];
    cbn [step] in Hst.
  - destruct (emits_login_done r id name _ _ _ Htx Hst) as [Htx' [l Hl]].
    by eapply (serve_ok k (LoginDone r id name) n n' (srv n) l).
  - destruct (emits_flush _ _ _ Htx Hst) as [Htx' [l Hl]]. by eapply (serve_ok k Flush n n' (srv n) l).
  - destruct (emits_main_loop upd dt _ _ _ Htx Hst) as [Htx' [l Hl]].
    by eapply (serve_ok k (MainLoop dt) n n' (srv n) l).
  - destruct (emits_map_loop m dt _ _ _ Htx Hst) as [Htx' [l Hl]].
    by eapply (serve_ok k (MapLoop m dt) n n' (srv n) l).
Qed.

(** What a read of a connected channel does: it hands over the frames that have
    become complete, none of which is dangerous, and stays open. *)
Lemma upload_reads s id c p chunk u :
  tx_server s → up_ok s id p → channels_ s !! id = Some c →
  up p = chunk ++ u → (length chunk ≤ read_buffer_size)%nat →
  ∃ a off es fs1 fs2,
    let c' := c <| asio_channel.frame_acc_ := a |> <| asio_channel.frame_acc_offset_ := off |> in
    asio_channel.read_done chunk c = Some (c', es)
    ∧ asio_channel.frames es = (λ f, (asio_channel.channel_id_ c, f.1, f.2)) <$> fs1
    ∧ live id c' ∧ Forall harmless es
    ∧ game_bot.written (bot p) = pack_message <$> handled p ++ fs1 ++ fs2
    ∧ Forall msg_ok (handled p ++ fs1 ++ fs2)
    ∧ rx_ok c' ∧ decode_one (unread c') = Wait ∧ unread c' ++ u = pack_messages fs2.
Proof.
  intros Htx (rest & Hwr & Hok & Hch) Hc Hup Hlen. destruct (Hch c Hc) as (Hrx & Hw & E).
  pose proof (ts_live _ Htx _ _ Hc) as Hl. rewrite Hup in E.
  destruct (read_packets c chunk u rest) as (a & off & es & fs1 & fs2 & Hrd & Hfr & -> & Hrx' & Hw' & E');
    [done|by destruct Hl|by destruct Hl|done|unfold bot_buffer_size, read_buffer_size in *; lia| |done|].
  { by apply Forall_app in Hok as [_ Hok]. }
  exists a, off, es, fs1, fs2. split_and!; try done.
  - apply (live_fixed id c); [done| |done]. destruct (lv_tx _ _ Hl). by split.
  - apply asio_channel.read_done_frame in Hrd as [_ Hrxe]. apply rx_harmless; [done|]. rewrite Hfr.
    apply Forall_fmap. rewrite app_assoc in Hok. apply Forall_app in Hok as [[_ Hok]%Forall_app _].
    apply (Forall_impl _ _ _ Hok). intros [cmd data] (_ & _ & _ & _ & Hb8 & Hz). cbn in *. split; [done|].
    change (k_max_frame_bytes - k_header_after_len) with 1048564 in Hz. lia.
Qed.

(** A completed read: the channel handles the frames that have become complete. *)
Lemma upload_ok k id n n' c p chunk u c' es :
  net_ok k n → 0 ≤ k → channels_ (srv n) !! id = Some c → peers n !! id = Some p →
  up p = chunk ++ u → (length chunk ≤ read_buffer_size)%nat →
  asio_channel.read_done chunk c = Some (c', es) →
  serve token upd (asio_server.GameEvent (Io id (asio_channel.ReadDone chunk)))
    (set_peer id (p <| up := u |>
       <| handled ::= λ l, l ++ ((λ '(_, cmd, data), (cmd, data)) <$> asio_channel.frames es) |>) n)
    = Some n' → net_ok k n'.
Proof.
  intros [Hb Htx Hp] Hk Hc Hid Hup Hlen Hrd. set (p' := set handled _ _). intros Hsv.
  pose proof (Hp _ _ Hid) as [Hupk Hdown].
  destruct (upload_reads (srv n) id c p chunk u Htx Hupk Hc Hup Hlen)
    as (a & off & es' & fs1 & fs2 & Hrd' & Hfr & Hl' & Hes & Hwr & Hok & Hrx' & Hw' & E').
  rewrite Hrd in Hrd'. injection Hrd' as -> <-. set (c' := set asio_channel.frame_acc_offset_ _ _) in *.
  assert (handled p' = handled p ++ fs1) as Hh.
  { unfold p'. cbn. f_equal. rewrite Hfr. apply frames_messages. }
  pose proof Hsv as (Hst & _)%serve_inv; [|done]. cbn [step] in Hst.
  destruct (channel_io_open token id (asio_channel.ReadDone chunk) _ _ _ c c' es Htx Hc Hrd Hl' Hes Hst)
    as (Htx' & l & Hsend).
  eapply (serve_ok k _ _ n' _ l); [|done| |exact Hsv|done|exact Hsend|by eapply dom_replace|done|];
    [by apply net_base_set_peer; [|exists p]|done|].
  cbn. intros i q [[<- <-]|[Hne Hi]]%lookup_insert_Some; [|by apply peer_ok_other; auto]. split.
  - exists fs2. rewrite Hh, <- app_assoc. split_and!; [exact Hwr|exact Hok|].
    cbn. intros c1. rewrite lookup_insert_eq. intros [= <-]. by split_and!.
  - destruct Hdown as (? & ? & ? & seen & rest & tail & [? ? ? ? ? ? ? Hlive]). split_and!; [done|done|done|].
    exists seen, rest, tail. split; try done. cbn. intros c1. rewrite lookup_insert_eq. intros [= <-].
    destruct (Hlive c Hc) as (? & ? & ? & Hwake). split_and!; [done|done|done|]. intros Hf.
    destruct (Hwake Hf). by split.
Qed.

(** A completed write. *)
Lemma written_ok k id now n n' c p buf m :
  net_ok k n → 0 ≤ k → channels_ (srv n) !! id = Some c → peers n !! id = Some p →
  asio_channel.in_flight c = Some (buf, m) → wired p = length buf →
  serve token upd (asio_server.GameEvent (Io id (asio_channel.WriteDone now)))
    (set_peer id (p <| wired := 0%nat |>) n) = Some n' → net_ok k n'.
Proof.
  intros [Hb Htx Hp] Hk Hc Hid Hfl Hwd Hsv. pose proof (ts_live _ Htx _ _ Hc) as Hl.
  destruct (asio_channel.write_done now c) as [c' es] eqn:Hs.
  destruct (live_written id now c c' es Hl Hs) as (Hsil & Hl' & Hpend & Ha & Ho & Hwk).
  pose proof Hsv as (Hst & _)%serve_inv; [|done]. cbn [step] in Hst.
  assert (asio_channel.step (asio_channel.WriteDone now) c = Some (c', es)) as Hstep by (cbn; by rewrite Hs).
  destruct (channel_io_open token id _ _ _ _ c c' es Htx Hc Hstep Hl' (silent_harmless _ Hsil) Hst)
    as (Htx' & l & Hsend).
  eapply (serve_ok k _ _ n' _ l); [|done| |exact Hsv|done|exact Hsend|by eapply dom_replace|done|];
    [by apply net_base_set_peer; [|exists p]|done|].
  cbn. intros i q [[<- <-]|[Hne Hi]]%lookup_insert_Some; [|by apply peer_ok_other; auto].
  destruct (Hp _ _ Hid) as [(rest & Hwr & Hok & Hch) (? & ? & ? & seen & r & tail & [? ? ? ? ? ? ? Hlive])]. split.
  - exists rest. split_and!; [done|done|]. cbn. intros c1. rewrite lookup_insert_eq. intros [= <-].
    destruct (Hch c Hc) as ([? ?] & ? & ?). unfold unread. rewrite Ha, Ho. split_and!; [|done|done].
    split; by rewrite ?Ha, ?Ho.
  - split_and!; [done|done|done|]. exists seen, r, tail. split; try done.
    cbn. intros c1. rewrite lookup_insert_eq. intros [= <-].
    destruct (Hlive c Hc) as (? & ? & -> & Hwake). split_and!; [done|lia| |auto].
    rewrite drop_0, Hpend, Hwd. unfold flight. rewrite Hfl. apply drop_app_length.
Qed.

(** Bytes of the write in flight arrive. *)
Lemma wire_ok s id p c k :
  peer_ok s id p → channels_ s !! id = Some c →
  let bytes := take k (drop (wired p) (flight c)) in
  peer_ok s id (p <| down ::= λ d, d ++ bytes |> <| wired ::= Nat.add (length bytes) |>).
Proof.
  intros [Hup (? & ? & ? & seen & r & tail & [? ? ? ? ? Hb ? Hlive])] Hc bytes.
  destruct (Hlive c Hc) as (Hs & Hle & -> & Hwk). split; [exact Hup|].
  set (x := drop (wired p) (flight c)) in *.
  assert (drop (wired p) (pending c) = x ++ asio_channel.handed (concat (asio_channel.write_queue_ c))) as Hx
    by (by apply drop_app_le).
  assert (bytes ++ drop (length bytes) x = x) as Hbx.
  { unfold bytes. rewrite length_take. destruct (decide (k ≤ length x)%nat).
    - by rewrite Nat.min_l, take_drop by done.
    - by rewrite Nat.min_r, take_ge, drop_ge, app_nil_r by lia. }
  assert (length bytes ≤ length x)%nat as Hbl by (unfold bytes; rewrite length_take; lia).
  split_and!; [done|done|done|].
  exists seen, r, (drop (length bytes + wired p) (pending c)). split; try done; cbn.
  - rewrite <- Hb, Nat.add_comm, <- drop_drop, Hx, drop_app_le by done.
    rewrite <- app_assoc. f_equal. f_equal. by rewrite app_assoc, Hbx.
  - intros c1 [= <-]%(eq_trans (eq_sym Hc)). split_and!; [done| |done|done].
    unfold x in Hbl. rewrite length_drop in Hbl. lia.
Qed.

(** A new connection. *)
Lemma to_fresh id l : Forall (λ '(i, _, _), i < id) l → to id l = [].
Proof.
  induction 1 as [|[[i cmd] data] l Hi _ IH]; [done|]. unfold to in *. cbn.
  rewrite decide_False by lia. exact IH.
Qed.

Lemma opened_live now id : live id (opened now id).
Proof. split; [done..|by_decide|apply opened_tx_ok]. Qed.

Lemma new_peer_ok s id now name :
  Forall is_u8 name → zlen name ≤ 1000 → channels_ s !! id = Some (opened now id) →
  to id (sent_ s) = [] → peer_ok s id (new_peer name).
Proof.
  intros Hb Hl Hc Hs. split.
  - exists [(1001, login_payload name)]. split_and!; [done| |].
    { cbn. constructor; [|done]. by apply login_payload_ok. }
    intros c [= <-]%(eq_trans (eq_sym Hc)). split_and!; [apply opened_rx_ok|done|reflexivity].
  - split_and!; [split; [constructor|done]|done|done|]. exists [], [], [].
    split; cbn; [done|done|done|constructor|constructor|by rewrite asio_channel.handed_nil|apply prefix_nil|].
    intros c [= <-]%(eq_trans (eq_sym Hc)). rewrite Hs.
    split_and!; [done|cbn; lia|cbn; by rewrite asio_channel.handed_nil|intros; apply opened_wake_ok].
Qed.

Lemma on_accept_io id c s a s' :
  on_accept id c s = Done a s' → io_view s' = (config_maps s, <[id := c]> (channels_ s), sent_ s).
Proof. unfold io_view. by intros [= -> -> -> _]%asio_server.on_accept_tables. Qed.

Lemma connect_ok k n n' name now :
  net_ok (k + 1) n → 0 ≤ k → Forall is_u8 name → zlen name ≤ 1000 →
  net_step token upd (Connect name now) n = Some n' → net_ok k n'.
Proof.
  intros [[Ht Ha Hp Hc Hs] [Hn Hl] Hpeer] Hk Hb Hz. cbn [net_step]. rewrite Ha.
  set (id := asio_server.next_channel_id_ (asio_server.net (sys n))) in *.
  unfold serve. intros (n1 & (y & Hy & [= <-])%bind_Some & [= <-])%bind_Some.
  pose proof (asio_server.sys_step_ok token upd k (sys n) (asio_server.AcceptDone false now) y Ht Hk Hy) as Ht'.
  cbn [asio_server.sys_step] in Hy. rewrite Ha in Hy. cbn [negb asio_server.accept_done] in Hy.
  fold id in Hy. destruct (step _ _ _ _) as [[] s1| |] eqn:E; [|done..]. injection Hy as <-.
  destruct (asio_server.accept_step_ok token upd (k + 1) (sys n) now s1 Ht ltac:(lia) E) as (Hfresh & Hcb & _).
  fold id in Hfresh. rewrite Hcb in *. apply on_accept_io in E. injection E as E1 E2 E3.
  assert (asio_server.next_channel_id_ (asio_server.net (sys n)) + 1 < 2 ^ 31) as Hnx
    by (destruct Ht as [_ _ _ [_ Hx]]; fold id in Hx |- *; lia).
  assert (i32 (id + 1) = id + 1) as Hi by (apply i32_small; destruct Ht as [_ _ _ [Hx _]]; fold id in Hx, Hnx; int_unfold; lia).
  assert (∀ i, is_Some (peers n !! i) → i ≠ id) as Hne by (intros i ?%Hp ->; lia).
  split; [split| |].
  - exact Ht'.
  - done.
  - cbn. fold id. rewrite Hi. intros i [q [[<- _]|[_ Hq]]%lookup_insert_Some]; [lia|].
    assert (i < id) by (apply Hp; by exists q). lia.
  - unfold srv. cbn. rewrite E2. intros i. destruct (decide (i = id)) as [->|Hd].
    { by rewrite !lookup_insert_eq. } rewrite !lookup_insert_ne by done. apply Hc.
  - unfold srv. cbn. fold id. rewrite E3, Hi. apply (Forall_impl _ _ _ Hs). intros [[i cmd] data]. lia.
  - unfold srv. cbn. split; [unfold names_ok; by rewrite E1|]. rewrite E2.
    intros i c [[<- <-]|[_ ?]]%lookup_insert_Some; [apply opened_live|auto].
  - unfold srv. cbn. intros i q [[<- <-]|[Hd Hq]]%lookup_insert_Some.
    + eapply new_peer_ok; [done|done|rewrite E2; apply lookup_insert_eq|].
      rewrite E3. by apply to_fresh.
    + apply (peer_ok_evolve (srv n) s1 i q [] []); [auto|by rewrite E3, app_nil_r|].
      intros c'. rewrite E2, lookup_insert_ne by done. intros Hcc. exists c'.
      split_and!; [done|apply extends_refl|constructor|constructor|done].
Qed.

(** ** Runs *)

(** Names and chat lines are bytes, of a size that a frame can carry. *)
Definition event_ok (e : net_event) : Prop :=
  match e with
  | Connect name _ => Forall is_u8 name ∧ zlen name ≤ 1000
  | Act _ a => action_ok a
  | _ => True
  end.
#[global] Instance event_ok_dec e : Decision (event_ok e).
Proof. destruct e; apply _. Defined.

Definition is_connect (e : net_event) : bool := match e with Connect _ _ => true | _ => false end.
Definition connects (es : list net_event) : Z := zlen (filter is_connect es).

Lemma connects_cons e es : connects (e :: es) = (if is_connect e then 1 else 0) + connects es.
Proof.
  unfold connects. rewrite filter_cons. destruct (is_connect e); simpl; [apply zlen_cons|done].
Qed.

Lemma connection_Some id n c p :
  connection id n = Some (c, p) ↔ channels_ (srv n) !! id = Some c ∧ peers n !! id = Some p.
Proof.
  unfold connection. split.
  - by intros (c' & ? & (p' & ? & [= -> ->])%bind_Some)%bind_Some.
  - by intros [-> ->].
Qed.

Lemma net_ok_set_peer k id p p' n :
  net_ok k n → peers n !! id = Some p → peer_ok (srv n) id p' → net_ok k (set_peer id p' n).
Proof.
  intros [Hb Htx Hp] Hid Hp'. split; [by apply net_base_set_peer; [|exists p]|done|].
  cbn. intros i q [[<- <-]|[_ ?]]%lookup_insert_Some; auto.
Qed.

Lemma take_split {A} k (l : list A) : l = take k l ++ drop (length (take k l)) l.
Proof.
  rewrite length_take. destruct (decide (k ≤ length l)%nat).
  - by rewrite Nat.min_l, take_drop by done.
  - by rewrite Nat.min_r, take_ge, drop_ge, app_nil_r by lia.
Qed.

Lemma net_step_ok k e n n' :
  net_ok (k + if is_connect e then 1 else 0) n → 0 ≤ k → event_ok e →
  net_step token upd e n = Some n' → net_ok k n'.
Proof.
  destruct e as [name now|id a|id j|id now|id j|id j|ev]; cbn [is_connect]; rewrite ?Z.add_0_r;
    intros Hn Hk He.
  { destruct He. by apply connect_ok. }
  all: cbn [net_step].
  - destruct (peers n !! id) as [p|] eqn:Hp; intros [= <-]; [|done].
    eapply net_ok_set_peer; [done|done|]. apply act_ok; [done|]. by apply (no_peer _ _ Hn).
  - destruct (connection id n) as [[c p]|] eqn:Hc; intros [= <-]; [|done].
    apply connection_Some in Hc as [Hc Hp]. eapply net_ok_set_peer; [done|done|].
    apply wire_ok; [by apply (no_peer _ _ Hn)|done].
  - destruct (connection id n) as [[c p]|] eqn:Hc; [|by intros [= <-]].
    apply connection_Some in Hc as [Hc Hp].
    destruct (asio_channel.in_flight c) as [[buf m]|] eqn:Hf; [|by intros [= <-]].
    case_decide; [|by intros [= <-]]. intros Hs. by eapply written_ok.
  - destruct (connection id n) as [[c p]|] eqn:Hc; [|by intros [= <-]].
    apply connection_Some in Hc as [Hc Hp]. case_decide; [by intros [= <-]|].
    intros ([c' es] & Hr & Hs)%bind_Some. eapply upload_ok; [done|done|done|done| | |exact Hr|exact Hs].
    + apply take_split.
    + rewrite length_take. unfold read_buffer_size in *. lia.
  - destruct (peers n !! id) as [p|] eqn:Hp; [|by intros [= <-]].
    destruct (game_bot.running_ (bot p)) eqn:Hr; cbn [negb orb]; [|by intros [= <-]].
    case_bool_decide; [by intros [= <-]|].
    set (chunk := take _ (down p)).
    destruct (download_ok (srv n) id p chunk (drop (length chunk) (down p))) as (b & Hb & _ & Hp').
    { by apply (no_peer _ _ Hn). }
    { done. }
    { apply take_split. }
    { done. }
    { unfold chunk. rewrite length_take. unfold bot_buffer_size. lia. }
    rewrite Hb. intros [= <-]. by eapply net_ok_set_peer.
  - destruct (internal ev) eqn:Hi; [|by intros [= <-]]. by apply internal_ok.
Qed.

Lemma net_run_ok k es n n' :
  net_ok (k + connects es) n → 0 ≤ k → Forall event_ok es →
  net_run token upd es n = Some n' → net_ok k n'.
Proof.
  revert n. induction es as [|e es IH]; intros n Hn Hk He; cbn.
  - intros [= <-]. by rewrite Z.add_0_r in Hn.
  - intros (n1 & E1 & E2)%bind_Some. apply Forall_cons in He as [He1 He2].
    apply (IH n1); [|done|done|done].
    pose proof (zlen_nonneg (filter is_connect es)).
    apply (net_step_ok _ e n); [|unfold connects; lia|done|done].
    rewrite connects_cons in Hn. by replace (k + connects es + (if is_connect e then 1 else 0))
      with (k + ((if is_connect e then 1 else 0) + connects es)) by lia.
Qed.

(** The server as [game_server::init] leaves it, and no connection yet. *)
Definition start (opt : socket_option) (ecs_on : bool) (maps : list MapConfig) (mysql dao redis : bool)
    : network :=
  mkNet (asio_server.listening opt (init ecs_on maps mysql dao redis)) ∅.

Definition map_names_ok (maps : list MapConfig) : Prop :=
  Forall (λ m, Forall is_u8 (mc_name m) ∧ zlen (mc_name m) < 2 ^ 29) maps.

Lemma start_ok opt e maps mysql dao redis k :
  map_names_ok maps → 0 ≤ k < 2 ^ 31 - 1 → net_ok k (start opt e maps mysql dao redis).
Proof.
  intros Hm Hk. assert (io_view (init e maps mysql dao redis) = (maps, ∅, [])) as E.
  { unfold init. by destruct e; [destruct (initialize_threading_system _ _)|]. }
  injection E as E1 E2 E3. split; [split| |].
  - split; cbn; [|by rewrite E2, dom_empty_L|set_solver|lia]. unfold asio_server.wired. cbn.
    rewrite E2. apply map_Forall_empty.
  - done.
  - cbn. intros id [p Hp]. by rewrite lookup_empty in Hp.
  - unfold srv. cbn. rewrite E2. intros id [c Hc]. by rewrite lookup_empty in Hc.
  - unfold srv. cbn. rewrite E3. constructor.
  - unfold srv. cbn. split; [unfold names_ok; by rewrite E1|]. rewrite E2. intros id c.
    by rewrite lookup_empty.
  - cbn. intros id p. by rewrite lookup_empty.
Qed.
End steps.
End end_to_end.
