(* ===== verification/EndToEndLaws.v ===== *)
(** * What the two ends see of each other

    Properties of the composed system of [EndToEnd.v] over all its runs: what the
    server handles is what the bots wrote, what a bot shows is what the server
    sent, and, with the buffer of [async_write] evaluated before its completion
    handler, whatever has been sent to a connected bot can be brought to its screen
    by the channel and the wire alone. *)

From S2P Require Import Prelude FrameCodec Channel ChannelLaws Floats Components Ecs Systems Threads.
From S2P Require Import ProtocolBase ProtocolPlayer.
From S2P Require Import GameServer GameServerLaws AsioServer Client ClientLaws Outbox EndToEnd.
Import frame_codec game_server end_to_end.

Module end_laws.

(** An incomplete frame is not a stream of packets. *)
Lemma wait_no_packet r fs :
  Forall msg_ok fs → decode_one r = Wait → r = pack_messages fs → fs = [].
Proof.
  intros Hok Hw ->. destruct Hok as [|f fs Hf _]; [done|].
  change (pack_messages (f :: fs)) with (pack_message f ++ pack_messages fs) in Hw.
  by rewrite decode_message in Hw.
Qed.

(** ** What a run shows of one connection *)

(** The bot has got the frames [game_bot.got (bot p)]; the frames [rest] are to come. *)
Definition server_to_bot {AO : ArgOrder} (n : network) (id : Z) (p : peer) : Prop :=
  let seen := game_bot.got (bot p) in
  game_bot.notices (bot p) = shown <$> seen
  ∧ (arg_order = HandlerFirst → seen = [])
  ∧ ∃ rest, Forall own_ping (seen ++ rest)
    ∧ own (seen ++ rest) `prefix_of` to id (sent_ (srv n))
    ∧ ∀ c, channels_ (srv n) !! id = Some c →
        own (seen ++ rest) = to id (sent_ (srv n))
        ∧ (arg_order = BufferFirst → pending c = [] → down p = [] → rest = []).

Definition bot_to_server (n : network) (id : Z) (p : peer) : Prop :=
  ∃ rest, game_bot.written (bot p) = pack_message <$> handled p ++ rest
    ∧ ∀ c, channels_ (srv n) !! id = Some c → up p = [] → rest = [].

Lemma peer_server_to_bot {AO : ArgOrder} n id p : peer_ok (srv n) id p → server_to_bot n id p.
Proof.
  intros [_ (_ & Hw & _ & seen & rest & tail & [<- Hsh Hmu Hok Hpg Hb Hpre Hlive])].
  split; [done|]. split; [done|]. exists rest.
  split_and!; [done|done|]. intros c Hc. destruct (Hlive c Hc) as (? & _ & -> & _). split; [done|].
  intros Ho Hp Hd. rewrite asio_channel.handed_first in Hb by done. rewrite Hp, Hd, drop_nil, !app_nil_r in Hb. apply Forall_app in Hok as [_ Hok].
  by eapply wait_no_packet.
Qed.

Lemma peer_bot_to_server {AO : ArgOrder} n id p : peer_ok (srv n) id p → bot_to_server n id p.
Proof.
  intros [(rest & Hwr & Hok & Hc) _]. exists rest. split; [done|]. intros c Hcc Hu.
  destruct (Hc c Hcc) as (_ & Hw & E). rewrite Hu, app_nil_r in E. apply Forall_app in Hok as [_ Hok].
  by eapply wait_no_packet.
Qed.

Section laws.
Context `{HashOrder} `{PriorityQueue} {AO : ArgOrder}.
Context (token : list Z → option Z) (upd : f32 → world → world).

(** A run of the composed system from the moment the server listens. *)
Definition reachable (es : list net_event) (n : network) : Prop :=
  ∃ opt ecs_on maps mysql dao redis,
    map_names_ok maps ∧ Forall event_ok es ∧ connects es < 2 ^ 31 - 1
    ∧ net_run token upd es (start opt ecs_on maps mysql dao redis) = Some n.

Lemma reachable_ok es n : reachable es n → net_ok 0 n.
Proof.
  intros (opt & e & maps & db & dao & redis & Hm & He & Hc & Hr).
  eapply (net_run_ok token upd 0 es); [|done|done|exact Hr].
  apply start_ok; [done|]. pose proof (zlen_nonneg (filter is_connect es)). unfold connects in *. lia.
Qed.

(** ** Draining a connection *)

(** When the frames of the server fit a batch, so do all: a ping does. *)
Lemma own_fits fs : Forall own_ping fs → Forall fits (own fs) → Forall fits fs.
Proof.
  induction 1 as [|f fs Hf _ IH]; [constructor|]. unfold own. destruct (decide (f.1 = 1)) as [E|E].
  - rewrite filter_cons_False by (intros ?; done). rewrite (Hf E). constructor; [by_decide|auto].
  - rewrite filter_cons_True by done. intros [? ?]%Forall_cons. constructor; auto.
Qed.

Lemma fits_wake n id c p :
  peer_ok (srv n) id p → channels_ (srv n) !! id = Some c → Forall fits (to id (sent_ (srv n))) →
  asio_channel.wake_ok c.
Proof.
  intros [_ (_ & _ & _ & seen & rest & tail & [_ _ _ _ Hpg _ _ Hlive])] Hc Hf.
  destruct (Hlive c Hc) as (E & _ & _ & Hwk). apply Hwk, own_fits; [done|]. by rewrite E.
Qed.

(** The events that move bytes from the server to the bot of [id]. *)
Definition delivers (id : Z) (e : net_event) : Prop :=
  match e with Wire i _ | Written i _ | Download i _ => i = id | _ => False end.

(** One round: the write in flight reaches the bot's socket and completes. *)
Lemma flush_round n id c p buf m :
  net_ok 0 n → channels_ (srv n) !! id = Some c → peers n !! id = Some p →
  asio_channel.in_flight c = Some (buf, m) →
  ∃ n' p', net_run token upd [Wire id (length buf); Written id 0] n = Some n'
    ∧ channels_ (srv n') !! id = Some (asio_channel.write_done 0 c).1
    ∧ peers n' !! id = Some p' ∧ bot p' = bot p ∧ sent_ (srv n') = sent_ (srv n) ∧ net_ok 0 n'.
Proof.
  intros Hn Hc Hp Hf. pose proof (no_peer _ _ Hn _ _ Hp) as [_ (_ & _ & _ & seen & rest & tail & [_ _ _ _ _ _ _ Hlive])].
  destruct (Hlive c Hc) as (_ & Hwd & _ & _). unfold flight in Hwd. rewrite Hf in Hwd.
  set (bytes := take (length buf) (drop (wired p) buf)).
  set (p1 := p <| down ::= λ d, d ++ bytes |> <| wired ::= Nat.add (length bytes) |>).
  assert (wired p1 = length buf) as Hw1.
  { cbn. unfold bytes. rewrite length_take, length_drop. lia. }
  assert (net_step token upd (Wire id (length buf)) n = Some (set_peer id p1 n)) as E1.
  { cbn [net_step]. rewrite (proj2 (connection_Some id n c p)) by done. unfold flight. by rewrite Hf. }
  pose proof (net_step_ok token upd 0 (Wire id (length buf)) n _ Hn ltac:(lia) I E1) as Hn1.
  destruct (asio_channel.write_done 0 c) as [c' es] eqn:Hs.
  destruct (live_written id 0 c c' es (ts_live _ (no_tx _ _ Hn) _ _ Hc) Hs) as (Hsil & _).
  set (p2 := p1 <| wired := 0%nat |>). set (n2 := set_peer id p2 (set_peer id p1 n)).
  assert (∃ n', serve token upd (asio_server.GameEvent (Io id (asio_channel.WriteDone 0))) n2 = Some n'
    ∧ srv n' = (srv n) <| channels_ ::= <[id := c']> |> ∧ peers n' = peers n2) as (n' & E2 & Es & Ep).
  { unfold serve. cbn [asio_server.sys_step step n2 set_peer sys].
    change (asio_server.game (sys n)) with (srv n).
    rewrite (channel_io_silent token id (asio_channel.WriteDone 0) (srv n) c c' es Hc) by
      (try done; cbn; by rewrite Hs).
    by eexists. }
  assert (net_step token upd (Written id 0) (set_peer id p1 n) = Some n') as E3.
  { cbn [net_step]. rewrite (proj2 (connection_Some id (set_peer id p1 n) c p1))
      by (split; [done|apply lookup_insert_eq]). rewrite Hf, decide_True by done. exact E2. }
  exists n', p2. split_and!; [|by rewrite Es; apply lookup_insert_eq|by rewrite Ep; apply lookup_insert_eq
    |done|by rewrite Es|].
  - cbn [net_run]. rewrite E1. cbn [mbind option_bind]. by rewrite E3.
  - by apply (net_step_ok token upd 0 (Written id 0) _ _ Hn1 ltac:(lia) I E3).
Qed.

Lemma net_run_app es es' n n' :
  net_run token upd es n = Some n' → net_run token upd (es ++ es') n = net_run token upd es' n'.
Proof.
  revert n. induction es as [|e es IH]; intros n; cbn; [by intros [= ->]|].
  intros (n1 & -> & E)%bind_Some. cbn. by apply IH.
Qed.

(** The channel writes everything it holds. *)
Lemma flush_all n id c p :
  net_ok 0 n → channels_ (srv n) !! id = Some c → peers n !! id = Some p → asio_channel.wake_ok c →
  ∃ es n' c' p', Forall (delivers id) es ∧ net_run token upd es n = Some n'
    ∧ channels_ (srv n') !! id = Some c' ∧ pending c' = []
    ∧ peers n' !! id = Some p' ∧ bot p' = bot p ∧ sent_ (srv n') = sent_ (srv n) ∧ net_ok 0 n'.
Proof.
  remember (length (asio_channel.write_queue_ c)) as k eqn:Hk. revert n c p Hk.
  induction (lt_wf k) as [k _ IH]. intros n c p -> Hn Hc Hp Hwk.
  pose proof (ts_live _ (no_tx _ _ Hn) _ _ Hc) as Hl.
  destruct (asio_channel.in_flight c) as [[buf m]|] eqn:Hf.
  2: { assert (asio_channel.write_queue_ c = []) as Hq.
       { destruct (asio_channel.writing_ c) eqn:Hw.
         - by destruct (asio_channel.wk_busy _ Hwk (lv_open _ _ Hl) Hw).
         - by apply (asio_channel.wk_idle _ Hwk). }
       exists [], n, c, p. split_and!; try done. unfold pending, flight. rewrite Hf, Hq. apply asio_channel.handed_nil. }
  destruct (flush_round n id c p buf m Hn Hc Hp Hf) as (n1 & p1 & Hr & Hc1 & Hp1 & Hb1 & Hs1 & Hn1).
  destruct (asio_channel.write_done 0 c) as [c1 es] eqn:Hs. cbn [fst] in Hc1.
  destruct (live_written id 0 c c1 es Hl Hs) as (_ & Hl1 & _ & _ & _ & Hwk1).
  destruct (asio_channel.write_done_drains 0 c c1 es) as [(_ & Hq & Hf1)|[Hlt _]]; try done.
  { apply Hl. } { by rewrite Hf. }
  - exists [Wire id (length buf); Written id 0], n1, c1, p1. split_and!; try done.
    { by repeat constructor. } unfold pending, flight. rewrite Hf1, Hq. apply asio_channel.handed_nil.
  - destruct (IH _ Hlt n1 c1 p1 eq_refl Hn1 Hc1 Hp1 (Hwk1 Hwk))
      as (es' & n' & c' & p' & Hes & Hr' & Hc' & Hq' & Hp' & Hb' & Hs' & Hn').
    eexists (_ ++ es'), n', c', p'. rewrite (net_run_app _ es' _ _ Hr). split_and!; try done; [|congruence..].
    apply Forall_app. split; [by repeat constructor|done].
Qed.

(** The bot reads everything that has arrived. *)
Lemma download_all n id p :
  net_ok 0 n → peers n !! id = Some p → game_bot.running_ (bot p) = true →
  ∃ es n' p', Forall (delivers id) es ∧ net_run token upd es n = Some n' ∧ peers n' !! id = Some p' ∧ down p' = []
    ∧ srv n' = srv n ∧ net_ok 0 n'.
Proof.
  remember (length (down p)) as k eqn:Hk. revert n p Hk.
  induction (lt_wf k) as [k _ IH]. intros n p -> Hn Hp Hr.
  destruct (decide (down p = [])) as [Hd|Hd]; [exists [], n, p; by split_and!|].
  assert (length (down p) ≠ 0%nat) as Hl0 by (by destruct (down p)).
  set (chunk := take (min bot_buffer_size bot_buffer_size) (down p)).
  assert (length chunk ≠ 0%nat) as Hne.
  { unfold chunk. rewrite length_take, Nat.min_id. unfold bot_buffer_size. lia. }
  destruct (download_ok (srv n) id p chunk (drop (length chunk) (down p))) as (b & Hb & Hrb & Hp').
  { by apply (no_peer _ _ Hn). } { done. } { apply take_split. } { intros E. by rewrite E in Hne. }
  { unfold chunk. rewrite length_take. lia. }
  set (p1 := becomes b (p <| down ::= drop (length chunk) |>)).
  assert (net_step token upd (Download id bot_buffer_size) n = Some (set_peer id p1 n)) as E.
  { cbn [net_step]. rewrite Hp, Hr. cbn [negb orb]. fold chunk. rewrite bool_decide_false, Hb; [done|].
    by intros ->. }
  destruct (IH (length (down p1))) with (set_peer id p1 n) p1 as (es & n' & p' & Hes & Hr' & Hpp & Hdd & Hs & Hok);
    [|done|by eapply net_ok_set_peer|apply lookup_insert_eq|exact Hrb|].
  { change (down p1) with (drop (length chunk) (down p)). rewrite length_drop. lia. }
  exists (Download id bot_buffer_size :: es), n', p'. cbn [net_run]. rewrite E. split_and!; [by constructor|done..].
Qed.

(** Everything sent to a connected bot can be shown to it. *)
Lemma drain_connection n id c p :
  arg_order = BufferFirst → net_ok 0 n → channels_ (srv n) !! id = Some c → peers n !! id = Some p →
  game_bot.running_ (bot p) = true → Forall fits (to id (sent_ (srv n))) →
  ∃ es' n' p', Forall (delivers id) es' ∧ net_run token upd es' n = Some n' ∧ peers n' !! id = Some p'
    ∧ sent_ (srv n') = sent_ (srv n)
    ∧ game_bot.notices (bot p') = shown <$> game_bot.got (bot p')
    ∧ own (game_bot.got (bot p')) = to id (sent_ (srv n)).
Proof.
  intros Ho Hn Hc Hp Hrun Hfit.
  pose proof (fits_wake n id c p (no_peer _ _ Hn _ _ Hp) Hc Hfit) as Hwk.
  destruct (flush_all n id c p Hn Hc Hp Hwk)
    as (es1 & n1 & c1 & p1 & He1 & E1 & Hc1 & Hq & Hp1 & Hb1 & Hs1 & Hn1).
  destruct (download_all n1 id p1 Hn1 Hp1) as (es2 & n2 & p2 & He2 & E2 & Hp2 & Hd & Hs2 & Hn2);
    [by rewrite Hb1|].
  destruct (peer_server_to_bot n2 id p2 (no_peer _ _ Hn2 _ _ Hp2)) as (Hsh & _ & rest & _ & _ & Hl).
  destruct (Hl c1) as [Hown Hrest]; [by rewrite Hs2|].
  rewrite (Hrest Ho Hq Hd), app_nil_r, Hs2, Hs1 in Hown.
  exists (es1 ++ es2), n2, p2. rewrite (net_run_app _ es2 _ _ E1). split_and!; try done; [by apply Forall_app|].
  by rewrite Hs2.
Qed.

(** ** The properties *)

(** C2: (safety) What a bot gets is what the server sent it. In every run of
    bots, network and server, whatever the timing, the fragmentation of reads
    and writes and the order of events, the frames that the bot of connection
    [id] has got, and whose notices it has printed, are a beginning of one list
    of frames, commands and payloads, in order and without gaps; this list,
    without the pings of the channel, is a beginning of what the game server has
    sent to [id], and all of it while the connection stands; and if the compiler
    evaluates the buffer of [async_write] before its completion handler, then
    when nothing is queued, in flight or unread, the bot has got it to the end.
    If it evaluates the handler first, no bot ever gets a frame. *)
Theorem bots_see_what_server_sent es n id p :
  reachable es n → peers n !! id = Some p → server_to_bot n id p.
Proof. intros Hr Hp. by apply peer_server_to_bot, (no_peer _ _ (reachable_ok _ _ Hr)). Qed.

(** C3: (safety) What the server handles is what the bots wrote. In every run,
    the frames that the channel of connection [id] has handed to the dispatcher
    are the first packets its bot has written, in order, without gaps,
    duplicates or changed payloads; and when the connection stands and nothing
    is left to read, they are all of them. *)
Theorem server_handles_what_bots_write es n id p :
  reachable es n → peers n !! id = Some p → bot_to_server n id p.
Proof. intros Hr Hp. by apply peer_bot_to_server, (no_peer _ _ (reachable_ok _ _ Hr)). Qed.

(** C4: (liveness) If the compiler evaluates the buffer of [async_write] before
    its completion handler, whatever has been sent to a connected bot can be
    shown: from every state of every run in which the connection [id] stands,
    its bot is still running and no frame sent to it is above the 64 KiB of a
    batch, completing the writes and reads of that connection alone, and nothing
    else, leads to a state in which the frames the bot has got and shown are,
    but for the pings of the channel, everything the server has sent to it. *)
Theorem everything_sent_is_shown es n id c p :
  arg_order = BufferFirst → reachable es n → channels_ (srv n) !! id = Some c → peers n !! id = Some p →
  game_bot.running_ (bot p) = true → Forall fits (to id (sent_ (srv n))) →
  ∃ es' n' p', Forall (delivers id) es' ∧ net_run token upd es' n = Some n' ∧ peers n' !! id = Some p'
    ∧ sent_ (srv n') = sent_ (srv n)
    ∧ game_bot.notices (bot p') = shown <$> game_bot.got (bot p')
    ∧ own (game_bot.got (bot p')) = to id (sent_ (srv n)).
Proof. intros Ho Hr. apply drain_connection; [done|]. by eapply reachable_ok. Qed.
End laws.

(** ** Witnesses *)

#[local] Existing Instances key_order min_queue buffer_first.

#[local] Instance login_res_eq : EqDecision login_res.t.
Proof. solve_decision. Defined.
#[local] Instance notice_eq : EqDecision game_bot.notice.
Proof. solve_decision. Defined.

(** Two bots; the first logs in, pings the server (read in two pieces) and gets the
    channel's own ping while the second one's chat is broadcast. *)
Definition demo : list net_event :=
  [Connect (str "Ann") 0; Connect (str "Bob") 0; Act 1 Ping; Upload 1 30; Upload 1 1024;
   Wire 1 10; Download 1 4096; Act 2 (Chat (str "hi")); Upload 2 1024; Server (Io 1 asio_channel.PingTick);
   Wire 1 100; Written 1 5; Wire 1 70; Download 1 4096; Server Flush].

(** What the first bot has on its screen, what the server has handled of the second
    bot, and what can still be shown to it. *)
Definition ann_sees : list game_bot.notice :=
  [game_bot.GotLogin (Some (login_res.mk true (str "ok") 0 1)); game_bot.GotPong; game_bot.GotChat 6;
   game_bot.GotPing].
Definition bob_wrote : list message := [(1001, bot_laws.login_payload (str "Bob")); (1003, str "hi")].

Definition demo_check (n : network) : bool :=
  match peers n !! 1, connection 2 n with
  | Some p, Some (_, q) =>
      bool_decide (game_bot.notices (bot p) = ann_sees) && bool_decide (handled q = bob_wrote)
      && game_bot.running_ (bot q) && bool_decide (game_bot.notices (bot q) = [])
      && bool_decide (Forall fits (to 2 (sent_ (srv n)))) && bool_decide (length (to 2 (sent_ (srv n))) = 3%nat)
  | _, _ => false
  end.

Lemma demo_runs : ∃ n p c q, reachable (λ _, None) (λ _ w, w) demo n
  ∧ peers n !! 1 = Some p ∧ channels_ (srv n) !! 2 = Some c ∧ peers n !! 2 = Some q
  ∧ game_bot.notices (bot p) = ann_sees ∧ handled q = bob_wrote ∧ game_bot.running_ (bot q) = true
  ∧ game_bot.notices (bot q) = [] ∧ Forall fits (to 2 (sent_ (srv n)))
  ∧ length (to 2 (sent_ (srv n))) = 3%nat.
Proof.
  assert (match net_run (λ _, None) (λ _ w, w) demo (start socket_option_default false [] false false false) with
          Some n => demo_check n | None => false end = true) as Hd
    by (vm_compute; reflexivity).
  destruct (net_run (λ _, None) (λ _ w, w) demo (start socket_option_default false [] false false false))
    as [n|] eqn:Hn; [|done]. unfold demo_check in Hd.
  destruct (peers n !! 1) as [p|] eqn:Hp; [|done].
  destruct (connection 2 n) as [[c q]|] eqn:Hcq; [|done]. apply connection_Some in Hcq as [Hc Hq].
  rewrite !andb_true_iff, !bool_decide_eq_true in Hd. destruct Hd as [[[[[? ?] ?] ?] ?] ?].
  exists n, p, c, q. split_and!; [|assumption..].
  exists socket_option_default, false, [], false, false, false.
  split; [constructor|]. split; [by_decide|]. split; [by_decide|]. exact Hn.
Qed.

(** The same events with the handler evaluated first. *)
Lemma demo_mute : ∃ n p, reachable (AO := handler_first) (λ _, None) (λ _ w, w) demo n
  ∧ peers n !! 1 = Some p ∧ length (to 1 (sent_ (srv n))) = 3%nat.
Proof.
  assert (match net_run (AO := handler_first) (λ _, None) (λ _ w, w) demo
            (start socket_option_default false [] false false false) with
          | Some n => bool_decide (is_Some (peers n !! 1) ∧ length (to 1 (sent_ (srv n))) = 3%nat)
          | None => false end = true) as Hd by (vm_compute; reflexivity).
  destruct (net_run (AO := handler_first) (λ _, None) (λ _ w, w) demo
    (start socket_option_default false [] false false false)) as [n|] eqn:Hn; [|done].
  apply bool_decide_eq_true in Hd as [[p Hp] Hl]. exists n, p. split_and!; [|done|done].
  exists socket_option_default, false, [], false, false, false.
  split; [constructor|]. split; [by_decide|]. split; [by_decide|]. exact Hn.
Qed.

Lemma bots_see_what_server_sent_witness :
  (∃ n p, peers n !! 1 = Some p ∧ game_bot.notices (bot p) = ann_sees ∧ server_to_bot n 1 p)
  ∧ ∃ n p, peers n !! 1 = Some p ∧ length (to 1 (sent_ (srv n))) = 3%nat ∧ game_bot.got (bot p) = [].
Proof.
  split.
  - destruct demo_runs as (n & p & c & q & Hr & Hp & _ & _ & Ha & _). exists n, p. split_and!; [done|done|].
    exact (bots_see_what_server_sent (λ _, None) (λ _ w, w) demo n 1 p Hr Hp).
  - destruct demo_mute as (n & p & Hr & Hp & Hl). exists n, p. split_and!; [done|done|].
    by apply (bots_see_what_server_sent (AO := handler_first) (λ _, None) (λ _ w, w) demo n 1 p Hr Hp).
Defined.

Lemma server_handles_what_bots_write_witness :
  ∃ n q, peers n !! 2 = Some q ∧ handled q = bob_wrote ∧ bot_to_server n 2 q.
Proof.
  destruct demo_runs as (n & p & c & q & Hr & _ & _ & Hq & _ & Hb & _). exists n, q. split_and!; [done|done|].
  exact (server_handles_what_bots_write (λ _, None) (λ _ w, w) demo n 2 q Hr Hq).
Defined.

(** The second bot has seen nothing so far of the three frames sent to it. *)
Lemma everything_sent_is_shown_witness :
  ∃ n q es' n' q', game_bot.notices (bot q) = [] ∧ peers n !! 2 = Some q
    ∧ Forall (delivers 2) es' ∧ net_run (λ _, None) (λ _ w, w) es' n = Some n' ∧ peers n' !! 2 = Some q'
    ∧ game_bot.notices (bot q') = shown <$> game_bot.got (bot q')
    ∧ own (game_bot.got (bot q')) = to 2 (sent_ (srv n)) ∧ length (own (game_bot.got (bot q'))) = 3%nat.
Proof.
  destruct demo_runs as (n & p & c & q & Hr & _ & Hc & Hq & _ & _ & Hrun & Hno & Hf & Hl).
  destruct (everything_sent_is_shown (λ _, None) (λ _ w, w) demo n 2 c q eq_refl Hr Hc Hq Hrun Hf)
    as (es' & n' & q' & H0 & H1 & H2 & _ & H3 & H4).
  exists n, q, es', n', q'. split_and!; try done. by rewrite H4.
Defined.
End end_laws.
