(* ===== verification/Conversation.v ===== *)
(** * A chat message from one bot to another

    On top of [EndToEndLaws]: what one bot writes as a chat is handled by the
    server, broadcast to every connection with the number of the sender, and got by
    the bots at their ends as it was written. *)

From S2P Require Import Prelude FrameCodec Channel ChannelLaws Floats Components Ecs Systems Threads.
From S2P Require Import ProtocolBase GameServer GameServerLaws GameServerHandlers AsioServer Client ClientLaws Outbox.
From S2P Require Import EndToEnd EndToEndLaws.
Import game_server.

Module conversation.
Import end_to_end end_laws.

Section conversation.
Context `{HashOrder} `{PriorityQueue} {AO : ArgOrder}.
Context (token : list Z → option Z) (upd : f32 → world → world).

(** ** How the server is set up never changes *)

Lemma serve_mode b ev n n' :
  sane b (srv n) → serve token upd ev n = Some n' → mode (srv n') = mode (srv n) ∧ sane b (srv n').
Proof.
  intros Hs. unfold serve. intros (y & Hy & [= <-])%bind_Some. unfold srv in *. cbn in *.
  destruct ev as [ec now|ev]; cbn [asio_server.sys_step] in Hy.
  - destruct (negb _); [by injection Hy as <-|].
    destruct (asio_server.accept_done ec _) as [[id|] a]; [|by injection Hy as <-].
    destruct (step token upd _ _) as [u s1| |] eqn:E; [|done..]. injection Hy as <-.
    by apply (step_mode token upd (b:=b)) in E.
  - destruct ev as [id now| | | | | |]; [by injection Hy as <-|..];
      (destruct (step token upd _ _) as [u s1| |] eqn:E; [|done..]); injection Hy as <-;
      by apply (step_mode token upd (b:=b)) in E.
Qed.

Lemma net_step_mode b e n n' :
  sane b (srv n) → net_step token upd e n = Some n' → mode (srv n') = mode (srv n) ∧ sane b (srv n').
Proof.
  intros Hs. destruct e as [name now|id a|id k|id now|id k|id k|ev]; cbn [net_step].
  - case_match; [|by intros [= <-]]. intros (n1 & E & [= <-])%bind_Some. exact (serve_mode b _ n n1 Hs E).
  - case_match; by intros [= <-].
  - case_match; [case_match|]; by intros [= <-].
  - destruct (connection id n) as [[c p]|]; [|by intros [= <-]].
    destruct (asio_channel.in_flight c) as [[buf m]|]; [|by intros [= <-]].
    case_decide; [|by intros [= <-]]. intros E. exact (serve_mode b _ (set_peer _ _ n) n' Hs E).
  - destruct (connection id n) as [[c p]|]; [|by intros [= <-]].
    case_decide; [by intros [= <-]|]. intros ([c' es] & _ & E)%bind_Some. exact (serve_mode b _ (set_peer _ _ n) n' Hs E).
  - case_match; [|by intros [= <-]]. case_match; [by intros [= <-]|].
    by intros (b' & _ & [= <-])%bind_Some.
  - case_match; [|by intros [= <-]]. by apply serve_mode.
Qed.

Lemma net_run_mode b es n n' :
  sane b (srv n) → net_run token upd es n = Some n' → mode (srv n') = mode (srv n) ∧ sane b (srv n').
Proof.
  revert n. induction es as [|e es IH]; intros n Hs; cbn; [by intros [= <-]|].
  intros (n1 & E1 & E)%bind_Some. destruct (net_step_mode b e n n1 Hs E1) as [Hm1 Hs1].
  destruct (IH n1 Hs1 E) as [Hm Hs']. split; [congruence|done].
Qed.

(** Chat is bound to its handler, and there are no map threads to hand it to. *)
Definition chatty (s : server) : Prop := table_ s !! 1003 = Some HChat ∧ main_thread_manager_ s = None.

Lemma chatty_mode s s' : mode s' = mode s → chatty s → chatty s'.
Proof.
  unfold mode, chatty. intros [= _ _ -> _ _ _ E] [? Hm]. rewrite Hm in E. split; [done|].
  by destruct (main_thread_manager_ s').
Qed.

(** A run of the composed system with the ECS switched off. *)
Definition reachable_plain (es : list net_event) (n : network) : Prop :=
  ∃ opt maps mysql dao redis,
    map_names_ok maps ∧ Forall event_ok es ∧ connects es < 2 ^ 31 - 1
    ∧ net_run token upd es (start opt false maps mysql dao redis) = Some n.

Lemma plain_ok es n : reachable_plain es n → net_ok 0 n ∧ sane false (srv n) ∧ chatty (srv n).
Proof.
  intros (opt & maps & mysql & dao & redis & Hm & He & Hc & Hr). split.
  { eapply (reachable_ok token upd es). exists opt, false, maps, mysql, dao, redis. split_and!; [done|done|done|exact Hr]. }
  destruct (net_run_mode false _ (start opt false maps mysql dao redis) _ (init_sane false maps mysql dao redis) Hr) as [E Hs]. split; [done|].
  by apply (chatty_mode _ _ E).
Qed.

(** ** The broadcast *)

(** What the clients are sent: the sender's connection and the text. *)
Definition chat_message (a : Z) (msg : list Z) : message := (1003, shared.write_le32 [] (u32 a) ++ msg).

(** Between the logs [l] and [l'] the chat of [a] was sent to [b]. *)
Definition says_to (a : Z) (msg : list Z) (b : Z) (l l' : list (Z * Z * list Z)) : Prop :=
  ∃ l1 l2, l' = l ++ l1 ++ (b, 1003, (chat_message a msg).2) :: l2.

Lemma says_to_app a msg b l l1 l' l2 : says_to a msg b (l ++ l1) l' → says_to a msg b l (l' ++ l2).
Proof.
  intros (m1 & m2 & ->). exists (l1 ++ m1), (m2 ++ l2). by rewrite <- !app_assoc.
Qed.

Lemma dispatch_chat a msg s u s' b :
  chatty s → dispatch token 1003 a msg s = Done u s' → is_Some (channels_ s !! b) →
  says_to a msg b (sent_ s) (sent_ s').
Proof.
  intros [Ht Hm] E Hb. unfold dispatch in E. rewrite gets_bind, Ht in E. cbn [call] in E.
  unfold handle_chat in E. rewrite gets_bind, Hm in E. apply bind_done in E as ([] & s1 & E1 & E2).
  apply send_test_frame_sent in E2. apply broadcast_sent in E1. rewrite E2, E1.
  apply (says_to_app _ _ _ _ []). rewrite app_nil_r.
  assert (b ∈ (hash_order (channels_ s)).*1) as (b1 & b2 & ->)%list_elem_of_split.
  { apply list_elem_of_fmap. destruct Hb as [c Hc]. exists (b, c). split; [done|].
    rewrite hash_order_perm. by apply elem_of_map_to_list. }
  rewrite fmap_app, fmap_cons. eexists _, _. reflexivity.
Qed.

Lemma callbacks_chat a msg b es s u s' :
  tx_server s → sane false s → chatty s → Forall harmless es →
  asio_channel.OnFrame a 1003 msg ∈ es → for_each es (callback token) s = Done u s' →
  is_Some (channels_ s' !! b) → says_to a msg b (sent_ s) (sent_ s').
Proof.
  intros Htx Hs Hc Hes Hin. revert s u Htx Hs Hc. induction Hes as [|e es He Hes IH]; [by apply not_elem_of_nil in Hin|].
  intros s u Htx Hs Hc E Hb. change (for_each (e :: es) (callback token))
    with (callback token e ;; for_each es (callback token)) in E.
  apply bind_done in E as ([] & s1 & E1 & E2).
  assert (Forall harmless [e]) as He1 by by constructor.
  destruct (emits_callbacks token [e] He1 s tt s1 Htx) as (Htx1 & l1 & Hl1).
  { change (for_each [e] (callback token)) with (callback token e ;; skip).
    unfold mbind, M_bind. by rewrite E1. }
  destruct (emits_callbacks token es Hes s1 u s' Htx1 E2) as (_ & l2 & Hl2).
  destruct (keeps_done false mode _ s tt s1 (callback_mode token e) Hs E1) as [Em Hs1].
  apply elem_of_cons in Hin as [<-|Hin].
  - rewrite (sn_sent _ _ _ Hl2). apply (says_to_app _ _ _ _ []). rewrite app_nil_r.
    apply (dispatch_chat a msg s tt s1 b Hc E1). apply elem_of_dom, (sends_dom _ _ _ Hl1), (sends_dom _ _ _ Hl2), elem_of_dom. done.
  - rewrite <- (app_nil_r (sent_ s')). apply (says_to_app _ _ _ _ l1). rewrite <- (sn_sent _ _ _ Hl1).
    apply (IH Hin s1 u Htx1 Hs1); [by apply (chatty_mode s)|done|done].
Qed.

Lemma nothing_new {A} (l fs : list A) x : l = l ++ fs → x ∉ fs.
Proof.
  intros E%(f_equal length). rewrite length_app in E. destruct fs; [apply not_elem_of_nil|cbn in E; lia].
Qed.

(** A read that hands over a chat sends it to every connection that stands. *)
Lemma upload_chat es a k n n' p p' msg fs b :
  reachable_plain es n → net_step token upd (Upload a k) n = Some n' →
  peers n !! a = Some p → peers n' !! a = Some p' → handled p' = handled p ++ fs → (1003, msg) ∈ fs →
  is_Some (channels_ (srv n') !! b) →
  ∃ l1 l2, to b (sent_ (srv n')) = to b (sent_ (srv n)) ++ l1 ++ chat_message a msg :: l2.
Proof.
  intros (Hn & Hs & Hc)%plain_ok E Hp Hp' Hh Hin Hb. cbn [net_step] in E.
  destruct (connection a n) as [[c q]|] eqn:Hcn.
  2: { injection E as <-. rewrite Hp in Hp'. injection Hp' as <-.
       by apply (nothing_new _ _ _ Hh) in Hin. }
  apply connection_Some in Hcn as [Hca Hq]. rewrite Hp in Hq. injection Hq as <-.
  set (chunk := take _ (up p)) in *. case_decide as Hck.
  { injection E as <-. rewrite Hp in Hp'. injection Hp' as <-.
    by apply (nothing_new _ _ _ Hh) in Hin. }
  destruct (upload_reads (srv n) a c p chunk (drop (length chunk) (up p)) (no_tx _ _ Hn)
    (po_up _ _ _ (no_peer _ _ Hn _ _ Hp)) Hca) as (acc & off & evs & fs1 & fs2 & Hrd & Hfr & Hl & Hes & _).
  { apply take_split. } { unfold chunk. rewrite length_take. lia. }
  rewrite Hrd in E. cbn [mbind option_bind] in E. set (c' := set asio_channel.frame_acc_offset_ _ _) in *.
  apply serve_inv in E as (Hst & Hpe & _); [|done]. rewrite Hpe in Hp'. cbn in Hp'.
  rewrite lookup_insert_eq in Hp'. injection Hp' as <-. cbn in Hh. apply app_inv_head in Hh.
  rewrite Hfr, frames_messages in Hh. subst fs1.
  cbn [step] in Hst. unfold channel_io in Hst. change (srv (set_peer _ _ n)) with (srv n) in Hst.
  rewrite Hca in Hst. cbn [asio_channel.step] in Hst. rewrite Hrd in Hst.
  rewrite (lv_id _ _ (ts_live _ (no_tx _ _ Hn) _ _ Hca)) in Hfr.
  assert (asio_channel.OnFrame a 1003 msg ∈ evs) as Hev.
  { assert ((a, 1003, msg) ∈ asio_channel.frames evs) as He.
    { rewrite Hfr. apply list_elem_of_fmap. by exists (1003, msg). }
    apply list_elem_of_omap in He as (e & ? & He). destruct e; try done. by injection He as -> -> ->. }
  set (s1 := (srv n) <| channels_ ::= <[a := c']> |>) in Hst.
  assert (tx_server s1) as Htx1.
  { split; [apply (no_tx _ _ Hn)|]. cbn. intros i ci [[<- <-]|[_ ?]]%lookup_insert_Some; [done|].
    by apply (no_tx _ _ Hn). }
  destruct (callbacks_chat a msg b evs s1 tt (srv n') Htx1 Hs Hc Hes Hev Hst Hb) as (l1 & l2 & ->).
  exists (to b l1), (to b l2). rewrite !to_app. do 2 f_equal. unfold to. cbn. by rewrite decide_True.
Qed.

(** Between [n] and [n'] the server has handled the chat [msg] of connection [a]. *)
Definition says (a : Z) (msg : list Z) (n n' : network) : Prop :=
  ∃ p p' fs, peers n !! a = Some p ∧ peers n' !! a = Some p' ∧ handled p' = handled p ++ fs ∧ (1003, msg) ∈ fs.

(** C7: (liveness) A chat reaches everybody. With the ECS off and a compiler
    that evaluates the buffer of [async_write] before its completion handler, in
    every run: when a read of the channel of [a] hands over a chat that the bot
    of [a] wrote, then every bot [b] whose connection stands after it, the
    sender's own included, can get the frame with the number of the sender in
    front of the text as it was written, behind everything that had been sent to
    it before that read, by completing the writes and reads of the connection of
    [b] alone, provided that the bot runs and that no frame sent to it is above
    the size of a batch. What the bot prints of it is its size. *)
Theorem chat_reaches_everyone es a k msg n n' b c q :
  arg_order = BufferFirst →
  reachable_plain es n → net_step token upd (Upload a k) n = Some n' → says a msg n n' →
  channels_ (srv n') !! b = Some c → peers n' !! b = Some q →
  game_bot.running_ (bot q) = true → Forall fits (to b (sent_ (srv n'))) →
  ∃ es' n'' q' l1 l2, Forall (delivers b) es' ∧ net_run token upd es' n' = Some n''
    ∧ peers n'' !! b = Some q'
    ∧ own (game_bot.got (bot q')) = to b (sent_ (srv n)) ++ l1 ++ chat_message a msg :: l2
    ∧ game_bot.notices (bot q') = shown <$> game_bot.got (bot q').
Proof.
  intros Ho Hr E (p & p' & fs & Hp & Hp' & Hh & Hin) Hc Hq Hrun Hfit.
  destruct (upload_chat es a k n n' p p' msg fs b Hr E Hp Hp' Hh Hin ltac:(by exists c)) as (l1 & l2 & Hm).
  pose proof (net_step_ok token upd 0 (Upload a k) n n' (proj1 (plain_ok _ _ Hr)) ltac:(lia) I E) as Hn'.
  destruct (drain_connection token upd n' b c q Ho Hn' Hc Hq Hrun Hfit)
    as (es' & n'' & q' & He & Hr' & Hq' & _ & Hs & Hown).
  exists es', n'', q', l1, l2. split_and!; try done. by rewrite Hown.
Qed.
End conversation.

(** ** Witness: the two bots of [demo], up to the second one's chat *)

#[local] Existing Instances key_order min_queue buffer_first.

Definition before : list net_event := take 8 demo.

Definition heard (n n' : network) : bool :=
  match peers n !! 2, peers n' !! 2, connection 1 n' with
  | Some p, Some p', Some (_, q) =>
      bool_decide (handled p' = handled p ++ bob_wrote) && game_bot.running_ (bot q)
      && bool_decide (Forall fits (to 1 (sent_ (srv n'))))
  | _, _, _ => false
  end.

Lemma bob_speaks : ∃ n n' c q, reachable_plain (λ _, None) (λ _ w, w) before n
  ∧ net_step (λ _, None) (λ _ w, w) (Upload 2 1024) n = Some n' ∧ says 2 (str "hi") n n'
  ∧ channels_ (srv n') !! 1 = Some c ∧ peers n' !! 1 = Some q
  ∧ game_bot.running_ (bot q) = true ∧ Forall fits (to 1 (sent_ (srv n'))).
Proof.
  assert (match net_run (λ _, None) (λ _ w, w) before (start socket_option_default false [] false false false) with
          | Some n => match net_step (λ _, None) (λ _ w, w) (Upload 2 1024) n with
                      | Some n' => heard n n' | None => false end
          | None => false end = true) as Hd by (vm_compute; reflexivity).
  destruct (net_run (λ _, None) (λ _ w, w) before (start socket_option_default false [] false false false))
    as [n|] eqn:Hn; [|done].
  destruct (net_step (λ _, None) (λ _ w, w) (Upload 2 1024) n) as [n'|] eqn:Hn'; [|done].
  unfold heard in Hd. destruct (peers n !! 2) as [p|] eqn:Hp; [|done].
  destruct (peers n' !! 2) as [p'|] eqn:Hp'; [|done].
  destruct (connection 1 n') as [[c q]|] eqn:Hcq; [|done]. apply connection_Some in Hcq as [Hc Hq].
  rewrite !andb_true_iff, !bool_decide_eq_true in Hd. destruct Hd as [[Hh Hrun] Hf].
  exists n, n', c, q. split_and!; [|exact Hn'| |assumption..].
  - exists socket_option_default, [], false, false, false.
    split; [constructor|]. split; [by_decide|]. split; [by_decide|]. exact Hn.
  - exists p, p', bob_wrote. split_and!; [done|done|done|]. apply elem_of_cons. right.
    apply elem_of_cons. by left.
Qed.

Lemma chat_reaches_everyone_witness :
  ∃ n n' es' n'' q' l1 l2, Forall (delivers 1) es'
    ∧ net_run (λ _, None) (λ _ w, w) es' n' = Some n''
    ∧ peers n'' !! 1 = Some q'
    ∧ own (game_bot.got (bot q')) = to 1 (sent_ (srv n)) ++ l1 ++ chat_message 2 (str "hi") :: l2
    ∧ game_bot.notices (bot q') = shown <$> game_bot.got (bot q').
Proof.
  destruct bob_speaks as (n & n' & c & q & Hr & Hu & Hs & Hc & Hq & Hrun & Hf). exists n, n'.
  exact (chat_reaches_everyone (λ _, None) (λ _ w, w) before 2 1024 (str "hi") n n' 1 c q eq_refl Hr Hu Hs Hc Hq Hrun Hf).
Defined.

End conversation.
