(* ===== verification/Locks.v ===== *)
(** * Threads, locks, lock orders and data races

    A thread is reduced to the sequence of mutexes it locks and unlocks and of
    shared memory it reads or writes; a state is what every thread holds and still
    has to do.  A mutex is not recursive: a thread that asks for one it holds waits
    for itself.  If every thread takes its locks in the order of a rank, no
    interleaving blocks and every run ends with all threads finished; if it also
    uses each location as the location's protection asks, no interleaving reaches a
    state in which two threads are about to use a protected location and one of
    them writes it. *)

From S2P Require Import Prelude.
From stdpp Require Import relations well_founded.

Inductive action (L X : Type) := Acq (l : L) | Rel (l : L) | Use (x : X) (write : bool).
#[global] Arguments Acq {L X} l.
#[global] Arguments Rel {L X} l.
#[global] Arguments Use {L X} x write.
#[global] Instance action_eq {L X} `{EqDecision L, EqDecision X} : EqDecision (action L X).
Proof. solve_decision. Defined.

(** What keeps two threads from using a location at once: a mutex, that nobody
    writes it, or nothing. *)
Inductive protection (L : Type) := Guarded (l : L) | ReadOnly | Unprotected.
#[global] Arguments Guarded {L} l.
#[global] Arguments ReadOnly {L}.
#[global] Arguments Unprotected {L}.
#[global] Instance protection_eq {L} `{EqDecision L} : EqDecision (protection L).
Proof. solve_decision. Defined.

Section locks.
Context {L X : Type} `{EqDecision L} (rank : L → nat) (policy : X → protection L).
Local Open Scope nat_scope.

Implicit Types (l : L) (x : X) (held need : list L) (p : list (action L X)).

(** A thread: the mutexes it holds and what it has left to do. *)
Definition thread : Type := list L * list (action L X).

Definition free l (ts : list thread) : Prop := Forall (λ t, l ∉ t.1) ts.

Inductive step : list thread → list thread → Prop :=
| step_acq pre held l p post :
    free l (pre ++ (held, Acq l :: p) :: post) →
    step (pre ++ (held, Acq l :: p) :: post) (pre ++ (l :: held, p) :: post)
| step_rel pre held l p post :
    l ∈ held →
    step (pre ++ (held, Rel l :: p) :: post) (pre ++ (filter (.≠ l) held, p) :: post)
| step_use pre held x w p post :
    step (pre ++ (held, Use x w :: p) :: post) (pre ++ (held, p) :: post).

Definition finished (ts : list thread) : Prop := Forall (λ t, t = ([], [])) ts.

(** What a thread must hold to use a location. *)
Definition allowed held x (w : bool) : Prop :=
  match policy x with Guarded l => l ∈ held | ReadOnly => w = false | Unprotected => True end.

(** A thread that holds [held] takes every further lock above all it holds, uses
    memory only as its protection allows, and has released everything at its end. *)
Fixpoint ordered held p : Prop :=
  match p with
  | [] => held = []
  | Acq l :: p => Forall (λ h, rank h < rank l) held ∧ ordered (l :: held) p
  | Rel l :: p => l ∈ held ∧ ordered (filter (.≠ l) held) p
  | Use x w :: p => allowed held x w ∧ ordered held p
  end.

Definition well_ordered (ts : list thread) : Prop := Forall (λ t, ordered t.1 t.2) ts.

(** ** No interleaving blocks *)

Lemma step_well_ordered ts ts' : step ts ts' → well_ordered ts → well_ordered ts'.
Proof.
  unfold well_ordered. destruct 1 as [pre held l p post _|pre held l p post _|pre held x w p post];
    rewrite !Forall_app, !Forall_cons; cbn; tauto.
Qed.

(** A thread that waits, if it cannot release: the lock it waits for. *)
Definition wants (t : thread) : option L :=
  match t.2 with Acq l :: _ => Some l | _ => None end.

(** Among the waiting threads, one whose lock has the highest rank. *)
Lemma highest_wanted (ts : list thread) :
  (∀ t, t ∈ ts → wants t = None) ∨
  ∃ t l, t ∈ ts ∧ wants t = Some l ∧ ∀ u k, u ∈ ts → wants u = Some k → rank k ≤ rank l.
Proof.
  induction ts as [|t ts IH]; [left; by intros t ?%not_elem_of_nil|].
  destruct (wants t) as [l|] eqn:Hw.
  - right. destruct IH as [Hn|(t' & l' & Hin & Hl' & Hmax)].
    + exists t, l. split_and!; [set_solver|done|]. intros u k [->|Hu]%elem_of_cons Hk; [naive_solver|].
      by rewrite Hn in Hk.
    + destruct (decide (rank l ≤ rank l')).
      * exists t', l'. split_and!; [set_solver|done|]. intros u k [->|Hu]%elem_of_cons Hk; naive_solver.
      * exists t, l. split_and!; [set_solver|done|]. intros u k [->|Hu]%elem_of_cons Hk; [naive_solver|].
        specialize (Hmax _ _ Hu Hk). lia.
  - destruct IH as [Hn|(t' & l' & Hin & Hl' & Hmax)].
    + left. intros u [->|Hu]%elem_of_cons; auto.
    + right. exists t', l'. split_and!; [set_solver|done|]. intros u k [->|Hu]%elem_of_cons Hk; naive_solver.
Qed.

Lemma not_free l (ts : list thread) : ¬ free l ts → ∃ t, t ∈ ts ∧ l ∈ t.1.
Proof.
  unfold free. rewrite <- Exists_Forall_neg; [|intros t; destruct (decide (l ∈ t.1)); tauto].
  intros (t & Ht & Hl)%Exists_exists. exists t. split; [done|]. by apply dec_stable.
Qed.

(** A thread that can only wait, or is done. *)
Lemma blocked_cases ts t :
  (∀ ts', ¬ step ts ts') → well_ordered ts → t ∈ ts → t = ([], []) ∨ ∃ l, wants t = Some l.
Proof.
  intros Hst Hok Hin. destruct t as [held [|[l|l|x w] p]]; unfold well_ordered in Hok.
  - left. rewrite Forall_forall in Hok. apply Hok in Hin. cbn in Hin. by subst.
  - right. by exists l.
  - rewrite Forall_forall in Hok. pose proof (Hok _ Hin) as [Hl _].
    apply list_elem_of_split in Hin as (pre & post & ->). by destruct (Hst _ (step_rel pre held l p post Hl)).
  - apply list_elem_of_split in Hin as (pre & post & ->). by destruct (Hst _ (step_use pre held x w p post)).
Qed.

Lemma progress ts : well_ordered ts → (∀ ts', ¬ step ts ts') → finished ts.
Proof.
  intros Hok Hst. destruct (highest_wanted ts) as [Hn|(t & l & Hin & Hw & Hmax)].
  { apply Forall_forall. intros t Hin. destruct (blocked_cases ts t Hst Hok Hin) as [?|[l Hl]]; [done|].
    by rewrite Hn in Hl. }
  exfalso. destruct (decide (free l ts)) as [Hf|Hf].
  - destruct t as [held [|[l'|l'|x w] p]]; try done. injection Hw as ->.
    apply list_elem_of_split in Hin as (pre & post & ->). by destruct (Hst _ (step_acq pre held l p post Hf)).
  - destruct (not_free _ _ Hf) as (u & Hu & Hl).
    destruct (blocked_cases ts u Hst Hok Hu) as [->|[k Hk]]; [by apply not_elem_of_nil in Hl|].
    unfold well_ordered in Hok. rewrite Forall_forall in Hok. pose proof (Hok _ Hu) as Ho.
    destruct u as [held [|[k'|k'|x w] p]]; try done. injection Hk as ->. destruct Ho as [Ho _].
    rewrite Forall_forall in Ho. specialize (Ho _ Hl). specialize (Hmax _ k Hu eq_refl). cbn in *. lia.
Qed.

(** ** Every run ends *)

Definition work (ts : list thread) : nat := sum_list_with (length ∘ snd) ts.

Lemma step_work ts ts' : step ts ts' → work ts = S (work ts').
Proof. unfold work. destruct 1; rewrite !sum_list_with_app; cbn; lia. Qed.

(** Whatever the scheduler does: a run of [k] steps has done [k] of the [work]
    steps there are; when nothing can move any more, everything is done. *)
Lemma runs_finish k ts ts' :
  well_ordered ts → nsteps step k ts ts' →
  work ts = k + work ts' ∧ ((∀ ts'', ¬ step ts' ts'') → finished ts' ∧ k = work ts).
Proof.
  induction 2 as [ts|k ts ts1 ts' Hs _ IH].
  - split; [done|]. intros Hst. pose proof (progress _ ltac:(done) Hst) as Hf. split; [done|].
    clear -Hf. induction Hf as [|t ts -> _ IHf]; [done|]. exact IHf.
  - destruct IH as [Hw Hf]; [by eapply step_well_ordered|]. apply step_work in Hs.
    split; [lia|]. intros Hst. destruct (Hf Hst). split; [done|lia].
Qed.

(** Two threads never hold the same mutex. *)
Definition exclusive (ts : list thread) : Prop := NoDup (concat (fst <$> ts)).

Lemma free_concat l (ts : list thread) : free l ts → l ∉ concat (fst <$> ts).
Proof using Type.
  clear rank policy.
  induction 1 as [|t ts Ht _ IH]; [apply not_elem_of_nil|]. rewrite fmap_cons. cbn [concat]. set_solver.
Qed.

Lemma step_exclusive ts ts' : step ts ts' → exclusive ts → exclusive ts'.
Proof using Type.
  unfold exclusive. destruct 1 as [pre held l p post Hf|pre held l p post _|pre held x w p post].
  - apply free_concat in Hf. revert Hf. rewrite !fmap_app, !fmap_cons, !concat_app. cbn [concat fst app].
    intros Hf Hn. rewrite <- Permutation_middle. constructor; [|exact Hn]. exact Hf.
  - rewrite !fmap_app, !fmap_cons, !concat_app. cbn [concat fst]. intros Hn.
    eapply sublist_NoDup; [exact Hn|]. apply sublist_app; [done|]. apply sublist_app; [|done].
    apply sublist_filter.
  - by rewrite !fmap_app, !fmap_cons.
Qed.

Lemma nsteps_exclusive k ts ts' : nsteps step k ts ts' → exclusive ts → exclusive ts'.
Proof using Type. induction 1; [done|]. eauto using step_exclusive. Qed.
Lemma nsteps_well_ordered k ts ts' : nsteps step k ts ts' → well_ordered ts → well_ordered ts'.
Proof. induction 1; [done|]. eauto using step_well_ordered. Qed.

Lemma exclusive_holder l ts i j t u :
  exclusive ts → ts !! i = Some t → ts !! j = Some u → l ∈ t.1 → l ∈ u.1 → i = j.
Proof.
  assert (∀ (ts : list thread) n v, ts !! n = Some v → l ∈ v.1 → l ∈ concat (fst <$> ts)) as Hin.
  { intros ts' n v Hv Hl. apply list_elem_of_In, in_concat. exists v.1. rewrite <- !list_elem_of_In.
    split; [|done]. apply list_elem_of_fmap. exists v. eauto using list_elem_of_lookup_2. }
  unfold exclusive. revert i j. induction ts as [|v ts IH]; intros i j; [done|].
  rewrite fmap_cons. cbn [concat]. intros (Hn1 & Hd & Hn2)%NoDup_app Hi Hj Hlt Hlu.
  destruct i as [|i], j as [|j]; cbn in Hi, Hj; simplify_eq; try done.
  - by destruct (Hd l Hlt (Hin ts j u Hj Hlu)).
  - by destruct (Hd l Hlu (Hin ts i t Hi Hlt)).
  - f_equal. by apply IH.
Qed.

(** ** Data races *)

(** The memory a thread uses next. *)
Definition next_use (t : thread) : option (X * bool) :=
  match t.2 with Use x w :: _ => Some (x, w) | _ => None end.

(** Two threads are about to use [x], and one of them writes. *)
Definition race (ts : list thread) x : Prop :=
  ∃ i j t u w, i ≠ j ∧ ts !! i = Some t ∧ ts !! j = Some u
    ∧ next_use t = Some (x, true) ∧ next_use u = Some (x, w).

Lemma well_ordered_use ts i t x w :
  well_ordered ts → ts !! i = Some t → next_use t = Some (x, w) → allowed t.1 x w.
Proof.
  intros Hok Hi Hu. unfold well_ordered in Hok. rewrite Forall_lookup in Hok. apply Hok in Hi.
  destruct t as [held [|[l|l|y v] p]]; try done. cbn in *. simplify_eq. apply Hi.
Qed.

Lemma protected_no_race ts x :
  well_ordered ts → exclusive ts → policy x ≠ Unprotected → ¬ race ts x.
Proof.
  intros Hok Hx Hp (i & j & t & u & w & Hij & Hi & Hj & Ht & Hu).
  apply (well_ordered_use ts i) in Ht; [|done..]. apply (well_ordered_use ts j) in Hu; [|done..].
  unfold allowed in Ht, Hu. destruct (policy x) as [l| |]; try done.
  exact (Hij (exclusive_holder l ts i j t u Hx Hi Hj Ht Hu)).
Qed.

(** The decision of [race] for two given threads. *)
Definition races_at (ts : list thread) `{EqDecision X} x (i j : nat) : bool :=
  match ts !! i ≫= next_use, ts !! j ≫= next_use with
  | Some (y, true), Some (z, _) => bool_decide (i ≠ j) && bool_decide (y = x) && bool_decide (z = x)
  | _, _ => false
  end.
Lemma races_at_race ts `{EqDecision X} x i j : races_at ts x i j = true → race ts x.
Proof.
  unfold races_at. destruct (ts !! i) as [t|] eqn:Hi; [|done]. cbn.
  destruct (next_use t) as [[y [|]]|] eqn:Ht; try done.
  destruct (ts !! j) as [u|] eqn:Hj; [|done]. cbn. destruct (next_use u) as [[z w]|] eqn:Hu; [|done].
  rewrite !andb_true_iff, !bool_decide_eq_true. intros [[Hij ->] ->]. by exists i, j, t, u, w.
Qed.

(** ** Running a schedule *)

Definition is_free l (ts : list thread) : bool := forallb (λ t, bool_decide (l ∉ t.1)) ts.

(** Thread [i] takes its next step, if it has one and is not blocked. *)
Definition step_at (i : nat) (ts : list thread) : option (list thread) :=
  match ts !! i with
  | Some (held, Acq l :: p) => if is_free l ts then Some (<[i := (l :: held, p)]> ts) else None
  | Some (held, Rel l :: p) =>
      if bool_decide (l ∈ held) then Some (<[i := (filter (.≠ l) held, p)]> ts) else None
  | Some (held, Use _ _ :: p) => Some (<[i := (held, p)]> ts)
  | _ => None
  end.
Fixpoint exec (schedule : list nat) (ts : list thread) : option (list thread) :=
  match schedule with
  | [] => Some ts
  | i :: schedule => match step_at i ts with Some ts => exec schedule ts | None => None end
  end.

Lemma step_at_sound i ts ts' : step_at i ts = Some ts' → step ts ts'.
Proof.
  unfold step_at. destruct (ts !! i) as [[held [|[l|l|x w] p]]|] eqn:Hi; try done.
  - destruct (is_free l ts) eqn:Hf; [|done]. intros [= <-].
    apply list_elem_of_split_length in Hi as (pre & post & -> & ->).
    rewrite insert_app_r_alt, Nat.sub_diag by done. apply step_acq. apply Forall_forall. intros t Ht.
    unfold is_free in Hf. rewrite forallb_forall in Hf. apply list_elem_of_In, Hf in Ht.
    by apply bool_decide_eq_true in Ht.
  - case_bool_decide; [|done]. intros [= <-]. apply list_elem_of_split_length in Hi as (pre & post & -> & ->).
    rewrite insert_app_r_alt, Nat.sub_diag by done. by apply step_rel.
  - intros [= <-]. apply list_elem_of_split_length in Hi as (pre & post & -> & ->).
    rewrite insert_app_r_alt, Nat.sub_diag by done. apply step_use.
Qed.

Lemma exec_sound schedule ts ts' : exec schedule ts = Some ts' → nsteps step (length schedule) ts ts'.
Proof.
  revert ts. induction schedule as [|i schedule IH]; intros ts; cbn; [intros [= ->]; constructor|].
  destruct (step_at i ts) as [ts1|] eqn:E; [|done]. intros Hr. econstructor; [by eapply step_at_sound|auto].
Qed.

(** A set of states that a thread cannot leave by its own steps, and in which it is
    not at its end: it never ends. *)
Definition trap (S : thread → Prop) : Prop :=
  ¬ S ([], []) ∧ (∀ held l p, S (held, Acq l :: p) → l ∉ held → S (l :: held, p))
  ∧ (∀ held l p, S (held, Rel l :: p) → l ∈ held → S (filter (.≠ l) held, p))
  ∧ (∀ held x w p, S (held, Use x w :: p) → S (held, p)).

Lemma trapped S k ts ts' : trap S → nsteps step k ts ts' → Exists S ts → ¬ finished ts'.
Proof using Type.
  clear rank policy.
  intros (Hend & Ha & Hr & Hu). induction 1 as [ts|k ts ts1 ts' Hs _ IH]; intros Hin.
  - intros Hf. apply Exists_exists in Hin as (t & Ht & Hst). unfold finished in Hf.
    rewrite Forall_forall in Hf. rewrite (Hf t Ht) in Hst. done.
  - apply IH. destruct Hs as [pre held l p post Hf|pre held l p post Hl|pre held x w p post];
      rewrite !Exists_app, !Exists_cons in Hin |- *; destruct Hin as [?|[?|?]]; try tauto; right; left.
    + apply Ha; [done|]. by apply Forall_app in Hf as [_ [Hf _]%Forall_cons].
    + by apply Hr.
    + by eapply Hu.
Qed.

(** ** Programs built from critical sections *)

(** [std::lock_guard lk(l); body] *)
Definition locked l p : list (action L X) := Acq l :: p ++ [Rel l].
Definition reads x : list (action L X) := [Use x false].
Definition writes x : list (action L X) := [Use x true].

(** [p] can run while the locks [need] and any others below rank [r] are held, and
    leaves what is held as it is. *)
Definition safe (r : nat) need p : Prop := ∀ held k,
  Forall (λ h, rank h < r) held → need ⊆ held → ordered held k → ordered held (p ++ k).

Lemma safe_nil r need : safe r need [].
Proof. by intros held k. Qed.
Lemma safe_app r need p q : safe r need p → safe r need q → safe r need (p ++ q).
Proof. intros Hp Hq held k Hh Hn Hk. rewrite <- app_assoc. apply Hp; [done..|]. by apply Hq. Qed.
Lemma safe_concat r need ps : Forall (safe r need) ps → safe r need (concat ps).
Proof. induction 1; [apply safe_nil|]. by apply safe_app. Qed.
Lemma safe_use r need x w : allowed need x w → safe r need [Use x w].
Proof.
  intros Ha held k _ Hn Hk. cbn. split; [|done]. unfold allowed in *. destruct (policy x); auto.
Qed.
Lemma safe_locked r need l p : r ≤ rank l → safe (S (rank l)) (l :: need) p → safe r need (locked l p).
Proof.
  intros Hr Hp held k Hh Hn Hk. unfold locked. cbn. rewrite <- app_assoc.
  assert (Forall (λ h, rank h < rank l) held) as Hl.
  { apply (Forall_impl _ _ _ Hh). cbn. intros y Hy. lia. }
  split; [done|]. apply Hp; [|set_solver|].
  - constructor; [lia|]. apply (Forall_impl _ _ _ Hl). cbn. intros y Hy. lia.
  - cbn [app ordered]. split; [set_solver|]. rewrite filter_cons_False by (intros ?; done).
    replace (filter (.≠ l) held) with held; [done|]. clear -Hl.
    induction Hl as [|h held Hh _ IH]; [done|]. rewrite filter_cons_True by (intros ->; lia). by f_equal.
Qed.

Lemma safe_ordered p : safe 0 [] p → ordered [] p.
Proof. intros Hp. rewrite <- (app_nil_r p). by apply Hp. Qed.
End locks.
