(* ===== verification/LockOrder.v ===== *)
(** * The mutexes of the server, the memory they guard and the order they are taken in

    For every function of the server that locks something, the sequence of locks
    it takes and releases and of shared memory it uses, with the functions it calls
    inside; what depends on the data (which branch, how many objects) is an
    argument.  Inside a critical section one use of the memory its mutex guards
    stands for all of them, a write if one of them may be; memory that no mutex
    guards is used as often as the code does.  Atomic variables are left out.

    The threads are those of the process: the one that runs the [io_context] (and
    [stop] after it), the database threads, the main thread of [MainThreadManager]
    and one thread per map.  Joining a thread waits for its end, which is written
    as a mutex that the thread holds as long as it lives; the thread of the
    [io_context] has one too, and what is only used there counts as guarded by it.
    A timed wait on a condition variable gives its mutex back and ends by itself,
    and is left out. *)

From S2P Require Import Prelude Locks.
From stdpp Require Import relations.

Module lock_order.
Local Open Scope nat_scope.

(** ** The mutexes *)

(** The component stores that the server uses, one per component type. *)
Inductive component_type :=
| Position | Velocity | Health | Player | Monster | NPC | Item | GameObject
| MapComponent | MapObjectsComponent | MapBoundsComponent.
#[global] Instance component_type_eq : EqDecision component_type.
Proof. solve_decision. Defined.

Inductive lock :=
| io_thread_                         (* held by the thread of the io_context *)
| guild_mutex_                       (* game_server *)
| mtx_                               (* game_server *)
| player_map_mutex_                  (* game_server *)
| write_lock_ (channel : Z)          (* asio_channel, a spin lock *)
| main_thread_                       (* held by the main thread while it lives *)
| database_thread_ (i : nat)         (* held by a thread of the database pool *)
| network_mutex_ | global_mutex_ | task_mutex_            (* MainThreadManager *)
| map_threads_mutex_ | manager_player_map_mutex_          (* MapThreadManager *)
| map_thread_ (map_id : Z)           (* held by the thread of a map while it lives *)
| packet_mutex_ (map_id : Z) | map_task_mutex_ (map_id : Z) | objects_mutex_ (map_id : Z)
| systems_mutex_ | stores_mutex_ | store_mutex_ (T : component_type) | entities_mutex_
| channel_mutex_                     (* asio_server *)
| redis_mtx_ | pool_mtx_ | sink_mtx_.
#[global] Instance lock_eq : EqDecision lock.
Proof. solve_decision. Defined.

(** The order: whoever holds one of them takes only later ones. *)
Definition rank (l : lock) : nat :=
  match l with
  | io_thread_ => 0
  | guild_mutex_ => 1 | mtx_ => 2 | player_map_mutex_ => 3 | write_lock_ _ => 4
  | main_thread_ => 5 | database_thread_ _ => 6
  | network_mutex_ => 7 | global_mutex_ => 8 | task_mutex_ => 9
  | map_threads_mutex_ => 10 | manager_player_map_mutex_ => 11 | map_thread_ _ => 12
  | packet_mutex_ _ => 13 | map_task_mutex_ _ => 14 | objects_mutex_ _ => 15
  | systems_mutex_ => 16 | stores_mutex_ => 17 | store_mutex_ _ => 18 | entities_mutex_ => 19
  | channel_mutex_ => 20 | redis_mtx_ => 21 | pool_mtx_ => 22 | sink_mtx_ => 23
  end.

(** ** The shared memory *)

Inductive location :=
(* game_server *)
| channels_ | channel_to_entity_ | channel_to_db_id_ | db_strands_
| guilds_ | channel_to_guild_ | next_guild_id_ | player_map_mapping_
(* asio_server and its channels *)
| server_channels_ | write_queue_ (ch : Z) | frame_acc_ (ch : Z)
(* MainThreadManager and MapThreadManager *)
| network_tasks_ | global_tasks_ | task_queue_ | map_threads_ | manager_player_map_mapping_
(* the MapThread of a map, and the generator of [spawn_monsters] *)
| packet_queue_ (m : Z) | map_task_queue_ (m : Z)
| local_players_ (m : Z) | local_monsters_ (m : Z) | local_npcs_ (m : Z) | local_items_ (m : Z)
| spawn_timer_ (m : Z) | seed
(* the ECS *)
| systems_ | stores_ | components_ (T : component_type) | active_entities_
| map_object_cache_
(* the components of an entity and of a map, which the code reaches by pointers *)
| position (e : Z) | velocity (e : Z) | health (e : Z) | player (e : Z) | monster (e : Z)
| map_objects (m : Z) | map_bounds (m : Z)
(* Redis, the pool of connections, the failure sink and [std::gmtime] *)
| ctx_ | free_indices_ | file_ | gmtime_buffer.
#[global] Instance location_eq : EqDecision location.
Proof. solve_decision. Defined.

(** What protects each: for the members of a class the mutex beside them; what
    only the thread of the [io_context] uses needs none. *)
Definition policy (x : location) : protection lock :=
  match x with
  | channels_ | channel_to_entity_ | channel_to_db_id_ | db_strands_ => Guarded mtx_
  | guilds_ | channel_to_guild_ | next_guild_id_ => Guarded guild_mutex_
  | player_map_mapping_ => Guarded player_map_mutex_
  | server_channels_ => Guarded channel_mutex_
  | write_queue_ _ | frame_acc_ _ | player _ => Guarded io_thread_
  | network_tasks_ => Guarded network_mutex_
  | global_tasks_ => Guarded global_mutex_
  | task_queue_ => Guarded task_mutex_
  | map_threads_ => Guarded map_threads_mutex_
  | manager_player_map_mapping_ => Guarded manager_player_map_mutex_
  | packet_queue_ m => Guarded (packet_mutex_ m)
  | map_task_queue_ m => Guarded (map_task_mutex_ m)
  | local_players_ m | local_monsters_ m | local_npcs_ m | local_items_ m => Guarded (objects_mutex_ m)
  | systems_ | map_object_cache_ | monster _ => Guarded systems_mutex_
  | stores_ => Guarded stores_mutex_
  | components_ T => Guarded (store_mutex_ T)
  | active_entities_ => Guarded entities_mutex_
  | ctx_ => Guarded redis_mtx_
  | free_indices_ => Guarded pool_mtx_
  | map_bounds _ | velocity _ => ReadOnly
  | spawn_timer_ _ | seed | position _ | health _ | map_objects _ | file_ | gmtime_buffer => Unprotected
  end.

Definition prog : Type := list (action lock location).
Definition lock_only (l : lock) : prog := locked l [].
Definition when (b : bool) (p : prog) : prog := if b then p else [].
Definition modifies (x : location) : prog := reads x ++ writes x.

(** ** The ECS *)

(** [get_store<T>()] may insert the store. *)
Definition get_store : prog := locked stores_mutex_ (writes stores_).
Definition get_component (T : component_type) : prog :=
  get_store ++ locked (store_mutex_ T) (reads (components_ T)).
(** [get_components], [get_entities_with_component]: a snapshot of the pointers or
    of the entities. *)
Definition get_components (T : component_type) : prog :=
  get_store ++ locked (store_mutex_ T) (reads (components_ T)).
Definition add_component (T : component_type) : prog :=
  get_store ++ locked (store_mutex_ T) (writes (components_ T)).
(** [has_component<T>], whose store exists or not. *)
Definition has_component (T : component_type) (stored : bool) : prog :=
  locked stores_mutex_ (reads stores_ ++ when stored (locked (store_mutex_ T) (reads (components_ T)))).
Definition create_entity : prog := locked entities_mutex_ (writes active_entities_).
Definition destroy_entity : prog :=
  locked stores_mutex_ (reads stores_) ++ locked entities_mutex_ (writes active_entities_).
Definition get_system : prog := locked systems_mutex_ (reads systems_).

(** *** [MovementSystem] *)

(** The entities with a position, and whether they have a velocity. *)
Definition update_positions (es : list (Z * bool)) : prog :=
  get_components Position ++
  concat ((λ '(e, moves), get_component Velocity ++
    when moves (reads (velocity e) ++ modifies (position e))) <$> es).
(** Whether they are outside the bounds. *)
Definition check_boundaries (es : list (Z * bool)) : prog :=
  get_components Position ++
  concat ((λ '(e, outside), reads (position e) ++ when outside (writes (position e))) <$> es).
(** The pairs, and whether they are too close. *)
Definition handle_collisions (pairs : list (Z * Z * bool)) : prog :=
  get_components Position ++
  concat ((λ '(a, b, near), reads (position a) ++ reads (position b) ++
    when near (modifies (position a) ++ modifies (position b))) <$> pairs).

(** *** [AISystem] *)

Definition set_target (e : Z) : prog := get_component Monster ++ writes (monster e).
(** [None]: the monster has no position.  Else the players, with or without a
    position, and whether one is near. *)
Definition find_nearest_target (e : Z) (seen : option (list (Z * bool) * bool)) : prog :=
  get_component Position ++
  match seen with
  | None => []
  | Some (players, found) =>
      get_components Player ++
      concat ((λ '(p, placed), get_component Position ++
        when placed (reads (position p) ++ reads (position e))) <$> players) ++
      when found (set_target e)
  end.
Definition attack_target (e target : Z) : prog :=
  get_component Monster ++ reads (monster e) ++ get_component Health ++ modifies (health target).

(** A monster without a target, with one that is alive, or with one that is not
    (or has no health). *)
Inductive ai_step :=
| Searches (seen : option (list (Z * bool) * bool)) | Attacks (target : Z) | Clears (target : Z) (health : bool).
Definition update_ai_state (e : Z) (s : ai_step) : prog :=
  get_component Monster ++ reads (monster e) ++
  match s with
  | Searches seen => find_nearest_target e seen
  | Attacks target => get_component Health ++ reads (health target) ++ attack_target e target
  | Clears target b => get_component Health ++ when b (reads (health target)) ++ set_target e
  end.

(** *** [MapSystem] *)

Definition get_objects_in_map (m : Z) : prog := get_component MapObjectsComponent ++ reads (map_objects m).
(** [is_object_in_bounds] and [clamp_object_to_bounds], of an object with a position
    or without. *)
Definition map_object_in_bounds (m e : Z) (placed : bool) : prog :=
  get_component MapBoundsComponent ++ get_component Position ++
  when placed (reads (position e) ++ reads (map_bounds m)).
Definition map_clamp_object (m e : Z) (placed : bool) : prog :=
  get_component MapBoundsComponent ++ get_component Position ++
  when placed (modifies (position e) ++ reads (map_bounds m)).
(** An object of a map that has no position, that is inside, or that is outside. *)
Inductive placement := NoPosition | Inside | Outside.
Definition check_bounds (m e : Z) (o : placement) : prog :=
  match o with
  | NoPosition => map_object_in_bounds m e false ++ map_clamp_object m e false
  | Inside => map_object_in_bounds m e true
  | Outside => map_object_in_bounds m e true ++ map_clamp_object m e true
  end.
Definition check_map_collisions (m : Z) (objects : list (Z * placement)) : prog :=
  get_objects_in_map m ++ concat ((λ '(e, o), check_bounds m e o) <$> objects).
Definition update_object_cache (ms : list Z) : prog :=
  writes map_object_cache_ ++ get_components MapComponent ++ concat (get_objects_in_map <$> ms).

(** *** [update_all] *)

Inductive system_update :=
| MovementSystem (moving outside : list (Z * bool)) (pairs : list (Z * Z * bool))
| AISystem (monsters : list (Z * ai_step))
| CombatSystem (entities : list Z)
| MapSystem (maps : list (Z * list (Z * placement))) (dirty : option (list Z)).

(** Nothing creates an [NPC] component, so there is no NPC for [AISystem] to send on
    patrol, and a velocity never changes once it is stored. *)
Definition system_updates (u : system_update) : prog :=
  match u with
  | MovementSystem moving outside pairs =>
      update_positions moving ++ check_boundaries outside ++ handle_collisions pairs
  | AISystem monsters =>
      get_components Monster ++ concat ((λ '(e, s), update_ai_state e s) <$> monsters) ++
      get_components NPC
  | CombatSystem entities =>
      get_components Health ++ concat ((λ e, get_component Health ++ reads (health e)) <$> entities)
  | MapSystem maps dirty =>
      get_components MapComponent ++ concat ((λ '(m, objects), check_map_collisions m objects) <$> maps) ++
      reads map_object_cache_ ++ match dirty with Some ms => update_object_cache ms | None => [] end
  end.
(** The systems are updated under the lock, in an order that is not specified. *)
Definition update_all (us : list system_update) : prog :=
  locked systems_mutex_ (reads systems_ ++ concat (system_updates <$> us)).

(** ** The thread of a map *)

Definition add_packet (m : Z) : prog := locked (packet_mutex_ m) (writes (packet_queue_ m)).
(** The lock is given back while a packet is handled, and handling takes none. *)
Definition process_packets (m : Z) (packets : nat) : prog :=
  concat (replicate packets (locked (packet_mutex_ m) (writes (packet_queue_ m)))) ++
  locked (packet_mutex_ m) (reads (packet_queue_ m)).
Definition add_map_task (m : Z) : prog := locked (map_task_mutex_ m) (writes (map_task_queue_ m)).
(** Nothing posts tasks to a map. *)
Definition process_map_tasks (m : Z) : prog := locked (map_task_mutex_ m) (reads (map_task_queue_ m)).
Definition add_player (m : Z) : prog :=
  locked (objects_mutex_ m) (writes (local_players_ m) ++ writes (map_objects m)).
Definition remove_player (m : Z) : prog := locked (objects_mutex_ m) (writes (local_players_ m)).

(** An object that has no position or no velocity, that moved, or that moved out of
    the map and was put back. *)
Inductive motion := Still | Moved | Clamped.
Definition is_object_in_bounds (m e : Z) : prog :=
  get_component Position ++ reads (position e) ++ reads (map_bounds m).
Definition clamp_object_to_bounds (m e : Z) : prog :=
  get_component Position ++ modifies (position e) ++ reads (map_bounds m).
Definition update_object_position (m e : Z) (o : motion) : prog :=
  get_component Position ++ get_component Velocity ++
  match o with
  | Still => []
  | Moved => reads (velocity e) ++ modifies (position e) ++ is_object_in_bounds m e
  | Clamped => reads (velocity e) ++ modifies (position e) ++ is_object_in_bounds m e ++
      clamp_object_to_bounds m e
  end.
(** Loops with nothing to do for a player or an item. *)
Definition update_players (m : Z) : prog := locked (objects_mutex_ m) (reads (local_players_ m)).
Definition update_monsters (m : Z) (objects : list (Z * motion)) : prog :=
  locked (objects_mutex_ m)
    (reads (local_monsters_ m) ++ concat ((λ '(e, o), update_object_position m e o) <$> objects)).
(** Nothing fills [local_npcs_]. *)
Definition update_npcs (m : Z) : prog := locked (objects_mutex_ m) (reads (local_npcs_ m)).
Definition update_items (m : Z) : prog := locked (objects_mutex_ m) (reads (local_items_ m)).

Definition next_rand : prog := modifies seed ++ reads seed.
Definition spawn_one (m : Z) : prog :=
  create_entity ++ next_rand ++ next_rand ++
  add_component Position ++ add_component Velocity ++ add_component Health ++
  add_component Monster ++ add_component GameObject ++ writes (local_monsters_ m) ++ writes (map_objects m).
(** [None]: it is not time yet.  Else how many, none if the map is full. *)
Definition spawn_monsters (m : Z) (count : option nat) : prog :=
  modifies (spawn_timer_ m) ++ reads (spawn_timer_ m) ++
  match count with
  | None => []
  | Some n => writes (spawn_timer_ m) ++
      locked (objects_mutex_ m) (reads (local_monsters_ m) ++ concat (replicate n (spawn_one m)))
  end.

Record map_frame := mkFrame { monsters : list (Z * motion); spawned : option nat }.
Definition update_map (m : Z) (f : map_frame) : prog :=
  update_players m ++ update_monsters m (monsters f) ++ update_npcs m ++
  update_items m ++ spawn_monsters m (spawned f).

Definition map_iteration (m : Z) (packets : nat) (f : map_frame) : prog :=
  process_packets m packets ++ process_map_tasks m ++ update_map m f.
(** [thread_loop], over the frames it runs. *)
Definition map_thread (m : Z) (frames : list (nat * map_frame)) : prog :=
  locked (map_thread_ m) (concat ((λ '(n, f), map_iteration m n f) <$> frames)).
(** [stop], [join]: wait for the thread. *)
Definition join_map_thread (m : Z) : prog := lock_only (map_thread_ m).

(** ** [MapThreadManager] *)

Definition create_map_thread (exists_already : bool) : prog :=
  locked map_threads_mutex_ (reads map_threads_ ++ when (negb exists_already)
    (create_entity ++ add_component MapComponent ++ add_component MapObjectsComponent ++
     add_component MapBoundsComponent ++ get_component MapComponent ++ get_component MapObjectsComponent ++
     get_component MapBoundsComponent ++ writes map_threads_)).
Definition destroy_map_thread (m : Z) (found : bool) : prog :=
  locked map_threads_mutex_ (reads map_threads_ ++ when found (join_map_thread m ++ writes map_threads_)).
Definition send_packet_to_map (m : Z) (found : bool) : prog :=
  locked map_threads_mutex_ (reads map_threads_ ++ when found (add_packet m)).
Definition manager_update_player_map : prog :=
  locked manager_player_map_mutex_ (writes manager_player_map_mapping_).
Definition manager_get_player_map : prog :=
  locked manager_player_map_mutex_ (reads manager_player_map_mapping_).
Definition add_player_to_map (m : Z) (found : bool) : prog :=
  locked map_threads_mutex_ (reads map_threads_ ++ when found (add_player m ++ manager_update_player_map)).
Definition remove_player_from_map (m : Z) (found : bool) : prog :=
  locked map_threads_mutex_ (reads map_threads_ ++ when found
    (remove_player m ++ locked manager_player_map_mutex_ (writes manager_player_map_mapping_))).
Definition move_player_to_map (from to : Z) (from_found to_found : bool) : prog :=
  locked map_threads_mutex_ (reads map_threads_ ++ when from_found (remove_player from) ++
    when to_found (create_entity ++ add_player to ++ manager_update_player_map)).
(** [is_map_thread_running], [get_map_player_count], [get_active_map_ids] *)
Definition query_map_threads : prog := locked map_threads_mutex_ (reads map_threads_).
Definition stop_all_map_threads (maps : list Z) : prog :=
  locked map_threads_mutex_ (reads map_threads_ ++ concat (join_map_thread <$> maps) ++ writes map_threads_).
Definition update_all_map_threads (frames : list (Z * map_frame)) : prog :=
  locked map_threads_mutex_ (reads map_threads_ ++ concat ((λ '(m, f), update_map m f) <$> frames)).

(** ** [MainThreadManager] *)

Definition add_task : prog := locked task_mutex_ (writes task_queue_).
Definition add_network_task : prog := locked network_mutex_ (writes network_tasks_).
Definition add_global_task : prog := locked global_mutex_ (writes global_tasks_).
(** The task of [handle_global_chat]; those of guilds and friends take no lock. *)
Definition global_chat (maps : list (Z * bool)) : prog :=
  query_map_threads ++ concat ((λ '(m, found), send_packet_to_map m found) <$> maps).
(** Nothing posts network tasks. *)
Definition process_network_events : prog := locked network_mutex_ (reads network_tasks_).
(** The tasks run under the lock. *)
Definition process_global_systems (chats : list (list (Z * bool))) : prog :=
  locked global_mutex_ (writes global_tasks_ ++ concat (global_chat <$> chats)).
(** The transfers, run with the lock given back. *)
Definition process_task_queue (transfers : list (Z * Z * bool * bool)) : prog :=
  concat ((λ '(a, b, fa, fb), locked task_mutex_ (writes task_queue_) ++
    move_player_to_map a b fa fb) <$> transfers) ++
  locked task_mutex_ (reads task_queue_).

Record main_frame := mkMainFrame {
  chats : list (list (Z * bool));
  systems : list system_update;
  transfers : list (Z * Z * bool * bool);
  maps : list (Z * map_frame) }.
Definition main_iteration (f : main_frame) : prog :=
  process_network_events ++ process_global_systems (chats f) ++ update_all (systems f) ++
  process_task_queue (transfers f) ++ update_all_map_threads (maps f).
Definition main_thread (frames : list main_frame) : prog :=
  locked main_thread_ (concat (main_iteration <$> frames)).
Definition stop_main_thread (ms : list Z) : prog := lock_only main_thread_ ++ stop_all_map_threads ms.

(** ** Channels and connections *)

Definition enqueue_send_ (ch : Z) : prog := locked (write_lock_ ch) (writes (write_queue_ ch)).
Definition make_batch_ (ch : Z) : prog := locked (write_lock_ ch) (writes (write_queue_ ch)).
(** [send] of a channel with room; it starts the writer or not. *)
Definition send (ch : Z) (writer : bool) : prog := enqueue_send_ ch ++ when writer (make_batch_ ch).
(** The completion of a write looks at the queue without its lock. *)
Definition write_done (ch : Z) (more : bool) : prog :=
  reads (write_queue_ ch) ++ when more (make_batch_ ch).
(** The completion of a read, without the handlers that it calls. *)
Definition read_done (ch : Z) : prog := modifies (frame_acc_ ch).

Definition get_player_map : prog := locked player_map_mutex_ (reads player_map_mapping_).
Definition update_player_map : prog := locked player_map_mutex_ (writes player_map_mapping_).

(** The handler of [async_accept], with [start] and [on_accept]. *)
Definition accept (ch : Z) (db threads : bool) : prog :=
  locked channel_mutex_ (writes server_channels_) ++ writes (frame_acc_ ch) ++
  locked mtx_ (writes channels_ ++ when db (writes db_strands_) ++ when threads update_player_map).

(** What [on_close] finds: the entity of the player, whether there is something to
    save, a cache, the threads, and an ECS. *)
Record closing := mkClosing {
  entity : option Z; saved : bool; redis : bool; threaded : bool; use_ecs : bool }.
Definition on_close (c : closing) : prog :=
  locked mtx_ (writes channel_to_entity_ ++ writes channels_ ++ writes channel_to_db_id_ ++ writes db_strands_) ++
  match entity c with
  | Some e => when (saved c)
      (get_component Position ++ reads (position e) ++ get_component Player ++ reads (player e) ++
       get_component Health ++ reads (health e))
  | None => []
  end ++
  when (redis c) (locked redis_mtx_ (writes ctx_)) ++
  when (threaded c) (locked player_map_mutex_ (writes player_map_mapping_)) ++
  match entity c with Some _ => when (use_ecs c) destroy_entity | None => [] end.
(** [asio_channel::close]: the server's [on_close], then the close callback. *)
Definition close (c : closing) : prog := on_close c ++ locked channel_mutex_ (writes server_channels_).

(** ** The handlers of [game_server] *)

(** What a send finds: no open channel, one with room, or one that overflows. *)
Inductive delivery := NoChannel | Queued (writer : bool) | Overflows (c : closing).
Definition deliver (ch : Z) (d : delivery) : prog :=
  match d with
  | NoChannel => []
  | Queued writer => send ch writer
  | Overflows c => lock_only (write_lock_ ch) ++ close c
  end.
(** The channel is looked up under the lock, and sent to after it. *)
Definition find_and_send (ch : Z) (d : delivery) : prog := locked mtx_ (reads channels_) ++ deliver ch d.

(** Sends under the lock, to channels with room. *)
Definition send_test_frame (to : option (Z * bool)) : prog :=
  locked mtx_ (reads channels_ ++ match to with Some (ch, writer) => send ch writer | None => [] end).
Definition broadcast (to : list (Z * bool)) : prog :=
  locked mtx_ (reads channels_ ++ concat ((λ '(ch, writer), send ch writer) <$> to)).
Definition route_packet_to_map (m : Z) (found : bool) : prog := get_player_map ++ send_packet_to_map m found.

(** A new player is visible to the others once its components are stored. *)
Definition spawn_player (db : bool) : prog :=
  create_entity ++ add_component Position ++ add_component Velocity ++ add_component Player ++
  add_component Health ++ locked mtx_ (writes channel_to_entity_ ++ when db (writes channel_to_db_id_)).

Inductive login :=
| InvalidToken (d : delivery) | Posted (token : bool) | NoDatabase (token ecs : bool) (d : delivery).
Definition ask_redis : prog := locked redis_mtx_ (writes ctx_).
Definition handle_login (ch : Z) (l : login) : prog :=
  match l with
  | InvalidToken d => ask_redis ++ find_and_send ch d
  | Posted token => when token ask_redis ++ locked mtx_ (reads db_strands_)
  | NoDatabase token ecs d => when token ask_redis ++ when ecs (spawn_player false) ++ find_and_send ch d
  end.
(** The completion: the channel is gone, the database failed, or the player is there. *)
Definition login_done (ch : Z) (answer : option (bool * delivery)) : prog :=
  locked mtx_ (reads channels_) ++
  match answer with None => [] | Some (ecs, d) => when ecs (spawn_player true) ++ find_and_send ch d end.

(** Without the threads: [None] if there is no ECS, [Some None] if the player has no
    entity. *)
Definition handle_move (threads : option (Z * bool)) (ecs : option (option Z)) (others : list (Z * bool))
    (reply : option (Z * bool)) : prog :=
  match threads with
  | Some (m, found) => route_packet_to_map m found
  | None =>
      match ecs with
      | None => []
      | Some e => locked mtx_ (reads channel_to_entity_) ++
          match e with Some e => get_component Position ++ writes (position e) | None => [] end
      end ++ broadcast others ++ send_test_frame reply
  end.
Definition handle_chat (threads : bool) (all : list (Z * bool)) (reply : option (Z * bool)) : prog :=
  if threads then add_global_task else broadcast all ++ send_test_frame reply.
(** [CombatSystem::take_damage], [CombatSystem::get_hp] *)
Definition take_damage (target : Z) : prog := get_component Health ++ modifies (health target).
Definition get_hp (target : Z) : prog := get_component Health ++ reads (health target).
(** Attacker or target unknown, no combat system, or a hit. *)
Inductive attack_outcome :=
| TargetUnknown (reply : option (Z * bool)) | NoCombat
| Hit (target : Z) (dead : bool) (others : list (Z * bool)) (reply : option (Z * bool)).
Definition handle_attack (o : attack_outcome) : prog :=
  locked mtx_ (reads channel_to_entity_) ++
  match o with
  | TargetUnknown reply => send_test_frame reply
  | NoCombat => get_system
  | Hit target dead others reply =>
      get_system ++ take_damage target ++ get_hp target ++ send_test_frame reply ++ broadcast others ++
      when dead (destroy_entity ++ locked mtx_ (writes channel_to_entity_))
  end.
Definition handle_map_enter (found threads changed : bool) (player_entity : option Z)
    (reply : option (Z * bool)) : prog :=
  when found
    (when threads (get_player_map ++ when changed update_player_map) ++
     locked mtx_ (reads channel_to_entity_ ++
       match player_entity with Some e => get_component Player ++ writes (player e) | None => [] end)) ++
  send_test_frame reply.
(** The three guild handlers; leaving no guild sends nothing. *)
Definition handle_guild (reply : option (option (Z * bool))) : prog :=
  locked guild_mutex_ (writes channel_to_guild_ ++ writes guilds_ ++ writes next_guild_id_ ++
    match reply with Some to => send_test_frame to | None => [] end).

(** The players of [channel_to_db_id_], [None] for those that are skipped. *)
Definition flush_players (players : list (option Z)) : prog :=
  locked mtx_ (reads channel_to_db_id_ ++ concat ((λ p, reads channel_to_entity_ ++ reads db_strands_ ++
    match p with
    | Some e => get_component Position ++ reads (position e) ++ get_component Player ++ reads (player e)
    | None => []
    end) <$> players)).
(** The threads are joined and destroyed, then the database threads are joined. *)
Definition stop (ms : option (list Z)) (databases : list nat) (db with_redis : bool) : prog :=
  match ms with Some ms => stop_main_thread ms ++ stop_all_map_threads [] | None => [] end ++
  concat (lock_only ∘ database_thread_ <$> databases) ++
  when db (locked pool_mtx_ (writes free_indices_)) ++ when with_redis ask_redis ++
  locked mtx_ (writes channels_).

(** ** The database threads *)

(** One attempt of a DAO function: a connection is taken and given back, unless
    none is free in time. *)
Definition attempt (got : bool) : prog :=
  locked pool_mtx_ (writes free_indices_) ++ when got (locked pool_mtx_ (writes free_indices_)).
(** [FailureSink::record] *)
Definition record_failure : prog :=
  reads file_ ++ modifies gmtime_buffer ++ locked sink_mtx_ (writes file_).

Definition login_job (with_redis found : bool) (attempts : list bool) : prog :=
  when with_redis ask_redis ++ concat (attempt <$> attempts) ++ when (with_redis && found) ask_redis.
Definition save_job (attempts : list bool) (failed : bool) : prog :=
  concat (attempt <$> attempts) ++ when failed record_failure.
Inductive job :=
| LoginJob (with_redis found : bool) (attempts : list bool)
| SaveJob (attempts : list bool) (failed : bool).
Definition run_job (j : job) : prog :=
  match j with
  | LoginJob with_redis found attempts => login_job with_redis found attempts
  | SaveJob attempts failed => save_job attempts failed
  end.

(** ** The threads of the process *)

(** What the thread of the [io_context] runs. *)
Inductive op :=
| Accept (ch : Z) (db threads : bool) | Close (c : closing) | ReadDone (ch : Z)
| Reply (ch : Z) (d : delivery) | WriteDone (ch : Z) (more : bool) | Ping (ch : Z) (d : delivery)
| Login (ch : Z) (l : login) | LoginDone (ch : Z) (answer : option (bool * delivery))
| Move (threads : option (Z * bool)) (ecs : option (option Z)) (others : list (Z * bool)) (reply : option (Z * bool))
| Chat (threads : bool) (all : list (Z * bool)) (reply : option (Z * bool))
| Attack (o : attack_outcome)
| MapEnter (found threads changed : bool) (player_entity : option Z) (reply : option (Z * bool))
| Guild (reply : option (option (Z * bool)))
| Flush (players : list (option Z)) | Start (maps : list bool)
| Stop (ms : option (list Z)) (databases : list nat) (db with_redis : bool)
(* members of the server and the managers that nothing calls yet *)
| Tick (us : list system_update) | Transfer | AddToMap (m : Z) (found : bool) | RemoveFromMap (m : Z) (found : bool)
| DestroyMap (m : Z) (found : bool).

Definition skeleton (o : op) : prog :=
  match o with
  | Accept ch db threads => accept ch db threads
  | Close c => close c
  | ReadDone ch => read_done ch
  | Reply ch d => find_and_send ch d
  | WriteDone ch more => write_done ch more
  | Ping ch d => deliver ch d
  | Login ch l => handle_login ch l
  | LoginDone ch answer => login_done ch answer
  | Move threads ecs others reply => handle_move threads ecs others reply
  | Chat threads all reply => handle_chat threads all reply
  | Attack o => handle_attack o
  | MapEnter found threads changed e reply => handle_map_enter found threads changed e reply
  | Guild reply => handle_guild reply
  | Flush players => flush_players players
  | Start maps => concat (create_map_thread <$> maps)
  | Stop ms databases db with_redis => stop ms databases db with_redis
  | Tick us => update_all us
  | Transfer => add_task
  | AddToMap m found => add_player_to_map m found
  | RemoveFromMap m found => remove_player_from_map m found
  | DestroyMap m found => destroy_map_thread m found
  end.

Inductive server_thread :=
| Network (ops : list op)
| Database (i : nat) (jobs : list job)
| MainThread (frames : list main_frame)
| MapThread (m : Z) (frames : list (nat * map_frame)).

Definition program (t : server_thread) : prog :=
  match t with
  | Network ops => locked io_thread_ (concat (skeleton <$> ops))
  | Database i jobs => locked (database_thread_ i) (concat (run_job <$> jobs))
  | MainThread frames => main_thread frames
  | MapThread m frames => map_thread m frames
  end.

Definition state : Type := list (thread (L := lock) (X := location)).
Definition launch (ts : list server_thread) : state := (λ t, ([], program t)) <$> ts.

(** ** Every function keeps the order and the protection *)

Abbreviation safe := (safe rank policy).
Abbreviation well_ordered := (well_ordered rank policy).

Lemma safe_map {A} r need (f : A → prog) l : (∀ x, safe r need (f x)) → safe r need (concat (f <$> l)).
Proof. intros Hf. apply safe_concat, Forall_fmap, Forall_true. exact Hf. Qed.
Lemma safe_replicate r need n p : safe r need p → safe r need (concat (replicate n p)).
Proof. intros Hp. by apply safe_concat, Forall_replicate. Qed.
Lemma safe_when r need b p : safe r need p → safe r need (when b p).
Proof. intros Hp. destruct b; [done|apply safe_nil]. Qed.

Create HintDb safe discriminated.
#[local] Hint Constants Opaque : safe.

Local Ltac held := solve [repeat first [assumption | apply list_elem_of_here | apply list_elem_of_further]].
Local Ltac use_allowed :=
  apply safe_use; cbv beta iota delta [allowed policy]; first [exact I | reflexivity | held].
#[local] Hint Extern 1 (_ ≤ _) => cbn [rank]; lia : safe.
#[local] Hint Extern 1 (_ ∈ _) => held : safe.

Local Ltac solve_safe :=
  repeat first
    [ progress intros
    | solve [eauto with safe nocore]
    | match goal with
      | |- safe _ _ [] => apply safe_nil
      | |- safe _ _ (_ ++ _) => apply safe_app
      | |- safe _ _ (reads _) => use_allowed
      | |- safe _ _ (writes _) => use_allowed
      | |- safe _ _ (when _ _) => apply safe_when
      | |- safe _ _ (modifies _) => unfold modifies
      | |- safe _ _ (lock_only _) => apply safe_locked; [cbn [rank]; lia|apply safe_nil]
      | |- safe _ _ (locked _ _) => apply safe_locked; [cbn [rank]; lia|cbn [rank]]
      | |- safe _ _ (concat (replicate _ _)) => apply safe_replicate
      | |- safe _ _ (concat (fmap _ _)) => apply safe_map
      end
    | case_match ].

(** The functions by the lowest lock they take, and what must be held. *)
Lemma safe_get_component r need T : r ≤ 17 → safe r need (get_component T).
Proof. intros. unfold get_component, get_store. solve_safe. Qed.
Lemma safe_get_components r need T : r ≤ 17 → safe r need (get_components T).
Proof. intros. unfold get_components, get_store. solve_safe. Qed.
Lemma safe_add_component r need T : r ≤ 17 → safe r need (add_component T).
Proof. intros. unfold add_component, get_store. solve_safe. Qed.
Lemma safe_create_entity r need : r ≤ 19 → safe r need create_entity.
Proof. intros. unfold create_entity. solve_safe. Qed.
Lemma safe_destroy_entity r need : r ≤ 17 → safe r need destroy_entity.
Proof. intros. unfold destroy_entity. solve_safe. Qed.
Lemma safe_get_system r need : r ≤ 16 → safe r need get_system.
Proof. intros. unfold get_system. solve_safe. Qed.
#[local] Hint Resolve safe_get_component safe_get_components safe_add_component safe_create_entity
  safe_destroy_entity safe_get_system : safe.

Lemma safe_system_updates r need u : r ≤ 17 → systems_mutex_ ∈ need → safe r need (system_updates u).
Proof.
  intros. destruct u; cbn [system_updates];
    unfold update_positions, check_boundaries, handle_collisions, update_ai_state, find_nearest_target,
      attack_target, set_target, update_object_cache, check_map_collisions, get_objects_in_map,
      check_bounds, map_object_in_bounds, map_clamp_object; solve_safe.
Qed.
#[local] Hint Resolve safe_system_updates : safe.
Lemma safe_update_all r need us : r ≤ 16 → safe r need (update_all us).
Proof. intros. unfold update_all. solve_safe. Qed.
#[local] Hint Resolve safe_update_all : safe.

Lemma safe_update_object_position r need m e o : r ≤ 17 → safe r need (update_object_position m e o).
Proof.
  intros. unfold update_object_position, is_object_in_bounds, clamp_object_to_bounds. solve_safe.
Qed.
Lemma safe_spawn_one r need m : r ≤ 17 → objects_mutex_ m ∈ need → safe r need (spawn_one m).
Proof. intros. unfold spawn_one, next_rand. solve_safe. Qed.
#[local] Hint Resolve safe_update_object_position safe_spawn_one : safe.
Lemma safe_update_map r need m f : r ≤ 15 → safe r need (update_map m f).
Proof.
  intros. unfold update_map, update_players, update_items, update_monsters, update_npcs, spawn_monsters.
  solve_safe.
Qed.
#[local] Hint Resolve safe_update_map : safe.
Lemma safe_map_iteration r need m n f : r ≤ 13 → safe r need (map_iteration m n f).
Proof. intros. unfold map_iteration, process_packets, process_map_tasks. solve_safe. Qed.
#[local] Hint Resolve safe_map_iteration : safe.

Lemma safe_add_player r need m : r ≤ 15 → safe r need (add_player m).
Proof. intros. unfold add_player. solve_safe. Qed.
Lemma safe_remove_player r need m : r ≤ 15 → safe r need (remove_player m).
Proof. intros. unfold remove_player. solve_safe. Qed.
Lemma safe_manager_update r need : r ≤ 11 → safe r need manager_update_player_map.
Proof. intros. unfold manager_update_player_map. solve_safe. Qed.
#[local] Hint Resolve safe_add_player safe_remove_player safe_manager_update : safe.
Lemma safe_send_packet r need m found : r ≤ 10 → safe r need (send_packet_to_map m found).
Proof. intros. unfold send_packet_to_map, add_packet. solve_safe. Qed.
Lemma safe_stop_all r need ms : r ≤ 10 → safe r need (stop_all_map_threads ms).
Proof. intros. unfold stop_all_map_threads, join_map_thread. solve_safe. Qed.
#[local] Hint Resolve safe_send_packet safe_stop_all : safe.
Lemma safe_main_iteration r need f : r ≤ 7 → safe r need (main_iteration f).
Proof.
  intros. unfold main_iteration, process_network_events, process_global_systems, global_chat,
    query_map_threads, process_task_queue, move_player_to_map, update_all_map_threads.
  solve_safe.
Qed.
#[local] Hint Resolve safe_main_iteration : safe.

(** What runs on the thread of the [io_context]. *)
Section network.
Context (need : list lock) (Hio : io_thread_ ∈ need).

Lemma safe_send r ch w : r ≤ 4 → safe r need (send ch w).
Proof. intros. unfold send, enqueue_send_, make_batch_. solve_safe. Qed.
Lemma safe_close r c : r ≤ 2 → safe r need (close c).
Proof. intros. unfold close, on_close. solve_safe. Qed.
End network.
#[local] Hint Resolve safe_send safe_close : safe.

Section handlers.
Context (need : list lock) (Hio : io_thread_ ∈ need).

Lemma safe_deliver r ch d : r ≤ 2 → safe r need (deliver ch d).
Proof. intros. unfold deliver. solve_safe. Qed.
Lemma safe_send_test_frame r to : r ≤ 2 → safe r need (send_test_frame to).
Proof. intros. unfold send_test_frame. solve_safe. Qed.
Lemma safe_broadcast r to : r ≤ 2 → safe r need (broadcast to).
Proof. intros. unfold broadcast. solve_safe. Qed.
End handlers.
#[local] Hint Resolve safe_deliver safe_send_test_frame safe_broadcast : safe.

Lemma safe_find_and_send r need ch d : r ≤ 2 → io_thread_ ∈ need → safe r need (find_and_send ch d).
Proof. intros. unfold find_and_send. solve_safe. Qed.
Lemma safe_spawn_player r need db : r ≤ 2 → safe r need (spawn_player db).
Proof. intros. unfold spawn_player. solve_safe. Qed.
#[local] Hint Resolve safe_find_and_send safe_spawn_player : safe.

Lemma safe_skeleton o : safe 1 [io_thread_] (skeleton o).
Proof.
  destruct o; cbn [skeleton]; unfold accept, read_done, write_done, handle_login, login_done, handle_move,
    route_packet_to_map, handle_chat, handle_attack, take_damage, get_hp, handle_map_enter, handle_guild,
    flush_players, create_map_thread, stop, stop_main_thread, add_player_to_map, remove_player_from_map,
    destroy_map_thread;
    unfold ask_redis, update_player_map, get_player_map, make_batch_, add_global_task, add_task, join_map_thread;
    solve_safe; unfold compose; solve_safe.
Qed.
Lemma safe_run_job r need j : r ≤ 21 → safe r need (run_job j).
Proof.
  intros. destruct j; cbn [run_job]; unfold login_job, save_job, ask_redis, attempt, record_failure; solve_safe.
Qed.
#[local] Hint Resolve safe_skeleton safe_run_job : safe.

Lemma launch_ordered ts : well_ordered (launch ts).
Proof.
  apply Forall_fmap, Forall_true. intros t. change (ordered rank policy [] (program t)).
  apply safe_ordered. destruct t; cbn [program]; unfold main_thread, map_thread; solve_safe.
Qed.
Lemma launch_exclusive ts : exclusive (launch ts).
Proof.
  unfold exclusive, launch. replace (concat _) with (@nil lock); [constructor|]. by induction ts.
Qed.

(** ** The properties *)

(** C8: (liveness) No deadlock. Take any threads of the server process, each
    with any sequence of the functions above: events of the [io_context],
    database jobs, frames of the main thread and of the map threads, start-up
    and shut-down with its joins. As long as no send under [mtx_] overflows,
    then however the threads are interleaved, a run of [k] steps is one that can
    be continued until every thread has ended, and it does end, after exactly
    the number of lock operations and memory accesses of all programs; and no
    two threads ever hold the same mutex. *)
Theorem no_deadlock ts k s :
  nsteps step k (launch ts) s →
  exclusive s ∧ (k ≤ work (launch ts))
  ∧ ((∀ s', ¬ step s s') → finished s ∧ k = work (launch ts)).
Proof.
  intros Hr. destruct (runs_finish rank policy k _ _ (launch_ordered ts) Hr) as [Hw Hf].
  split_and!; [|lia|exact Hf]. exact (nsteps_exclusive k _ _ Hr (launch_exclusive ts)).
Qed.

(** A broadcast that overflows the channel [ch]: [send] closes the channel, whose
    [on_close] asks for the mutex that [broadcast] holds. *)
Definition overflowing_broadcast (ch : Z) : prog :=
  locked mtx_ (reads channels_ ++ lock_only (write_lock_ ch) ++ close (mkClosing None false false false false)).

(** It never ends, whatever the other threads do: the thread waits for a mutex that
    it holds itself. *)
Lemma overflowing_broadcast_never_ends ch ts k s :
  nsteps step k (([], overflowing_broadcast ch) :: launch ts) s → ¬ finished s.
Proof.
  intros Hr. eapply (trapped (λ t, t = ([], overflowing_broadcast ch)
    ∨ t = ([mtx_], drop 1 (overflowing_broadcast ch))
    ∨ t = ([mtx_], drop 2 (overflowing_broadcast ch))
    ∨ t = ([write_lock_ ch; mtx_], drop 3 (overflowing_broadcast ch))
    ∨ t = ([mtx_], drop 4 (overflowing_broadcast ch)))); [|exact Hr|by constructor; left].
  split_and!; [by intros [?|[?|[?|[?|?]]]]|..].
  - intros held l q [E|[E|[E|[E|E]]]] Hl; try discriminate E; injection E as -> -> ->; try tauto. set_solver.
  - intros held l q [E|[E|[E|[E|E]]]] Hl; try discriminate E; injection E as -> -> ->.
    rewrite filter_cons_False by (intros ?; done). rewrite filter_cons_True by done. tauto.
  - intros held x w q [E|[E|[E|[E|E]]]]; try discriminate E; injection E as -> -> -> ->. tauto.
Qed.

(** ** Witnesses *)

(** A guild reply, a move routed to map 1 and a shut-down, while the thread of that
    map runs a frame in which a monster is put back into the map, and the main
    thread runs one as well. *)
Definition demo_threads : list server_thread :=
  [Network [Guild (Some (Some (7%Z, true))); Move (Some (1%Z, true)) (Some None) [] None;
     Stop (Some [1%Z]) [0] true false];
   MapThread 1 [(1, mkFrame [(20%Z, Clamped)] (Some 1))];
   MainThread [mkMainFrame [[(1%Z, true)]] [MovementSystem [(20%Z, true)] [] []] []
     [(1%Z, mkFrame [(20%Z, Moved)] None)]];
   Database 0 [SaveJob [true] true]].

(** Round-robin among the threads that can move. *)
Fixpoint round_robin (fuel i : nat) (ts : state) : list nat :=
  match fuel with
  | O => []
  | S fuel =>
      match list_find (λ j, is_Some (step_at j ts)) ((λ j, (i + j) mod 4) <$> seq 0 4) with
      | Some (_, j) => j :: round_robin fuel (S j) (default ts (step_at j ts))
      | None => []
      end
  end.

Lemma no_deadlock_witness :
  ∃ s, exclusive s ∧ finished s ∧ nsteps step (work (launch demo_threads)) (launch demo_threads) s.
Proof.
  destruct (exec (round_robin 400 0 (launch demo_threads)) (launch demo_threads)) as [s|] eqn:E;
    [|vm_compute in E; done].
  assert (bool_decide (Forall (λ t, t = ([], [])) s) && bool_decide (work (launch demo_threads)
    = length (round_robin 400 0 (launch demo_threads))) = true) as Hs.
  { revert E. vm_compute. by intros [= <-]. }
  apply exec_sound in E. pose proof (no_deadlock demo_threads _ s E) as (Hx & _ & _).
  apply andb_true_iff in Hs as [Hf%bool_decide_eq_true Hw%bool_decide_eq_true].
  exists s. split_and!; [exact Hx|exact Hf|]. by rewrite Hw.
Defined.
End lock_order.
