(* ===== verification/Races.v ===== *)
(** * Data races of the server process

    Which of the shared memory of [LockOrder] two threads can use at once: exactly
    what the table [policy] calls unprotected.  For the rest the mutex discipline
    excludes it in every interleaving; for the unprotected ones threads of the
    server are given, from the start of the maps and the logins of the players on,
    and an interleaving that brings two of them to the access. *)

From S2P Require Import Prelude Locks LockOrder.
From stdpp Require Import relations.

Module races.
Import lock_order.
Local Open Scope nat_scope.

(** ** One thread running while the others stand still *)

(** From holding [held] with [p] left to do, a thread can come to hold [held'] with
    [q] left, while the others hold [others]: every lock it takes on the way is
    free, and is given back before those taken earlier. *)
Inductive alone (others : list lock) : list lock → prog → list lock → prog → Prop :=
| alone_here held p : alone others held p held p
| alone_acq held l p held' q :
    l ∉ others → l ∉ held → alone others (l :: held) p held' q → alone others held (Acq l :: p) held' q
| alone_rel held l p held' q :
    l ∉ held → alone others held p held' q → alone others (l :: held) (Rel l :: p) held' q
| alone_use held x w p held' q :
    alone others held p held' q → alone others held (Use x w :: p) held' q.

Lemma filter_released l (held : list lock) : l ∉ held → filter (.≠ l) (l :: held) = held.
Proof.
  intros Hl. rewrite filter_cons_False by (intros ?; done). induction held as [|h held IH]; [done|].
  apply not_elem_of_cons in Hl as [Hh Hl]. rewrite filter_cons_True by done. by rewrite IH.
Qed.

(** The free locks of a state in which the thread in the middle holds [held]. *)
Lemma free_around l (pre post : state) held p :
  l ∉ concat (fst <$> pre ++ post) → l ∉ held → free l (pre ++ (held, p) :: post).
Proof.
  intros Ho Hh. unfold free. apply Forall_forall. intros t Ht Hl. apply elem_of_app in Ht as [Ht|Ht].
  - apply Ho. rewrite fmap_app, concat_app. apply elem_of_app. left.
    apply list_elem_of_In, in_concat. exists t.1. rewrite <- !list_elem_of_In. split; [|done].
    by apply list_elem_of_fmap_2.
  - apply elem_of_cons in Ht as [->|Ht]; [done|]. apply Ho. rewrite fmap_app, concat_app.
    apply elem_of_app. right. apply list_elem_of_In, in_concat. exists t.1. rewrite <- !list_elem_of_In.
    split; [|done]. by apply list_elem_of_fmap_2.
Qed.

Lemma alone_steps pre post held p held' q :
  alone (concat (fst <$> pre ++ post)) held p held' q →
  rtc step (pre ++ (held, p) :: post : state) (pre ++ (held', q) :: post).
Proof.
  induction 1 as [held p|held l p held' q Ho Hh _ IH|held l p held' q Hl _ IH|held x w p held' q _ IH];
    [constructor|eapply rtc_l; [|exact IH]..].
  - apply step_acq. by apply free_around.
  - rewrite <- (filter_released l held Hl) at 2. apply step_rel, list_elem_of_here.
  - apply step_use.
Qed.

Lemma alone_trans others held p held1 p1 held2 p2 :
  alone others held p held1 p1 → alone others held1 p1 held2 p2 → alone others held p held2 p2.
Proof. induction 1; intros Hr; [done|constructor; auto..]. Qed.

(** What a thread can do from beginning to end. *)
Definition runs (others held : list lock) (p : prog) : Prop := ∀ q, alone others held (p ++ q) held q.
Lemma runs_nil others held : runs others held [].
Proof. intros q. apply alone_here. Qed.
Lemma runs_app others held p p' : runs others held p → runs others held p' → runs others held (p ++ p').
Proof. intros Hp Hp' q. rewrite <- app_assoc. eapply alone_trans; [apply Hp|apply Hp']. Qed.
Lemma runs_map {A} others held (f : A → prog) l :
  (∀ x, runs others held (f x)) → runs others held (concat (f <$> l)).
Proof. intros Hf. induction l as [|x l IH]; [apply runs_nil|]. by apply runs_app. Qed.

(** ** Threads with the data that goes with them *)

(** The entities an operation creates: maps, players, monsters. *)
Definition made_by_op (o : op) : nat :=
  match o with
  | Start maps => length (filter (.= false) maps)
  | Login _ (NoDatabase _ true _) | LoginDone _ (Some (true, _)) => 1
  | _ => 0
  end.
Definition made_by (t : server_thread) : nat :=
  match t with
  | Network ops => sum_list_with made_by_op ops
  | Database _ _ => 0
  | MainThread frames => sum_list_with (λ f, sum_list_with (λ '(_, g), default 0 (spawned g)) (maps f)
      + length (filter (λ t, t.2 = true) (transfers f))) frames
  | MapThread _ frames => sum_list_with (λ '(_, g), default 0 (spawned g)) frames
  end.

(** The entities whose components a program uses. *)
Definition entity_of (x : location) : option Z :=
  match x with
  | position e | velocity e | health e | player e | monster e => Some e
  | _ => None
  end.
Definition touched (p : prog) : list Z :=
  omap (λ a, match a with Use x _ => entity_of x | _ => None end) p.

(** The maps whose thread is started, and those the main thread updates. *)
Definition started (t : server_thread) : nat :=
  match t with Network ops => sum_list_with (λ o, match o with Start ms => length ms | _ => 0 end) ops | _ => 0 end.
Definition updated (t : server_thread) : list Z :=
  match t with MainThread frames => frames ≫= λ f, (maps f).*1 | _ => [] end.
Definition map_of (t : server_thread) : option Z := match t with MapThread m _ => Some m | _ => None end.

(** Ids of entities are given out from 1 on, so those in use are at most as many as
    were created; the threads of the maps are those that were started, each map
    with one, and the main thread updates no others. *)
Record grounded (ts : list server_thread) : Prop := mkGrounded
  { g_entities : ∀ t e, t ∈ ts → e ∈ touched (program t) → (1 ≤ e ≤ Z.of_nat (sum_list_with made_by ts))%Z;
    g_maps : NoDup (omap map_of ts);
    g_started : length (omap map_of ts) = sum_list_with started ts;
    g_updated : ∀ t m, t ∈ ts → m ∈ updated t → m ∈ omap map_of ts }.

(** The locations that exist: one of the entities is a map, so the ids of players
    begin at 2. *)
Definition real (x : location) : Prop :=
  match x with
  | position e | velocity e | health e | player e | monster e => (2 ≤ e < 2 ^ 32)%Z
  | spawn_timer_ m | map_objects m => (1 ≤ m < 2 ^ 31)%Z
  | _ => True
  end.

(** ** The threads that race *)

(** Channels and players of a server with one map and the players 2 to [e]; every
    channel connects, asks for its login, and gets the answer of the database. *)
Definition channels (e : Z) : list Z := seqZ 1 (e - 1).
Definition arrive (c : Z) : list op := [Accept c true true; Login c (Posted false)].
Definition enter (c : Z) : op := LoginDone c (Some (true, Queued true)).
Definition session (e : Z) (last : op) : server_thread :=
  Network (Start [false] :: concat (arrive <$> channels e) ++ (enter <$> channels e) ++ [last]).
Definition logins (e : Z) : server_thread := Database 0 ((λ _, LoginJob true true [true]) <$> channels e).
(** The player [e] closes its connection, or is hit. *)
Definition leaves (e : Z) : op := Close (mkClosing (Some e) true true true true).
Definition is_hit (e : Z) : op :=
  Attack (Hit e false ((λ c, (c, true)) <$> channels e) (Some (1%Z, true))).

(** A frame of the main thread with all systems, in some order. *)
Definition players (e : Z) : list Z := e :: seqZ 2 (e - 2).
Fixpoint pairs_of (l : list Z) : list (Z * Z * bool) :=
  match l with [] => [] | a :: l => ((λ b, (a, b, false)) <$> l) ++ pairs_of l end.
Definition movement (ps : list Z) : system_update :=
  MovementSystem ((λ p, (p, true)) <$> ps) ((λ p, (p, false)) <$> ps) (pairs_of ps).
Definition main_runs (us : list system_update) (m : Z) : server_thread :=
  MainThread [mkMainFrame [] us [] [(m, mkFrame [] None)]].
Definition map_runs (m : Z) (spawned : option nat) : server_thread := MapThread m [(0, mkFrame [] spawned)].
Definition save_fails (i : nat) : server_thread := Database i [SaveJob [true; true] true].

(** What the threads of the server can be doing when two race for a location. *)
Definition racing (x : location) : option (list server_thread) :=
  match x with
  | position e => Some [session e (leaves e);
      main_runs [movement (players e); AISystem []; CombatSystem (players e); MapSystem [(1%Z, [])] None] 1;
      logins e; MapThread 1 []]
  | health e => Some [session e (is_hit e);
      main_runs [CombatSystem (players e); movement (players e); AISystem []; MapSystem [(1%Z, [])] None] 1;
      logins e; MapThread 1 []]
  | spawn_timer_ m => Some [Network [Start [false]];
      main_runs [movement []; AISystem []; CombatSystem []; MapSystem [(m, [])] None] m; map_runs m None]
  | map_objects m => Some [Network [Start [false]];
      main_runs [MapSystem [(m, [])] None; movement []; AISystem []; CombatSystem []] m; map_runs m (Some 3)]
  | seed => Some [Network [Start [false; false]]; map_runs 1 (Some 3); map_runs 2 (Some 3)]
  | file_ | gmtime_buffer => Some [save_fails 0; save_fails 1]
  | _ => None
  end.

(** ** They do come together *)

Definition reaches (s : state) (x : location) : Prop := ∃ s', rtc step s s' ∧ race s' x.

Lemma reaches_by i (s : state) x held p held' q :
  s !! i = Some (held, p) → alone (concat (fst <$> delete i s)) held p held' q →
  reaches (<[i := (held', q)]> s) x → reaches s x.
Proof.
  intros Hi Ha (s' & Hs' & Hr). exists s'. split; [|done]. etrans; [|exact Hs'].
  assert (<[i := (held', q)]> s = take i s ++ (held', q) :: drop (S i) s) as ->.
  { apply insert_take_drop. by eapply lookup_lt_Some. }
  rewrite <- (take_drop_middle s i (held, p) Hi) at 1. apply alone_steps.
  by rewrite <- delete_take_drop.
Qed.
Lemma reaches_now i j (s : state) x t u w :
  i ≠ j → s !! i = Some t → s !! j = Some u → next_use t = Some (x, true) → next_use u = Some (x, w) →
  reaches s x.
Proof. intros. exists s. split; [done|]. by exists i, j, t, u, w. Qed.

Local Ltac not_held :=
  let H := fresh in intros H; repeat (apply elem_of_cons in H as [H|H]; [discriminate H|]);
  by apply not_elem_of_nil in H.
Local Ltac runs_alone :=
  lazymatch goal with
  | |- alone _ _ ?p _ _ => let p' := eval vm_compute in p in change p with p'
  end;
  repeat first
    [ apply alone_here
    | apply alone_acq; [not_held|not_held|]
    | apply alone_rel; [not_held|]
    | apply alone_use ].
Local Ltac by_thread := cbn [delete list_delete fmap list_fmap fst concat app]; runs_alone.
(** The thread [i] goes on to an access, or to its end. *)
Local Ltac advance i x w :=
  eapply (reaches_by i _ _ _ _ _ (Use (L := lock) x w :: _)); [reflexivity|by_thread|cbn [insert list_insert]].
Local Ltac finish i :=
  eapply (reaches_by i _ _ _ _ [] []); [reflexivity|by_thread|cbn [insert list_insert]].
Local Ltac meet i j := eapply (reaches_now i j); [done|reflexivity..].

Lemma spawn_timer_races m ts : racing (spawn_timer_ m) = Some ts → reaches (launch ts) (spawn_timer_ m).
Proof.
  intros [= <-]. finish 0. advance 2 (spawn_timer_ m) true. advance 1 (spawn_timer_ m) false.
  meet 2 1.
Qed.
Lemma map_objects_races m ts : racing (map_objects m) = Some ts → reaches (launch ts) (map_objects m).
Proof.
  intros [= <-]. finish 0. advance 2 (map_objects m) true. advance 1 (map_objects m) false.
  meet 2 1.
Qed.
Lemma seed_races ts : racing seed = Some ts → reaches (launch ts) seed.
Proof. intros [= <-]. finish 0. advance 1 seed true. advance 2 seed false. meet 1 2. Qed.
Lemma file_races ts : racing file_ = Some ts → reaches (launch ts) file_.
Proof. intros [= <-]. advance 0 file_ true. advance 1 file_ false. meet 0 1. Qed.
Lemma gmtime_races ts : racing gmtime_buffer = Some ts → reaches (launch ts) gmtime_buffer.
Proof.
  intros [= <-]. advance 0 gmtime_buffer true. advance 1 gmtime_buffer false. meet 0 1.
Qed.

(** The network thread, up to its last operation; the database thread in between. *)
Lemma runs_start : runs [] [io_thread_] (skeleton (Start [false])).
Proof. intros q. runs_alone. Qed.
Lemma runs_arrive c : runs [] [io_thread_] (concat (skeleton <$> arrive c)).
Proof. intros q. runs_alone. Qed.
Lemma runs_enter c : runs [] [io_thread_] (skeleton (enter c)).
Proof. intros q. runs_alone. Qed.
Lemma runs_login_job : runs [io_thread_] [database_thread_ 0] (run_job (LoginJob true true [true])).
Proof. intros q. runs_alone. Qed.

Lemma session_program e last :
  program (session e last) = Acq io_thread_ :: skeleton (Start [false]) ++
    concat ((λ c, concat (skeleton <$> arrive c)) <$> channels e) ++
    concat ((λ c, skeleton (enter c)) <$> channels e) ++ skeleton last ++ [Rel io_thread_].
Proof.
  unfold session, program, locked. f_equal. cbn [fmap list_fmap concat]. rewrite <- app_assoc. f_equal.
  rewrite !fmap_app, !concat_app, <- list_fmap_compose, <- !app_assoc. cbn [fmap list_fmap concat].
  rewrite app_nil_r. f_equal. induction (channels e) as [|c l IH]; [done|].
  cbn [fmap list_fmap concat] in *. by rewrite fmap_app, concat_app, IH.
Qed.
Lemma session_reaches e last main x :
  reaches [([io_thread_], skeleton last ++ [Rel io_thread_]); ([], program main); ([], []);
           ([], program (MapThread 1 []))] x →
  reaches (launch [session e last; main; logins e; MapThread 1 []]) x.
Proof.
  intros Hx. set (rest := concat ((λ c, skeleton (enter c)) <$> channels e) ++ skeleton last ++ [Rel io_thread_]).
  eapply (reaches_by 0 _ _ [] (program (session e last)) [io_thread_] rest); [reflexivity|..].
  { rewrite session_program. apply alone_acq; [not_held..|].
    eapply alone_trans; [apply runs_start|]. apply (runs_map [] [io_thread_]), runs_arrive. }
  eapply (reaches_by 2 _ _ [] (program (logins e)) [] []); [reflexivity|..].
  { unfold logins, program, locked. apply alone_acq; [not_held..|].
    eapply alone_trans; [|apply alone_rel; [not_held|apply alone_here]].
    rewrite <- list_fmap_compose. apply (runs_map [io_thread_] [database_thread_ 0]). intros c. apply runs_login_job. }
  eapply (reaches_by 0 _ _ [io_thread_] rest [io_thread_] _); [reflexivity| |exact Hx].
  apply (runs_map [] [io_thread_]), runs_enter.
Qed.

Lemma position_races e ts : racing (position e) = Some ts → reaches (launch ts) (position e).
Proof.
  intros [= <-]. apply session_reaches. advance 0 (position e) false. advance 1 (position e) true. meet 1 0.
Qed.
Lemma health_races e ts : racing (health e) = Some ts → reaches (launch ts) (health e).
Proof.
  intros [= <-]. apply session_reaches. advance 0 (health e) true. advance 1 (health e) false. meet 0 1.
Qed.

(** ** Their data is what the server has *)

(** A program that uses components of the entities [ps] only. *)
Definition only (ps : list Z) (p : prog) : Prop := Forall (.∈ ps) (touched p).
Lemma only_app ps p q : only ps p → only ps q → only ps (p ++ q).
Proof. intros Hp Hq. unfold only, touched. rewrite omap_app. by apply Forall_app. Qed.
Lemma only_locked ps l p : only ps p → only ps (locked l p).
Proof. intros Hp. apply (only_app ps [Acq l]); [constructor|]. apply only_app; [done|constructor]. Qed.
Lemma only_map {A} ps (f : A → prog) l : (∀ x, x ∈ l → only ps (f x)) → only ps (concat (f <$> l)).
Proof.
  intros Hf. induction l as [|x l IH]; [constructor|]. cbn [fmap list_fmap concat].
  apply only_app; [apply Hf, list_elem_of_here|]. apply IH. intros y Hy. by apply Hf, list_elem_of_further.
Qed.
Lemma only_any ps p : touched p = [] → only ps p.
Proof. unfold only. by intros ->. Qed.
Lemma only_grounded ps n ts :
  Forall (λ p, 1 ≤ p ≤ n)%Z ps → Forall (λ t, only ps (program t)) ts →
  ∀ t e, t ∈ ts → e ∈ touched (program t) → (1 ≤ e ≤ n)%Z.
Proof.
  rewrite !Forall_forall. intros Hps Hts t e Ht He. apply Hps.
  exact (proj1 (Forall_forall _ _) (Hts t Ht) e He).
Qed.

Lemma pairs_of_elem ps a b w : (a, b, w) ∈ pairs_of ps → a ∈ ps ∧ b ∈ ps ∧ w = false.
Proof.
  induction ps as [|p ps IH]; cbn [pairs_of]; [by intros ?%not_elem_of_nil|].
  intros [(c & [= -> -> ->] & Hc)%list_elem_of_fmap|(Ha & Hb & ->)%IH]%elem_of_app;
    rewrite !elem_of_cons; auto.
Qed.
Lemma only_movement ps : only ps (system_updates (movement ps)).
Proof.
  cbn [movement system_updates]. unfold update_positions, check_boundaries, handle_collisions.
  repeat apply only_app; try (by apply only_any); apply only_map.
  - intros [p w] (q & [= -> ->] & Hq)%list_elem_of_fmap. by repeat constructor.
  - intros [p w] (q & [= -> ->] & Hq)%list_elem_of_fmap. by repeat constructor.
  - intros [[a b] w] (Ha & Hb & ->)%pairs_of_elem. by repeat constructor.
Qed.
Lemma only_combat ps : only ps (system_updates (CombatSystem ps)).
Proof.
  cbn [system_updates]. apply only_app; [by apply only_any|]. apply only_map. intros p Hp. by repeat constructor.
Qed.

(** A frame with the players [ps], whatever the order of the systems. *)
Lemma only_main ps us m :
  Forall (λ u, only ps (system_updates u)) us → only ps (program (main_runs us m)).
Proof.
  intros Hus. apply only_locked. cbn [fmap list_fmap concat]. apply only_app; [|constructor].
  unfold main_iteration. cbn [chats systems transfers maps].
  apply only_app; [by apply only_any|]. apply only_app; [by apply only_any|].
  apply only_app; [|apply only_app; by apply only_any].
  apply only_locked, only_app; [constructor|]. apply only_map. by apply Forall_forall.
Qed.
Lemma only_session ps e last : only ps (skeleton last) → only ps (program (session e last)).
Proof.
  intros Hl. rewrite session_program. apply (only_app ps [_]); [constructor|].
  apply only_app; [by apply only_any|]. repeat apply only_app; try done; try constructor;
    apply only_map; intros c _; by apply only_any.
Qed.
Lemma only_logins ps e : only ps (program (logins e)).
Proof. apply only_locked. rewrite <- list_fmap_compose. apply only_map. intros c _. by apply only_any. Qed.

Lemma sum_map {A B} (f : A → nat) (g : B → list A) n l :
  (∀ x, sum_list_with f (g x) = n) → sum_list_with f (concat (g <$> l)) = length l * n.
Proof.
  intros Hg. induction l as [|x l IH]; [done|]. cbn [fmap list_fmap concat].
  by rewrite sum_list_with_app, Hg, IH.
Qed.
Lemma session_made e last : (2 ≤ e)%Z → Z.of_nat (made_by (session e last)) = (e + Z.of_nat (made_by_op last))%Z.
Proof.
  intros He. unfold session, made_by. cbn [sum_list_with]. rewrite !sum_list_with_app.
  rewrite (sum_map _ _ 0) by done.
  assert (sum_list_with made_by_op (enter <$> channels e) = length (channels e)) as ->.
  { induction (channels e) as [|c l IH]; [done|]. cbn. by rewrite IH. }
  unfold channels. rewrite length_seqZ. cbn.
  rewrite decide_True by done. cbn. lia.
Qed.
Lemma session_started e last :
  (match last with Start _ => False | _ => True end) → started (session e last) = 1.
Proof.
  intros Hl. unfold session, started. cbn [sum_list_with]. rewrite !sum_list_with_app.
  rewrite (sum_map _ _ 0) by done.
  assert (∀ l, sum_list_with (λ o, match o with Start ms => length ms | _ => 0 end) (enter <$> l) = 0) as ->.
  { intros l. induction l as [|c l IH]; [done|]. cbn. by rewrite IH. }
  rewrite Nat.mul_0_r. by destruct last.
Qed.

Lemma players_range e : (2 ≤ e)%Z → Forall (λ p, 1 ≤ p ≤ e)%Z (players e).
Proof.
  intros He. apply Forall_cons. split; [lia|]. apply Forall_forall. intros p Hp%elem_of_seqZ. lia.
Qed.

(** The players of a session, with the threads around it. *)
Lemma session_grounded e last us :
  (2 ≤ e)%Z → only (players e) (skeleton last) → made_by_op last = 0 →
  (match last with Start _ => False | _ => True end) →
  Forall (λ u, only (players e) (system_updates u)) us →
  grounded [session e last; main_runs us 1; logins e; MapThread 1 []].
Proof.
  intros He Hl Hm Hs Hus. split.
  - apply (only_grounded (players e)).
    + cbn [sum_list_with]. rewrite !Nat2Z.inj_add, session_made, Hm by done. cbn.
      rewrite !Z.add_0_r. by apply players_range.
    + repeat (apply Forall_cons; split);
        [by apply only_session|by apply only_main|apply only_logins|by apply only_any|constructor].
  - by_decide.
  - cbn [sum_list_with]. by rewrite session_started.
  - intros t m Ht Hm'. repeat (apply elem_of_cons in Ht as [->|Ht]); try by apply not_elem_of_nil in Hm'.
    + exact Hm'.
    + by apply not_elem_of_nil in Ht.
Qed.

(** Threads that use no entity. *)
Lemma idle_grounded ts :
  Forall (λ t, touched (program t) = []) ts → NoDup (omap map_of ts) →
  length (omap map_of ts) = sum_list_with started ts →
  Forall (λ t, Forall (.∈ omap map_of ts) (updated t)) ts → grounded ts.
Proof.
  intros Ht Hn Hs Hu. split; [|done..|].
  - intros t e Hin He. rewrite (proj1 (Forall_forall _ _) Ht t Hin) in He. by apply not_elem_of_nil in He.
  - intros t m Hin Hm. exact (proj1 (Forall_forall _ _) (proj1 (Forall_forall _ _) Hu t Hin) m Hm).
Qed.

Lemma only_leaves e : only (players e) (skeleton (leaves e)).
Proof. assert (e ∈ players e) by apply list_elem_of_here. by repeat constructor. Qed.
Lemma only_is_hit e : only (players e) (skeleton (is_hit e)).
Proof.
  assert (e ∈ players e) by apply list_elem_of_here. cbn [skeleton is_hit handle_attack].
  apply only_app; [by apply only_any|]. apply only_app; [by apply only_any|].
  apply only_app; [by repeat constructor|]. apply only_app; [by repeat constructor|].
  apply only_app; [by apply only_any|]. apply only_app; [|constructor].
  apply only_locked, only_app; [constructor|]. apply only_map. intros [c w] _. destruct w; by apply only_any.
Qed.

Lemma racing_grounded x ts : racing x = Some ts → real x → grounded ts.
Proof.
  intros Hr Hx. destruct x; try discriminate Hr; injection Hr as <-; cbn [real] in Hx.
  - apply idle_grounded; [by rewrite !Forall_cons|apply NoDup_singleton|done|].
    rewrite !Forall_cons. repeat constructor.
  - apply idle_grounded; [by rewrite !Forall_cons|by_decide|done|by_decide].
  - apply session_grounded; [lia|apply only_leaves|done..|]. rewrite !Forall_cons.
    split_and!; [apply only_movement|by apply only_any|apply only_combat|by apply only_any|constructor].
  - apply session_grounded; [lia|apply only_is_hit|done..|]. rewrite !Forall_cons.
    split_and!; [apply only_combat|apply only_movement|by apply only_any|by apply only_any|constructor].
  - apply idle_grounded; [by rewrite !Forall_cons|apply NoDup_singleton|done|].
    rewrite !Forall_cons. repeat constructor.
  - apply idle_grounded; [by rewrite !Forall_cons|by_decide|done|by_decide].
  - apply idle_grounded; [by rewrite !Forall_cons|by_decide|done|by_decide].
Qed.

Lemma racing_races x ts : racing x = Some ts → reaches (launch ts) x.
Proof.
  destruct x; try discriminate; [apply spawn_timer_races|apply seed_races|apply position_races
    |apply health_races|apply map_objects_races|apply file_races|apply gmtime_races].
Qed.
Lemma racing_unprotected x : policy x = Unprotected ↔ is_Some (racing x).
Proof. destruct x; cbn; split; intros Hx; (done || by inversion Hx). Qed.

(** ** The property *)

(** C5: (safety) Data races. Take any threads of the server process, each with
    any sequence of the functions of [LockOrder], in any interleaving: a state
    in which two threads are about to use a location and one of them writes it
    is reached only for the locations that [policy] calls unprotected. So the
    tables of connections, guilds, players and maps, the queues of packets and
    tasks, the sets of objects of a map, the component stores and the list of
    entities, the systems and what they alone use, velocities, the context of
    Redis and the free connections are free of data races. And each of the
    unprotected ones does race, with threads whose data the server can have (the
    entities they use have been created before, and so have the maps): the
    position of a player between the save of its disconnect and the movement
    system, its health between an attack and the combat system, the object list
    and the spawn timer of a map and the seed of the spawner between the threads
    of the maps and the main thread, and the file of the failure sink and the
    buffer of [std::gmtime] between two database threads. *)
Theorem race_iff_unprotected x :
  (∀ ts k s, nsteps step k (launch ts) s → race s x → policy x = Unprotected) ∧
  (policy x = Unprotected → real x →
     ∃ ts k s, grounded ts ∧ nsteps step k (launch ts) s ∧ race s x).
Proof.
  split.
  - intros ts k s Hr Hrace. apply dec_stable. intros Hp. revert Hrace.
    apply (protected_no_race rank policy); [|by eapply nsteps_exclusive, launch_exclusive|done].
    by eapply nsteps_well_ordered, launch_ordered.
  - intros [ts Hts]%racing_unprotected Hx. destruct (racing_races x ts Hts) as (s & [k Hk]%rtc_nsteps & Hr).
    exists ts, k, s. split_and!; [by eapply racing_grounded|done..].
Qed.
End races.
