(* ===== verification/Lifecycle.v ===== *)
(** * Threads from their start to their join
      ([src/server/game/threading/*.cpp], [src/server/game/game_server.cpp])

    The life of the server's threads as [std::thread] objects: starting one over a
    thread that is still joinable, or destroying a joinable one, ends the process
    with [std::terminate]; joining one whose loop has not been told to stop waits
    for ever.  And the chain of flush timers, from [init] to [stop]. *)

From S2P Require Import Prelude.

Module lifecycle.

(** ** One thread *)

(** [running_] is the flag the loop tests; [thread_] says whether the [std::thread]
    is joinable. *)
Record life := mkLife { running_ : bool; thread_ : bool }.
#[global] Instance life_eta : Settable life := λ l, mkLife (running_ l) (thread_ l).
#[global] Instance life_eq : EqDecision life.
Proof. solve_decision. Defined.

Inductive result (A : Type) := Returns (a : A) | Terminates | Hangs.
#[global] Arguments Returns {A} a.
#[global] Arguments Terminates {A}.
#[global] Arguments Hangs {A}.
#[global] Instance result_ret : MRet result := λ A a, Returns a.
#[global] Instance result_bind : MBind result := λ A B f r,
  match r with Returns a => f a | Terminates => Terminates | Hangs => Hangs end.

Definition new_life : life := mkLife false false.

Definition start (l : life) : result life :=
  if running_ l then mret l else
  let l := l <| running_ := true |> in
  if thread_ l then Terminates else mret (l <| thread_ := true |>).

(** [if (thread_.joinable()) thread_.join();] *)
Definition join (l : life) : result life :=
  if thread_ l then (if running_ l then Hangs else mret (l <| thread_ := false |>)) else mret l.

Definition stop (l : life) : result life :=
  if negb (running_ l) then mret l else join (l <| running_ := false |>).

(** The destructor: [stop], and then that of the [std::thread] member. *)
Definition destroy (l : life) : result unit :=
  l ← stop l;
  if thread_ l then Terminates else mret tt.

(** The two flags agree, so neither [start] nor [destroy] can meet a stale thread. *)
Definition settled (l : life) : Prop := thread_ l = running_ l.

Lemma start_settled l : settled l → start l = Returns (mkLife true true).
Proof. destruct l as [[] []]; done. Qed.
Lemma stop_settled l : settled l → stop l = Returns (mkLife false false).
Proof. destruct l as [[] []]; done. Qed.
Lemma destroy_settled l : settled l → destroy l = Returns tt.
Proof. destruct l as [[] []]; done. Qed.

(** *** The other [MapThread] ([src/server/game/systems/threaded_map_system.hpp])

    Its loop runs from the beginning and its thread is started from outside;
    [stop] may be called again, but nothing stops it when it is destroyed. *)
Module threaded_map.
Record map_thread (T : Type) := mkMapThread { m_life : life; task_queue : list T; map_entity : Z }.
#[global] Arguments mkMapThread {T} _ _ _.
#[global] Arguments m_life {T} _.
#[global] Arguments task_queue {T} _.
#[global] Arguments map_entity {T} _.
Definition make {T} (e : Z) : map_thread T := mkMapThread (mkLife true false) [] e.
Definition add_task {T} (task : T) (m : map_thread T) : map_thread T :=
  mkMapThread (m_life m) (task_queue m ++ [task]) (map_entity m).
Definition stop_thread {T} (m : map_thread T) : result (map_thread T) :=
  l ← join ((m_life m) <| running_ := false |>); mret (mkMapThread l (task_queue m) (map_entity m)).
Definition destroy_thread {T} (m : map_thread T) : result unit := if thread_ (m_life m) then Terminates else mret tt.

(** Stopped, any number of times and whatever was posted, it can be destroyed; with
    a thread that was never stopped it cannot. *)
Lemma stop_then_destroy {T} n (m : map_thread T) :
  ∃ m', Nat.iter (S n) (mbind stop_thread) (mret m) = Returns m' ∧ destroy_thread m' = Returns tt ∧ task_queue m' = task_queue m.
Proof.
  induction n as [|n (m1 & E & Hd & Hq)].
  - destruct m as [[r []] q e]; eexists; done.
  - change (Nat.iter (S (S n)) (mbind stop_thread) (mret m)) with (Nat.iter (S n) (mbind stop_thread) (mret m) ≫= stop_thread).
    rewrite E. destruct m1 as [[r []] q e]; [done|]. by eexists.
Qed.
Lemma destroy_running {T} (m : map_thread T) : thread_ (m_life m) = true → destroy_thread m = Terminates.
Proof. intros H. unfold destroy_thread. by rewrite H. Qed.
End threaded_map.

(** ** The map threads of [MapThreadManager] *)

Definition map_lives : Type := gmap Z life.

Definition create_map_thread (map_id : Z) (ms : map_lives) : result map_lives :=
  match ms !! map_id with
  | Some _ => mret ms
  | None => l ← start new_life; mret (<[map_id := l]> ms)
  end.

Definition destroy_map_thread (map_id : Z) (ms : map_lives) : result map_lives :=
  match ms !! map_id with
  | None => mret ms
  | Some l => l ← stop l; l ← join l; _ ← destroy l; mret (delete map_id ms)
  end.

Fixpoint stop_each (ls : list life) : result unit :=
  match ls with
  | [] => mret tt
  | l :: ls => l ← stop l; l ← join l; _ ← destroy l; stop_each ls
  end.
(** The loop, and then [map_threads_.clear()] with the destructors. *)
Definition stop_all_map_threads (ms : map_lives) : result map_lives :=
  _ ← stop_each (map_to_list ms).*2; mret ∅.

(** ** [MainThreadManager] and the server *)

Record main := mkMain { main_life : life; map_threads : map_lives }.

Definition new_main : main := mkMain new_life ∅.

Definition main_start (m : main) : result main :=
  l ← start (main_life m); mret (mkMain l (map_threads m)).

(** An early return leaves the map threads to the destructor of their manager. *)
Definition main_stop (m : main) : result main :=
  if negb (running_ (main_life m)) then mret m else
  l ← stop (main_life m);
  ms ← stop_all_map_threads (map_threads m);
  mret (mkMain l ms).

(** [~MainThreadManager], [~MapThreadManager] and the [std::thread] member. *)
Definition main_destroy (m : main) : result unit :=
  m ← main_stop m;
  _ ← (if thread_ (main_life m) then Terminates else mret tt);
  _ ← stop_all_map_threads (map_threads m);
  mret tt.

(** [game_server]: [main_thread_manager_] is null or there. *)
Definition initialize_threading_system (maps : list Z) (g : option main) : result (option main) :=
  _ ← (match g with Some m => main_destroy m | None => mret tt end);
  m ← main_start new_main;
  ms ← foldl (λ r id, ms ← r; create_map_thread id ms) (mret (map_threads m)) maps;
  mret (Some (mkMain (main_life m) ms)).

Definition shutdown_threading_system (g : option main) : result (option main) :=
  match g with
  | None => mret None
  | Some m => m ← main_stop m; _ ← main_destroy m; mret None
  end.

Inductive op :=
| Initialize (maps : list Z) | Start | CreateMap (id : Z) | DestroyMap (id : Z) | StopMain | Shutdown.

(** An operation of the manager needs a manager. *)
Definition on_main (f : main → result main) (g : option main) : result (option main) :=
  match g with Some m => m ← f m; mret (Some m) | None => mret None end.

Definition step (o : op) (g : option main) : result (option main) :=
  match o with
  | Initialize maps => initialize_threading_system maps g
  | Start => on_main main_start g
  | CreateMap id => on_main (λ m, ms ← create_map_thread id (map_threads m); mret (mkMain (main_life m) ms)) g
  | DestroyMap id => on_main (λ m, ms ← destroy_map_thread id (map_threads m); mret (mkMain (main_life m) ms)) g
  | StopMain => on_main main_stop g
  | Shutdown => shutdown_threading_system g
  end.
Fixpoint run (os : list op) (g : option main) : result (option main) :=
  match os with [] => mret g | o :: os => g ← step o g; run os g end.

(** ** Every thread is joined *)

Definition maps_settled (ms : map_lives) : Prop := map_Forall (λ _, settled) ms.
Definition main_settled (m : main) : Prop := settled (main_life m) ∧ maps_settled (map_threads m).
Definition server_settled (g : option main) : Prop := match g with Some m => main_settled m | None => True end.

Lemma stop_each_settled ls : Forall settled ls → stop_each ls = Returns tt.
Proof.
  induction 1 as [|l ls Hl _ IH]; [done|]. cbn. rewrite (stop_settled l Hl). exact IH.
Qed.
Lemma stop_all_settled ms : maps_settled ms → stop_all_map_threads ms = Returns ∅.
Proof.
  intros Hm. unfold stop_all_map_threads. rewrite stop_each_settled; [done|].
  apply Forall_fmap, Forall_forall. intros [i l] Hi%elem_of_map_to_list. exact (Hm _ _ Hi).
Qed.
Lemma create_settled id ms :
  maps_settled ms → ∃ ms', create_map_thread id ms = Returns ms' ∧ maps_settled ms'.
Proof.
  intros Hm. unfold create_map_thread. destruct (ms !! id) eqn:E; [by exists ms|].
  eexists. split; [done|]. by apply map_Forall_insert_2.
Qed.
Lemma destroy_map_settled id ms :
  maps_settled ms → ∃ ms', destroy_map_thread id ms = Returns ms' ∧ maps_settled ms'.
Proof.
  intros Hm. unfold destroy_map_thread. destruct (ms !! id) as [l|] eqn:E; [|by exists ms].
  rewrite (stop_settled l) by exact (Hm _ _ E). eexists. split; [done|]. by apply map_Forall_delete.
Qed.
Lemma main_stop_settled m : main_settled m → ∃ m', main_stop m = Returns m' ∧ main_settled m'.
Proof.
  intros [Hl Hm]. unfold main_stop. destruct (negb _); [by exists m|].
  rewrite stop_settled by done. cbn. rewrite stop_all_settled by done. eexists. by split.
Qed.
Lemma main_destroy_settled m : main_settled m → main_destroy m = Returns tt.
Proof.
  intros [Hl Hm]. unfold main_destroy, main_stop.
  destruct (running_ (main_life m)) eqn:Hr; cbn.
  - rewrite stop_settled by done. cbn. by rewrite stop_all_settled by done.
  - unfold settled in Hl. rewrite Hl, Hr. cbn. by rewrite stop_all_settled by done.
Qed.
Lemma initialize_settled maps g :
  server_settled g → ∃ g', initialize_threading_system maps g = Returns g' ∧ server_settled g'.
Proof.
  intros Hg. unfold initialize_threading_system.
  assert (match g with Some m => main_destroy m | None => mret tt end = Returns tt) as ->.
  { destruct g; [by apply main_destroy_settled|done]. }
  cbn. assert (∀ ms, maps_settled ms → ∃ ms', maps_settled ms' ∧
    foldl (λ r id, ms ← r; create_map_thread id ms) (Returns ms) maps = Returns ms') as Hf.
  { induction maps as [|id maps IH]; intros ms Hms; [by exists ms|]. cbn.
    destruct (create_settled id ms Hms) as (ms1 & -> & H1). by apply IH. }
  destruct (Hf ∅) as (ms' & Hms' & E); [apply map_Forall_empty|].
  change (mret ∅) with (@Returns map_lives ∅). rewrite E. eexists. split; [done|]. by split.
Qed.

Lemma step_settled o g : server_settled g → ∃ g', step o g = Returns g' ∧ server_settled g'.
Proof.
  intros Hg. destruct o as [maps| |id|id| |]; cbn [step].
  { by apply initialize_settled. }
  all: destruct g as [m|]; [|by eexists]; destruct Hg as [Hl Hm]; cbn.
  - unfold main_start. rewrite start_settled by done. eexists. split; [done|]. by split.
  - destruct (create_settled id _ Hm) as (ms' & -> & ?). eexists. split; [done|]. by split.
  - destruct (destroy_map_settled id _ Hm) as (ms' & -> & ?). eexists. split; [done|]. by split.
  - destruct (main_stop_settled m) as (m' & -> & ?); [by split|]. by eexists.
  - destruct (main_stop_settled m) as (m' & -> & ?); [by split|]. cbn.
    rewrite main_destroy_settled by done. by eexists.
Qed.

Lemma run_settled os g : server_settled g → ∃ g', run os g = Returns g' ∧ server_settled g'.
Proof.
  revert g. induction os as [|o os IH]; intros g Hg; [by exists g|]. cbn.
  destruct (step_settled o g Hg) as (g1 & -> & H1). by apply IH.
Qed.

(** C24: (termination) In whatever order the server creates, starts, stops and
    destroys its thread managers and map threads, no operation waits for a
    thread that was not told to stop, and none starts or destroys a
    [std::thread] that is still joinable, which would end the process; and the
    shut-down returns with every thread joined, also when
    [MainThreadManager::stop] has returned early because the main thread was not
    running. *)
Theorem threads_always_joined os :
  ∃ g, run os None = Returns g ∧ server_settled g ∧ shutdown_threading_system g = Returns None.
Proof.
  destruct (run_settled os None I) as (g & E & Hg). exists g. split_and!; [done|done|].
  destruct g as [m|]; [|done]. cbn. destruct (main_stop_settled m Hg) as (m' & -> & Hm'). cbn.
  by rewrite main_destroy_settled.
Qed.

(** A map thread that is joined without having been stopped is waited for for ever. *)
Lemma bare_join_hangs : (l ← start new_life; join l) = Hangs.
Proof. done. Qed.

(** ** The flush timer *)

Definition kFlushIntervalSec : Z := 30.

(** [None]: no wait outstanding; the time is in seconds. *)
Record flusher := mkFlusher { flush_timer_ : bool; player_dao_ : bool; expires : option Z; flushed : list Z }.
#[global] Instance flusher_eta : Settable flusher := λ f,
  mkFlusher (flush_timer_ f) (player_dao_ f) (expires f) (flushed f).

Definition schedule_flush (now : Z) (f : flusher) : flusher :=
  if negb (flush_timer_ f) || negb (player_dao_ f) then f else f <| expires := Some (now + kFlushIntervalSec) |>.

(** The handler of the wait; [ec]: the timer was cancelled. *)
Definition on_flush_timer (ec : bool) (now : Z) (f : flusher) : flusher :=
  let f := f <| expires := None |> in
  if ec then f else schedule_flush now (f <| flushed ::= λ l, l ++ [now] |>).

(** What [stop] does to the timer and the DAO: a wait that is outstanding completes
    with [operation_aborted]. *)
Definition stop_flush (f : flusher) : flusher :=
  on_flush_timer true 0 f <| flush_timer_ := false |> <| player_dao_ := false |>.

(** The timer fires when it is due, [n] times. *)
Fixpoint fire (n : nat) (f : flusher) : flusher :=
  match n with
  | O => f
  | S n => match expires f with Some t => fire n (on_flush_timer false t f) | None => f end
  end.

(** The flushes come every 30 seconds from the first call on, and after each one the
    next is scheduled. *)
Lemma flush_every_30s n now f :
  flush_timer_ f = true → player_dao_ f = true →
  let f' := fire n (schedule_flush now f) in
  flushed f' = flushed f ++ ((λ k, now + kFlushIntervalSec * Z.of_nat k) <$> seq 1 n)
  ∧ expires f' = Some (now + kFlushIntervalSec * Z.of_nat (S n)).
Proof.
  revert now f. induction n as [|n IH]; intros now [ft pd ex fl]; cbn; intros -> ->; cbn.
  { rewrite app_nil_r. by rewrite Z.mul_1_r. }
  destruct (IH (now + kFlushIntervalSec) (mkFlusher true true None (fl ++ [now + kFlushIntervalSec])))
    as [E1 E2]; [done|done|]. unfold schedule_flush in E1, E2. cbn in E1, E2.
  unfold schedule_flush. cbn. rewrite E1, E2, <- app_assoc. unfold kFlushIntervalSec. split.
  - do 2 f_equal. cbn. rewrite <- (fmap_S_seq 1), <- list_fmap_compose.
    apply list_fmap_ext. intros i k _. cbn. lia.
  - f_equal. lia.
Qed.

(** After [stop] nothing is saved any more, whatever wait was outstanding. *)
Lemma stopped_never_flushes n now f : flushed (fire n (schedule_flush now (stop_flush f))) = flushed f.
Proof. by destruct f as [[] [] ex fl], n. Qed.

End lifecycle.
