(* ===== verification/Service.v ===== *)
(** * Component types, their stores and the game service
      ([src/server/game/components/], [src/server/game/ecs/])

    [ComponentManager] keeps its stores behind a base class, in a map from
    [std::type_index], creates one at its first use and casts it back with an
    unchecked [static_cast].  This file models the erased stores and the casts, and
    shows that they are the typed record of stores [Ecs.v] works with.  On top of it
    come the copies [clone] makes and the rest of [GameService]. *)

From S2P Require Import Prelude Floats Components Ecs.

(** ** The component types *)

(** What [typeid(T)] tells apart. *)
Inductive kind :=
| KPosition | KVelocity | KRotation | KScale | KHealth | KStatus | KGameObject
| KPlayer | KMonster | KNPC | KItem | KMap | KMapObjects | KMapBounds.
#[global] Instance kind_eq : EqDecision kind.
Proof. solve_decision. Defined.
Definition kinds : list kind :=
  [KPosition; KVelocity; KRotation; KScale; KHealth; KStatus; KGameObject; KPlayer; KMonster;
   KNPC; KItem; KMap; KMapObjects; KMapBounds].
Lemma kinds_NoDup : NoDup kinds.
Proof. by apply (bool_decide_unpack _). Qed.
Lemma kinds_all k : k ∈ kinds.
Proof. destruct k; by apply (bool_decide_unpack _). Qed.
#[global] Instance kind_finite : finite.Finite kind :=
  {| finite.enum := kinds; finite.NoDup_enum := kinds_NoDup; finite.elem_of_enum := kinds_all |}.

Lemma size_kinds (s : gset kind) : (size s ≤ 14)%nat.
Proof.
  change 14%nat with (size (list_to_set kinds : gset kind)). apply subseteq_size.
  intros k _. apply elem_of_list_to_set, kinds_all.
Qed.

Definition denote (k : kind) : Type :=
  match k with
  | KPosition => Position | KVelocity => Velocity | KRotation => Rotation | KScale => Scale
  | KHealth => Health | KStatus => Status | KGameObject => GameObject | KPlayer => Player
  | KMonster => Monster | KNPC => NPC | KItem => Item | KMap => MapComponent
  | KMapObjects => MapObjectsComponent | KMapBounds => MapBoundsComponent
  end.

#[global] Instance Rotation_type : ComponentType Rotation.
Proof. refine {| get_store := cm_rotation; set_store f c := c <| cm_rotation ::= f |> |}; [done|by intros []]. Defined.
#[global] Instance Scale_type : ComponentType Scale.
Proof. refine {| get_store := cm_scale; set_store f c := c <| cm_scale ::= f |> |}; [done|by intros []]. Defined.
#[global] Instance Status_type : ComponentType Status.
Proof. refine {| get_store := cm_status; set_store f c := c <| cm_status ::= f |> |}; [done|by intros []]. Defined.

#[global] Instance kind_type (k : kind) : ComponentType (denote k).
Proof. destruct k; apply _. Defined.

(** Writing one store leaves the others alone. *)
Lemma get_set_store_ne k k' f c :
  k ≠ k' → get_store (T := denote k') (set_store (T := denote k) f c) = get_store c.
Proof. destruct k, k'; done. Qed.

(** ** Copies *)

Definition Position_clone (p : Position) : Position := mkPosition (pos_x p) (pos_y p) (pos_z p).
Definition Rotation_clone (r : Rotation) : Rotation := mkRotation (rot_x r) (rot_y r) (rot_z r) (rot_w r).
Definition Scale_clone (s : Scale) : Scale := mkScale (scl_x s) (scl_y s) (scl_z s).
Definition Velocity_clone (v : Velocity) : Velocity := mkVelocity (vel_x v) (vel_y v) (vel_z v).
Definition Status_clone (s : Status) : Status :=
  (Status_.make (st_level s)) <| experience := experience s |> <| gold := gold s |>
    <| is_in_combat := is_in_combat s |> <| is_moving := is_moving s |>.
Definition GameObject_clone (g : GameObject) : GameObject :=
  let obj := GameObject_make (go_type g) (go_name g) (object_id g) in
  mkGameObject (go_type obj) (go_name obj) (object_id obj) (is_active g).
Definition Player_clone (p : Player) : Player :=
  (Player_make (player_name p) (player_id p) (pl_channel_id p) (pl_map_id p))
    <| pl_level := pl_level p |> <| pl_experience := pl_experience p |>.
Definition Monster_clone (m : Monster) : Monster :=
  (Monster_make (monster_type m) (mo_level m))
    <| mo_hp := mo_hp m |> <| mo_max_hp := mo_max_hp m |> <| target_entity := target_entity m |>.
Definition NPC_clone (n : NPC) : NPC :=
  let npc := NPC_make (npc_type n) (npc_name n) in
  mkNPC (npc_type npc) (npc_name npc) (npc_level n) (is_interactable n).
Definition Item_clone (i : Item) : Item :=
  let item := Item_make (item_id i) (item_name i) (item_type i) in
  mkItem (item_id item) (item_name item) (item_type item) (quantity i) (is_pickupable i).
Definition MapComponent_clone (m : MapComponent) : MapComponent :=
  let map := MapComponent_make (map_id m) (map_name m) (width m) (height m) (max_players m) in
  mkMapComponent (map_id map) (map_name map) (width map) (height map) (max_players map) (map_data m).
Definition MapObjects_clone (m : MapObjectsComponent) : MapObjectsComponent :=
  MapObjects_empty <| mo_players := mo_players m |> <| mo_monsters := mo_monsters m |>
    <| mo_npcs := mo_npcs m |> <| mo_items := mo_items m |>.
Definition MapBounds_clone (b : MapBoundsComponent) : MapBoundsComponent :=
  mkMapBounds (min_x b) (min_y b) (min_z b) (max_x b) (max_y b) (max_z b).

(** The virtual function. *)
Definition clone (k : kind) : denote k → denote k :=
  match k with
  | KPosition => Position_clone | KVelocity => Velocity_clone | KRotation => Rotation_clone
  | KScale => Scale_clone | KHealth => Health_.clone | KStatus => Status_clone
  | KGameObject => GameObject_clone | KPlayer => Player_clone | KMonster => Monster_clone
  | KNPC => NPC_clone | KItem => Item_clone | KMap => MapComponent_clone
  | KMapObjects => MapObjects_clone | KMapBounds => MapBounds_clone
  end.

(** A copy has every field of the original: none is left at the constructor's value. *)
Lemma clone_copies k x : clone k x = x.
Proof. by destruct k, x. Qed.

(** ** Type-erased stores *)
Module stores.

(** The results of C++ code that can throw, or cast an object to a class it is not of. *)
Inductive cpp (A : Type) := Ok (a : A) | Throw | Undefined.
#[global] Arguments Ok {A} a.
#[global] Arguments Throw {A}.
#[global] Arguments Undefined {A}.
#[global] Instance cpp_ret : MRet cpp := λ A a, Ok a.
#[global] Instance cpp_bind : MBind cpp := λ A B f r,
  match r with Ok a => f a | Throw => Throw | Undefined => Undefined end.

(** The object behind an [IComponentStore] pointer, with its dynamic type. *)
Definition store : Type := { k : kind & gmap Z (denote k) }.

Definition static_cast (k : kind) (s : store) : cpp (gmap Z (denote k)) :=
  match decide (projT1 s = k) with
  | left e => Ok (eq_rect _ (λ k, gmap Z (denote k)) (projT2 s) _ e)
  | right _ => Undefined
  end.

Lemma static_cast_self k s : static_cast k (existT k s) = Ok s.
Proof.
  unfold static_cast. cbn. destruct (decide (k = k)) as [e|]; [|done].
  by rewrite (proof_irrel e eq_refl).
Qed.

Abbreviation manager := (gmap kind store).

(** The store and the manager it is now part of; what is done to the store through
    the reference is [put_store]. *)
Definition get_store (k : kind) (m : manager) : cpp (gmap Z (denote k) * manager) :=
  match m !! k with
  | None => mret (∅, <[k := existT k ∅]> m)
  | Some s => s ← static_cast k s; mret (s, m)
  end.
Definition put_store (k : kind) (s : gmap Z (denote k)) (m : manager) : manager :=
  <[k := existT k s]> m.

(** The overload for a constant manager cannot create a store. *)
Definition get_store_const (k : kind) (m : manager) : cpp (gmap Z (denote k)) :=
  match m !! k with None => Throw | Some s => static_cast k s end.

Definition add_component (k : kind) (entity : Z) (x : denote k) (m : manager) : cpp manager :=
  '(s, m) ← get_store k m; mret (put_store k (ComponentStore.add entity x s) m).
Definition remove_component (k : kind) (entity : Z) (m : manager) : cpp manager :=
  '(s, m) ← get_store k m; mret (put_store k (ComponentStore.remove entity s) m).
Definition get_component (k : kind) (entity : Z) (m : manager) : cpp (option (denote k) * manager) :=
  '(s, m) ← get_store k m; mret (ComponentStore.get entity s, m).
Definition has_component (k : kind) (entity : Z) (m : manager) : cpp bool :=
  match m !! k with
  | None => mret false
  | Some s => s ← static_cast k s; mret (ComponentStore.has entity s)
  end.

Section stores.
Context `{HashOrder}.

Definition get_entities_with_component (k : kind) (m : manager) : cpp (list Z * manager) :=
  '(s, m) ← get_store k m; mret (ComponentStore.snapshot_entities s, m).
Definition get_components (k : kind) (m : manager) : cpp (list (Z * denote k) * manager) :=
  '(s, m) ← get_store k m; mret (ComponentStore.snapshot s, m).

(** The loops over the stores have empty bodies. *)
Definition remove_all_components (entity : Z) (m : manager) : manager := m.
Definition get_component_count (m : manager) : Z := 0.
Definition get_component_type_count (m : manager) : Z := Z.of_nat (size m).

(** A caller writes through the pointer it got. *)
Definition write_component (k : kind) (f : denote k → denote k) (entity : Z) (m : manager) : cpp manager :=
  '(s, m) ← get_store k m; mret (put_store k (alter f entity s) m).

Inductive op :=
| Add (k : kind) (entity : Z) (x : denote k)
| Remove (k : kind) (entity : Z)
| Write (k : kind) (f : denote k → denote k) (entity : Z)
| Get (k : kind) (entity : Z)
| Has (k : kind) (entity : Z)
| Entities (k : kind)
| Components (k : kind)
| RemoveAll (entity : Z)
| Count.

Inductive answer :=
| Nothing
| Pointer (k : kind) (x : option (denote k))
| Flag (b : bool)
| Ids (l : list Z)
| Pairs (k : kind) (l : list (Z * denote k))
| Number (n : Z).

Definition step (o : op) (m : manager) : cpp (answer * manager) :=
  match o with
  | Add k e x => m ← add_component k e x m; mret (Nothing, m)
  | Remove k e => m ← remove_component k e m; mret (Nothing, m)
  | Write k f e => m ← write_component k f e m; mret (Nothing, m)
  | Get k e => '(x, m) ← get_component k e m; mret (Pointer k x, m)
  | Has k e => b ← has_component k e m; mret (Flag b, m)
  | Entities k => '(l, m) ← get_entities_with_component k m; mret (Ids l, m)
  | Components k => '(l, m) ← get_components k m; mret (Pairs k l, m)
  | RemoveAll e => mret (Nothing, remove_all_components e m)
  | Count => mret (Number (get_component_count m), m)
  end.
Fixpoint run (os : list op) (m : manager) : cpp (list answer * manager) :=
  match os with
  | [] => mret ([], m)
  | o :: os => '(a, m) ← step o m; '(l, m) ← run os m; mret (a :: l, m)
  end.

(** *** The typed stores *)

Definition spec_step (o : op) (c : ComponentManager) : answer * ComponentManager :=
  match o with
  | Add k e x => (Nothing, Ecs.add_component e x c)
  | Remove k e => (Nothing, Ecs.remove_component (T := denote k) e c)
  | Write k f e => (Nothing, Ecs.update_component f e c)
  | Get k e => (Pointer k (Ecs.get_component e c), c)
  | Has k e => (Flag (Ecs.has_component (T := denote k) e c), c)
  | Entities k => (Ids (Ecs.get_entities_with_component (T := denote k) c), c)
  | Components k => (Pairs k (Ecs.get_components c), c)
  | RemoveAll e => (Nothing, Ecs.remove_all_components e c)
  | Count => (Number (Ecs.get_component_count c), c)
  end.
Fixpoint spec_run (os : list op) (c : ComponentManager) : list answer * ComponentManager :=
  match os with
  | [] => ([], c)
  | o :: os => let '(a, c) := spec_step o c in let '(l, c) := spec_run os c in (a :: l, c)
  end.

(** A store that exists holds the components of the type it is filed under, and one
    that was never asked for would be empty. *)
Definition implements (m : manager) (c : ComponentManager) : Prop :=
  ∀ k, match m !! k with
       | Some s => s = existT k (Ecs.get_store c)
       | None => Ecs.get_store (T := denote k) c = ∅
       end.

Lemma implements_empty : implements ∅ no_components.
Proof. intros k. rewrite lookup_empty. by destruct k. Qed.

Lemma get_store_implements k m c :
  implements m c → ∃ m', get_store k m = Ok (Ecs.get_store c, m') ∧ implements m' c
    ∧ dom m' = {[k]} ∪ dom m.
Proof.
  intros Hm. pose proof (Hm k) as Hk. unfold get_store. destruct (m !! k) as [s|] eqn:E.
  - subst s. rewrite static_cast_self. exists m. split_and!; [done|done|].
    apply elem_of_dom_2 in E. set_solver.
  - rewrite Hk. eexists. split_and!; [done| |by rewrite dom_insert_L].
    intros k'. destruct (decide (k = k')) as [<-|Hne].
    + by rewrite lookup_insert_eq, Hk.
    + rewrite lookup_insert_ne by done. apply Hm.
Qed.

Lemma put_store_implements k f m c :
  implements m c → implements (put_store k (f (Ecs.get_store c)) m) (Ecs.set_store f c).
Proof.
  intros Hm k'. unfold put_store. destruct (decide (k = k')) as [<-|Hne].
  - by rewrite lookup_insert_eq, get_set_store.
  - rewrite lookup_insert_ne, get_set_store_ne by done. apply Hm.
Qed.

Lemma has_implements k e m c :
  implements m c → has_component k e m = Ok (Ecs.has_component (T := denote k) e c).
Proof.
  intros Hm. pose proof (Hm k) as Hk. unfold has_component, Ecs.has_component.
  destruct (m !! k) as [s|]; [subst s; by rewrite static_cast_self|]. by rewrite Hk.
Qed.

(** The types an operation asks [get_store] for. *)
Definition touched (o : op) : gset kind :=
  match o with
  | Add k _ _ | Remove k _ | Write k _ _ | Get k _ | Entities k | Components k => {[k]}
  | Has _ _ | RemoveAll _ | Count => ∅
  end.

Lemma step_refines o m c :
  implements m c → ∃ m', step o m = Ok ((spec_step o c).1, m') ∧ implements m' (spec_step o c).2
    ∧ dom m' = touched o ∪ dom m.
Proof.
  intros Hm. destruct o as [k e x|k e|k f e|k e|k e|k|k|e|]; cbn [step spec_step touched fst snd].
  1-3: destruct (get_store_implements k m c Hm) as (m1 & E & H1 & Hd).
  1-3: unfold add_component, remove_component, write_component; rewrite E; eexists; split_and!;
    [reflexivity|by apply put_store_implements|unfold put_store; rewrite dom_insert_L; set_solver].
  2: { rewrite (has_implements k e m c Hm). exists m. split_and!; [done|done|set_solver]. }
  4-5: exists m; split_and!; [done|done|set_solver].
  all: destruct (get_store_implements k m c Hm) as (m1 & E & H1 & Hd).
  all: unfold get_component, get_entities_with_component, get_components; rewrite E; by exists m1.
Qed.

Lemma run_refines os m c :
  implements m c → ∃ m', run os m = Ok ((spec_run os c).1, m') ∧ implements m' (spec_run os c).2
    ∧ dom m' = ⋃ (touched <$> os) ∪ dom m.
Proof.
  revert m c. induction os as [|o os IH]; intros m c Hm.
  { exists m. split_and!; [done|done|set_solver]. }
  cbn [run spec_run]. destruct (step_refines o m c Hm) as (m1 & -> & H1 & Hd1).
  destruct (spec_step o c) as [a c1]. cbn in H1 |- *.
  destruct (IH m1 c1 H1) as (m2 & -> & H2 & Hd2). destruct (spec_run os c1) as [l c2]. cbn in H2 |- *.
  exists m2. split_and!; [done|done|set_solver].
Qed.

(** C26: (refinement) The stores of [ComponentManager], kept behind a base class
    in a map from type indices, created at their first use and cast back without
    a check, answer every sequence of operations (adding, removing, looking up,
    listing and writing through the pointers returned) like a record with one
    typed store per component type: no cast meets a store of another type and
    nothing is thrown; and [get_component_type_count] counts the types that were
    asked for, which are at most the fourteen component types. *)
Theorem erased_stores_refine os :
  ∃ m, run os ∅ = Ok ((spec_run os no_components).1, m) ∧ implements m (spec_run os no_components).2
    ∧ get_component_type_count m = Z.of_nat (size (⋃ (touched <$> os)))
    ∧ get_component_type_count m ≤ 14.
Proof.
  destruct (run_refines os ∅ no_components implements_empty) as (m & E & Hm & Hd).
  rewrite dom_empty_L, (right_id_L ∅ (∪)) in Hd.
  exists m. split_and!; [done|done| |]; unfold get_component_type_count.
  - by rewrite <- Hd, size_dom.
  - rewrite <- size_dom. pose proof (size_kinds (dom m)). lia.
Qed.

Definition demo : list op :=
  [Has KHealth 7; Add KHealth 7 (Health_.make 100 50); Write KHealth (Health_.take_damage 30) 7;
   Get KHealth 7; Get KPlayer 7; RemoveAll 7; Has KHealth 7].

(** The constant overload throws exactly for the types that were never asked for. *)
Lemma const_store_throws k m c :
  implements m c → get_store_const k m = if decide (k ∈ dom m) then Ok (Ecs.get_store c) else Throw.
Proof.
  intros Hm. pose proof (Hm k) as Hk. unfold get_store_const. destruct (m !! k) as [s|] eqn:E.
  - rewrite decide_True by by apply elem_of_dom_2 in E. subst s. apply static_cast_self.
  - by rewrite decide_False by by apply not_elem_of_dom.
Qed.

End stores.

Lemma erased_stores_refine_witness :
  (∃ m, run (H := key_order) demo ∅ = Ok ((spec_run (H := key_order) demo no_components).1, m)
    ∧ implements m (spec_run (H := key_order) demo no_components).2
    ∧ get_component_type_count m = Z.of_nat (size (⋃ (touched <$> demo)))
    ∧ get_component_type_count m ≤ 14)
  ∧ (spec_run (H := key_order) demo no_components).1
    = [Flag false; Nothing; Nothing; Pointer KHealth (Some (mkHealth 70 100 50 50 true));
       Pointer KPlayer None; Nothing; Flag true]
  ∧ size (⋃ (touched <$> demo)) = 2%nat.
Proof. split_and!; [exact (erased_stores_refine (H := key_order) demo)|by vm_compute|by vm_compute]. Defined.

End stores.

(** ** The systems' own set-up *)
Module systems.
Section systems.
Context `{HashOrder} `{StdSort}.
(** The virtual [initialize] or [shutdown] of each system type. *)
Context {W : Type} (virtual : Z → W → W).

Definition call_all (m : SystemManager.t) (w : W) : W :=
  foldl (λ w i, virtual i w) w (hash_order (SystemManager.systems_ m)).*1.
Definition initialize_all : SystemManager.t → W → W := call_all.
Definition shutdown_all : SystemManager.t → W → W := call_all.

Definition get_system_names (name : Z → list Z) (m : SystemManager.t) : list (list Z) :=
  name <$> (hash_order (SystemManager.systems_ m)).*1.

Lemma names_length name m :
  zlen (get_system_names name m) = SystemManager.get_system_count m.
Proof.
  unfold zlen, get_system_names, SystemManager.get_system_count.
  rewrite !length_fmap, hash_order_perm. by rewrite length_map_to_list.
Qed.
End systems.

(** Each registered system is initialised once, and so it is shut down. *)
Lemma call_all_once `{HashOrder} m :
  call_all (λ i l, l ++ [i]) m [] ≡ₚ (map_to_list (SystemManager.systems_ m)).*1.
Proof.
  unfold call_all. rewrite <- hash_order_perm. apply reflexive_eq.
  assert (∀ l acc : list Z, foldl (λ w i, w ++ [i]) acc l = acc ++ l) as Hf by
    (induction l as [|i l IH]; intros acc; cbn; [by rewrite app_nil_r|by rewrite IH, <- app_assoc]).
  apply Hf.
Qed.
End systems.

(** ** [ComponentPool]: the pool under the names of the components *)
Module ComponentPool.
Section pool.
Context {T : Type} (T_default : T).
Definition make (initial_size : Z) : MemoryPool.t (T := T) := MemoryPool.make T_default initial_size.
Definition create : MemoryPool.t → option (T * MemoryPool.t) := MemoryPool.acquire T_default.
Definition destroy (component : option T) : MemoryPool.t → MemoryPool.t := MemoryPool.release T_default component.
Definition get_free_count : MemoryPool.t (T := T) → Z := MemoryPool.get_free_count.
Definition get_total_count : MemoryPool.t (T := T) → Z := MemoryPool.get_total_count.
End pool.
End ComponentPool.

(** ** [GameService] *)
Module service.
Import Ecs.GameService.

Section service.
Context `{HashOrder} `{StdSort} (system_update : Z → f32 → world → world).

(** [None]: a null manager is dereferenced. *)
Definition with_components {A} (f : ComponentManager → A * ComponentManager) (g : t) : option (A * t) :=
  c ← component_manager_ g;
  let '(a, c) := f c in Some (a, g <| component_manager_ := Some c |>).

Definition add_component (k : kind) (entity : Z) (x : denote k) : t → option (unit * t) :=
  with_components (λ c, (tt, Ecs.add_component entity x c)).
Definition remove_component (k : kind) (entity : Z) : t → option (unit * t) :=
  with_components (λ c, (tt, Ecs.remove_component (T := denote k) entity c)).
Definition get_component (k : kind) (entity : Z) : t → option (option (denote k) * t) :=
  with_components (λ c, (Ecs.get_component entity c, c)).
Definition has_component (k : kind) (entity : Z) : t → option (bool * t) :=
  with_components (λ c, (Ecs.has_component (T := denote k) entity c, c)).
Definition get_components (k : kind) : t → option (list (Z * denote k) * t) :=
  with_components (λ c, (Ecs.get_components c, c)).

Definition register_system (type_id : Z) (g : t) : option t :=
  m ← system_manager_ g; Some (g <| system_manager_ := Some (SystemManager.register_system type_id m) |>).
Definition get_system (type_id : Z) (g : t) : option (option SystemManager.System) :=
  SystemManager.get_system type_id <$> system_manager_ g.

Definition get_entity_count (g : t) : option Z := EntityManager.get_entity_count <$> entity_manager_ g.
Definition get_component_count (g : t) : option Z :=
  (λ c, u32 (Ecs.get_component_count c)) <$> component_manager_ g.
Definition get_system_count (g : t) : option Z :=
  (λ m, u32 (SystemManager.get_system_count m)) <$> system_manager_ g.

Definition shutdown_managers (g : t) : t :=
  g <| system_manager_ := None |> <| component_manager_ := None |> <| entity_manager_ := None |>.

Inductive op :=
| Initialize | Shutdown | Update (delta_time : f32)
| CreateEntity | DestroyEntity (entity : Z) | IsValid (entity : Z)
| AddComponent (k : kind) (entity : Z) (x : denote k) | RemoveComponent (k : kind) (entity : Z)
| GetComponent (k : kind) (entity : Z) | HasComponent (k : kind) (entity : Z) | GetComponents (k : kind)
| RegisterSystem (type_id : Z) | GetSystem (type_id : Z)
| EntityCount | ComponentCount | SystemCount.

Definition step (o : op) (g : t) : option t :=
  match o with
  | Initialize => Some (initialize g).2
  | Shutdown => Some (shutdown g)
  | Update dt => update system_update dt g
  | CreateEntity => snd <$> create_entity g
  | DestroyEntity e => destroy_entity e g
  | IsValid e => _ ← is_valid e g; Some g
  | AddComponent k e x => snd <$> add_component k e x g
  | RemoveComponent k e => snd <$> remove_component k e g
  | GetComponent k e => snd <$> get_component k e g
  | HasComponent k e => snd <$> has_component k e g
  | GetComponents k => snd <$> get_components k g
  | RegisterSystem i => register_system i g
  | GetSystem i => _ ← get_system i g; Some g
  | EntityCount => _ ← get_entity_count g; Some g
  | ComponentCount => _ ← get_component_count g; Some g
  | SystemCount => _ ← get_system_count g; Some g
  end.
Definition run (os : list op) (g : t) : option t := foldl (λ g o, g ← g; step o g) (Some g) os.

(** The order the service asks of its callers: [initialize] first, nothing but it
    (or the guarded [shutdown] and [update]) after a [shutdown]. *)
Definition allowed (up : bool) (o : op) : bool :=
  match o with Initialize | Shutdown | Update _ => true | _ => up end.
Definition after (up : bool) (o : op) : bool :=
  match o with Initialize => true | Shutdown => false | _ => up end.
Fixpoint in_order (up : bool) (os : list op) : bool :=
  match os with [] => true | o :: os => allowed up o && in_order (after up o) os end.

Definition builtin : list Z := [MovementSystem_id; AISystem_id; CombatSystem_id; MapSystem_id].

(** Up: the three managers are there and the built-in systems are registered, each
    once in the update order.  Down: there is no manager. *)
Definition ok (up : bool) (g : t) : Prop :=
  initialized_ g = up ∧
  if up then
    is_Some (entity_manager_ g) ∧ is_Some (component_manager_ g) ∧
    ∃ m, system_manager_ g = Some m ∧ SystemManager.ok m ∧ Forall (λ i, is_Some (SystemManager.systems_ m !! i)) builtin
  else entity_manager_ g = None ∧ component_manager_ g = None ∧ system_manager_ g = None.

Lemma register_keeps i j m :
  is_Some (SystemManager.systems_ m !! j) → is_Some (SystemManager.systems_ (SystemManager.register_system i m) !! j).
Proof.
  unfold SystemManager.register_system. destruct (SystemManager.systems_ m !! i) eqn:E; [done|]. cbn.
  destruct (decide (i = j)) as [->|]; [by rewrite lookup_insert_eq|by rewrite lookup_insert_ne].
Qed.
Lemma register_there i m : is_Some (SystemManager.systems_ (SystemManager.register_system i m) !! i).
Proof.
  unfold SystemManager.register_system. destruct (SystemManager.systems_ m !! i) eqn:E; [by eexists|]. cbn.
  by rewrite lookup_insert_eq.
Qed.
Lemma initialize_ok up g : ok up g → ok true (initialize g).2.
Proof.
  intros Hg. unfold initialize. destruct (initialized_ g) eqn:E; [destruct up; [done|by rewrite (proj1 Hg) in E]|].
  split; [done|]. split_and!; [by eexists|by eexists|]. eexists. split_and!; [reflexivity| |].
  - apply (SystemManager.step_ok (SystemManager.Register _)), (SystemManager.step_ok (SystemManager.Register _)),
      (SystemManager.step_ok (SystemManager.Register _)).
    unfold SystemManager.register_system. cbn. apply SystemManager.rebuild_ok.
  - repeat constructor; eauto using register_keeps, register_there.
Qed.

Lemma service_step_ok up o g : ok up g → allowed up o = true → ∃ g', step o g = Some g' ∧ ok (after up o) g'.
Proof.
  intros Hg Ha. destruct o; cbn [step after].
  1: { eexists. split; [done|]. by eapply initialize_ok. }
  1: { eexists. split; [done|]. unfold shutdown. destruct up, Hg as [E Hg]; rewrite E; by split. }
  all: destruct up; [|try done]; destruct Hg as [E Hg].
  2: { unfold update. rewrite E. by eexists. }
  all: destruct g as [em cm sm i], Hg as ([e He] & [c Hc] & m & Hm & Hok & Hb); cbn in *; subst.
  all: try (eexists; split; [reflexivity|]; split; [done|]; split_and!; [by eexists|by eexists|by eexists]).
  eexists. split; [reflexivity|]. split; [done|]. split_and!; [by eexists|by eexists|].
  eexists. split_and!; [reflexivity|by apply (SystemManager.step_ok (SystemManager.Register _))|].
  eapply Forall_impl; [exact Hb|]. intros j. apply register_keeps.
Qed.
Lemma step_down o g : ok false g → allowed false o = false → step o g = None.
Proof. by destruct g, o; intros (? & ? & ? & ?); cbn in *; subst. Qed.

Lemma service_run_cons o os g : run (o :: os) g = (g ← step o g; run os g).
Proof.
  unfold run. cbn. destruct (step o g); cbn; [done|]. induction os; by cbn.
Qed.
Lemma run_iff os up g : ok up g → is_Some (run os g) ↔ in_order up os = true.
Proof.
  revert up g. induction os as [|o os IH]; intros up g Hg; [by split; [|eexists]|].
  rewrite service_run_cons. cbn. destruct (allowed up o) eqn:Ha; cbn.
  - destruct (service_step_ok up o g Hg Ha) as (g' & -> & Hg'). cbn. by apply IH.
  - destruct up; [by destruct o|]. rewrite (step_down o g Hg Ha). cbn. split; [by intros []|done].
Qed.
Lemma run_keeps os up g g' : ok up g → run os g = Some g' → ∃ up', ok up' g'.
Proof.
  revert up g. induction os as [|o os IH]; intros up g Hg.
  { intros [= <-]. by exists up. }
  rewrite service_run_cons. destruct (allowed up o) eqn:Ha.
  - destruct (service_step_ok up o g Hg Ha) as (g1 & -> & Hg1). cbn. by apply IH with (after up o).
  - destruct up; [by destruct o|]. by rewrite (step_down o g Hg Ha).
Qed.

(** C35: (safety) The service dereferences no null manager exactly when its
    callers keep to one order: [initialize] before anything that needs a
    manager, and again after a [shutdown]; [update] and [shutdown] are guarded
    and may come at any time. As long as they keep to it, the managers exist if
    and only if [is_initialized] says so, and while they do, the four built-in
    systems are registered and the update order lists every system once, by
    priority. *)
Theorem service_order os :
  (is_Some (run os make) ↔ in_order false os = true)
  ∧ (∀ g, run os make = Some g → ok (initialized_ g) g).
Proof.
  assert (ok false make) as Hmake by by split. split; [by apply run_iff|].
  intros g Hr. destruct (run_keeps os false make g Hmake Hr) as (up & Hg). by rewrite (proj1 Hg).
Qed.

End service.

Lemma service_order_witness :
  let os := [Update f1; Initialize; CreateEntity; AddComponent KHealth 1 (Health_.make 100 50); Shutdown; IsValid 1] in
  ((is_Some (run (H := key_order) (H0 := insertion_sort) (λ _ _ w, w) os make) ↔ in_order false os = true)
   ∧ (∀ g, run (H := key_order) (H0 := insertion_sort) (λ _ _ w, w) os make = Some g → ok (initialized_ g) g))
  ∧ in_order false os = false ∧ in_order false (take 5 os) = true.
Proof.
  intros os. split; [exact (service_order (H := key_order) (H0 := insertion_sort) (λ _ _ w, w) os)|done].
Defined.

End service.
