(* ===== verification/Program.v ===== *)
(** * The programs, from their first call to their exit code
      ([src/server/main.cpp], [src/client/*.cpp], [src/common/core/platform_util.hpp],
      [src/common/timing.hpp])

    The [main] functions with what ends them: a return, or an exception or a
    joinable thread that makes the C++ run-time call [std::terminate].  And the
    arithmetic of the clock and sleep helpers. *)

From S2P Require Import Prelude Floats Text FrameCodec Ecs Threads ServerConfig MemDb DbConnection RedisClient.
From S2P Require Import AsioServer Boot Client.
Import server_config(json, load, load_json, Val, Throws).

(** How a program ends, or that it goes on serving. *)
Inductive outcome (S : Type) := Exit (code : Z) | Terminated | Serving (s : S).
#[global] Arguments Exit {S} code.
#[global] Arguments Terminated {S}.
#[global] Arguments Serving {S} s.

(** ** The server *)
Module server_main.
Section server.
Context {W R : Type} `{MySQL W} `{HiRedis R} `{HashOrder} `{PriorityQueue}.

(** [ServerConfig::load] and [init] are called outside of any [try].  After a start
    the acceptor always has an accept outstanding, so [io.run()] goes on. *)
Definition main (json_parse : list Z → option json) (file : option (list Z))
    (make_address : list Z → option Z) (errs : asio_server.listen_errors) (w : W) (r : R)
    : outcome (boot.booted R) :=
  match load json_parse file with
  | Val cfg =>
      match boot.init make_address errs cfg w r with
      | boot.Up b => Serving b
      | boot.Down => Exit 1
      | boot.Crashed => Terminated
      end
  | _ => Terminated
  end.

End server.
End server_main.

(** ** The demo clients *)

Module game_client_main.

(** The writes that succeed before one throws. *)
Fixpoint written (error : nat → bool) (k : nat) (frames : list (list Z)) : list (list Z) * bool :=
  match frames with
  | [] => ([], true)
  | f :: fs => if error k then ([], false) else let '(l, ok) := written error (S k) fs in (f :: l, ok)
  end.

(** What the client prints about the reply. *)
Inductive report := Received (n : Z) (fields : option (Z * Z * Z * list Z)) | ServerClosed | ReadError.
Inductive reading := Bytes (l : list Z) | Eof | Error.
Definition report_of (r : reading) : report :=
  match r with
  | Bytes l => let l := take 1024 l in Received (zlen l) (game_client.read_response l)
  | Eof => ServerClosed
  | Error => ReadError
  end.

(** Everything is inside of one [try], which owns no thread. *)
Definition main (resolve_error connect_error : bool) (write_error : nat → bool) (reply : reading)
    : outcome False * list (list Z) * option report :=
  if resolve_error || connect_error then (Exit 1, [], None) else
  let '(out, ok) := written write_error 0 game_client.session in
  if ok : bool then (Exit 0, out, Some (report_of reply)) else (Exit 1, out, None).
End game_client_main.

Module simple_client_main.
Import game_client_main.

Definition host (args : list (list Z)) : list Z := default (bytes_of_string "127.0.0.1") (args !! 0%nat).
Definition port (args : list (list Z)) : list Z := default (bytes_of_string "12345") (args !! 1%nat).

(** [recv_thr] is declared inside of the [try]: an exception from a write destroys it
    while it is joinable. *)
Definition main (resolve_error connect_error : bool) (write_error : nat → bool) (chunks : list (list Z))
    : outcome False * list (list Z) * option simple_client.rx :=
  if resolve_error || connect_error then (Exit 1, [], None) else
  let frames := (λ '(c, p), simple_client.send_frame c p) <$> simple_client.session in
  let '(out, ok) := written write_error 0 frames in
  if ok : bool then (Exit 0, out, simple_client.recv_loop chunks simple_client.start)
  else (Terminated, out, None).
End simple_client_main.

(** ** How they end *)
Module programs.
Import game_client_main.

Lemma written_spec error k frames l ok :
  written error k frames = (l, ok) →
  ok = negb (existsb error (seq k (length frames))) ∧ l `prefix_of` frames ∧ (ok = true → l = frames).
Proof.
  revert k l ok. induction frames as [|f fs IH]; intros k l ok; cbn [written length seq existsb].
  { intros [= <- <-]. by split_and!. }
  destruct (error k); cbn; [intros [= <- <-]; split_and!; [done|apply prefix_nil|done]|].
  destruct (written error (S k) fs) as [l' ok'] eqn:E. intros [= <- <-].
  destruct (IH _ _ _ E) as (-> & Hp & Hl). split_and!; [done|by apply prefix_cons|].
  intros Hok. by rewrite Hl.
Qed.

(** How the two demo clients end: both return 1 when they cannot
    connect and 0 when all their writes succeed, having written their whole
    session. When a write fails, the old client returns 1, and the simple
    client, whose handler for exceptions would return 1 too, never gets there:
    unwinding destroys the joinable receive thread, which ends the process. *)
Theorem clients_end re ce we reply chunks :
  let '(e1, out1, _) := main re ce we reply in
  let '(e2, out2, _) := simple_client_main.main re ce we chunks in
  let failed := existsb we (seq 0 4) in
  let frames := (λ '(c, p), simple_client.send_frame c p) <$> simple_client.session in
  e1 = Exit (if re || ce || failed then 1 else 0)
  ∧ e2 = (if re || ce then Exit 1 else if failed then Terminated else Exit 0)
  ∧ out1 `prefix_of` game_client.session ∧ out2 `prefix_of` frames
  ∧ (e1 = Exit 0 → out1 = game_client.session) ∧ (e2 = Exit 0 → out2 = frames).
Proof.
  unfold main, simple_client_main.main. destruct (re || ce) eqn:Hc.
  { cbn [orb]. split_and!; [done|done|apply prefix_nil|apply prefix_nil|done|done]. }
  destruct (written we 0 game_client.session) as [l1 ok1] eqn:E1.
  destruct (written we 0 (_ <$> simple_client.session)) as [l2 ok2] eqn:E2.
  apply written_spec in E1 as (H1 & Hp1 & Hl1), E2 as (H2 & Hp2 & Hl2).
  rewrite length_fmap in H2. change (length game_client.session) with 4%nat in H1.
  change (length simple_client.session) with 4%nat in H2.
  destruct (existsb we (seq 0 4)); cbn in H1, H2; subst; cbn [orb];
    (split_and!; [done|done|exact Hp1|exact Hp2| |]); intros [=]; auto.
Qed.

Section server.
Context {W R : Type} `{MySQL W} `{HiRedis R} `{HashOrder} `{PriorityQueue}.

(** A configuration file that is missing or is not JSON is as good as none: the
    server starts with the defaults.  One whose values have the wrong type ends it. *)
Lemma bad_file_defaults json_parse text make_address errs (w : W) (r : R) :
  json_parse text = None →
  server_main.main json_parse (Some text) make_address errs w r
  = server_main.main json_parse None make_address errs w r.
Proof. intros Hj. unfold server_main.main, load. by rewrite Hj. Qed.

Lemma bad_value_terminates json_parse text j make_address errs (w : W) (r : R) :
  json_parse text = Some j → load_json j = Throws →
  server_main.main json_parse (Some text) make_address errs w r = Terminated.
Proof. intros Hj Hl. unfold server_main.main, load. by rewrite Hj, Hl. Qed.
End server.
End programs.

(** ** Clocks and pauses *)
Module platform.

(** The argument of [usleep] is computed in 32 bits. *)
Definition sleep_ms_us (milliseconds : Z) : Z := u32 (milliseconds * 1000).

(** [gettimeofday]: seconds and microseconds. *)
Definition get_tick_ms (tv_sec tv_usec : Z) : Z := u64 (u64 (u64 tv_sec * 1000) + tv_usec / 1000).

(** [timed_lock_guard]: the wait in microseconds, from clock readings in nanoseconds,
    and whether it is reported. *)
Definition lock_wait_us (t0 t1 : Z) : Z := (t1 - t0) ÷ 1000.
Definition lock_wait_warns (warn_ms t0 t1 : Z) : bool := warn_ms * 1000 <? lock_wait_us t0 t1.

(** A pause of up to 4294967 ms (71 minutes) is as long as asked for; the next one is
    cut to 704 microseconds. *)
Lemma sleep_exact ms : 0 ≤ ms ≤ 4294967 → sleep_ms_us ms = ms * 1000.
Proof. intros. apply u32_small. int_unfold. lia. Qed.
Lemma sleep_wraps : sleep_ms_us 4294968 = 704.
Proof. done. Qed.

(** Later readings of the clock give no smaller tick, and the tick is exact to the
    millisecond, until the seconds exceed 54 bits. *)
Lemma tick_monotone s u s' u' :
  0 ≤ s → s' < 2 ^ 54 → 0 ≤ u < 1000000 → 0 ≤ u' < 1000000 → s * 1000000 + u ≤ s' * 1000000 + u' →
  get_tick_ms s u = (s * 1000000 + u) / 1000 ∧ get_tick_ms s u ≤ get_tick_ms s' u'.
Proof.
  intros. assert (∀ a b, 0 ≤ a < 2 ^ 54 → 0 ≤ b < 1000000 →
    get_tick_ms a b = (a * 1000000 + b) / 1000) as Ht.
  { intros a b Ha Hb. unfold get_tick_ms.
    rewrite (u64_small a), (u64_small (a * 1000)) by (int_unfold; lia).
    assert (0 ≤ b / 1000 < 1000) by (split; [apply Z.div_pos|apply Z.div_lt_upper_bound]; lia).
    rewrite u64_small by (int_unfold; lia). symmetry.
    replace (a * 1000000 + b) with (a * 1000 * 1000 + b) by lia. by rewrite Z.div_add_l by lia. }
  assert (s ≤ s') by lia. rewrite !Ht by lia. split; [done|]. apply Z.div_le_mono; lia.
Qed.

(** The guard reports a wait exactly when it took at least one microsecond more than
    the limit. *)
Lemma lock_wait_warns_iff warn t0 t1 :
  0 ≤ warn → t0 ≤ t1 → lock_wait_warns warn t0 t1 = true ↔ (warn * 1000 + 1) * 1000 ≤ t1 - t0.
Proof.
  intros Hw Ht. unfold lock_wait_warns, lock_wait_us. rewrite Z.ltb_lt, Z.quot_div_nonneg by lia.
  split; intros Hd.
  - pose proof (Z.mul_div_le (t1 - t0) 1000). lia.
  - enough (warn * 1000 + 1 ≤ (t1 - t0) / 1000) by lia. apply Z.div_le_lower_bound; lia.
Qed.
End platform.
